(** * ALFS scheduler core: a shallow embedding and its properties

    The development follows the C sources of the scheduler:
    - [alfs.h]      : constants, the nice-to-weight table, the records;
    - [task.c]      : task creation, affinity and nice;
    - [cgroup.c]    : cgroup creation, modification and quota accounting;
    - [heap.c]      : the indexed binary min-heap of runnable tasks;
    - [scheduler.c] : the event dispatcher and the tick engine;
    - [main.c]      : the per-timeframe loop body.

    Conventions of the embedding.
    - A C [int] is a [Z]; the narrowing conversion of the sources
      ([(int)weight] in [get_effective_task_weight]) and the one
      [long long] product that can leave its range ([elapsed_us] in
      [refresh_cgroup_periods]) are written out with their wrap-around.
    - A C [double] is a primitive binary64 float, with the C operators
      mapped to the IEEE operations of [PrimFloat].
    - A [Task *] is an address ([nat], 0 is [NULL]) into a store of task
      records; the registry, the heap and the CPU slots all hold
      addresses, so that they alias the same records as in C.
    - The cgroup registry is an array of pointers to records that nothing
      else retains between calls; it is a list of records, and a
      [Cgroup *] is the position of the record in that list.
    - Identifiers are [string]s.  All identifiers reach the core through
      the [char[256]] fields of an [Event], so the [strncpy]s of the
      sources never truncate.
    - Allocation never fails. *)

From Stdlib Require Import ZArith Lia PrimFloat Uint63.
From stdpp Require Import gmap strings list.

Open Scope Z_scope.

(** ** alfs.h: constants *)

Definition MAX_TASKS : nat := 1024.
Definition MAX_CGROUPS : nat := 64.
Definition NICE_0_WEIGHT : Z := 1024.
Definition DEFAULT_CPU_SHARES : Z := 1024.
Definition DEFAULT_CPU_PERIOD_US : Z := 100000.
Definition UNLIMITED_QUOTA : Z := -1.
Definition NICE_MIN : Z := -20.
Definition NICE_MAX : Z := 19.
Definition INT_MAX : Z := 2147483647.

Definition sched_prio_to_weight : list Z :=
  [ 88761; 71755; 56483; 46273; 36291;
    29154; 23254; 18705; 14949; 11916;
     9548;  7620;  6100;  4904;  3906;
     3121;  2501;  1991;  1586;  1277;
     1024;   820;   655;   526;   423;
      335;   272;   215;   172;   137;
      110;    87;    70;    56;    45;
       36;    29;    23;    18;    15 ].

(** ** C arithmetic *)

(** [(int)x] for a [long long] x: reduction modulo 2^32 into the signed
    range, as gcc and clang define the conversion. *)
Definition int_of_longlong (x : Z) : Z :=
  (x + 2147483648) mod 4294967296 - 2147483648.

(** A [long long] result that leaves the range of the type: the value
    modulo 2^64 in the signed range, which is what the compiled code
    computes. *)
Definition longlong_wrap (x : Z) : Z :=
  (x + 9223372036854775808) mod 18446744073709551616 - 9223372036854775808.

(** [(double)x] for an [int] x; exact, since |x| < 2^53. *)
Definition double_of_int (x : Z) : float :=
  if x <? 0 then PrimFloat.opp (PrimFloat.of_uint63 (Uint63.of_Z (- x)))
  else PrimFloat.of_uint63 (Uint63.of_Z x).

(** [DBL_MAX] of [float.h]. *)
Definition DBL_MAX : float := 0x1.fffffffffffffp+1023%float.

(** C comparison [a > b] on doubles. *)
Definition dgt (a b : float) : bool := PrimFloat.ltb b a.
Definition dlt (a b : float) : bool := PrimFloat.ltb a b.

(** ** alfs.h: enumerations and records *)

Inductive TaskState :=
| TASK_STATE_RUNNABLE
| TASK_STATE_RUNNING
| TASK_STATE_BLOCKED
| TASK_STATE_EXITED.

Definition TaskState_eqb (a b : TaskState) : bool :=
  match a, b with
  | TASK_STATE_RUNNABLE, TASK_STATE_RUNNABLE
  | TASK_STATE_RUNNING, TASK_STATE_RUNNING
  | TASK_STATE_BLOCKED, TASK_STATE_BLOCKED
  | TASK_STATE_EXITED, TASK_STATE_EXITED => true
  | _, _ => false
  end.

(** [EVENT_INVALID] stands for -1 and for every other value outside the
    twelve action tags: they all reach the [default] branch. *)
Inductive EventAction :=
| EVENT_INVALID
| EVENT_TASK_CREATE
| EVENT_TASK_EXIT
| EVENT_TASK_BLOCK
| EVENT_TASK_UNBLOCK
| EVENT_TASK_YIELD
| EVENT_TASK_SETNICE
| EVENT_TASK_SET_AFFINITY
| EVENT_CGROUP_CREATE
| EVENT_CGROUP_MODIFY
| EVENT_CGROUP_DELETE
| EVENT_TASK_MOVE_CGROUP
| EVENT_CPU_BURST.

(** [cpu_affinity] with [affinity_count] is a list. *)
Record Task := mkTask {
  task_id : string;
  nice : Z;
  vruntime : float;
  weight : Z;
  state : TaskState;
  cgroup_id : string;
  cpu_affinity : list Z;
  current_cpu : Z;
  burst_remaining : Z;
  heap_index : Z;
  is_burst : bool
}.

(** The field [cgroup_id] of a [Cgroup] is [cg_id] here; [cpu_mask] with
    [cpu_mask_count] is a list. *)
Record Cgroup := mkCgroup {
  cg_id : string;
  cpu_shares : Z;
  cpu_quota_us : Z;
  cpu_period_us : Z;
  cpu_mask : list Z;
  quota_used : float;
  period_start_vtime : Z
}.

(** The fields of an [Event] carry the prefix [ev_]. *)
Record Event := mkEvent {
  ev_action : EventAction;
  ev_task_id : string;
  ev_cgroup_id : string;
  ev_new_cgroup_id : string;
  ev_nice : Z;
  ev_cpu_mask : list Z;
  ev_cpu_shares : Z;
  ev_cpu_quota_us : Z;
  ev_cpu_period_us : Z;
  ev_burst_duration : Z;
  ev_has_nice : bool;
  ev_has_cpu_shares : bool;
  ev_has_cpu_quota : bool;
  ev_has_cpu_period : bool;
  ev_has_cpu_mask : bool
}.

Record TimeFrame := mkTimeFrame {
  tf_vtime : Z;
  tf_events : list Event
}.

Record SchedulerMeta := mkMeta {
  meta_preemptions : Z;
  meta_migrations : Z;
  runnable_tasks : list string;
  blocked_tasks : list string
}.

Record SchedulerTick := mkTick {
  tick_vtime : Z;
  schedule : list string;
  meta : SchedulerMeta
}.

(** [cpu_queues] keeps the [current_task] of every CPU ([cpu_id] is the
    position, [min_vruntime] is never read); [cpu_count] is its length.
    [task_mem] is the store of allocated task records and [next_task] the
    next fresh address.  [all_tasks] and [cgroups] carry their counts as
    lengths, and [runnable_heap] is [tasks[0 .. size-1]] of the heap. *)
Record Scheduler := mkSched {
  cpu_queues : list (option nat);
  quanta : Z;
  task_mem : gmap nat Task;
  next_task : nat;
  all_tasks : list nat;
  cgroups : list Cgroup;
  runnable_heap : list nat;
  current_vtime : Z;
  preemptions : Z;
  migrations : Z
}.

Definition cpu_count (s : Scheduler) : nat := length (cpu_queues s).

(** *** Field assignments *)

Definition set_nice_weight (n w : Z) (t : Task) : Task :=
  mkTask (task_id t) n (vruntime t) w (state t) (cgroup_id t)
         (cpu_affinity t) (current_cpu t) (burst_remaining t)
         (heap_index t) (is_burst t).
Definition set_vruntime (v : float) (t : Task) : Task :=
  mkTask (task_id t) (nice t) v (weight t) (state t) (cgroup_id t)
         (cpu_affinity t) (current_cpu t) (burst_remaining t)
         (heap_index t) (is_burst t).
Definition set_state (st : TaskState) (t : Task) : Task :=
  mkTask (task_id t) (nice t) (vruntime t) (weight t) st (cgroup_id t)
         (cpu_affinity t) (current_cpu t) (burst_remaining t)
         (heap_index t) (is_burst t).
Definition set_cgroup_id (c : string) (t : Task) : Task :=
  mkTask (task_id t) (nice t) (vruntime t) (weight t) (state t) c
         (cpu_affinity t) (current_cpu t) (burst_remaining t)
         (heap_index t) (is_burst t).
Definition set_cpu_affinity (a : list Z) (t : Task) : Task :=
  mkTask (task_id t) (nice t) (vruntime t) (weight t) (state t) (cgroup_id t)
         a (current_cpu t) (burst_remaining t) (heap_index t) (is_burst t).
Definition set_current_cpu (c : Z) (t : Task) : Task :=
  mkTask (task_id t) (nice t) (vruntime t) (weight t) (state t) (cgroup_id t)
         (cpu_affinity t) c (burst_remaining t) (heap_index t) (is_burst t).
Definition set_burst (b : bool) (r : Z) (t : Task) : Task :=
  mkTask (task_id t) (nice t) (vruntime t) (weight t) (state t) (cgroup_id t)
         (cpu_affinity t) (current_cpu t) r (heap_index t) b.
Definition set_heap_index (i : Z) (t : Task) : Task :=
  mkTask (task_id t) (nice t) (vruntime t) (weight t) (state t) (cgroup_id t)
         (cpu_affinity t) (current_cpu t) (burst_remaining t) i (is_burst t).

Definition set_quota_used (u : float) (c : Cgroup) : Cgroup :=
  mkCgroup (cg_id c) (cpu_shares c) (cpu_quota_us c) (cpu_period_us c)
           (cpu_mask c) u (period_start_vtime c).
Definition set_period_start (v : Z) (c : Cgroup) : Cgroup :=
  mkCgroup (cg_id c) (cpu_shares c) (cpu_quota_us c) (cpu_period_us c)
           (cpu_mask c) (quota_used c) v.

Definition with_cpu_queues (q : list (option nat)) (s : Scheduler) :=
  mkSched q (quanta s) (task_mem s) (next_task s) (all_tasks s) (cgroups s)
          (runnable_heap s) (current_vtime s) (preemptions s) (migrations s).
Definition with_task_mem (m : gmap nat Task) (s : Scheduler) :=
  mkSched (cpu_queues s) (quanta s) m (next_task s) (all_tasks s) (cgroups s)
          (runnable_heap s) (current_vtime s) (preemptions s) (migrations s).
Definition with_all_tasks (l : list nat) (s : Scheduler) :=
  mkSched (cpu_queues s) (quanta s) (task_mem s) (next_task s) l (cgroups s)
          (runnable_heap s) (current_vtime s) (preemptions s) (migrations s).
Definition with_cgroups (l : list Cgroup) (s : Scheduler) :=
  mkSched (cpu_queues s) (quanta s) (task_mem s) (next_task s) (all_tasks s) l
          (runnable_heap s) (current_vtime s) (preemptions s) (migrations s).
Definition with_heap (h : list nat) (m : gmap nat Task) (s : Scheduler) :=
  mkSched (cpu_queues s) (quanta s) m (next_task s) (all_tasks s) (cgroups s)
          h (current_vtime s) (preemptions s) (migrations s).
Definition with_preemptions (n : Z) (s : Scheduler) :=
  mkSched (cpu_queues s) (quanta s) (task_mem s) (next_task s) (all_tasks s)
          (cgroups s) (runnable_heap s) (current_vtime s) n (migrations s).
Definition with_migrations (n : Z) (s : Scheduler) :=
  mkSched (cpu_queues s) (quanta s) (task_mem s) (next_task s) (all_tasks s)
          (cgroups s) (runnable_heap s) (current_vtime s) (preemptions s) n.

(** The record that a dereference of an address outside the store would
    read; no function of the embedding relies on it in a well-formed
    state. *)
Definition null_task : Task :=
  mkTask "" 0 0%float 0 TASK_STATE_EXITED "" [] (-1) 0 (-1) false.

(** [*p] and [p->field = ...]. *)
Definition deref (m : gmap nat Task) (p : nat) : Task :=
  default null_task (m !! p).
Definition assign (f : Task -> Task) (p : nat) (m : gmap nat Task)
  : gmap nat Task := alter f p m.

(** A record without its heap position. *)
Definition strip (t : Task) : Task := set_heap_index 0 t.

(** ** alfs.h: weights and vruntime *)

Definition clamp_nice (n : Z) : Z :=
  let n := if n <? NICE_MIN then NICE_MIN else n in
  if n >? NICE_MAX then NICE_MAX else n.

Definition nice_to_weight (n : Z) : Z :=
  nth (Z.to_nat (clamp_nice n - NICE_MIN)) sched_prio_to_weight 0.

Definition calc_vruntime_delta (runtime : float) (w : Z) : float :=
  (runtime * (double_of_int NICE_0_WEIGHT / double_of_int w))%float.

(** ** task.c *)

(** [task_create]: the record that [calloc] and the initialisation
    produce; a [NULL] [cgroup_id] is [None]. *)
Definition task_create (id : string) (n : Z) (cg : option string) : Task :=
  let n := clamp_nice n in
  mkTask id n 0%float (nice_to_weight n) TASK_STATE_RUNNABLE
         (match cg with Some c => c | None => "0" end)
         [] (-1) 0 (-1) false.

(** [task_set_affinity]: the old array is dropped; a non-empty mask is
    copied. *)
Definition task_set_affinity (mask : list Z) (t : Task) : Task :=
  set_cpu_affinity (match mask with [] => [] | _ => mask end) t.

Definition task_set_nice (n : Z) (t : Task) : Task :=
  let n := clamp_nice n in
  set_nice_weight n (nice_to_weight n) t.

Definition task_can_run_on_cpu (t : Task) (cpu_id : Z) : bool :=
  match cpu_affinity t with
  | [] => true
  | l => existsb (Z.eqb cpu_id) l
  end.

(** ** cgroup.c *)

Definition cgroup_create (id : string) (shares quota period : Z)
    (mask : list Z) : Cgroup :=
  mkCgroup id
           (if shares >? 0 then shares else DEFAULT_CPU_SHARES)
           quota
           (if period >? 0 then period else DEFAULT_CPU_PERIOD_US)
           mask 0%float 0.

(** [cgroup_modify]; [mask] is [None] for a [NULL] mask.  The result code
    is always 0 since allocation succeeds. *)
Definition cgroup_modify (shares quota period : Z) (mask : option (list Z))
    (c : Cgroup) : Cgroup :=
  let sh := if shares >? 0 then shares else cpu_shares c in
  let qu := if quota >=? -1 then quota else cpu_quota_us c in
  let pe := if period >? 0 then period else cpu_period_us c in
  let ma := match mask with
            | Some (x :: l) => x :: l
            | _ => cpu_mask c
            end in
  mkCgroup (cg_id c) sh qu pe ma (quota_used c) (period_start_vtime c).

Definition cgroup_allows_cpu (c : Cgroup) (cpu_id : Z) : bool :=
  match cpu_mask c with
  | [] => true
  | l => existsb (Z.eqb cpu_id) l
  end.

Definition cgroup_has_quota (c : Cgroup) (vtime : Z) : bool :=
  if cpu_quota_us c <? 0 then true
  else dlt (quota_used c) (double_of_int (cpu_quota_us c)).

Definition cgroup_account_runtime (runtime : float) (c : Cgroup) : Cgroup :=
  if (cpu_quota_us c >? 0) && dgt runtime 0%float
  then set_quota_used (quota_used c + runtime)%float c
  else c.

Definition cgroup_reset_period (vtime : Z) (c : Cgroup) : Cgroup :=
  set_period_start vtime (set_quota_used 0%float c).

(** ** heap.c

    The heap functions act on the array [h] of the heap and on the store
    [m] through which they read [vruntime] and write [heap_index]. *)

Definition parent (i : nat) : nat := ((i - 1) / 2)%nat.
Definition left_child (i : nat) : nat := (2 * i + 1)%nat.
Definition right_child (i : nat) : nat := (2 * i + 2)%nat.

(** [heap->tasks[i]]; address 0 ([NULL]) outside the array. *)
Definition slot (h : list nat) (i : nat) : nat := nth i h 0%nat.

Definition key (h : list nat) (m : gmap nat Task) (i : nat) : float :=
  vruntime (deref m (slot h i)).

Definition heap_swap (h : list nat) (m : gmap nat Task) (i j : nat)
  : list nat * gmap nat Task :=
  let temp := slot h i in
  let h1 := <[i := slot h j]> h in
  let h2 := <[j := temp]> h1 in
  let m1 := assign (set_heap_index (Z.of_nat i)) (slot h2 i) m in
  let m2 := assign (set_heap_index (Z.of_nat j)) (slot h2 j) m1 in
  (h2, m2).

(** The [while] loop of [heap_bubble_up]; every iteration moves [idx] to
    its parent, so [idx] iterations are always enough. *)
Fixpoint heap_bubble_up_loop (fuel : nat) (h : list nat) (m : gmap nat Task)
    (idx : nat) : list nat * gmap nat Task :=
  match fuel with
  | O => (h, m)
  | S fuel' =>
    if (0 <? idx)%nat && dgt (key h m (parent idx)) (key h m idx)
    then let '(h', m') := heap_swap h m idx (parent idx) in
         heap_bubble_up_loop fuel' h' m' (parent idx)
    else (h, m)
  end.

Definition heap_bubble_up (h : list nat) (m : gmap nat Task) (idx : nat) :=
  heap_bubble_up_loop idx h m idx.

(** The recursion of [heap_bubble_down]; every call moves [idx] to a
    child below [heap->size], so [size] calls are always enough. *)
Fixpoint heap_bubble_down_loop (fuel : nat) (h : list nat)
    (m : gmap nat Task) (idx : nat) : list nat * gmap nat Task :=
  match fuel with
  | O => (h, m)
  | S fuel' =>
    let size := length h in
    let left := left_child idx in
    let right := right_child idx in
    let min_idx :=
      if (left <? size)%nat && dlt (key h m left) (key h m idx)
      then left else idx in
    let min_idx :=
      if (right <? size)%nat && dlt (key h m right) (key h m min_idx)
      then right else min_idx in
    if (min_idx =? idx)%nat then (h, m)
    else let '(h', m') := heap_swap h m idx min_idx in
         heap_bubble_down_loop fuel' h' m' min_idx
  end.

Definition heap_bubble_down (h : list nat) (m : gmap nat Task) (idx : nat) :=
  heap_bubble_down_loop (length h) h m idx.

Definition heap_insert (h : list nat) (m : gmap nat Task) (p : nat)
  : list nat * gmap nat Task :=
  let idx := length h in
  let h1 := h ++ [p] in
  let m1 := assign (set_heap_index (Z.of_nat idx)) p m in
  heap_bubble_up h1 m1 idx.

(** Moving the last element to position [idx] after [heap->size--]. *)
Definition move_last (h : list nat) (idx : nat) : list nat :=
  let size := (length h - 1)%nat in
  <[idx := slot h size]> (take size h).

Definition heap_extract_min (h : list nat) (m : gmap nat Task)
  : option nat * (list nat * gmap nat Task) :=
  match h with
  | [] => (None, (h, m))
  | min_task :: _ =>
    let m1 := assign (set_heap_index (-1)) min_task m in
    let size := (length h - 1)%nat in
    if (0 <? size)%nat
    then let h1 := move_last h 0 in
         let m2 := assign (set_heap_index 0) (slot h1 0) m1 in
         (Some min_task, heap_bubble_down h1 m2 0)
    else (Some min_task, (take size h, m1))
  end.

Definition heap_index_valid (h : list nat) (t : Task) : bool :=
  negb ((heap_index t <? 0) || (heap_index t >=? Z.of_nat (length h))).

(** The end of [heap_remove]: sift the element moved to [idx] up or
    down. *)
Definition heap_restore (h : list nat) (m : gmap nat Task) (idx : nat) :=
  if (0 <? idx)%nat && dgt (key h m (parent idx)) (key h m idx)
  then heap_bubble_up h m idx
  else heap_bubble_down h m idx.

Definition heap_update (h : list nat) (m : gmap nat Task) (p : nat)
  : list nat * gmap nat Task :=
  if heap_index_valid h (deref m p)
  then let idx := Z.to_nat (heap_index (deref m p)) in
       if (0 <? idx)%nat && dgt (key h m (parent idx)) (vruntime (deref m p))
       then heap_bubble_up h m idx
       else heap_bubble_down h m idx
  else (h, m).

Definition heap_remove (h : list nat) (m : gmap nat Task) (p : nat)
  : list nat * gmap nat Task :=
  if heap_index_valid h (deref m p)
  then let idx := Z.to_nat (heap_index (deref m p)) in
       let m1 := assign (set_heap_index (-1)) p m in
       let size := (length h - 1)%nat in
       if (idx <? size)%nat
       then let h1 := move_last h idx in
            let m2 := assign (set_heap_index (Z.of_nat idx)) (slot h1 idx) m1 in
            heap_restore h1 m2 idx
       else (take size h, m1)
  else (h, m).

(** ** scheduler.c: helpers *)

Definition with_clock (vtime pre mig : Z) (s : Scheduler) :=
  mkSched (cpu_queues s) (quanta s) (task_mem s) (next_task s) (all_tasks s)
          (cgroups s) (runnable_heap s) vtime pre mig.
Definition with_alloc (m : gmap nat Task) (n : nat) (s : Scheduler) :=
  mkSched (cpu_queues s) (quanta s) m n (all_tasks s) (cgroups s)
          (runnable_heap s) (current_vtime s) (preemptions s) (migrations s).

(** [id[0] != '\0'] *)
Definition nonempty (id : string) : bool :=
  match id with EmptyString => false | _ => true end.

Definition is_runnable (t : Task) : bool :=
  TaskState_eqb (state t) TASK_STATE_RUNNABLE.
Definition is_running (t : Task) : bool :=
  TaskState_eqb (state t) TASK_STATE_RUNNING.
Definition is_blocked (t : Task) : bool :=
  TaskState_eqb (state t) TASK_STATE_BLOCKED.

Definition scheduler_find_task (s : Scheduler) (id : string) : option nat :=
  List.find (fun p => String.eqb (task_id (deref (task_mem s) p)) id)
            (all_tasks s).

(** The first cgroup of the registry with the identifier, and its
    position. *)
Fixpoint find_cgroup_from (i : nat) (l : list Cgroup) (id : string)
  : option (nat * Cgroup) :=
  match l with
  | [] => None
  | c :: l' => if String.eqb (cg_id c) id then Some (i, c)
               else find_cgroup_from (S i) l' id
  end.

Definition scheduler_find_cgroup (s : Scheduler) (id : string)
  : option (nat * Cgroup) :=
  find_cgroup_from 0 (cgroups s) id.

Definition can_task_run_on_cpu (s : Scheduler) (t : Task) (cpu_id : Z)
  : bool :=
  if negb (task_can_run_on_cpu t cpu_id) then false
  else if nonempty (cgroup_id t)
  then match scheduler_find_cgroup s (cgroup_id t) with
       | Some (_, cg) => if negb (cgroup_allows_cpu cg cpu_id) then false
                         else true
       | None => true
       end
  else true.

Definition get_min_vruntime (s : Scheduler) : float :=
  let min_vr :=
    fold_left (fun min_vr p =>
                 let t := deref (task_mem s) p in
                 if (is_runnable t || is_running t)
                    && dlt (vruntime t) min_vr
                 then vruntime t else min_vr)
              (all_tasks s) DBL_MAX in
  if PrimFloat.eqb min_vr DBL_MAX then 0%float else min_vr.

Definition get_max_vruntime (s : Scheduler) : float :=
  fold_left (fun max_vr p =>
               let t := deref (task_mem s) p in
               if (is_runnable t || is_running t)
                  && dgt (vruntime t) max_vr
               then vruntime t else max_vr)
            (all_tasks s) 0%float.

Definition get_effective_task_weight (s : Scheduler) (t : Task) : Z :=
  let w := weight t in
  let w :=
    if nonempty (cgroup_id t)
    then match scheduler_find_cgroup s (cgroup_id t) with
         | Some (_, cg) =>
           if cpu_shares cg >? 0
           then Z.quot (w * cpu_shares cg) DEFAULT_CPU_SHARES
           else w
         | None => w
         end
    else w in
  let w := if w <? 1 then 1 else w in
  int_of_longlong w.

Definition rebuild_step (hm : list nat * gmap nat Task) (p : nat)
  : list nat * gmap nat Task :=
  let m1 := assign (set_heap_index (-1)) p (snd hm) in
  if is_runnable (deref m1 p) then heap_insert (fst hm) m1 p
  else (fst hm, m1).

Definition rebuild_runnable_heap (s : Scheduler) : Scheduler :=
  let hm := fold_left rebuild_step (all_tasks s) ([], task_mem s) in
  with_heap (fst hm) (snd hm) s.

Definition refresh_cgroup (tick_us vtime : Z) (c : Cgroup) : Cgroup :=
  if cpu_period_us c <=? 0 then c
  else if vtime <? period_start_vtime c then cgroup_reset_period vtime c
  else let elapsed_ticks := vtime - period_start_vtime c in
       let elapsed_us := longlong_wrap (elapsed_ticks * tick_us) in
       if elapsed_us >=? cpu_period_us c then cgroup_reset_period vtime c
       else c.

Definition refresh_cgroup_periods (s : Scheduler) (vtime : Z) : Scheduler :=
  let tick_us := quanta s * 1000 in
  let tick_us := if tick_us <=? 0 then 1000 else tick_us in
  with_cgroups (map (refresh_cgroup tick_us vtime) (cgroups s)) s.

(** The arrays [planned_cgroups] and [planned_runtime_us] with
    [planned_count]: a list of pairs. *)
Fixpoint get_planned_runtime_for_cgroup (planned : list (nat * float))
    (target : nat) : float :=
  match planned with
  | [] => 0%float
  | (c, r) :: rest => if (c =? target)%nat then r
                      else get_planned_runtime_for_cgroup rest target
  end.

Fixpoint bump_planned (planned : list (nat * float)) (target : nat)
    (delta_us : float) : option (list (nat * float)) :=
  match planned with
  | [] => None
  | (c, r) :: rest =>
    if (c =? target)%nat then Some ((c, (r + delta_us)%float) :: rest)
    else match bump_planned rest target delta_us with
         | Some rest' => Some ((c, r) :: rest')
         | None => None
         end
  end.

Definition add_planned_runtime_for_cgroup (planned : list (nat * float))
    (target : nat) (delta_us : float) : list (nat * float) :=
  match bump_planned planned target delta_us with
  | Some planned' => planned'
  | None => if (length planned <? MAX_CGROUPS)%nat
            then planned ++ [(target, delta_us)]
            else planned
  end.

(** The quota test of [pick_task_for_cpu] on a candidate that passed the
    CPU test: [false] when the candidate is deferred. *)
Definition quota_admits (s : Scheduler) (planned : list (nat * float))
    (tick_runtime_us : float) (t : Task) : bool :=
  if nonempty (cgroup_id t)
  then match scheduler_find_cgroup s (cgroup_id t) with
       | Some (k, cg) =>
         if negb (cgroup_has_quota cg (current_vtime s)) then false
         else if cpu_quota_us cg >=? 0
         then let planned_us := get_planned_runtime_for_cgroup planned k in
              let projected :=
                (quota_used cg + planned_us + tick_runtime_us)%float in
              negb (dgt projected (double_of_int (cpu_quota_us cg)))
         else true
       | None => true
       end
  else true.

(** The [while] loop of [pick_task_for_cpu]; every iteration extracts one
    element, so as many iterations as the heap has elements are enough. *)
Fixpoint pick_loop (fuel : nat) (s : Scheduler) (cpu : nat)
    (planned : list (nat * float)) (tick_runtime_us : float)
    (deferred : list nat) : option nat * list nat * Scheduler :=
  match fuel with
  | O => (None, deferred, s)
  | S fuel' =>
    match heap_extract_min (runnable_heap s) (task_mem s) with
    | (None, _) => (None, deferred, s)
    | (Some candidate, (h, m)) =>
      let s1 := with_heap h m s in
      let t := deref m candidate in
      if negb (can_task_run_on_cpu s1 t (Z.of_nat cpu))
      then pick_loop fuel' s1 cpu planned tick_runtime_us
                     (deferred ++ [candidate])
      else if negb (quota_admits s1 planned tick_runtime_us t)
      then pick_loop fuel' s1 cpu planned tick_runtime_us
                     (deferred ++ [candidate])
      else (Some candidate, deferred, s1)
    end
  end.

Definition reinsert (s : Scheduler) (p : nat) : Scheduler :=
  let hm := heap_insert (runnable_heap s) (task_mem s) p in
  with_heap (fst hm) (snd hm) s.

Definition plan_selected (s : Scheduler) (planned : list (nat * float))
    (tick_runtime_us : float) (selected : option nat)
  : list (nat * float) :=
  match selected with
  | Some p =>
    let t := deref (task_mem s) p in
    if nonempty (cgroup_id t)
    then match scheduler_find_cgroup s (cgroup_id t) with
         | Some (k, cg) =>
           if cpu_quota_us cg >=? 0
           then add_planned_runtime_for_cgroup planned k tick_runtime_us
           else planned
         | None => planned
         end
    else planned
  | None => planned
  end.

Definition pick_task_for_cpu (s : Scheduler) (cpu : nat)
    (planned : list (nat * float)) (tick_runtime_us : float)
  : option nat * list (nat * float) * Scheduler :=
  let '(selected, deferred, s1) :=
    pick_loop (length (runnable_heap s)) s cpu planned tick_runtime_us [] in
  let s2 := fold_left reinsert deferred s1 in
  (selected, plan_selected s2 planned tick_runtime_us selected, s2).

(** ** scheduler.c: initialisation and registries *)

Definition scheduler_init (ncpu : nat) (q : Z) : Scheduler :=
  mkSched (replicate ncpu None) (if q >? 0 then q else 1)
          ∅ 1%nat [] [] [] 0 0 0.

(** [calloc] of a task record: a fresh address. *)
Definition alloc_task (s : Scheduler) (t : Task) : nat * Scheduler :=
  (next_task s,
   with_alloc (<[next_task s := t]> (task_mem s)) (S (next_task s)) s).

Definition scheduler_add_task (s : Scheduler) (p : nat) : Z * Scheduler :=
  if (MAX_TASKS <=? length (all_tasks s))%nat then (-1, s)
  else
    let s1 := with_all_tasks (all_tasks s ++ [p]) s in
    if is_runnable (deref (task_mem s1) p)
    then (0, reinsert s1 p)
    else (0, s1).

(** The position of the first element that satisfies [f]. *)
Fixpoint find_pos {A} (f : A -> bool) (l : list A) : option nat :=
  match l with
  | [] => None
  | x :: l' => if f x then Some O
               else match find_pos f l' with
                    | Some i => Some (S i)
                    | None => None
                    end
  end.

(** [a[i] = a[count-1]; a[count-1] = NULL; count--] *)
Definition swap_remove {A} (d : A) (i : nat) (l : list A) : list A :=
  take (length l - 1) (<[i := nth (length l - 1) l d]> l).

Definition clear_slot (p : nat) (c : option nat) : option nat :=
  match c with
  | Some q => if (q =? p)%nat then None else Some q
  | None => None
  end.

Definition scheduler_remove_task (s : Scheduler) (id : string)
  : Z * Scheduler :=
  match find_pos (fun p => String.eqb (task_id (deref (task_mem s) p)) id)
                 (all_tasks s) with
  | Some i =>
    let p := nth i (all_tasks s) 0%nat in
    let hm := if heap_index (deref (task_mem s) p) >=? 0
              then heap_remove (runnable_heap s) (task_mem s) p
              else (runnable_heap s, task_mem s) in
    let queues := map (clear_slot p) (cpu_queues s) in
    let m := delete p (snd hm) in
    (0, with_all_tasks (swap_remove 0%nat i (all_tasks s))
          (with_cpu_queues queues (with_heap (fst hm) m s)))
  | None => (-1, s)
  end.

Definition scheduler_add_cgroup (s : Scheduler) (c : Cgroup)
  : Z * Scheduler :=
  if (MAX_CGROUPS <=? length (cgroups s))%nat then (-1, s)
  else (0, with_cgroups (cgroups s ++ [c]) s).

Definition reparent (id : string) (t : Task) : Task :=
  if String.eqb (cgroup_id t) id then set_cgroup_id "0" t else t.

Definition scheduler_remove_cgroup (s : Scheduler) (id : string)
  : Z * Scheduler :=
  match scheduler_find_cgroup s id with
  | Some (i, c) =>
    let m := fold_left (fun m p => assign (reparent id) p m)
                       (all_tasks s) (task_mem s) in
    (0, with_cgroups (swap_remove c i (cgroups s)) (with_task_mem m s))
  | None => (-1, s)
  end.

(** ** scheduler.c: the event dispatcher *)

Definition on_task (s : Scheduler) (id : string)
    (f : nat -> Scheduler) : Z * Scheduler :=
  match scheduler_find_task s id with
  | Some p => (0, f p)
  | None => (0, s)
  end.

Definition do_task_create (s : Scheduler) (e : Event) : Z * Scheduler :=
  let max_vr := get_max_vruntime s in
  let n := if ev_has_nice e then ev_nice e else 0 in
  let t := task_create (ev_task_id e) n
             (if nonempty (ev_cgroup_id e) then Some (ev_cgroup_id e)
              else None) in
  let t := set_vruntime max_vr t in
  let t := if ev_has_cpu_mask e then task_set_affinity (ev_cpu_mask e) t
           else t in
  let '(p, s1) := alloc_task s t in
  (0, snd (scheduler_add_task s1 p)).

Definition do_task_exit (s : Scheduler) (e : Event) : Z * Scheduler :=
  on_task s (ev_task_id e) (fun p =>
    let s1 := with_task_mem
                (assign (set_state TASK_STATE_EXITED) p (task_mem s)) s in
    snd (scheduler_remove_task s1 (ev_task_id e))).

Definition do_task_block (s : Scheduler) (e : Event) : Z * Scheduler :=
  on_task s (ev_task_id e) (fun p =>
    let m1 := assign (set_state TASK_STATE_BLOCKED) p (task_mem s) in
    let hm := if heap_index (deref m1 p) >=? 0
              then heap_remove (runnable_heap s) m1 p
              else (runnable_heap s, m1) in
    let s1 := with_heap (fst hm) (snd hm) s in
    let cpu := current_cpu (deref (task_mem s1) p) in
    if cpu >=? 0
    then with_task_mem (assign (set_current_cpu (-1)) p (task_mem s1))
           (with_cpu_queues (<[Z.to_nat cpu := None]> (cpu_queues s1)) s1)
    else s1).

Definition do_task_unblock (s : Scheduler) (e : Event) : Z * Scheduler :=
  on_task s (ev_task_id e) (fun p =>
    if is_blocked (deref (task_mem s) p)
    then
      let s1 := with_task_mem
                  (assign (set_state TASK_STATE_RUNNABLE) p (task_mem s)) s in
      let min_vr := get_min_vruntime s1 in
      let s2 :=
        if dlt (vruntime (deref (task_mem s1) p)) (min_vr - 1)%float
        then with_task_mem
               (assign (set_vruntime (min_vr - 1)%float) p (task_mem s1)) s1
        else s1 in
      reinsert s2 p
    else s).

Definition do_task_yield (s : Scheduler) (e : Event) : Z * Scheduler :=
  on_task s (ev_task_id e) (fun p =>
    let s1 := with_task_mem
                (assign (set_vruntime (get_max_vruntime s)) p (task_mem s))
                s in
    if heap_index (deref (task_mem s1) p) >=? 0
    then let hm := heap_update (runnable_heap s1) (task_mem s1) p in
         with_heap (fst hm) (snd hm) s1
    else s1).

Definition do_task_setnice (s : Scheduler) (e : Event) : Z * Scheduler :=
  on_task s (ev_task_id e) (fun p =>
    with_task_mem (assign (task_set_nice (ev_nice e)) p (task_mem s)) s).

Definition do_task_set_affinity (s : Scheduler) (e : Event)
  : Z * Scheduler :=
  on_task s (ev_task_id e) (fun p =>
    with_task_mem
      (assign (task_set_affinity (ev_cpu_mask e)) p (task_mem s)) s).

Definition do_cgroup_create (s : Scheduler) (e : Event) : Z * Scheduler :=
  let shares := if ev_has_cpu_shares e then ev_cpu_shares e
                else DEFAULT_CPU_SHARES in
  let quota := if ev_has_cpu_quota e then ev_cpu_quota_us e
               else UNLIMITED_QUOTA in
  let period := if ev_has_cpu_period e then ev_cpu_period_us e
                else DEFAULT_CPU_PERIOD_US in
  let c := cgroup_create (ev_cgroup_id e) shares quota period
                         (ev_cpu_mask e) in
  let c := set_period_start (current_vtime s) c in
  (0, snd (scheduler_add_cgroup s c)).

Definition do_cgroup_modify (s : Scheduler) (e : Event) : Z * Scheduler :=
  match scheduler_find_cgroup s (ev_cgroup_id e) with
  | Some (k, c) =>
    let shares := if ev_has_cpu_shares e then ev_cpu_shares e else -1 in
    let quota := if ev_has_cpu_quota e then ev_cpu_quota_us e else -2 in
    let period := if ev_has_cpu_period e then ev_cpu_period_us e else -2 in
    let c1 := cgroup_modify shares quota period
                (if ev_has_cpu_mask e then Some (ev_cpu_mask e) else None)
                c in
    let c2 := if ev_has_cpu_period e && (ev_cpu_period_us e >? 0)
              then cgroup_reset_period (current_vtime s) c1
              else c1 in
    (0, with_cgroups (<[k := c2]> (cgroups s)) s)
  | None => (0, s)
  end.

Definition do_cgroup_delete (s : Scheduler) (e : Event) : Z * Scheduler :=
  (0, snd (scheduler_remove_cgroup s (ev_cgroup_id e))).

Definition do_task_move_cgroup (s : Scheduler) (e : Event)
  : Z * Scheduler :=
  on_task s (ev_task_id e) (fun p =>
    with_task_mem
      (assign (set_cgroup_id (ev_new_cgroup_id e)) p (task_mem s)) s).

Definition do_cpu_burst (s : Scheduler) (e : Event) : Z * Scheduler :=
  on_task s (ev_task_id e) (fun p =>
    with_task_mem
      (assign (set_burst true (ev_burst_duration e)) p (task_mem s)) s).

(** The result code and the state after the event. *)
Definition scheduler_process_event (s : Scheduler) (e : Event)
  : Z * Scheduler :=
  match ev_action e with
  | EVENT_TASK_CREATE => do_task_create s e
  | EVENT_TASK_EXIT => do_task_exit s e
  | EVENT_TASK_BLOCK => do_task_block s e
  | EVENT_TASK_UNBLOCK => do_task_unblock s e
  | EVENT_TASK_YIELD => do_task_yield s e
  | EVENT_TASK_SETNICE => do_task_setnice s e
  | EVENT_TASK_SET_AFFINITY => do_task_set_affinity s e
  | EVENT_CGROUP_CREATE => do_cgroup_create s e
  | EVENT_CGROUP_MODIFY => do_cgroup_modify s e
  | EVENT_CGROUP_DELETE => do_cgroup_delete s e
  | EVENT_TASK_MOVE_CGROUP => do_task_move_cgroup s e
  | EVENT_CPU_BURST => do_cpu_burst s e
  | EVENT_INVALID => (-1, s)
  end.

(** ** scheduler.c: the tick engine *)

(** One iteration of the accounting loop of [scheduler_tick]. *)
Definition account_cpu (s : Scheduler) (i : nat) : Scheduler :=
  let s1 :=
    match cpu_queues s !! i with
    | Some (Some p) =>
      let t := deref (task_mem s) p in
      if is_running t then
        let m1 :=
          if negb (is_burst t)
          then let effective_weight := get_effective_task_weight s t in
               assign (set_vruntime
                         (vruntime t
                          + calc_vruntime_delta (double_of_int (quanta s))
                                                effective_weight)%float)
                      p (task_mem s)
          else task_mem s in
        let cgs :=
          if nonempty (cgroup_id t)
          then match scheduler_find_cgroup s (cgroup_id t) with
               | Some (k, cg) =>
                 let runtime_us := (double_of_int (quanta s) * 1000)%float in
                 <[k := cgroup_account_runtime runtime_us cg]> (cgroups s)
               | None => cgroups s
               end
          else cgroups s in
        let t1 := deref m1 p in
        let m2 :=
          if is_burst t1 && (burst_remaining t1 >? 0)
          then let r := burst_remaining t1 - 1 in
               assign (set_burst (negb (r =? 0)) r) p m1
          else m1 in
        let m3 := assign (set_state TASK_STATE_RUNNABLE) p m2 in
        with_cgroups cgs (with_task_mem m3 s)
      else s
    | _ => s
    end in
  with_cpu_queues (<[i := None]> (cpu_queues s1)) s1.

Definition account_all (s : Scheduler) : Scheduler :=
  fold_left account_cpu (seq 0 (cpu_count s)) s.

(** [assigned[i] = true] for the first [i] with [all_tasks[i] == best]. *)
Fixpoint mark_assigned (tasks : list nat) (best : nat)
    (assigned : list bool) : list bool :=
  match tasks, assigned with
  | p :: tasks', a :: assigned' =>
    if (p =? best)%nat then true :: assigned'
    else a :: mark_assigned tasks' best assigned'
  | _, _ => assigned
  end.

(** The state of the selection loop: the scheduler, the planned-runtime
    table, the [assigned] flags and the schedule filled so far. *)
Record Selection := mkSel {
  sel_sched : Scheduler;
  sel_planned : list (nat * float);
  sel_assigned : list bool;
  sel_schedule : list string
}.

Definition assign_best (previous : option nat) (cpu best : nat)
    (s : Scheduler) : Scheduler :=
  let s1 :=
    match previous with
    | Some prev =>
      if negb (prev =? best)%nat
      then let s' := with_preemptions (preemptions s + 1) s in
           if is_running (deref (task_mem s') prev)
           then with_task_mem
                  (assign (set_state TASK_STATE_RUNNABLE) prev (task_mem s'))
                  s'
           else s'
      else s
    | None => s
    end in
  let b := deref (task_mem s1) best in
  let s2 :=
    if (current_cpu b >=? 0) && negb (current_cpu b =? Z.of_nat cpu)
    then with_migrations (migrations s1 + 1) s1
    else s1 in
  let m := assign (set_state TASK_STATE_RUNNING) best
             (assign (set_current_cpu (Z.of_nat cpu)) best (task_mem s2)) in
  with_cpu_queues (<[cpu := Some best]> (cpu_queues s2)) (with_task_mem m s2).

(** One iteration of the selection loop of [scheduler_tick]. *)
Definition select_cpu (previous_tasks : list (option nat))
    (tick_runtime_us : float) (a : Selection) (cpu : nat) : Selection :=
  let previous := default None (previous_tasks !! cpu) in
  let '(best, planned, s1) :=
    pick_task_for_cpu (sel_sched a) cpu (sel_planned a) tick_runtime_us in
  match best with
  | Some b =>
    let s2 := assign_best previous cpu b s1 in
    mkSel s2 planned
          (mark_assigned (all_tasks s1) b (sel_assigned a))
          (sel_schedule a ++ [task_id (deref (task_mem s2) b)])
  | None =>
    mkSel s1 planned (sel_assigned a) (sel_schedule a ++ ["idle"])
  end.

Fixpoint clear_unassigned (tasks : list nat) (assigned : list bool)
    (m : gmap nat Task) : gmap nat Task :=
  match tasks, assigned with
  | p :: tasks', a :: assigned' =>
    let m' := if negb a && is_runnable (deref m p)
              then assign (set_current_cpu (-1)) p m else m in
    clear_unassigned tasks' assigned' m'
  | _, _ => m
  end.

Definition tick_runtime (s : Scheduler) : float :=
  let r := (double_of_int (quanta s) * 1000)%float in
  if dlt r 0%float then 0%float else r.

Definition fill_meta (s : Scheduler) : SchedulerMeta :=
  let ts := map (deref (task_mem s)) (all_tasks s) in
  mkMeta (preemptions s) (migrations s)
         (map task_id (filter (fun t => is_runnable t || is_running t) ts))
         (map task_id
              (filter (fun t => negb (is_runnable t || is_running t)
                                && is_blocked t) ts)).

(** The prologue, the accounting loop and the rebuild of the heap. *)
Definition tick_prepare (s : Scheduler) (vtime : Z) : Scheduler :=
  let s1 := refresh_cgroup_periods (with_clock vtime 0 0 s) vtime in
  rebuild_runnable_heap (account_all s1).

(** The selection loop, started on the prepared scheduler [s2] with the
    assignments [previous_tasks] of the previous tick. *)
Definition tick_select (previous_tasks : list (option nat))
    (s2 : Scheduler) : Selection :=
  fold_left (select_cpu previous_tasks (tick_runtime s2))
            (seq 0 (cpu_count s2))
            (mkSel s2 [] (replicate (length (all_tasks s2)) false) []).

Definition scheduler_tick (s : Scheduler) (vtime : Z)
  : SchedulerTick * Scheduler :=
  let previous_tasks := cpu_queues s in
  let a := tick_select previous_tasks (tick_prepare s vtime) in
  let s3 := sel_sched a in
  let s4 := with_task_mem
              (clear_unassigned (all_tasks s3) (sel_assigned a)
                                (task_mem s3)) s3 in
  (mkTick vtime (sel_schedule a) (fill_meta s4), s4).

(** ** main.c: the body of the event loop for one time frame *)

Definition process_events (s : Scheduler) (events : list Event)
  : Scheduler :=
  fold_left (fun s e => snd (scheduler_process_event s e)) events s.

Definition run_timeframe (s : Scheduler) (tf : TimeFrame)
  : SchedulerTick * Scheduler :=
  scheduler_tick (process_events s (tf_events tf)) (tf_vtime tf).

(** ** Referents of an event

    [names_missing_referent s e] holds when the task that a task event
    names, or the cgroup that a CgroupModify or CgroupDelete event names,
    is not in the registry of [s]. *)
Definition names_missing_referent (s : Scheduler) (e : Event) : bool :=
  match ev_action e with
  | EVENT_TASK_EXIT | EVENT_TASK_BLOCK | EVENT_TASK_UNBLOCK
  | EVENT_TASK_YIELD | EVENT_TASK_SETNICE | EVENT_TASK_SET_AFFINITY
  | EVENT_TASK_MOVE_CGROUP | EVENT_CPU_BURST =>
    match scheduler_find_task s (ev_task_id e) with
    | Some _ => false
    | None => true
    end
  | EVENT_CGROUP_MODIFY | EVENT_CGROUP_DELETE =>
    match scheduler_find_cgroup s (ev_cgroup_id e) with
    | Some _ => false
    | None => true
    end
  | _ => false
  end.

(** ** Definitions used in the statements *)

(** The record of the task of a CPU after its accounting in a tick. *)
Definition accounted (s : Scheduler) (t : Task) : Task :=
  let t1 :=
    if negb (is_burst t)
    then set_vruntime
           (vruntime t
            + calc_vruntime_delta (double_of_int (quanta s))
                                  (get_effective_task_weight s t))%float t
    else t in
  let t2 :=
    if is_burst t1 && (burst_remaining t1 >? 0)
    then set_burst (negb (burst_remaining t1 - 1 =? 0))
                   (burst_remaining t1 - 1) t1
    else t1 in
  set_state TASK_STATE_RUNNABLE t2.

(** Two cgroup records with the same identifier and shares. *)
Definition same_shares (c c' : Cgroup) : Prop :=
  cg_id c = cg_id c' /\ cpu_shares c = cpu_shares c'.

(** What the schedule shows for the content of the slot of a CPU. *)
Definition shown (s : Scheduler) (c : nat) : string :=
  match cpu_queues s !! c with
  | Some (Some p) => task_id (deref (task_mem s) p)
  | _ => "idle"
  end.

(** The states that the event loop can reach. *)
Inductive reachable : Scheduler -> Prop :=
| reachable_init ncpu q : reachable (scheduler_init ncpu q)
| reachable_event s e :
    reachable s -> reachable (snd (scheduler_process_event s e))
| reachable_tick s vtime :
    reachable s -> reachable (snd (scheduler_tick s vtime)).

(** Allocation discipline: the registry has no address twice, and every
    address of the registry and of the store is older than the next fresh
    address. *)
Record alloc_wf (s : Scheduler) : Prop := mk_alloc_wf {
  wf_nodup : NoDup (all_tasks s);
  wf_registry : forall p, p ∈ all_tasks s -> (p < next_task s)%nat;
  wf_store : forall p t, task_mem s !! p = Some t -> (p < next_task s)%nat
}.

(** The registry of task addresses and the allocation counter. *)
Definition registry (s : Scheduler) : list nat * nat :=
  (all_tasks s, next_task s).

(** ** Concrete events and runs *)

Definition event_on_task (a : EventAction) (tid : string) : Event :=
  mkEvent a tid "" "" 0 [] 0 0 0 0 false false false false false.

Definition task_create_event (tid cg : string) (n : Z) : Event :=
  mkEvent EVENT_TASK_CREATE tid cg "" n [] 0 0 0 0
          true false false false false.

Definition cgroup_create_event (id : string) (shares quota period : Z)
  : Event :=
  mkEvent EVENT_CGROUP_CREATE "" id "" 0 [] shares quota period 0
          false true true true false.

Definition cgroup_modify_shares_event (id : string) (shares : Z) : Event :=
  mkEvent EVENT_CGROUP_MODIFY "" id "" 0 [] shares 0 0 0
          false true false false false.

Definition cgroup_modify_quota_event (id : string) (quota : Z) : Event :=
  mkEvent EVENT_CGROUP_MODIFY "" id "" 0 [] 0 quota 0 0
          false false true false false.

Definition move_cgroup_event (tid cg : string) : Event :=
  mkEvent EVENT_TASK_MOVE_CGROUP tid "" cg 0 [] 0 0 0 0
          false false false false false.

Definition cpu_burst_event (tid : string) (d : Z) : Event :=
  mkEvent EVENT_CPU_BURST tid "" "" 0 [] 0 0 0 d
          false false false false false.

(** The state after a sequence of time frames. *)
Definition run_frames (s : Scheduler) (tfs : list TimeFrame) : Scheduler :=
  fold_left (fun s tf => snd (run_timeframe s tf)) tfs s.

(** A scheduler with one cgroup "G" of 2048 shares. *)
Definition sched_with_G : Scheduler :=
  snd (scheduler_process_event (scheduler_init 1 1)
         (cgroup_create_event "G" 2048 (-1) 100000)).

(** A scheduler with one task "T1" of nice 0. *)
Definition sched_with_T1 : Scheduler :=
  snd (scheduler_process_event (scheduler_init 1 1)
         (task_create_event "T1" "" 0)).

(** One CPU, quantum 1: task "T" of cgroup "Q" (quota 100000) ran in tick
    0 and then received a burst of 2 ticks. *)
Definition sched_burst : Scheduler :=
  process_events
    (run_frames (scheduler_init 1 1)
       [mkTimeFrame 0 [cgroup_create_event "Q" 1024 100000 100000;
                       task_create_event "T" "Q" 0]])
    [cpu_burst_event "T" 2].

(** The same, after the quota of "Q" was set to 0. *)
Definition sched_burst_zero_quota : Scheduler :=
  process_events sched_burst [cgroup_modify_quota_event "Q" 0].

(** One CPU, quantum 1: task "T" of cgroup "H" (2048 shares) ran in tick
    0. *)
Definition sched_shares : Scheduler :=
  run_frames (scheduler_init 1 1)
    [mkTimeFrame 0 [cgroup_create_event "H" 2048 (-1) 100000;
                    task_create_event "T" "H" 0]].

(** One CPU, quantum 1: an event without [cgroupId] created the cgroup ""
    with 2048 shares, an event without [newCgroupId] moved task "T" to it,
    and "T" ran in tick 0. *)
Definition sched_empty_id : Scheduler :=
  run_frames (scheduler_init 1 1)
    [mkTimeFrame 0 [cgroup_create_event "" 2048 (-1) 100000;
                    task_create_event "T" "" 0;
                    move_cgroup_event "T" ""]].

(** One CPU, quantum 1: task "T" of cgroup "0", which is not registered,
    ran in tick 0. *)
Definition sched_default_cgroup : Scheduler :=
  run_frames (scheduler_init 1 1)
    [mkTimeFrame 0 [task_create_event "T" "" 0]].



(** Two CPUs, quantum 50: cgroup "M" as above with its tasks "A" and "B",
    prepared for the selection of tick 0. *)
Definition sched_quota_select : Scheduler :=
  tick_prepare
    (process_events (scheduler_init 2 50)
       [cgroup_create_event "M" 1024 50000 100000;
        task_create_event "A" "M" 0;
        task_create_event "B" "M" 0])
    0.

(** Two CPUs: two TaskCreate events with the same taskId. *)
Definition sched_two_T : Scheduler :=
  process_events (scheduler_init 2 1)
    [task_create_event "T" "" 0; task_create_event "T" "" 0].

(** Two CPUs, quantum 1: "A" (nice 0) and "B" (nice -20) are created and
    run in tick 0 on CPU 0 and CPU 1; tick 1 has no event. *)
Definition swap_frames : list TimeFrame :=
  [mkTimeFrame 0 [task_create_event "A" "" 0;
                  task_create_event "B" "" (-20)];
   mkTimeFrame 1 []].

Definition sched_swapped : Scheduler :=
  run_frames (scheduler_init 2 1) swap_frames.

(** One CPU, quantum 1: "T", "U" and "V" are created, "T" is blocked at
    once, and "U" and "V" share the CPU for ten ticks. *)
Definition sleeper_frames : list TimeFrame :=
  mkTimeFrame 0 [task_create_event "T" "" 0;
                 task_create_event "U" "" 0;
                 task_create_event "V" "" 0;
                 event_on_task EVENT_TASK_BLOCK "T"]
  :: map (fun v => mkTimeFrame v []) [1; 2; 3; 4; 5; 6; 7; 8; 9].

Definition sched_sleeper : Scheduler :=
  run_frames (scheduler_init 1 1) sleeper_frames.

(** Two CPUs, quantum 1: tasks "A" and "B" before tick 0. *)
Definition sched_AB : Scheduler :=
  process_events (scheduler_init 2 1)
    [task_create_event "A" "" 0; task_create_event "B" "" 0].

(** One CPU, quantum 1: task "T" of nice -20 (weight 88761) in cgroup "H"
    of 2147483647 shares ran in tick 0. *)
Definition sched_big_shares : Scheduler :=
  run_frames (scheduler_init 1 1)
    [mkTimeFrame 0 [cgroup_create_event "H" 2147483647 (-1) 100000;
                    task_create_event "T" "H" (-20)]].

(** One CPU, quantum 1: the cgroup "" has a quota of 100000; task "T" was
    moved to it, ran in tick 0 and then received a burst of 2 ticks. *)
Definition sched_burst_empty_id : Scheduler :=
  process_events
    (run_frames (scheduler_init 1 1)
       [mkTimeFrame 0 [cgroup_create_event "" 1024 100000 100000;
                       task_create_event "T" "" 0;
                       move_cgroup_event "T" ""]])
    [cpu_burst_event "T" 2].


From Stdlib Require SpecFloat FloatOps FloatAxioms.

(** ** Further definitions

    *** Ordered doubles *)

(** [x == x] in C: [x] is not a NaN. *)
Definition not_nan (x : float) : bool := PrimFloat.eqb x x.

(** The rank of a double that is not a NaN, in the lexicographic order of
    triples of integers. *)
Definition float_rank (x : SpecFloat.spec_float) : Z * Z * Z :=
  match x with
  | SpecFloat.S754_zero _ => (0, 0, 0)
  | SpecFloat.S754_infinity true => (-2, 0, 0)
  | SpecFloat.S754_infinity false => (2, 0, 0)
  | SpecFloat.S754_nan => (0, 0, 0)
  | SpecFloat.S754_finite true m e => (-1, - e, - Z.pos m)
  | SpecFloat.S754_finite false m e => (1, e, Z.pos m)
  end.

Definition rank_lt (r1 r2 : Z * Z * Z) : Prop :=
  let '(c1, a1, b1) := r1 in
  let '(c2, a2, b2) := r2 in
  c1 < c2 \/ (c1 = c2 /\ (a1 < a2 \/ (a1 = a2 /\ b1 < b2))).


(** *** Invariants of the heap *)

(** The positions of the heap and the [heap_index] fields agree: every
    task of the heap records its position, and a task outside the heap
    records -1. *)
Record heap_wf (h : list nat) (m : gmap nat Task) : Prop := mk_heap_wf {
  heap_wf_in : forall i p, h !! i = Some p ->
    exists t, m !! p = Some t /\ heap_index t = Z.of_nat i;
  heap_wf_out : forall p t, m !! p = Some t -> p ∉ h -> heap_index t = -1
}.

(** The same while the fields of the tasks in [D] are still to be
    written: nothing is said of a task of [D] outside the heap. *)
Record heap_wf_but (D : nat -> Prop) (h : list nat) (m : gmap nat Task)
  : Prop := mk_heap_wf_but {
  heap_wf_but_in : forall i p, h !! i = Some p ->
    exists t, m !! p = Some t /\ heap_index t = Z.of_nat i;
  heap_wf_but_out : forall p t,
    m !! p = Some t -> p ∉ h -> ~ D p -> heap_index t = -1
}.

(** The order of a min-heap: no parent has a greater vruntime than its
    child. *)
Definition heap_ordered (h : list nat) (m : gmap nat Task) : Prop :=
  forall i, (0 < i < length h)%nat ->
    dgt (key h m (parent i)) (key h m i) = false.

(** No vruntime of the heap is a NaN. *)
Definition keys_not_nan (h : list nat) (m : gmap nat Task) : Prop :=
  forall p, p ∈ h -> not_nan (vruntime (deref m p)) = true.

(** The order of the heap with one position under repair: every edge is
    in order but those that [skip] names, and the children of [idx] are
    in order with the parent of [idx]. *)
Definition ordered_but (skip : nat -> bool) (h : list nat)
    (m : gmap nat Task) (idx : nat) : Prop :=
  (forall i, (0 < i < length h)%nat -> skip i = false ->
     dgt (key h m (parent i)) (key h m i) = false)
  /\ (forall c, (0 < c < length h)%nat -> parent c = idx -> (0 < idx)%nat ->
        dgt (key h m (parent idx)) (key h m c) = false).

(** While sifting up from [idx] the edge above [idx] is open; while
    sifting down the edges below it are; after a change of the key at
    [idx] both are. *)
Definition edge_above (idx i : nat) : bool := (i =? idx)%nat.
Definition edges_below (idx i : nat) : bool := (parent i =? idx)%nat.
Definition edges_at (idx i : nat) : bool :=
  (i =? idx)%nat || (parent i =? idx)%nat.

(** *** Eligibility *)

(** The two tests of [pick_task_for_cpu] on a candidate: the CPU test and
    the quota test. *)
Definition eligible (s : Scheduler) (cpu : nat) (planned : list (nat * float))
    (tick_runtime_us : float) (t : Task) : bool :=
  can_task_run_on_cpu s t (Z.of_nat cpu)
  && quota_admits s planned tick_runtime_us t.

(** *** Invariants of the scheduler *)

(** The runnable heap and the registries between two calls of the event
    loop: the heap is coherent with the [heap_index] fields, it holds
    registered Runnable tasks only, every registered task has a record
    that is not Exited, and both registries are within their arrays. *)
Record sched_inv (s : Scheduler) : Prop := mk_sched_inv {
  inv_heap : heap_wf (runnable_heap s) (task_mem s);
  inv_queued : forall p, p ∈ runnable_heap s ->
    p ∈ all_tasks s
    /\ state (deref (task_mem s) p) = TASK_STATE_RUNNABLE;
  inv_stored : forall p, p ∈ all_tasks s -> is_Some (task_mem s !! p);
  inv_live : forall p, p ∈ all_tasks s ->
    state (deref (task_mem s) p) <> TASK_STATE_EXITED;
  inv_tasks : (length (all_tasks s) <= MAX_TASKS)%nat;
  inv_cgroups : (length (cgroups s) <= MAX_CGROUPS)%nat
}.

(** The fields of a record that the invariants read. *)
Definition sched_view (t : Task) : Z * TaskState * Z :=
  (heap_index t, state t, current_cpu t).

(** *** heap.c: the remaining functions *)

Definition heap_peek (h : list nat) : option nat :=
  match h with
  | [] => None
  | x :: _ => Some x
  end.

Definition heap_is_empty (h : list nat) : bool := (length h =? 0)%nat.

Definition heap_size (h : list nat) : Z := Z.of_nat (length h).

Definition heap_find (h : list nat) (m : gmap nat Task) (id : string)
  : option nat :=
  List.find (fun p => String.eqb (task_id (deref m p)) id) h.

(** The result code of [heap_remove]. *)
Definition heap_remove_code (h : list nat) (m : gmap nat Task) (p : nat)
  : Z :=
  if heap_index_valid h (deref m p) then 0 else -1.

(** *** Further runs *)

(** One CPU, quantum 1: four tasks of nice 0, 5, -5 and 10 share the CPU
    for six ticks. *)
Definition four_frames : list TimeFrame :=
  mkTimeFrame 0 [task_create_event "A" "" 0;
                 task_create_event "B" "" 5;
                 task_create_event "C" "" (-5);
                 task_create_event "D" "" 10]
  :: map (fun v => mkTimeFrame v []) [1; 2; 3; 4; 5].

Definition sched_four : Scheduler :=
  run_frames (scheduler_init 1 1) four_frames.

(** *** The invariants of the heap as tests *)

Definition heap_index_is (m : gmap nat Task) (i p : nat) : bool :=
  match m !! p with
  | Some t => heap_index t =? Z.of_nat i
  | None => false
  end.

Definition heap_wf_test (h : list nat) (m : gmap nat Task) : bool :=
  forallb (fun i => heap_index_is m i (slot h i)) (seq 0 (length h))
  && forallb (fun pt => existsb (Nat.eqb (fst pt)) h
                        || (heap_index (snd pt) =? -1))
             (map_to_list m).

Definition heap_ordered_test (h : list nat) (m : gmap nat Task) : bool :=
  forallb (fun i => negb (dgt (key h m (parent i)) (key h m i)))
          (seq 1 (length h - 1)).

Definition keys_not_nan_test (h : list nat) (m : gmap nat Task) : bool :=
  forallb (fun p => not_nan (vruntime (deref m p))) h.

(** *** The CPU slots *)

(** The task is the current task of some CPU. *)
Definition on_cpu (s : Scheduler) (p : nat) : Prop :=
  exists c, cpu_queues s !! c = Some (Some p).

(** The fields of a record that the invariants of the slots read. *)
Definition slot_view (t : Task) : TaskState * Z := (state t, current_cpu t).

(** The CPU slots between two calls of the event loop: the current task of
    a CPU is registered, records that CPU in [current_cpu], is outside the
    heap and is Running or Runnable; [current_cpu] of a registered task is
    -1 or names the slot that holds the task; a Running task is on a CPU
    and a Runnable task is in the heap or on a CPU. *)
Record slot_inv (s : Scheduler) : Prop := mk_slot_inv {
  slot_task : forall c p, cpu_queues s !! c = Some (Some p) ->
    p ∈ all_tasks s
    /\ current_cpu (deref (task_mem s) p) = Z.of_nat c
    /\ (p ∉ runnable_heap s)
    /\ (state (deref (task_mem s) p) = TASK_STATE_RUNNING
        \/ state (deref (task_mem s) p) = TASK_STATE_RUNNABLE);
  task_slot : forall p, p ∈ all_tasks s ->
    current_cpu (deref (task_mem s) p) = -1
    \/ exists c : nat,
         current_cpu (deref (task_mem s) p) = Z.of_nat c
         /\ cpu_queues s !! c = Some (Some p);
  running_slot : forall p, p ∈ all_tasks s ->
    state (deref (task_mem s) p) = TASK_STATE_RUNNING -> on_cpu s p;
  runnable_place : forall p, p ∈ all_tasks s ->
    state (deref (task_mem s) p) = TASK_STATE_RUNNABLE ->
    p ∈ runnable_heap s \/ on_cpu s p
}.

(** The same between two iterations of the selection loop of
    [scheduler_tick], where [current_cpu] of the tasks that were not
    selected is still the one of the previous tick: the [assigned] flags
    mark the tasks on a CPU. *)
Record sel_inv (a : Selection) : Prop := mk_sel_inv {
  si_inv : sched_inv (sel_sched a);
  si_nodup : NoDup (all_tasks (sel_sched a));
  si_len : length (sel_assigned a) = length (all_tasks (sel_sched a));
  si_slot : forall c p, cpu_queues (sel_sched a) !! c = Some (Some p) ->
    p ∈ all_tasks (sel_sched a)
    /\ current_cpu (deref (task_mem (sel_sched a)) p) = Z.of_nat c
    /\ (p ∉ runnable_heap (sel_sched a))
    /\ (state (deref (task_mem (sel_sched a)) p) = TASK_STATE_RUNNING
        \/ state (deref (task_mem (sel_sched a)) p) = TASK_STATE_RUNNABLE);
  si_flag : forall i p, all_tasks (sel_sched a) !! i = Some p ->
    (sel_assigned a !! i = Some true <-> on_cpu (sel_sched a) p);
  si_running : forall p, p ∈ all_tasks (sel_sched a) ->
    state (deref (task_mem (sel_sched a)) p) = TASK_STATE_RUNNING ->
    on_cpu (sel_sched a) p;
  si_runnable : forall p, p ∈ all_tasks (sel_sched a) ->
    state (deref (task_mem (sel_sched a)) p) = TASK_STATE_RUNNABLE ->
    p ∈ runnable_heap (sel_sched a) \/ on_cpu (sel_sched a) p;
  si_idle : forall p, p ∈ all_tasks (sel_sched a) ->
    ~ on_cpu (sel_sched a) p ->
    state (deref (task_mem (sel_sched a)) p) <> TASK_STATE_RUNNABLE ->
    current_cpu (deref (task_mem (sel_sched a)) p) = -1
}.

(** *** Tasks under a finite quota *)

(** The task names a registered cgroup whose quota is not the unlimited
    one: the only tasks that the quota test of [pick_task_for_cpu] can
    defer. *)
Definition waits_for_quota (s : Scheduler) (t : Task) : bool :=
  nonempty (cgroup_id t)
  && match scheduler_find_cgroup s (cgroup_id t) with
     | Some (_, cg) => cpu_quota_us cg >=? 0
     | None => false
     end.

(** ** json_handler.c: the names of the actions *)

(** The value of an action tag in the enumeration of alfs.h. *)
Definition action_code (a : EventAction) : Z :=
  match a with
  | EVENT_INVALID => -1
  | EVENT_TASK_CREATE => 0
  | EVENT_TASK_EXIT => 1
  | EVENT_TASK_BLOCK => 2
  | EVENT_TASK_UNBLOCK => 3
  | EVENT_TASK_YIELD => 4
  | EVENT_TASK_SETNICE => 5
  | EVENT_TASK_SET_AFFINITY => 6
  | EVENT_CGROUP_CREATE => 7
  | EVENT_CGROUP_MODIFY => 8
  | EVENT_CGROUP_DELETE => 9
  | EVENT_TASK_MOVE_CGROUP => 10
  | EVENT_CPU_BURST => 11
  end.

(** [action_map] up to its sentinel. *)
Definition action_map : list (string * EventAction) :=
  [ ("TASK_CREATE", EVENT_TASK_CREATE);
    ("TASK_EXIT", EVENT_TASK_EXIT);
    ("TASK_BLOCK", EVENT_TASK_BLOCK);
    ("TASK_UNBLOCK", EVENT_TASK_UNBLOCK);
    ("TASK_YIELD", EVENT_TASK_YIELD);
    ("TASK_SETNICE", EVENT_TASK_SETNICE);
    ("TASK_SET_AFFINITY", EVENT_TASK_SET_AFFINITY);
    ("CGROUP_CREATE", EVENT_CGROUP_CREATE);
    ("CGROUP_MODIFY", EVENT_CGROUP_MODIFY);
    ("CGROUP_DELETE", EVENT_CGROUP_DELETE);
    ("TASK_MOVE_CGROUP", EVENT_TASK_MOVE_CGROUP);
    ("CPU_BURST", EVENT_CPU_BURST) ].

(** [json_parse_action]; [None] is the [NULL] string. *)
Definition json_parse_action (action_str : option string) : EventAction :=
  match action_str with
  | None => EVENT_INVALID
  | Some a =>
    match List.find (fun e => String.eqb a (fst e)) action_map with
    | Some e => snd e
    | None => EVENT_INVALID
    end
  end.

Definition json_action_to_string (action : EventAction) : string :=
  match List.find (fun e => action_code (snd e) =? action_code action)
                  action_map with
  | Some e => fst e
  | None => "UNKNOWN"
  end.

From Stdlib Require Import Ascii.

(** ** uds.c: the framing of the messages

    The bytes that the peer sends before it closes the connection are a
    list: [recv] of one byte takes its head, and returns 0 on the empty
    list.  A socket error, an interrupted call and a failing allocation
    are left out.  A [char *] is the list of the bytes at the address;
    the string that it denotes ends before the first NUL byte. *)

(** The string at a [char *]: the bytes before the first NUL ([strlen]
    of them). *)
Fixpoint c_string (bytes : list ascii) : list ascii :=
  match bytes with
  | [] => []
  | c :: rest => if Ascii.eqb c Ascii.zero then [] else c :: c_string rest
  end.

Definition INITIAL_BUFFER_SIZE : Z := 4096.
Definition MAX_MESSAGE_SIZE : Z := 16 * 1024 * 1024.

Definition quote_char : ascii := "034"%char.
Definition backslash_char : ascii := "092"%char.
Definition open_brace : ascii := "{"%char.
Definition close_brace : ascii := "}"%char.

(** The locals of [uds_receive_message]: [buffer[0 .. total_received-1]]
    is [fr_buffer]. *)
Record Framing := mkFraming {
  fr_buffer : list ascii;
  fr_buffer_size : Z;
  fr_brace_count : Z;
  fr_in_string : bool;
  fr_found_start : bool
}.

(** The [while (1)] loop: the bytes [buffer[0 .. total_received-1]] at the
    [return] ([None] for [NULL]), and the bytes that were not read. *)
Fixpoint receive_loop (input : list ascii) (st : Framing)
  : option (list ascii) * list ascii :=
  let total_received := Z.of_nat (length (fr_buffer st)) in
  if (total_received >=? fr_buffer_size st - 1)
     && (fr_buffer_size st >=? MAX_MESSAGE_SIZE)
  then (None, input)
  else
    let buffer_size :=
      if total_received >=? fr_buffer_size st - 1
      then fr_buffer_size st * 2 else fr_buffer_size st in
    match input with
    | [] =>
      if negb (fr_found_start st) then (None, [])
      else if total_received >? 0 then (Some (fr_buffer st), [])
      else (None, [])
    | c :: rest =>
      let buffer := fr_buffer st ++ [c] in
      let total_received := total_received + 1 in
      if Ascii.eqb c quote_char
         && ((total_received <? 2)
             || negb (Ascii.eqb
                        (nth (Z.to_nat (total_received - 2)) buffer
                             Ascii.zero)
                        backslash_char))
      then receive_loop rest
             (mkFraming buffer buffer_size (fr_brace_count st)
                        (negb (fr_in_string st)) (fr_found_start st))
      else if negb (fr_in_string st)
      then
        if Ascii.eqb c open_brace
        then receive_loop rest
               (mkFraming buffer buffer_size (fr_brace_count st + 1)
                          (fr_in_string st) true)
        else if Ascii.eqb c close_brace
        then
          let brace_count := fr_brace_count st - 1 in
          if fr_found_start st && (brace_count =? 0)
          then (Some buffer, rest)
          else receive_loop rest
                 (mkFraming buffer buffer_size brace_count
                            (fr_in_string st) (fr_found_start st))
        else receive_loop rest
               (mkFraming buffer buffer_size (fr_brace_count st)
                          (fr_in_string st) (fr_found_start st))
      else receive_loop rest
             (mkFraming buffer buffer_size (fr_brace_count st)
                        (fr_in_string st) (fr_found_start st))
    end.

(** The locals at the entry of the loop. *)
Definition framing_init : Framing :=
  mkFraming [] INITIAL_BUFFER_SIZE 0 false false.

(** [uds_receive_message] returns the buffer, terminated by a NUL after
    the bytes received, as a [char *]: the caller gets the string that
    the bytes received denote. *)
Definition uds_receive_message (input : list ascii)
  : option (list ascii) * list ascii :=
  let '(buffer, unread) := receive_loop input framing_init in
  (option_map c_string buffer, unread).

(** [uds_send_message]: the bytes that reach the peer, [strlen(message)]
    bytes of the message and a newline. *)
Definition uds_send_message (message : list ascii) : list ascii :=
  c_string message ++ ["010"%char].

(** No byte of the text is a NUL. *)
Definition nul_free (w : list ascii) : bool :=
  forallb (fun c => negb (Ascii.eqb c Ascii.zero)) w.

(** *** Texts on which the framing is exact *)

(** A byte outside a string literal that is no quote, brace or
    backslash. *)
Definition plain_byte (c : ascii) : bool :=
  negb (Ascii.eqb c quote_char) && negb (Ascii.eqb c backslash_char)
  && negb (Ascii.eqb c open_brace) && negb (Ascii.eqb c close_brace).

(** A byte of a string literal without escapes. *)
Definition string_byte (c : ascii) : bool :=
  negb (Ascii.eqb c quote_char) && negb (Ascii.eqb c backslash_char).

(** Texts with matching braces outside string literals, whose string
    literals hold no escape: the inside of a JSON object. *)
Inductive balanced : list ascii -> Prop :=
| balanced_nil : balanced []
| balanced_plain c w :
    plain_byte c = true -> balanced w -> balanced (c :: w)
| balanced_string body w :
    forallb string_byte body = true -> balanced w ->
    balanced (quote_char :: body ++ quote_char :: w)
| balanced_object v w :
    balanced v -> balanced w ->
    balanced (open_brace :: v ++ close_brace :: w).

(** The room of the buffer: its size is a step of the doubling that
    leaves room for the terminator. *)
Definition room (buffer_size : Z) (n : nat) : Prop :=
  Z.of_nat n <= buffer_size - 1
  /\ exists k, 0 <= k <= 12 /\ buffer_size = INITIAL_BUFFER_SIZE * 2 ^ k.

(** The size of the buffer after the test at the head of the loop. *)
Definition next_size (buffer_size : Z) (n : nat) : Z :=
  if Z.of_nat n >=? buffer_size - 1 then buffer_size * 2 else buffer_size.

(** *** A run with an idle CPU *)

(** Two CPUs, quantum 1: the tasks "A" and "B" of the cgroup "Q", whose
    quota of 1000 microseconds admits one task per tick. *)
Definition sched_quota_idle : Scheduler :=
  process_events (scheduler_init 2 1)
    [cgroup_create_event "Q" 1024 1000 100000;
     task_create_event "A" "Q" 0;
     task_create_event "B" "Q" 0].

Definition cgroup_delete_event (id : string) : Event :=
  mkEvent EVENT_CGROUP_DELETE "" id "" 0 [] 0 0 0 0
          false false false false false.

(** *** A run with an affinity list and a CPU mask *)

Definition cgroup_create_mask_event (id : string) (mask : list Z) : Event :=
  mkEvent EVENT_CGROUP_CREATE "" id "" 0 mask 1024 (-1) 100000 0
          false true true true true.

Definition task_create_mask_event (tid cg : string) (mask : list Z)
  : Event :=
  mkEvent EVENT_TASK_CREATE tid cg "" 0 mask 0 0 0 0
          true false false false true.

(** Two CPUs, quantum 1: the cgroup "G" is confined to CPU 1; its task
    "T" has the affinity list [0; 1], and "U" of the default cgroup is
    bound to CPU 1. *)
Definition sched_masked : Scheduler :=
  process_events (scheduler_init 2 1)
    [cgroup_create_mask_event "G" [1];
     task_create_mask_event "T" "G" [0; 1];
     task_create_mask_event "U" "" [1]].

(** *** The quota of a cgroup over a period *)

(** The microseconds of one tick. *)
Definition tick_us (s : Scheduler) : Z := quanta s * 1000.


















(** * Properties *)

(** ** The store *)

Lemma deref_lookup (m : gmap nat Task) p t : m !! p = Some t -> deref m p = t.
Proof. unfold deref. now intros ->. Qed.

Section Assign.
Context (m : gmap nat Task) (f : Task -> Task).

Lemma lookup_assign_eq p t :
  m !! p = Some t -> assign f p m !! p = Some (f t).
Proof. intros H. unfold assign. now rewrite lookup_alter_eq, H. Qed.

Lemma lookup_assign_ne p q : p <> q -> assign f p m !! q = m !! q.
Proof. intros H. unfold assign. now rewrite lookup_alter_ne. Qed.

Lemma deref_assign_eq p t :
  m !! p = Some t -> deref (assign f p m) p = f t.
Proof. intros H. apply deref_lookup. now apply lookup_assign_eq. Qed.

Lemma deref_assign_ne p q : p <> q -> deref (assign f p m) q = deref m q.
Proof. intros H. unfold deref. now rewrite lookup_assign_ne. Qed.

Lemma assign_is_Some p q : is_Some (assign f p m !! q) <-> is_Some (m !! q).
Proof.
  unfold assign. destruct (decide (p = q)) as [->|Hne].
  - rewrite lookup_alter_eq. destruct (m !! q); simpl; split; eauto.
  - now rewrite lookup_alter_ne.
Qed.
End Assign.

(** ** The nice-to-weight table *)

Lemma clamp_nice_range n : NICE_MIN <= clamp_nice n <= NICE_MAX.
Proof.
  unfold clamp_nice, NICE_MIN, NICE_MAX.
  destruct (n <? -20) eqn:E1; [simpl; lia|].
  destruct (n >? 19) eqn:E2; lia.
Qed.

Lemma clamp_nice_spec n : clamp_nice n = Z.max (-20) (Z.min 19 n).
Proof.
  unfold clamp_nice, NICE_MIN, NICE_MAX.
  destruct (n <? -20) eqn:E1; [simpl; lia|].
  destruct (n >? 19) eqn:E2; lia.
Qed.

Lemma nice_to_weight_range n : 15 <= nice_to_weight n <= 88761.
Proof.
  unfold nice_to_weight.
  pose proof (clamp_nice_range n) as H. unfold NICE_MIN, NICE_MAX in *.
  assert (Hk : exists k, (k < 40)%nat
                         /\ Z.to_nat (clamp_nice n - -20) = k).
  { exists (Z.to_nat (clamp_nice n - -20)). split; [lia|reflexivity]. }
  destruct Hk as (k & Hk & ->).
  do 40 (destruct k as [|k]; [vm_compute; split; discriminate|]).
  lia.
Qed.

(** ** Lookup in the registries *)

Lemma find_cgroup_from_Some i l id k c :
  find_cgroup_from i l id = Some (k, c) ->
  (i <= k)%nat /\ l !! (k - i)%nat = Some c /\ cg_id c = id.
Proof.
  revert i. induction l as [|c0 l IH]; intros i H; simpl in H; [discriminate|].
  destruct (String.eqb (cg_id c0) id) eqn:E.
  - injection H as <- <-. rewrite Nat.sub_diag.
    apply String.eqb_eq in E. auto.
  - apply IH in H as (Hle & Hl & Hid).
    split; [lia|]. split; [|assumption].
    replace (k - i)%nat with (S (k - S i)) by lia. exact Hl.
Qed.

Lemma find_cgroup_from_None i l id :
  find_cgroup_from i l id = None <-> Forall (fun c => cg_id c <> id) l.
Proof.
  revert i. induction l as [|c0 l IH]; intros i; simpl.
  - split; auto.
  - destruct (String.eqb (cg_id c0) id) eqn:E.
    + apply String.eqb_eq in E. split; [discriminate|].
      intros H. inversion H; subst. congruence.
    + apply String.eqb_neq in E. rewrite IH. split.
      * intros H. constructor; assumption.
      * intros H. now inversion H.
Qed.

Lemma scheduler_find_cgroup_Some s id k c :
  scheduler_find_cgroup s id = Some (k, c) ->
  cgroups s !! k = Some c /\ cg_id c = id.
Proof.
  intros H. apply find_cgroup_from_Some in H as (_ & H & Hid).
  now rewrite Nat.sub_0_r in H.
Qed.

Lemma find_Some_elem {A} (f : A -> bool) l x :
  List.find f l = Some x -> x ∈ l /\ f x = true.
Proof.
  intros H. apply List.find_some in H as [H1 H2].
  split; [now apply list_elem_of_In|assumption].
Qed.

(** ** Frame properties of the heap

    The heap functions write no field of a task record but [heap_index].
    For a view [proj] of a record that does not depend on [heap_index],
    the image [proj <$> m] of the store is therefore unchanged. *)

Arguments heap_swap : simpl never.
Arguments strip : simpl never.

Section Frame.
Context {X : Type} (proj : Task -> X).

Lemma proj_assign (f : Task -> Task) p (m : gmap nat Task) :
  (forall t, proj (f t) = proj t) ->
  proj <$> assign f p m = proj <$> m.
Proof.
  intros Hf. apply map_eq. intros q. rewrite !lookup_fmap. unfold assign.
  destruct (decide (p = q)) as [->|Hne].
  - rewrite lookup_alter_eq. destruct (m !! q); cbn; [|reflexivity].
    now rewrite Hf.
  - now rewrite lookup_alter_ne.
Qed.

Lemma proj_lookup (m m' : gmap nat Task) p t :
  proj <$> m = proj <$> m' -> m !! p = Some t ->
  exists t', m' !! p = Some t' /\ proj t' = proj t.
Proof.
  intros H Hp. assert (H' := f_equal (fun x => x !! p) H).
  cbv beta in H'. rewrite !lookup_fmap, Hp in H'.
  destruct (m' !! p) as [t'|]; [|discriminate H'].
  exists t'. split; [reflexivity|].
  symmetry. exact (Some_inj _ _ H').
Qed.

Lemma proj_lookup_None (m m' : gmap nat Task) p :
  proj <$> m = proj <$> m' -> m !! p = None -> m' !! p = None.
Proof.
  intros H Hp. assert (H' := f_equal (fun x => x !! p) H).
  cbv beta in H'. rewrite !lookup_fmap, Hp in H'.
  now destruct (m' !! p).
Qed.

Lemma proj_deref (m m' : gmap nat Task) p :
  proj <$> m = proj <$> m' -> proj (deref m' p) = proj (deref m p).
Proof.
  intros H. unfold deref. destruct (m !! p) as [t|] eqn:E.
  - destruct (proj_lookup _ _ _ _ H E) as (t' & -> & Ht). exact Ht.
  - now rewrite (proj_lookup_None _ _ _ H E).
Qed.

Hypothesis proj_index : forall i t, proj (set_heap_index i t) = proj t.

Lemma heap_swap_frame h m i j :
  proj <$> snd (heap_swap h m i j) = proj <$> m.
Proof.
  unfold heap_swap. cbn [snd]. now rewrite !proj_assign by apply proj_index.
Qed.

Lemma heap_bubble_up_loop_frame fuel h m idx :
  proj <$> snd (heap_bubble_up_loop fuel h m idx) = proj <$> m.
Proof.
  revert h m idx. induction fuel as [|fuel IH]; intros h m idx;
    cbn [heap_bubble_up_loop]; auto.
  destruct (_ && _); auto.
  pose proof (heap_swap_frame h m idx (parent idx)) as Hs.
  destruct (heap_swap h m idx (parent idx)) as [h' m'].
  rewrite IH. exact Hs.
Qed.

Lemma heap_bubble_down_loop_frame fuel h m idx :
  proj <$> snd (heap_bubble_down_loop fuel h m idx) = proj <$> m.
Proof.
  revert h m idx. induction fuel as [|fuel IH]; intros h m idx;
    cbn [heap_bubble_down_loop]; auto.
  cbv zeta. destruct (_ =? _)%nat; auto.
  match goal with |- context [heap_swap h m idx ?j] =>
    pose proof (heap_swap_frame h m idx j) as Hs;
    destruct (heap_swap h m idx j) as [h' m'] end.
  rewrite IH. exact Hs.
Qed.

Lemma heap_restore_frame h m idx :
  proj <$> snd (heap_restore h m idx) = proj <$> m.
Proof.
  unfold heap_restore, heap_bubble_up, heap_bubble_down.
  destruct (_ && _);
    [apply heap_bubble_up_loop_frame|apply heap_bubble_down_loop_frame].
Qed.

Lemma heap_insert_frame h m p :
  proj <$> snd (heap_insert h m p) = proj <$> m.
Proof.
  unfold heap_insert, heap_bubble_up.
  rewrite heap_bubble_up_loop_frame. apply proj_assign, proj_index.
Qed.

Lemma heap_extract_min_frame h m :
  proj <$> snd (snd (heap_extract_min h m)) = proj <$> m.
Proof.
  unfold heap_extract_min. destruct h as [|x h]; auto.
  destruct (0 <? _)%nat; cbn [snd].
  - unfold heap_bubble_down.
    now rewrite heap_bubble_down_loop_frame, !proj_assign
      by apply proj_index.
  - apply proj_assign, proj_index.
Qed.

Lemma heap_remove_frame h m p :
  proj <$> snd (heap_remove h m p) = proj <$> m.
Proof.
  unfold heap_remove. destruct (heap_index_valid _ _); auto.
  cbv zeta. destruct (_ <? _)%nat; cbn [snd].
  - now rewrite heap_restore_frame, !proj_assign by apply proj_index.
  - apply proj_assign, proj_index.
Qed.

Lemma heap_update_frame h m p :
  proj <$> snd (heap_update h m p) = proj <$> m.
Proof.
  unfold heap_update. destruct (heap_index_valid _ _); auto.
  cbv zeta. unfold heap_bubble_up, heap_bubble_down.
  destruct (_ && _);
    [apply heap_bubble_up_loop_frame|apply heap_bubble_down_loop_frame].
Qed.

Lemma reinsert_frame s p :
  proj <$> task_mem (reinsert s p) = proj <$> task_mem s.
Proof. unfold reinsert. cbn [task_mem with_heap]. apply heap_insert_frame. Qed.

Lemma fold_reinsert_frame l s :
  proj <$> task_mem (fold_left reinsert l s) = proj <$> task_mem s.
Proof.
  revert s. induction l as [|p l IH]; intros s; [reflexivity|].
  cbn [fold_left]. now rewrite IH, reinsert_frame.
Qed.

Lemma scheduler_add_task_frame s p :
  proj <$> task_mem (snd (scheduler_add_task s p)) = proj <$> task_mem s.
Proof.
  unfold scheduler_add_task. destruct (_ <=? _)%nat; auto.
  destruct (is_runnable _); auto.
  cbn [snd]. now rewrite reinsert_frame.
Qed.

End Frame.

Lemma strip_index i t : strip (set_heap_index i t) = strip t.
Proof. reflexivity. Qed.

(** ** Events: defaults and clamping *)

Lemma do_task_create_new s e :
  exists t',
    task_mem (snd (do_task_create s e)) !! next_task s = Some t'
    /\ nice t' = clamp_nice (if ev_has_nice e then ev_nice e else 0)
    /\ weight t' = nice_to_weight (nice t')
    /\ task_id t' = ev_task_id e.
Proof.
  unfold do_task_create, alloc_task. cbn [snd].
  match goal with |- context [scheduler_add_task ?s1 ?p] =>
    pose proof (scheduler_add_task_frame strip strip_index s1 p) as Hs;
    set (s' := snd (scheduler_add_task s1 p)) in *;
    assert (Hl : exists t, task_mem s1 !! p = Some t
              /\ nice t = clamp_nice (if ev_has_nice e then ev_nice e else 0)
              /\ weight t = nice_to_weight (nice t)
              /\ task_id t = ev_task_id e)
  end.
  { eexists. split; [apply lookup_insert_eq|].
    destruct (ev_has_cpu_mask e); cbn; auto. }
  destruct Hl as (t & Hl & Hn & Hw & Hi).
  symmetry in Hs.
  destruct (proj_lookup strip _ _ _ _ Hs Hl) as (t' & Ht' & Hst).
  exists t'. split; [exact Ht'|].
  assert (E1 : nice t' = nice t) by exact (f_equal nice Hst).
  assert (E2 : weight t' = weight t) by exact (f_equal weight Hst).
  assert (E3 : task_id t' = task_id t) by exact (f_equal task_id Hst).
  rewrite E1, E2, E3. auto.
Qed.

(** C9 (as amended): a CgroupCreate event replaces a supplied shares value
    <= 0 by the default 1024 and a supplied period <= 0 by the default
    100000; a CgroupModify event with a supplied shares or period value
    <= 0 keeps the value the cgroup already has; a nice value carried by
    TaskSetNice or TaskCreate is clamped to [-20, 19]. *)
Theorem cgroup_defaults_and_nice_clamp (s : Scheduler) (e : Event) :
  let s' := snd (scheduler_process_event s e) in
  (ev_action e = EVENT_CGROUP_CREATE ->
   (length (cgroups s) < MAX_CGROUPS)%nat ->
   exists c, cgroups s' = cgroups s ++ [c]
     /\ (ev_has_cpu_shares e = true -> ev_cpu_shares e <= 0 ->
         cpu_shares c = DEFAULT_CPU_SHARES)
     /\ (ev_has_cpu_period e = true -> ev_cpu_period_us e <= 0 ->
         cpu_period_us c = DEFAULT_CPU_PERIOD_US))
  /\ (forall k c,
      ev_action e = EVENT_CGROUP_MODIFY ->
      scheduler_find_cgroup s (ev_cgroup_id e) = Some (k, c) ->
      exists c', cgroups s' !! k = Some c'
        /\ (ev_has_cpu_shares e = true -> ev_cpu_shares e <= 0 ->
            cpu_shares c' = cpu_shares c)
        /\ (ev_has_cpu_period e = true -> ev_cpu_period_us e <= 0 ->
            cpu_period_us c' = cpu_period_us c))
  /\ (forall p t,
      ev_action e = EVENT_TASK_SETNICE ->
      scheduler_find_task s (ev_task_id e) = Some p ->
      task_mem s !! p = Some t ->
      exists t', task_mem s' !! p = Some t'
        /\ nice t' = Z.max (-20) (Z.min 19 (ev_nice e)))
  /\ (ev_action e = EVENT_TASK_CREATE -> ev_has_nice e = true ->
      exists t', task_mem s' !! next_task s = Some t'
        /\ nice t' = Z.max (-20) (Z.min 19 (ev_nice e))).
Proof.
  intros s'. subst s'. unfold scheduler_process_event.
  split; [|split; [|split]].
  - intros -> Hlen. unfold do_cgroup_create, scheduler_add_cgroup.
    destruct (Nat.leb_spec MAX_CGROUPS (length (cgroups s))) as [Hge|_];
      [lia|].
    cbn [snd with_cgroups cgroups]. eexists. split; [reflexivity|].
    cbn. split.
    + intros -> Hle. destruct (ev_cpu_shares e >? 0) eqn:E; [lia|reflexivity].
    + intros -> Hle.
      destruct (ev_cpu_period_us e >? 0) eqn:E; [lia|reflexivity].
  - intros k c -> Hfind. unfold do_cgroup_modify. rewrite Hfind.
    apply scheduler_find_cgroup_Some in Hfind as [Hk _].
    cbn [snd with_cgroups cgroups].
    eexists. split.
    { apply list_lookup_insert_eq. now apply lookup_lt_Some in Hk. }
    split.
    + intros -> Hle.
      destruct (ev_has_cpu_period e && (ev_cpu_period_us e >? 0)); cbn;
        destruct (ev_cpu_shares e >? 0) eqn:E; (lia || reflexivity).
    + intros -> Hle. cbn [andb].
      destruct (ev_cpu_period_us e >? 0) eqn:E; [lia|]. cbn.
      rewrite E. reflexivity.
  - intros p t -> Hfind Hp. unfold do_task_setnice, on_task. rewrite Hfind.
    cbn [snd with_task_mem task_mem].
    eexists. split; [apply lookup_assign_eq; exact Hp|].
    cbn. apply clamp_nice_spec.
  - intros -> Hn. destruct (do_task_create_new s e) as (t' & H1 & H2 & _).
    exists t'. split; [exact H1|]. rewrite H2, Hn. apply clamp_nice_spec.
Qed.

(** ** Result codes and the decision record *)

Lemma scheduler_add_task_cpu_queues s p :
  cpu_queues (snd (scheduler_add_task s p)) = cpu_queues s.
Proof.
  unfold scheduler_add_task. destruct (_ <=? _)%nat; auto.
  destruct (is_runnable _); auto.
Qed.

Lemma scheduler_remove_task_cpu_count s id :
  cpu_count (snd (scheduler_remove_task s id)) = cpu_count s.
Proof.
  unfold scheduler_remove_task, cpu_count.
  destruct (find_pos _ _); auto. cbn. now rewrite length_map.
Qed.

Lemma scheduler_remove_cgroup_cpu_queues s id :
  cpu_queues (snd (scheduler_remove_cgroup s id)) = cpu_queues s.
Proof.
  unfold scheduler_remove_cgroup.
  destruct (scheduler_find_cgroup s id) as [[i c]|]; auto.
Qed.

Lemma process_event_cpu_count s e :
  cpu_count (snd (scheduler_process_event s e)) = cpu_count s.
Proof.
  unfold scheduler_process_event.
  destruct (ev_action e); auto;
    unfold do_task_create, do_task_exit, do_task_block, do_task_unblock,
      do_task_yield, do_task_setnice, do_task_set_affinity,
      do_cgroup_create, do_cgroup_modify, do_cgroup_delete,
      do_task_move_cgroup, do_cpu_burst, on_task, alloc_task;
    try (destruct (scheduler_find_task s (ev_task_id e)) as [p|];
         [|reflexivity]);
    cbn [snd];
    first
      [ reflexivity
      | unfold cpu_count; now rewrite scheduler_add_task_cpu_queues
      | now rewrite scheduler_remove_task_cpu_count
      | unfold cpu_count; now rewrite scheduler_remove_cgroup_cpu_queues
      | destruct (_ >=? 0);
        [unfold cpu_count; cbn; now rewrite length_insert|reflexivity]
      | destruct (is_blocked _); [destruct (dlt _ _)|]; reflexivity
      | destruct (_ >=? 0); reflexivity
      | unfold scheduler_add_cgroup; destruct (_ <=? _)%nat; reflexivity
      | destruct (scheduler_find_cgroup s (ev_cgroup_id e)) as [[k c]|];
        reflexivity ].
Qed.

Lemma process_events_cpu_count evs s :
  cpu_count (process_events s evs) = cpu_count s.
Proof.
  revert s. induction evs as [|e evs IH]; intros s; [reflexivity|].
  unfold process_events in *. cbn [fold_left].
  now rewrite IH, process_event_cpu_count.
Qed.

Lemma account_cpu_cpu_count s i : cpu_count (account_cpu s i) = cpu_count s.
Proof.
  unfold account_cpu, cpu_count. cbn [cpu_queues with_cpu_queues].
  rewrite length_insert.
  destruct (cpu_queues s !! i) as [[p|]|]; auto.
  destruct (is_running _); auto.
Qed.

Lemma fold_account_cpu_count l s :
  cpu_count (fold_left account_cpu l s) = cpu_count s.
Proof.
  revert s. induction l as [|i l IH]; intros s; [reflexivity|].
  cbn [fold_left]. now rewrite IH, account_cpu_cpu_count.
Qed.

Lemma tick_prepare_cpu_count s vtime :
  cpu_count (tick_prepare s vtime) = cpu_count s.
Proof.
  unfold tick_prepare, rebuild_runnable_heap, account_all.
  unfold cpu_count at 1. cbn [cpu_queues with_heap].
  fold (cpu_count (fold_left account_cpu
    (seq 0 (cpu_count (refresh_cgroup_periods (with_clock vtime 0 0 s) vtime)))
    (refresh_cgroup_periods (with_clock vtime 0 0 s) vtime))).
  now rewrite fold_account_cpu_count.
Qed.

Lemma select_cpu_schedule_length prev tick_us a cpu :
  length (sel_schedule (select_cpu prev tick_us a cpu))
  = S (length (sel_schedule a)).
Proof.
  unfold select_cpu.
  destruct (pick_task_for_cpu _ _ _ _) as [[[b|] planned] s1]; cbn;
    rewrite length_app; cbn; lia.
Qed.

Lemma fold_select_schedule_length prev tick_us l a :
  length (sel_schedule (fold_left (select_cpu prev tick_us) l a))
  = (length (sel_schedule a) + length l)%nat.
Proof.
  revert a. induction l as [|c l IH]; intros a; cbn [fold_left length];
    [lia|].
  rewrite IH, select_cpu_schedule_length. lia.
Qed.

Lemma scheduler_tick_record s vtime :
  tick_vtime (fst (scheduler_tick s vtime)) = vtime
  /\ length (schedule (fst (scheduler_tick s vtime))) = cpu_count s.
Proof.
  unfold scheduler_tick. cbn [fst tick_vtime schedule]. split; [reflexivity|].
  unfold tick_select. rewrite fold_select_schedule_length.
  cbn [sel_schedule length]. rewrite length_seq.
  apply tick_prepare_cpu_count.
Qed.

(** The result code of an event, an event whose referent is missing, and
    the decision record of the tick that follows. *)
Lemma process_event_codes (s : Scheduler) (e : Event) :
  (fst (scheduler_process_event s e) <> 0 <-> ev_action e = EVENT_INVALID)
  /\ (ev_action e = EVENT_INVALID -> snd (scheduler_process_event s e) = s)
  /\ (names_missing_referent s e = true ->
      scheduler_process_event s e = (0, s))
  /\ (forall tf,
      tick_vtime (fst (run_timeframe s tf)) = tf_vtime tf
      /\ length (schedule (fst (run_timeframe s tf))) = cpu_count s).
Proof.
  split; [|split; [|split]].
  - unfold scheduler_process_event.
    destruct (ev_action e); cbn;
      unfold do_task_exit, do_task_block, do_task_unblock, do_task_yield,
        do_task_setnice, do_task_set_affinity, do_cgroup_modify,
        do_task_move_cgroup, do_cpu_burst, on_task;
      try (destruct (scheduler_find_task s (ev_task_id e)) as [p|]);
      try (destruct (scheduler_find_cgroup s (ev_cgroup_id e)) as [[k c]|]);
      cbn; split; intros H; try discriminate; try reflexivity;
      try (exfalso; apply H; reflexivity).
  - unfold scheduler_process_event. now intros ->.
  - unfold names_missing_referent, scheduler_process_event.
    destruct (ev_action e); try discriminate;
      unfold do_task_exit, do_task_block, do_task_unblock, do_task_yield,
        do_task_setnice, do_task_set_affinity, do_cgroup_modify,
        do_cgroup_delete, scheduler_remove_cgroup,
        do_task_move_cgroup, do_cpu_burst, on_task;
      try (destruct (scheduler_find_task s (ev_task_id e)) as [p|];
           [discriminate|reflexivity]);
      destruct (scheduler_find_cgroup s (ev_cgroup_id e)) as [[k c]|];
      (discriminate || reflexivity).
  - intros tf. unfold run_timeframe.
    destruct (scheduler_tick_record (process_events s (tf_events tf))
                                    (tf_vtime tf)) as [H1 H2].
    split; [exact H1|]. rewrite H2. apply process_events_cpu_count.
Qed.

(** ** The cgroup registry under events and ticks *)

Lemma pick_loop_cgroups fuel s cpu planned tick_us deferred :
  cgroups (snd (pick_loop fuel s cpu planned tick_us deferred)) = cgroups s.
Proof.
  revert s deferred. induction fuel as [|fuel IH]; intros s deferred;
    cbn [pick_loop]; [reflexivity|].
  destruct (heap_extract_min _ _) as [[c|] [h m]]; [|reflexivity].
  destruct (negb (can_task_run_on_cpu _ _ _)); [now rewrite IH|].
  destruct (negb (quota_admits _ _ _ _)); [now rewrite IH|].
  reflexivity.
Qed.

Lemma fold_reinsert_cgroups l s :
  cgroups (fold_left reinsert l s) = cgroups s.
Proof.
  revert s. induction l as [|p l IH]; intros s; [reflexivity|].
  cbn [fold_left]. now rewrite IH.
Qed.

Lemma pick_task_for_cpu_cgroups s cpu planned tick_us :
  cgroups (snd (pick_task_for_cpu s cpu planned tick_us)) = cgroups s.
Proof.
  unfold pick_task_for_cpu.
  pose proof (pick_loop_cgroups (length (runnable_heap s)) s cpu planned
                                tick_us []) as H.
  destruct (pick_loop _ _ _ _ _ _) as [[sel deferred] s1].
  cbn [snd] in *. now rewrite fold_reinsert_cgroups.
Qed.

Lemma assign_best_cgroups prev cpu b s :
  cgroups (assign_best prev cpu b s) = cgroups s.
Proof.
  unfold assign_best. cbn [cgroups with_cpu_queues with_task_mem].
  destruct (_ && _); cbn [cgroups with_migrations];
    destruct prev as [q|]; try reflexivity;
    destruct (negb _); try reflexivity;
    destruct (is_running _); reflexivity.
Qed.

Lemma select_cpu_cgroups prev tick_us a cpu :
  cgroups (sel_sched (select_cpu prev tick_us a cpu))
  = cgroups (sel_sched a).
Proof.
  unfold select_cpu.
  pose proof (pick_task_for_cpu_cgroups (sel_sched a) cpu (sel_planned a)
                                        tick_us) as H.
  destruct (pick_task_for_cpu _ _ _ _) as [[[b|] planned] s1];
    cbn [snd sel_sched] in *; [|exact H].
  now rewrite assign_best_cgroups.
Qed.

Lemma fold_select_cgroups prev tick_us l a :
  cgroups (sel_sched (fold_left (select_cpu prev tick_us) l a))
  = cgroups (sel_sched a).
Proof.
  revert a. induction l as [|c l IH]; intros a; [reflexivity|].
  cbn [fold_left]. now rewrite IH, select_cpu_cgroups.
Qed.

Lemma cgroup_account_runtime_id r c :
  cg_id (cgroup_account_runtime r c) = cg_id c.
Proof. unfold cgroup_account_runtime. now destruct (_ && _). Qed.

Lemma refresh_cgroup_id tick_us vtime c :
  cg_id (refresh_cgroup tick_us vtime c) = cg_id c.
Proof.
  unfold refresh_cgroup. destruct (_ <=? 0); [reflexivity|].
  destruct (_ <? _); [reflexivity|]. now destruct (_ >=? _).
Qed.

Lemma account_cpu_cgroup_ids s i :
  cg_id <$> cgroups (account_cpu s i) = cg_id <$> cgroups s.
Proof.
  unfold account_cpu. cbn [cgroups with_cpu_queues].
  destruct (cpu_queues s !! i) as [[p|]|]; try reflexivity.
  destruct (is_running _); [|reflexivity].
  cbn [cgroups with_cgroups]. destruct (nonempty _); [|reflexivity].
  destruct (scheduler_find_cgroup s _) as [[k cg]|] eqn:E; [|reflexivity].
  apply scheduler_find_cgroup_Some in E as [Hk _].
  rewrite list_fmap_insert, cgroup_account_runtime_id.
  apply list_insert_id. now rewrite list_lookup_fmap, Hk.
Qed.

Lemma fold_account_cgroup_ids l s :
  cg_id <$> cgroups (fold_left account_cpu l s) = cg_id <$> cgroups s.
Proof.
  revert s. induction l as [|i l IH]; intros s; [reflexivity|].
  cbn [fold_left]. now rewrite IH, account_cpu_cgroup_ids.
Qed.

Lemma scheduler_tick_cgroup_ids s vtime :
  cg_id <$> cgroups (snd (scheduler_tick s vtime)) = cg_id <$> cgroups s.
Proof.
  unfold scheduler_tick. cbn [snd cgroups with_task_mem].
  unfold tick_select. rewrite fold_select_cgroups. cbn [sel_sched].
  unfold tick_prepare, rebuild_runnable_heap. cbn [cgroups with_heap].
  unfold account_all. rewrite fold_account_cgroup_ids.
  unfold refresh_cgroup_periods. cbn [cgroups with_cgroups with_clock].
  rewrite <- list_fmap_compose. apply list_fmap_ext.
  intros i c _. apply refresh_cgroup_id.
Qed.

Lemma find_cgroup_from_ids i l l' id :
  cg_id <$> l = cg_id <$> l' ->
  find_cgroup_from i l id = None -> find_cgroup_from i l' id = None.
Proof.
  intros H. rewrite !find_cgroup_from_None, !Forall_forall. intros Hl c Hc.
  assert (Hin : cg_id c ∈ cg_id <$> l).
  { rewrite H. apply list_elem_of_fmap. exists c. split; [reflexivity|].
    exact Hc. }
  apply list_elem_of_fmap in Hin as (c' & -> & Hc').
  now apply Hl.
Qed.

Lemma scheduler_add_task_cgroups s p :
  cgroups (snd (scheduler_add_task s p)) = cgroups s.
Proof.
  unfold scheduler_add_task. destruct (_ <=? _)%nat; auto.
  destruct (is_runnable _); auto.
Qed.

Lemma scheduler_remove_task_cgroups s id :
  cgroups (snd (scheduler_remove_task s id)) = cgroups s.
Proof. unfold scheduler_remove_task. destruct (find_pos _ _); auto. Qed.

Lemma swap_remove_Forall {A} (P : A -> Prop) d i l :
  Forall P l -> Forall P (swap_remove d i l).
Proof.
  intros H. unfold swap_remove. apply Forall_take.
  destruct (decide (i < length l)%nat) as [Hi|Hi].
  - apply Forall_insert; [exact H|].
    destruct (nth_lookup_or_length l (length l - 1) d) as [Hn|Hn]; [|lia].
    eapply Forall_lookup_1; eauto.
  - rewrite list_insert_ge by lia. exact H.
Qed.

Lemma process_event_unregistered s e id :
  ev_action e <> EVENT_CGROUP_CREATE ->
  scheduler_find_cgroup s id = None ->
  scheduler_find_cgroup (snd (scheduler_process_event s e)) id = None.
Proof.
  intros Hne Hnone. unfold scheduler_find_cgroup in *.
  assert (Hsame : forall s', cgroups s' = cgroups s ->
                             find_cgroup_from 0 (cgroups s') id = None).
  { intros s' ->. exact Hnone. }
  unfold scheduler_process_event.
  destruct (ev_action e); try contradiction; try (exact Hnone);
    unfold do_task_create, do_task_exit, do_task_block, do_task_unblock,
      do_task_yield, do_task_setnice, do_task_set_affinity,
      do_cgroup_modify, do_cgroup_delete,
      do_task_move_cgroup, do_cpu_burst, on_task, alloc_task;
    try (destruct (scheduler_find_task s (ev_task_id e)) as [p|];
         [|exact Hnone]);
    cbn [snd];
    try (apply Hsame;
         first
           [ reflexivity
           | now rewrite scheduler_add_task_cgroups
           | now rewrite scheduler_remove_task_cgroups
           | destruct (_ >=? 0); reflexivity
           | destruct (is_blocked _); [destruct (dlt _ _)|]; reflexivity ]).
  - unfold scheduler_find_cgroup.
    destruct (find_cgroup_from 0 (cgroups s) (ev_cgroup_id e))
      as [[k c]|] eqn:E; [|exact Hnone].
    cbn [snd cgroups with_cgroups].
    apply find_cgroup_from_None. apply find_cgroup_from_None in Hnone.
    apply find_cgroup_from_Some in E as (_ & Hk & Hid).
    rewrite Nat.sub_0_r in Hk.
    pose proof (Forall_lookup_1 _ _ _ _ Hnone Hk) as Hc. cbv beta in Hc.
    apply Forall_insert; [exact Hnone|].
    destruct (ev_has_cpu_period e && _); exact Hc.
  - unfold scheduler_remove_cgroup, scheduler_find_cgroup.
    destruct (find_cgroup_from 0 (cgroups s) (ev_cgroup_id e))
      as [[k c]|] eqn:E; [|exact Hnone].
    cbn [snd cgroups with_cgroups with_task_mem].
    apply find_cgroup_from_None. apply find_cgroup_from_None in Hnone.
    now apply swap_remove_Forall.
Qed.

Lemma int_of_longlong_small x :
  -2147483648 <= x <= INT_MAX -> int_of_longlong x = x.
Proof.
  unfold int_of_longlong, INT_MAX. intros H.
  rewrite Z.mod_small by lia. lia.
Qed.

(** C10: a task whose cgroup identifier matches no record of the registry
    is unconstrained by cgroups: only its own affinity decides where it
    may run, the quota test admits it, and its effective weight is the
    weight of its nice value.  The identifier "0" is such an identifier
    unless a CgroupCreate event registers it: the registry is empty at
    initialisation, and no other event and no tick makes an unregistered
    identifier resolve. *)
Theorem unregistered_cgroup_is_unconstrained (s : Scheduler) (t : Task) :
  scheduler_find_cgroup s (cgroup_id t) = None ->
  weight t = nice_to_weight (nice t) ->
  (forall cpu, can_task_run_on_cpu s t cpu = task_can_run_on_cpu t cpu)
  /\ (forall planned tick_us, quota_admits s planned tick_us t = true)
  /\ get_effective_task_weight s t = nice_to_weight (nice t)
  /\ (forall ncpu q, scheduler_find_cgroup (scheduler_init ncpu q) "0" = None)
  /\ (forall e, ev_action e <> EVENT_CGROUP_CREATE ->
        scheduler_find_cgroup (snd (scheduler_process_event s e))
                              (cgroup_id t) = None)
  /\ (forall vtime,
        scheduler_find_cgroup (snd (scheduler_tick s vtime)) (cgroup_id t)
        = None).
Proof.
  intros Hnone Hw. repeat split.
  - intros cpu. unfold can_task_run_on_cpu. rewrite Hnone.
    destruct (task_can_run_on_cpu t cpu); cbn; [|reflexivity].
    now destruct (nonempty _).
  - intros planned tick_us. unfold quota_admits. rewrite Hnone.
    now destruct (nonempty _).
  - unfold get_effective_task_weight. rewrite Hnone, Hw.
    pose proof (nice_to_weight_range (nice t)) as Hr.
    assert (E : (if nonempty (cgroup_id t) then nice_to_weight (nice t)
                 else nice_to_weight (nice t)) = nice_to_weight (nice t))
      by now destruct (nonempty _).
    rewrite E. destruct (Z.ltb_spec (nice_to_weight (nice t)) 1); [lia|].
    apply int_of_longlong_small. unfold INT_MAX. lia.
  - intros e He. now apply process_event_unregistered.
  - intros vtime. unfold scheduler_find_cgroup in *.
    eapply find_cgroup_from_ids; [|exact Hnone].
    symmetry. apply scheduler_tick_cgroup_ids.
Qed.

(** ** The accounting loop of a tick *)

Lemma TaskState_eqb_eq a b : TaskState_eqb a b = true <-> a = b.
Proof. destruct a, b; cbn; split; congruence. Qed.

Lemma is_running_true t : is_running t = true <-> state t = TASK_STATE_RUNNING.
Proof. apply TaskState_eqb_eq. Qed.

Lemma is_runnable_true t :
  is_runnable t = true <-> state t = TASK_STATE_RUNNABLE.
Proof. apply TaskState_eqb_eq. Qed.

Lemma is_running_false t :
  state t <> TASK_STATE_RUNNING -> is_running t = false.
Proof.
  intros H. destruct (is_running t) eqn:E; [|reflexivity].
  now apply is_running_true in E.
Qed.

Lemma nonempty_true id : nonempty id = true <-> id <> "".
Proof. destruct id; cbn; split; congruence. Qed.

Lemma account_cpu_running s i p t :
  cpu_queues s !! i = Some (Some p) ->
  task_mem s !! p = Some t ->
  state t = TASK_STATE_RUNNING ->
  task_mem (account_cpu s i) !! p = Some (accounted s t).
Proof.
  intros Hq Hp Hst. unfold account_cpu. rewrite Hq.
  rewrite (deref_lookup _ _ _ Hp).
  apply is_running_true in Hst. rewrite Hst.
  cbn [task_mem with_cpu_queues with_cgroups with_task_mem].
  unfold accounted. destruct (is_burst t) eqn:Eb; cbn [negb].
  - rewrite (deref_lookup _ _ _ Hp), Eb. cbn [andb].
    destruct (burst_remaining t >? 0).
    + erewrite lookup_assign_eq; [reflexivity|].
      now apply lookup_assign_eq.
    + now apply lookup_assign_eq.
  - erewrite (deref_assign_eq _ _ _ _ Hp). cbn [is_burst set_vruntime andb].
    rewrite Eb. cbn [andb].
    erewrite lookup_assign_eq; [reflexivity|]. now apply lookup_assign_eq.
Qed.

Lemma account_cpu_other s i p :
  cpu_queues s !! i <> Some (Some p) ->
  task_mem (account_cpu s i) !! p = task_mem s !! p.
Proof.
  intros Hq. unfold account_cpu.
  destruct (cpu_queues s !! i) as [[q|]|]; try reflexivity.
  assert (Hne : q <> p) by congruence.
  destruct (is_running _); [|reflexivity].
  cbn [task_mem with_cpu_queues with_cgroups with_task_mem].
  rewrite lookup_assign_ne by exact Hne.
  destruct (_ && _); rewrite ?lookup_assign_ne by exact Hne;
    destruct (negb _); rewrite ?lookup_assign_ne by exact Hne; reflexivity.
Qed.

Lemma account_cpu_not_running s i p t :
  task_mem s !! p = Some t ->
  state t <> TASK_STATE_RUNNING ->
  task_mem (account_cpu s i) !! p = Some t.
Proof.
  intros Hp Hst.
  destruct (decide (cpu_queues s !! i = Some (Some p))) as [Hq|Hq].
  - unfold account_cpu. rewrite Hq, (deref_lookup _ _ _ Hp).
    rewrite (is_running_false _ Hst). exact Hp.
  - rewrite account_cpu_other by exact Hq. exact Hp.
Qed.

Lemma fold_account_not_running l s p t :
  task_mem s !! p = Some t ->
  state t <> TASK_STATE_RUNNING ->
  task_mem (fold_left account_cpu l s) !! p = Some t.
Proof.
  revert s. induction l as [|i l IH]; intros s Hp Hst; [exact Hp|].
  cbn [fold_left]. apply IH; [|exact Hst].
  now apply account_cpu_not_running.
Qed.

Lemma account_cpu_queues_other s i j :
  i <> j -> cpu_queues (account_cpu s i) !! j = cpu_queues s !! j.
Proof.
  intros Hne. unfold account_cpu. cbn [cpu_queues with_cpu_queues].
  rewrite list_lookup_insert_ne by exact Hne.
  destruct (cpu_queues s !! i) as [[q|]|]; try reflexivity.
  now destruct (is_running _).
Qed.

Lemma account_cpu_quanta s i : quanta (account_cpu s i) = quanta s.
Proof.
  unfold account_cpu. cbn [quanta with_cpu_queues].
  destruct (cpu_queues s !! i) as [[q|]|]; try reflexivity.
  now destruct (is_running _).
Qed.

Lemma find_cgroup_from_same_shares i l l' id :
  Forall2 same_shares l l' ->
  match find_cgroup_from i l id, find_cgroup_from i l' id with
  | Some (k, c), Some (k', c') => k = k' /\ same_shares c c'
  | None, None => True
  | _, _ => False
  end.
Proof.
  intros H. revert i. induction H as [|c c' l l' [Hid Hsh] _ IH]; intros i;
    cbn [find_cgroup_from]; [exact I|].
  rewrite <- Hid. destruct (String.eqb (cg_id c) id).
  - split; [reflexivity|]. split; assumption.
  - apply IH.
Qed.

Lemma effective_weight_same_shares s s' t :
  Forall2 same_shares (cgroups s) (cgroups s') ->
  get_effective_task_weight s' t = get_effective_task_weight s t.
Proof.
  intros H. unfold get_effective_task_weight, scheduler_find_cgroup.
  pose proof (find_cgroup_from_same_shares 0 _ _ (cgroup_id t) H) as Hf.
  destruct (find_cgroup_from 0 (cgroups s) _) as [[k c]|],
           (find_cgroup_from 0 (cgroups s') _) as [[k' c']|];
    try contradiction; [|reflexivity].
  destruct Hf as (_ & _ & ->). reflexivity.
Qed.

Lemma same_shares_refl l : Forall2 same_shares l l.
Proof. induction l; constructor; auto. split; reflexivity. Qed.

Lemma account_cpu_same_shares s i :
  Forall2 same_shares (cgroups s) (cgroups (account_cpu s i)).
Proof.
  unfold account_cpu. cbn [cgroups with_cpu_queues].
  destruct (cpu_queues s !! i) as [[q|]|]; try apply same_shares_refl.
  destruct (is_running _); [|apply same_shares_refl].
  cbn [cgroups with_cgroups]. destruct (nonempty _); [|apply same_shares_refl].
  destruct (scheduler_find_cgroup s _) as [[k cg]|] eqn:E;
    [|apply same_shares_refl].
  apply scheduler_find_cgroup_Some in E as [Hk _].
  rewrite <- (list_insert_id _ _ _ Hk) at 1.
  apply Forall2_insert; [apply same_shares_refl|].
  unfold cgroup_account_runtime. destruct (_ && _); split; reflexivity.
Qed.

Lemma accounted_same_shares s s' t :
  Forall2 same_shares (cgroups s) (cgroups s') ->
  quanta s' = quanta s ->
  accounted s' t = accounted s t.
Proof.
  intros H Hq. unfold accounted.
  now rewrite Hq, (effective_weight_same_shares _ _ _ H).
Qed.

Lemma accounted_state s t : state (accounted s t) = TASK_STATE_RUNNABLE.
Proof. reflexivity. Qed.

Lemma accounted_vruntime s t :
  vruntime (accounted s t)
  = if is_burst t then vruntime t
    else (vruntime t
          + calc_vruntime_delta (double_of_int (quanta s))
                                (get_effective_task_weight s t))%float.
Proof.
  unfold accounted. destruct (is_burst t) eqn:E; cbn [negb].
  - rewrite E. cbn [andb]. now destruct (_ >? 0).
  - cbn [is_burst set_vruntime]. rewrite E. reflexivity.
Qed.

(** A task that is Running and current on one of the CPUs that the loop
    still has to visit is accounted exactly once. *)
Lemma fold_account_running l s i p t :
  i ∈ l ->
  cpu_queues s !! i = Some (Some p) ->
  task_mem s !! p = Some t ->
  state t = TASK_STATE_RUNNING ->
  task_mem (fold_left account_cpu l s) !! p = Some (accounted s t).
Proof.
  revert s. induction l as [|j l IH]; intros s Hi Hq Hp Hst.
  - now apply elem_of_nil in Hi.
  - cbn [fold_left].
    destruct (decide (cpu_queues s !! j = Some (Some p))) as [Hj|Hj].
    + apply fold_account_not_running.
      * now apply account_cpu_running.
      * rewrite accounted_state. discriminate.
    + assert (Hne : j <> i) by congruence.
      apply elem_of_cons in Hi as [->|Hi]; [congruence|].
      rewrite <- (accounted_same_shares s (account_cpu s j) t).
      * apply IH; auto.
        -- now rewrite account_cpu_queues_other.
        -- now rewrite account_cpu_other.
      * apply account_cpu_same_shares.
      * apply account_cpu_quanta.
Qed.

Lemma account_all_running s i p t :
  cpu_queues s !! i = Some (Some p) ->
  task_mem s !! p = Some t ->
  state t = TASK_STATE_RUNNING ->
  task_mem (account_all s) !! p = Some (accounted s t).
Proof.
  intros Hq Hp Hst. unfold account_all.
  apply fold_account_running with (i := i); auto.
  apply elem_of_seq. apply lookup_lt_Some in Hq. unfold cpu_count. lia.
Qed.

(** The quota accounting of one iteration. *)
Lemma account_cpu_cgroup s i p t k cg :
  cpu_queues s !! i = Some (Some p) ->
  task_mem s !! p = Some t ->
  state t = TASK_STATE_RUNNING ->
  cgroup_id t <> "" ->
  scheduler_find_cgroup s (cgroup_id t) = Some (k, cg) ->
  cgroups (account_cpu s i) !! k
  = Some (cgroup_account_runtime
            (double_of_int (quanta s) * 1000)%float cg).
Proof.
  intros Hq Hp Hst Hid Hfind. unfold account_cpu. rewrite Hq.
  rewrite (deref_lookup _ _ _ Hp).
  apply is_running_true in Hst. rewrite Hst.
  cbn [cgroups with_cpu_queues with_cgroups].
  apply nonempty_true in Hid. rewrite Hid, Hfind.
  apply scheduler_find_cgroup_Some in Hfind as [Hk _].
  apply list_lookup_insert_eq. now apply lookup_lt_Some in Hk.
Qed.

(** ** Frame properties of the selection

    After the accounting loop a tick writes [heap_index], [state] and
    [current_cpu] only. *)

Section SelectionFrame.
Context {X : Type} (proj : Task -> X).
Hypothesis proj_index : forall i t, proj (set_heap_index i t) = proj t.
Hypothesis proj_state : forall st t, proj (set_state st t) = proj t.
Hypothesis proj_cpu : forall c t, proj (set_current_cpu c t) = proj t.

Lemma rebuild_step_frame hm p :
  proj <$> snd (rebuild_step hm p) = proj <$> snd hm.
Proof.
  unfold rebuild_step. destruct (is_runnable _); cbn [snd].
  - rewrite heap_insert_frame by exact proj_index.
    apply proj_assign, proj_index.
  - apply proj_assign, proj_index.
Qed.

Lemma rebuild_runnable_heap_frame s :
  proj <$> task_mem (rebuild_runnable_heap s) = proj <$> task_mem s.
Proof.
  unfold rebuild_runnable_heap. cbn [task_mem with_heap].
  change (task_mem s) with (snd (@nil nat, task_mem s)) at 2.
  generalize (@nil nat, task_mem s).
  induction (all_tasks s) as [|p l IH]; intros hm; [reflexivity|].
  cbn [fold_left]. now rewrite IH, rebuild_step_frame.
Qed.

Lemma pick_loop_frame fuel s cpu planned tick_us deferred :
  proj <$> task_mem (snd (pick_loop fuel s cpu planned tick_us deferred))
  = proj <$> task_mem s.
Proof.
  revert s deferred. induction fuel as [|fuel IH]; intros s deferred;
    cbn [pick_loop]; [reflexivity|].
  pose proof (heap_extract_min_frame proj proj_index (runnable_heap s)
                                     (task_mem s)) as He.
  destruct (heap_extract_min _ _) as [[c|] [h m]]; [|reflexivity].
  cbn [snd] in He.
  destruct (negb (can_task_run_on_cpu _ _ _)); [now rewrite IH|].
  destruct (negb (quota_admits _ _ _ _)); [now rewrite IH|].
  exact He.
Qed.

Lemma pick_task_for_cpu_frame s cpu planned tick_us :
  proj <$> task_mem (snd (pick_task_for_cpu s cpu planned tick_us))
  = proj <$> task_mem s.
Proof.
  unfold pick_task_for_cpu.
  pose proof (pick_loop_frame (length (runnable_heap s)) s cpu planned
                              tick_us []) as H.
  destruct (pick_loop _ _ _ _ _ _) as [[sel deferred] s1].
  cbn [snd] in *. now rewrite fold_reinsert_frame.
Qed.

Lemma assign_best_frame prev cpu b s :
  proj <$> task_mem (assign_best prev cpu b s) = proj <$> task_mem s.
Proof.
  unfold assign_best. cbn [task_mem with_cpu_queues with_task_mem].
  rewrite !proj_assign by (intros; auto).
  destruct (_ && _); cbn [task_mem with_migrations];
    destruct prev as [q|]; try reflexivity;
    destruct (negb _); try reflexivity;
    destruct (is_running _); cbn [task_mem with_task_mem with_preemptions];
    try reflexivity; apply proj_assign; auto.
Qed.

Lemma select_cpu_frame prev tick_us a cpu :
  proj <$> task_mem (sel_sched (select_cpu prev tick_us a cpu))
  = proj <$> task_mem (sel_sched a).
Proof.
  unfold select_cpu.
  pose proof (pick_task_for_cpu_frame (sel_sched a) cpu (sel_planned a)
                                      tick_us) as H.
  destruct (pick_task_for_cpu _ _ _ _) as [[[b|] planned] s1];
    cbn [snd sel_sched] in *; [|exact H].
  now rewrite assign_best_frame.
Qed.

Lemma fold_select_frame prev tick_us l a :
  proj <$> task_mem (sel_sched (fold_left (select_cpu prev tick_us) l a))
  = proj <$> task_mem (sel_sched a).
Proof.
  revert a. induction l as [|c l IH]; intros a; [reflexivity|].
  cbn [fold_left]. now rewrite IH, select_cpu_frame.
Qed.

Lemma clear_unassigned_frame tasks assigned m :
  proj <$> clear_unassigned tasks assigned m = proj <$> m.
Proof.
  revert assigned m. induction tasks as [|p tasks IH]; intros assigned m;
    [reflexivity|].
  destruct assigned as [|a assigned]; [reflexivity|].
  cbn [clear_unassigned]. rewrite IH.
  destruct (_ && _); [|reflexivity]. apply proj_assign; auto.
Qed.

Lemma scheduler_tick_frame s vtime :
  proj <$> task_mem (snd (scheduler_tick s vtime))
  = proj <$> task_mem
               (account_all
                  (refresh_cgroup_periods (with_clock vtime 0 0 s) vtime)).
Proof.
  unfold scheduler_tick. cbn [snd task_mem with_task_mem].
  rewrite clear_unassigned_frame. unfold tick_select.
  rewrite fold_select_frame. cbn [sel_sched]. unfold tick_prepare.
  apply rebuild_runnable_heap_frame.
Qed.

End SelectionFrame.

(** ** Accounting of a running task *)

Lemma refresh_same_shares s vtime :
  Forall2 same_shares (cgroups s)
          (cgroups (refresh_cgroup_periods (with_clock vtime 0 0 s) vtime)).
Proof.
  unfold refresh_cgroup_periods. cbn [cgroups with_cgroups with_clock quanta].
  apply Forall2_fmap_r, Forall_Forall2_diag, Forall_forall.
  intros c _. unfold same_shares, compose.
  rewrite refresh_cgroup_id. split; [reflexivity|].
  unfold refresh_cgroup. destruct (_ <=? 0); [reflexivity|].
  destruct (_ <? _); [reflexivity|]. now destruct (_ >=? _).
Qed.

Lemma scheduler_tick_running s vtime i p t :
  cpu_queues s !! i = Some (Some p) ->
  task_mem s !! p = Some t ->
  state t = TASK_STATE_RUNNING ->
  vruntime (deref (task_mem (snd (scheduler_tick s vtime))) p)
  = vruntime (accounted s t).
Proof.
  intros Hq Hp Hst.
  set (s0 := refresh_cgroup_periods (with_clock vtime 0 0 s) vtime).
  assert (Ha : task_mem (account_all s0) !! p = Some (accounted s0 t))
    by (apply account_all_running with (i := i); assumption).
  assert (Hf : vruntime <$> task_mem (account_all s0)
               = vruntime <$> task_mem (snd (scheduler_tick s vtime))).
  { symmetry. apply scheduler_tick_frame; reflexivity. }
  destruct (proj_lookup vruntime _ _ _ _ Hf Ha) as (t' & Ht' & Hv).
  rewrite (deref_lookup _ _ _ Ht'), Hv.
  f_equal. apply accounted_same_shares; [|reflexivity].
  apply refresh_same_shares.
Qed.

(** C6 (as amended): when the current task T of a CPU is Running with the
    burst flag set, the accounting loop of a tick, and the tick as a whole,
    leave T's vruntime unchanged; and when the cgroup identifier of T is
    not empty and names a registered cgroup whose quota is positive, the
    accounting of that CPU adds quantum * 1000 microseconds to the used
    total of the cgroup. *)
Theorem burst_freezes_vruntime_but_not_quota
    (s : Scheduler) (i p : nat) (t : Task) :
  cpu_queues s !! i = Some (Some p) ->
  task_mem s !! p = Some t ->
  state t = TASK_STATE_RUNNING ->
  is_burst t = true ->
  vruntime (deref (task_mem (account_all s)) p) = vruntime t
  /\ (forall vtime,
      vruntime (deref (task_mem (snd (scheduler_tick s vtime))) p)
      = vruntime t)
  /\ (forall k cg,
      cgroup_id t <> "" ->
      scheduler_find_cgroup s (cgroup_id t) = Some (k, cg) ->
      0 < cpu_quota_us cg ->
      dgt (double_of_int (quanta s) * 1000)%float 0%float = true ->
      quota_used <$> cgroups (account_cpu s i) !! k
      = Some (quota_used cg + double_of_int (quanta s) * 1000)%float).
Proof.
  intros Hq Hp Hst Hb. split; [|split].
  - rewrite (deref_lookup _ _ _ (account_all_running _ _ _ _ Hq Hp Hst)).
    now rewrite accounted_vruntime, Hb.
  - intros vtime. rewrite (scheduler_tick_running _ _ _ _ _ Hq Hp Hst).
    now rewrite accounted_vruntime, Hb.
  - intros k cg Hid Hfind Hquota Hpos.
    rewrite (account_cpu_cgroup _ _ _ _ _ _ Hq Hp Hst Hid Hfind).
    unfold cgroup_account_runtime. rewrite Hpos.
    destruct (Z.gtb_spec (cpu_quota_us cg) 0); [|lia]. reflexivity.
Qed.

Lemma effective_weight_registered s t k cg :
  cgroup_id t <> "" ->
  scheduler_find_cgroup s (cgroup_id t) = Some (k, cg) ->
  0 < weight t ->
  0 < cpu_shares cg ->
  weight t * cpu_shares cg / 1024 <= INT_MAX ->
  get_effective_task_weight s t
  = Z.max 1 (weight t * cpu_shares cg / 1024).
Proof.
  intros Hid Hfind Hw Hs Hmax. unfold get_effective_task_weight.
  apply nonempty_true in Hid. rewrite Hid, Hfind.
  destruct (Z.gtb_spec (cpu_shares cg) 0); [|lia].
  unfold DEFAULT_CPU_SHARES. rewrite Z.quot_div_nonneg by lia.
  assert (0 <= weight t * cpu_shares cg / 1024)
    by (apply Z.div_pos; lia).
  unfold INT_MAX in *.
  destruct (Z.ltb_spec (weight t * cpu_shares cg / 1024) 1);
    rewrite int_of_longlong_small by (unfold INT_MAX; lia); lia.
Qed.

Lemma effective_weight_unregistered s t :
  cgroup_id t = "" \/ scheduler_find_cgroup s (cgroup_id t) = None ->
  0 < weight t <= INT_MAX ->
  get_effective_task_weight s t = weight t.
Proof.
  intros Hid Hw. unfold get_effective_task_weight.
  assert (E : (if nonempty (cgroup_id t)
               then match scheduler_find_cgroup s (cgroup_id t) with
                    | Some (_, cg) =>
                      if cpu_shares cg >? 0
                      then Z.quot (weight t * cpu_shares cg)
                                  DEFAULT_CPU_SHARES
                      else weight t
                    | None => weight t
                    end
               else weight t) = weight t).
  { destruct Hid as [->| ->]; [reflexivity|]. now destruct (nonempty _). }
  rewrite E. destruct (Z.ltb_spec (weight t) 1); [lia|].
  apply int_of_longlong_small. lia.
Qed.

(** C7 (as amended): let T be the current task of a CPU, Running and not
    in burst, with the weight w of its nice value.  When the cgroup
    identifier of T is not empty and names a registered cgroup with shares
    s > 0, and floor(w * s / 1024) fits in an [int], the accounting loop of
    a tick, and the tick as a whole, add exactly
    quantum * (1024 / max(1, floor(w * s / 1024))) to T's vruntime, in
    double arithmetic; when the identifier is empty or names no registered
    cgroup, they add quantum * (1024 / w). *)
Theorem running_task_vruntime_delta
    (s : Scheduler) (i p : nat) (t : Task) :
  cpu_queues s !! i = Some (Some p) ->
  task_mem s !! p = Some t ->
  state t = TASK_STATE_RUNNING ->
  is_burst t = false ->
  weight t = nice_to_weight (nice t) ->
  (forall k cg,
      cgroup_id t <> "" ->
      scheduler_find_cgroup s (cgroup_id t) = Some (k, cg) ->
      0 < cpu_shares cg ->
      weight t * cpu_shares cg / 1024 <= INT_MAX ->
      let v := (vruntime t
                + double_of_int (quanta s)
                  * (double_of_int 1024
                     / double_of_int
                         (Z.max 1 (weight t * cpu_shares cg / 1024))))%float
      in
      vruntime (deref (task_mem (account_all s)) p) = v
      /\ forall vtime,
          vruntime (deref (task_mem (snd (scheduler_tick s vtime))) p) = v)
  /\ (cgroup_id t = "" \/ scheduler_find_cgroup s (cgroup_id t) = None ->
      let v := (vruntime t
                + double_of_int (quanta s)
                  * (double_of_int 1024 / double_of_int (weight t)))%float
      in
      vruntime (deref (task_mem (account_all s)) p) = v
      /\ forall vtime,
          vruntime (deref (task_mem (snd (scheduler_tick s vtime))) p) = v).
Proof.
  intros Hq Hp Hst Hb Hw.
  pose proof (nice_to_weight_range (nice t)) as Hr. rewrite <- Hw in Hr.
  assert (Hall : vruntime (deref (task_mem (account_all s)) p)
                 = vruntime (accounted s t)).
  { now rewrite (deref_lookup _ _ _
                   (account_all_running _ _ _ _ Hq Hp Hst)). }
  assert (Htick : forall vtime,
             vruntime (deref (task_mem (snd (scheduler_tick s vtime))) p)
             = vruntime (accounted s t)).
  { intros vtime. now apply scheduler_tick_running with (i := i). }
  rewrite accounted_vruntime, Hb in Hall.
  setoid_rewrite accounted_vruntime in Htick. rewrite Hb in Htick.
  unfold calc_vruntime_delta, NICE_0_WEIGHT in *.
  split.
  - intros k cg Hid Hfind Hs Hmax.
    rewrite <- (effective_weight_registered s t k cg) by (auto; lia).
    split; [exact Hall|exact Htick].
  - intros Hid.
    rewrite <- (effective_weight_unregistered s t Hid)
      by (unfold INT_MAX; lia).
    split; [exact Hall|exact Htick].
Qed.

(** ** TaskCreate with an identifier that is already registered *)

Lemma find_app_Some {A} (f : A -> bool) l l' x :
  List.find f l = Some x -> List.find f (l ++ l') = Some x.
Proof.
  induction l as [|y l IH]; cbn; [discriminate|].
  destruct (f y); auto.
Qed.

Lemma find_ext_elem {A} (f g : A -> bool) l :
  (forall x, x ∈ l -> f x = g x) -> List.find f l = List.find g l.
Proof.
  induction l as [|y l IH]; intros H; cbn; [reflexivity|].
  rewrite <- (H y) by (apply elem_of_cons; now left).
  destruct (f y); [reflexivity|].
  apply IH. intros x Hx. apply H. apply elem_of_cons. now right.
Qed.

Lemma scheduler_add_task_all_tasks s p :
  (length (all_tasks s) < MAX_TASKS)%nat ->
  all_tasks (snd (scheduler_add_task s p)) = all_tasks s ++ [p].
Proof.
  intros H. unfold scheduler_add_task.
  destruct (Nat.leb_spec MAX_TASKS (length (all_tasks s))); [lia|].
  now destruct (is_runnable _).
Qed.

Lemma scheduler_add_task_full s p :
  (MAX_TASKS <= length (all_tasks s))%nat ->
  all_tasks (snd (scheduler_add_task s p)) = all_tasks s.
Proof.
  intros H. unfold scheduler_add_task.
  destruct (Nat.leb_spec MAX_TASKS (length (all_tasks s))); [|lia].
  reflexivity.
Qed.


(** ** The heap keeps its elements

    Sifting permutes the array of the heap; insertion adds one element and
    extraction removes the root. *)

Lemma slot_lookup (h : list nat) i x : h !! i = Some x -> slot h i = x.
Proof. intros H. unfold slot. now rewrite nth_lookup, H. Qed.

Lemma lookup_slot (h : list nat) i :
  (i < length h)%nat -> h !! i = Some (slot h i).
Proof.
  intros H. destruct (lookup_lt_is_Some_2 h i H) as [x Hx].
  now rewrite (slot_lookup _ _ _ Hx).
Qed.

Lemma heap_swap_length h m i j :
  length (fst (heap_swap h m i j)) = length h.
Proof. unfold heap_swap. cbn [fst]. now rewrite !length_insert. Qed.

Lemma heap_swap_perm h m i j :
  (i < length h)%nat -> (j < length h)%nat ->
  fst (heap_swap h m i j) ≡ₚ h.
Proof.
  intros Hi Hj. unfold heap_swap. cbn [fst].
  apply Permutation_insert_swap; now apply lookup_slot.
Qed.

Lemma parent_lt idx : (0 < idx)%nat -> (parent idx < idx)%nat.
Proof.
  intros H. unfold parent.
  apply Nat.le_lt_trans with (idx - 1)%nat; [|lia].
  apply Nat.Div0.div_le_upper_bound. lia.
Qed.

Lemma heap_bubble_up_loop_perm fuel h m idx :
  (idx < length h)%nat ->
  fst (heap_bubble_up_loop fuel h m idx) ≡ₚ h.
Proof.
  revert h m idx. induction fuel as [|fuel IH]; intros h m idx Hidx;
    cbn [heap_bubble_up_loop]; [reflexivity|].
  destruct (Nat.ltb_spec 0 idx) as [Hpos|Hz]; cbn [andb]; [|reflexivity].
  destruct (dgt _ _); [|reflexivity].
  pose proof (parent_lt idx Hpos) as Hp.
  pose proof (heap_swap_perm h m idx (parent idx) Hidx ltac:(lia)) as Hs.
  pose proof (heap_swap_length h m idx (parent idx)) as Hl.
  destruct (heap_swap h m idx (parent idx)) as [h' m']. cbn [fst] in *.
  rewrite IH by lia. exact Hs.
Qed.

Lemma heap_bubble_down_loop_perm fuel h m idx :
  fst (heap_bubble_down_loop fuel h m idx) ≡ₚ h.
Proof.
  revert h m idx. induction fuel as [|fuel IH]; intros h m idx;
    cbn [heap_bubble_down_loop]; [reflexivity|]. cbv zeta.
  set (c1 := (left_child idx <? length h)%nat
             && dlt (key h m (left_child idx)) (key h m idx)).
  set (m1 := if c1 then left_child idx else idx).
  set (c2 := (right_child idx <? length h)%nat
             && dlt (key h m (right_child idx)) (key h m m1)).
  set (m2 := if c2 then right_child idx else m1).
  destruct (Nat.eqb_spec m2 idx) as [|Hne]; [reflexivity|].
  assert (Hb : (idx < m2 < length h)%nat).
  { subst m2 m1. unfold left_child, right_child in *.
    destruct c2 eqn:E2.
    - subst c2. apply andb_true_iff in E2 as [E2 _].
      apply Nat.ltb_lt in E2. unfold right_child in E2. lia.
    - destruct c1 eqn:E1; [|contradiction].
      subst c1. apply andb_true_iff in E1 as [E1 _].
      apply Nat.ltb_lt in E1. unfold left_child in E1. lia. }
  pose proof (heap_swap_perm h m idx m2 ltac:(lia) ltac:(lia)) as Hs.
  destruct (heap_swap h m idx m2) as [h' m']. cbn [fst] in *.
  rewrite IH. exact Hs.
Qed.

Lemma heap_insert_perm h m p : fst (heap_insert h m p) ≡ₚ p :: h.
Proof.
  unfold heap_insert, heap_bubble_up.
  rewrite heap_bubble_up_loop_perm by (rewrite length_app; cbn; lia).
  now rewrite Permutation_app_comm.
Qed.

Lemma reinsert_perm s p : runnable_heap (reinsert s p) ≡ₚ p :: runnable_heap s.
Proof. unfold reinsert. cbn [runnable_heap with_heap]. apply heap_insert_perm. Qed.

Lemma fold_reinsert_perm l s :
  runnable_heap (fold_left reinsert l s) ≡ₚ l ++ runnable_heap s.
Proof.
  revert s. induction l as [|p l IH]; intros s; [reflexivity|].
  cbn [fold_left]. rewrite IH, reinsert_perm. cbn.
  now rewrite Permutation_middle.
Qed.

Lemma middle_to_end_perm (A B : list nat) x y :
  x :: (A ++ y :: B) ≡ₚ (A ++ x :: B) ++ [y].
Proof.
  rewrite (Permutation_app_comm _ [y]). cbn.
  rewrite <- !Permutation_middle. apply Permutation_swap.
Qed.

Lemma move_last_perm (h : list nat) idx :
  (idx < length h - 1)%nat ->
  slot h idx :: move_last h idx ≡ₚ h.
Proof.
  intros Hidx. unfold move_last.
  set (n := (length h - 1)%nat) in *.
  assert (Hh : h = take n h ++ [slot h n]).
  { rewrite <- (take_drop n h) at 1. f_equal.
    rewrite (drop_S h (slot h n) n) by (apply lookup_slot; lia).
    rewrite drop_ge by lia. reflexivity. }
  assert (Hx : take n h !! idx = Some (slot h idx)).
  { rewrite lookup_take_lt by lia. apply lookup_slot. lia. }
  rewrite insert_take_drop by (rewrite length_take; lia).
  rewrite middle_to_end_perm.
  rewrite (take_drop_middle (take n h) idx (slot h idx) Hx).
  now rewrite <- Hh.
Qed.

Lemma heap_extract_min_perm h m x hm :
  heap_extract_min h m = (Some x, hm) -> x :: fst hm ≡ₚ h.
Proof.
  unfold heap_extract_min. destruct h as [|y h]; [discriminate|].
  destruct (Nat.ltb_spec 0 (length (y :: h) - 1)) as [Hpos|Hz];
    intros H; injection H as <- <-.
  - unfold heap_bubble_down. rewrite heap_bubble_down_loop_perm.
    change y with (slot (y :: h) 0) at 1. now apply move_last_perm.
  - cbn [fst length] in *. destruct h; [reflexivity|cbn in Hz; lia].
Qed.

Lemma heap_extract_min_None h m hm :
  heap_extract_min h m = (None, hm) -> h = [].
Proof.
  unfold heap_extract_min. destruct h as [|y h]; [reflexivity|].
  destruct (_ <? _)%nat; discriminate.
Qed.

(** The loop of [pick_task_for_cpu] moves elements of the heap to the
    deferred array and at most one of them to the result. *)
Lemma pick_loop_perm fuel s cpu planned tick_us deferred sel deferred' s' :
  pick_loop fuel s cpu planned tick_us deferred = (sel, deferred', s') ->
  deferred ++ runnable_heap s
  ≡ₚ option_list sel ++ deferred' ++ runnable_heap s'.
Proof.
  revert s deferred. induction fuel as [|fuel IH]; intros s deferred;
    cbn [pick_loop].
  - intros H. injection H as <- <- <-. reflexivity.
  - destruct (heap_extract_min _ _) as [[c|] [h m]] eqn:E.
    + apply heap_extract_min_perm in E. cbn [fst] in E.
      assert (Hd : deferred ++ runnable_heap s
                   ≡ₚ (deferred ++ [c]) ++ h).
      { rewrite <- E, <- app_assoc. reflexivity. }
      destruct (negb (can_task_run_on_cpu _ _ _)).
      { intros H. apply IH in H. now rewrite Hd. }
      destruct (negb (quota_admits _ _ _ _)).
      { intros H. apply IH in H. now rewrite Hd. }
      intros H. injection H as <- <- <-. cbn [option_list runnable_heap with_heap].
      rewrite <- E. cbn. now rewrite Permutation_middle.
    + intros H. injection H as <- <- <-. reflexivity.
Qed.

Lemma pick_task_for_cpu_perm s cpu planned tick_us sel planned' s' :
  pick_task_for_cpu s cpu planned tick_us = (sel, planned', s') ->
  runnable_heap s ≡ₚ option_list sel ++ runnable_heap s'.
Proof.
  unfold pick_task_for_cpu.
  destruct (pick_loop _ _ _ _ _ _) as [[sel0 deferred] s1] eqn:E.
  intros H. injection H as <- <- <-.
  apply pick_loop_perm in E. cbn [app] in E.
  now rewrite E, fold_reinsert_perm.
Qed.

Lemma rebuild_step_submseteq hm p : fst (rebuild_step hm p) ⊆+ p :: fst hm.
Proof.
  unfold rebuild_step. destruct (is_runnable _); cbn [fst].
  - apply Permutation_submseteq, heap_insert_perm.
  - now apply submseteq_cons.
Qed.

Lemma fold_rebuild_submseteq l hm :
  fst (fold_left rebuild_step l hm) ⊆+ l ++ fst hm.
Proof.
  revert hm. induction l as [|p l IH]; intros hm; [reflexivity|].
  cbn [fold_left]. etrans; [apply IH|].
  etrans; [apply submseteq_skips_l, rebuild_step_submseteq|].
  now rewrite <- Permutation_middle.
Qed.

Lemma rebuild_runnable_heap_submseteq s :
  runnable_heap (rebuild_runnable_heap s) ⊆+ all_tasks s.
Proof.
  unfold rebuild_runnable_heap. cbn [runnable_heap with_heap].
  etrans; [apply fold_rebuild_submseteq|]. cbn [fst]. now rewrite app_nil_r.
Qed.

(** ** The loops have fuel to spare

    More fuel than the bound that the definitions pass never changes a
    result: no loop of the embedding stops for lack of fuel. *)

Lemma heap_bubble_up_loop_fuel f1 f2 h m idx :
  (idx <= f1)%nat -> (idx <= f2)%nat ->
  heap_bubble_up_loop f1 h m idx = heap_bubble_up_loop f2 h m idx.
Proof.
  revert f2 h m idx. induction f1 as [|f1 IH]; intros f2 h m idx H1 H2.
  - assert (idx = 0%nat) as -> by lia. now destruct f2.
  - destruct f2 as [|f2].
    + assert (idx = 0%nat) as -> by lia. reflexivity.
    + cbn [heap_bubble_up_loop].
      destruct (Nat.ltb_spec 0 idx) as [Hpos|]; cbn [andb]; [|reflexivity].
      destruct (dgt _ _); [|reflexivity].
      destruct (heap_swap h m idx (parent idx)) as [h' m'].
      pose proof (parent_lt idx Hpos). apply IH; lia.
Qed.

Lemma heap_bubble_down_loop_fuel f1 f2 h m idx :
  (length h - idx <= f1)%nat -> (length h - idx <= f2)%nat ->
  heap_bubble_down_loop f1 h m idx = heap_bubble_down_loop f2 h m idx.
Proof.
  assert (Hstop : forall f h m idx,
             (length h <= idx)%nat ->
             heap_bubble_down_loop f h m idx = (h, m)).
  { intros f h0 m0 i Hi. destruct f as [|f]; [reflexivity|].
    cbn [heap_bubble_down_loop]. cbv zeta.
    destruct (Nat.ltb_spec (left_child i) (length h0));
      [unfold left_child in *; lia|].
    destruct (Nat.ltb_spec (right_child i) (length h0));
      [unfold right_child in *; lia|].
    cbn [andb]. now rewrite Nat.eqb_refl. }
  revert f2 h m idx. induction f1 as [|f1 IH]; intros f2 h m idx H1 H2.
  - rewrite (Hstop f2) by lia. reflexivity.
  - destruct f2 as [|f2]; [rewrite (Hstop (S f1)) by lia; reflexivity|].
    cbn [heap_bubble_down_loop]. cbv zeta.
    set (c1 := (left_child idx <? length h)%nat
               && dlt (key h m (left_child idx)) (key h m idx)).
    set (m1 := if c1 then left_child idx else idx).
    set (c2 := (right_child idx <? length h)%nat
               && dlt (key h m (right_child idx)) (key h m m1)).
    set (m2 := if c2 then right_child idx else m1).
    destruct (Nat.eqb_spec m2 idx) as [|Hne]; [reflexivity|].
    assert (Hgt : (idx < m2)%nat).
    { subst m2 m1. unfold left_child, right_child in *.
      destruct c2; [lia|]. destruct c1; [lia|contradiction]. }
    pose proof (heap_swap_length h m idx m2) as Hl.
    destruct (heap_swap h m idx m2) as [h' m']. cbn [fst] in Hl.
    apply IH; lia.
Qed.

Lemma heap_extract_min_length h m x hm :
  heap_extract_min h m = (Some x, hm) -> length h = S (length (fst hm)).
Proof.
  intros H. apply heap_extract_min_perm in H.
  apply Permutation_length in H. cbn in H. lia.
Qed.

Lemma pick_loop_fuel f1 f2 s cpu planned tick_us deferred :
  (length (runnable_heap s) <= f1)%nat ->
  (length (runnable_heap s) <= f2)%nat ->
  pick_loop f1 s cpu planned tick_us deferred
  = pick_loop f2 s cpu planned tick_us deferred.
Proof.
  assert (Hstop : forall f s deferred,
             runnable_heap s = [] ->
             pick_loop f s cpu planned tick_us deferred
             = (None, deferred, s)).
  { intros f s0 d Hs. destruct f as [|f]; [reflexivity|].
    cbn [pick_loop]. now rewrite Hs. }
  revert f2 s deferred.
  induction f1 as [|f1 IH]; intros f2 s deferred H1 H2.
  - rewrite (Hstop f2); [reflexivity|].
    destruct (runnable_heap s); [reflexivity|cbn in H1; lia].
  - destruct f2 as [|f2].
    + rewrite (Hstop (S f1)); [reflexivity|].
      destruct (runnable_heap s); [reflexivity|cbn in H2; lia].
    + cbn [pick_loop].
      destruct (heap_extract_min _ _) as [[c|] [h m]] eqn:E; [|reflexivity].
      apply heap_extract_min_length in E. cbn [fst] in E.
      destruct (negb (can_task_run_on_cpu _ _ _));
        [apply IH; cbn [runnable_heap with_heap]; lia|].
      destruct (negb (quota_admits _ _ _ _));
        [apply IH; cbn [runnable_heap with_heap]; lia|].
      reflexivity.
Qed.

(** ** The rebuilt heap holds exactly the Runnable tasks *)

Lemma rebuild_step_state hm p :
  state <$> snd (rebuild_step hm p) = state <$> snd hm.
Proof. apply rebuild_step_frame. reflexivity. Qed.

Lemma fold_rebuild_perm m0 l hm :
  state <$> snd hm = state <$> m0 ->
  fst (fold_left rebuild_step l hm)
  ≡ₚ filter (fun p => is_runnable (deref m0 p) = true) l ++ fst hm.
Proof.
  revert hm. induction l as [|p l IH]; intros hm Hst; [reflexivity|].
  cbn [fold_left]. rewrite IH by now rewrite rebuild_step_state.
  assert (Hp : is_runnable (deref (assign (set_heap_index (-1)) p (snd hm)) p)
               = is_runnable (deref m0 p)).
  { unfold is_runnable. f_equal. apply (proj_deref state).
    rewrite <- Hst. symmetry. now apply proj_assign. }
  rewrite filter_cons. unfold rebuild_step. rewrite Hp.
  destruct (is_runnable (deref m0 p)) eqn:E.
  - rewrite decide_True by reflexivity. cbn [fst].
    rewrite heap_insert_perm. cbn. now rewrite Permutation_middle.
  - rewrite decide_False by discriminate. reflexivity.
Qed.

Lemma rebuild_runnable_heap_members s p :
  p ∈ runnable_heap (rebuild_runnable_heap s)
  <-> p ∈ all_tasks s
      /\ state (deref (task_mem s) p) = TASK_STATE_RUNNABLE.
Proof.
  unfold rebuild_runnable_heap. cbn [runnable_heap with_heap].
  rewrite (fold_rebuild_perm (task_mem s)) by reflexivity.
  cbn [fst]. rewrite app_nil_r, list_elem_of_filter, is_runnable_true.
  tauto.
Qed.

(** ** The selection loop of a tick *)

Lemma account_cpu_all_tasks s i : all_tasks (account_cpu s i) = all_tasks s.
Proof.
  unfold account_cpu. cbn [all_tasks with_cpu_queues].
  destruct (cpu_queues s !! i) as [[q|]|]; try reflexivity.
  now destruct (is_running _).
Qed.

Lemma fold_account_all_tasks l s :
  all_tasks (fold_left account_cpu l s) = all_tasks s.
Proof.
  revert s. induction l as [|i l IH]; intros s; [reflexivity|].
  cbn [fold_left]. now rewrite IH, account_cpu_all_tasks.
Qed.

Lemma tick_prepare_all_tasks s vtime :
  all_tasks (tick_prepare s vtime) = all_tasks s.
Proof.
  unfold tick_prepare, rebuild_runnable_heap, account_all.
  cbn [all_tasks with_heap]. now rewrite fold_account_all_tasks.
Qed.

Lemma account_cpu_idle_stays s i j :
  cpu_queues s !! j = Some None ->
  cpu_queues (account_cpu s i) !! j = Some None.
Proof.
  intros H. destruct (decide (i = j)) as [->|Hne].
  - unfold account_cpu. cbn [cpu_queues with_cpu_queues].
    apply list_lookup_insert_eq. rewrite H.
    now apply lookup_lt_Some in H.
  - now rewrite account_cpu_queues_other.
Qed.

Lemma fold_account_idle_stays l s j :
  cpu_queues s !! j = Some None ->
  cpu_queues (fold_left account_cpu l s) !! j = Some None.
Proof.
  revert s. induction l as [|i l IH]; intros s H; [exact H|].
  cbn [fold_left]. now apply IH, account_cpu_idle_stays.
Qed.

Lemma fold_account_clears l s j :
  j ∈ l -> (j < cpu_count s)%nat ->
  cpu_queues (fold_left account_cpu l s) !! j = Some None.
Proof.
  revert s. induction l as [|i l IH]; intros s Hj Hlt.
  - now apply elem_of_nil in Hj.
  - cbn [fold_left]. destruct (decide (i = j)) as [->|Hne].
    + apply fold_account_idle_stays.
      unfold account_cpu. cbn [cpu_queues with_cpu_queues].
      apply list_lookup_insert_eq.
      destruct (cpu_queues s !! j) as [[q|]|]; try exact Hlt.
      now destruct (is_running _).
    + apply elem_of_cons in Hj as [->|Hj]; [contradiction|].
      apply IH; [exact Hj|]. now rewrite account_cpu_cpu_count.
Qed.

Lemma tick_prepare_idle s vtime j :
  (j < cpu_count s)%nat ->
  cpu_queues (tick_prepare s vtime) !! j = Some None.
Proof.
  intros Hj. unfold tick_prepare, rebuild_runnable_heap, account_all.
  cbn [cpu_queues with_heap].
  apply fold_account_clears; [|exact Hj].
  apply elem_of_seq. unfold cpu_count in *. cbn. lia.
Qed.

(** The assignments of a tick: the tasks in the CPU slots. *)
Lemma selected_insert (q : list (option nat)) cpu sel :
  q !! cpu = Some None ->
  omap id (<[cpu := sel]> q) ≡ₚ option_list sel ++ omap id q.
Proof.
  revert cpu. induction q as [|o q IH]; intros cpu H; [discriminate|].
  destruct cpu as [|cpu].
  - injection H as ->. destruct sel; reflexivity.
  - cbn in H. destruct o as [x|]; cbn; rewrite (IH _ H); [|reflexivity].
    now rewrite Permutation_middle.
Qed.

Lemma selected_NoDup_inj (q : list (option nat)) c1 c2 p :
  NoDup (omap id q) ->
  q !! c1 = Some (Some p) -> q !! c2 = Some (Some p) -> c1 = c2.
Proof.
  revert c1 c2. induction q as [|o q IH]; intros c1 c2 Hnd H1 H2;
    [discriminate|].
  assert (Hin : forall c, q !! c = Some (Some p) -> p ∈ omap id q).
  { intros c Hc. apply list_elem_of_omap. exists (Some p).
    split; [|reflexivity]. eapply list_elem_of_lookup_2; eauto. }
  destruct o as [x|]; cbn in Hnd.
  - apply NoDup_cons in Hnd as [Hx Hnd].
    destruct c1 as [|c1], c2 as [|c2]; cbn in *; try reflexivity.
    + injection H1 as ->. exfalso. apply Hx. eapply Hin; eauto.
    + injection H2 as ->. exfalso. apply Hx. eapply Hin; eauto.
    + f_equal. eapply IH; eauto.
  - destruct c1 as [|c1], c2 as [|c2]; cbn in *; try discriminate.
    f_equal. eapply IH; eauto.
Qed.

Lemma assign_best_heap prev cpu b s :
  runnable_heap (assign_best prev cpu b s) = runnable_heap s.
Proof.
  unfold assign_best. cbn [runnable_heap with_cpu_queues with_task_mem].
  destruct (_ && _); cbn [runnable_heap with_migrations];
    destruct prev as [q|]; try reflexivity;
    destruct (negb _); try reflexivity;
    destruct (is_running _); reflexivity.
Qed.

Lemma assign_best_queues prev cpu b s :
  cpu_queues (assign_best prev cpu b s) = <[cpu := Some b]> (cpu_queues s).
Proof.
  unfold assign_best. cbn [cpu_queues with_cpu_queues with_task_mem].
  destruct (_ && _); cbn [cpu_queues with_migrations];
    destruct prev as [q|]; try reflexivity;
    destruct (negb _); try reflexivity;
    destruct (is_running _); reflexivity.
Qed.

Lemma pick_loop_queues fuel s cpu planned tick_us deferred :
  cpu_queues (snd (pick_loop fuel s cpu planned tick_us deferred))
  = cpu_queues s.
Proof.
  revert s deferred. induction fuel as [|fuel IH]; intros s deferred;
    cbn [pick_loop]; [reflexivity|].
  destruct (heap_extract_min _ _) as [[c|] [h m]]; [|reflexivity].
  destruct (negb (can_task_run_on_cpu _ _ _)); [now rewrite IH|].
  destruct (negb (quota_admits _ _ _ _)); [now rewrite IH|].
  reflexivity.
Qed.

Lemma fold_reinsert_queues l s :
  cpu_queues (fold_left reinsert l s) = cpu_queues s.
Proof.
  revert s. induction l as [|p l IH]; intros s; [reflexivity|].
  cbn [fold_left]. now rewrite IH.
Qed.

Lemma pick_task_for_cpu_queues s cpu planned tick_us :
  cpu_queues (snd (pick_task_for_cpu s cpu planned tick_us)) = cpu_queues s.
Proof.
  unfold pick_task_for_cpu.
  pose proof (pick_loop_queues (length (runnable_heap s)) s cpu planned
                               tick_us []) as H.
  destruct (pick_loop _ _ _ _ _ _) as [[sel deferred] s1].
  cbn [snd] in *. now rewrite fold_reinsert_queues.
Qed.

(** One iteration of the selection loop on an idle slot. *)
Lemma select_cpu_step prev tick_us a cpu :
  cpu_queues (sel_sched a) !! cpu = Some None ->
  let a' := select_cpu prev tick_us a cpu in
  exists sel,
    cpu_queues (sel_sched a') = <[cpu := sel]> (cpu_queues (sel_sched a))
    /\ runnable_heap (sel_sched a)
       ≡ₚ option_list sel ++ runnable_heap (sel_sched a')
    /\ sel_schedule a' = sel_schedule a ++ [shown (sel_sched a') cpu].
Proof.
  intros Hidle a'. subst a'. unfold select_cpu.
  pose proof (pick_task_for_cpu_queues (sel_sched a) cpu (sel_planned a)
                                       tick_us) as Hq.
  destruct (pick_task_for_cpu _ _ _ _) as [[sel planned] s1] eqn:E.
  apply pick_task_for_cpu_perm in E. cbn [snd] in Hq.
  assert (Hlt : (cpu < length (cpu_queues (sel_sched a)))%nat)
    by now apply lookup_lt_Some in Hidle.
  destruct sel as [b|]; cbn [sel_sched sel_schedule].
  - exists (Some b). rewrite assign_best_queues, assign_best_heap, Hq.
    split; [reflexivity|]. split; [exact E|].
    unfold shown. rewrite assign_best_queues, Hq.
    now rewrite list_lookup_insert_eq by exact Hlt.
  - exists None. rewrite Hq. split.
    + symmetry. now apply list_insert_id.
    + split; [exact E|]. unfold shown. now rewrite Hq, Hidle.
Qed.

Lemma select_cpu_queues_other prev tick_us a cpu j :
  cpu <> j ->
  cpu_queues (sel_sched (select_cpu prev tick_us a cpu)) !! j
  = cpu_queues (sel_sched a) !! j.
Proof.
  intros Hne. unfold select_cpu.
  pose proof (pick_task_for_cpu_queues (sel_sched a) cpu (sel_planned a)
                                       tick_us) as Hq.
  destruct (pick_task_for_cpu _ _ _ _) as [[[b|] planned] s1];
    cbn [snd sel_sched] in *; [|now rewrite Hq].
  rewrite assign_best_queues, Hq. now apply list_lookup_insert_ne.
Qed.

Lemma fold_select_queues_other prev tick_us l a j :
  j ∉ l ->
  cpu_queues (sel_sched (fold_left (select_cpu prev tick_us) l a)) !! j
  = cpu_queues (sel_sched a) !! j.
Proof.
  revert a. induction l as [|c l IH]; intros a Hj; [reflexivity|].
  apply not_elem_of_cons in Hj as [Hne Hj]. cbn [fold_left].
  rewrite IH by exact Hj. apply select_cpu_queues_other. congruence.
Qed.

Lemma shown_frame s s' c :
  cpu_queues s' !! c = cpu_queues s !! c ->
  task_id <$> task_mem s' = task_id <$> task_mem s ->
  shown s' c = shown s c.
Proof.
  intros Hq Hm. unfold shown. rewrite Hq.
  destruct (cpu_queues s !! c) as [[p|]|]; try reflexivity.
  symmetry in Hm. apply (proj_deref task_id _ _ p Hm).
Qed.

(** The loop over idle slots: the tasks it assigns come out of the heap,
    and the schedule shows the final content of every slot. *)
Lemma fold_select_spec prev tick_us l a :
  NoDup l ->
  (forall c, c ∈ l -> cpu_queues (sel_sched a) !! c = Some None) ->
  let a' := fold_left (select_cpu prev tick_us) l a in
  omap id (cpu_queues (sel_sched a)) ++ runnable_heap (sel_sched a)
  ≡ₚ omap id (cpu_queues (sel_sched a')) ++ runnable_heap (sel_sched a')
  /\ sel_schedule a' = sel_schedule a ++ map (shown (sel_sched a')) l.
Proof.
  revert a. induction l as [|c l IH]; intros a Hnd Hidle; cbn [fold_left].
  - split; [reflexivity|]. cbn. now rewrite app_nil_r.
  - apply NoDup_cons in Hnd as [Hc Hnd].
    assert (Hc0 : cpu_queues (sel_sched a) !! c = Some None)
      by (apply Hidle, elem_of_cons; now left).
    destruct (select_cpu_step prev tick_us a c Hc0) as (sel & Hq & Hp & Hs).
    set (a1 := select_cpu prev tick_us a c) in *.
    destruct (IH a1 Hnd) as [IH1 IH2].
    { intros j Hj. unfold a1. rewrite select_cpu_queues_other.
      - apply Hidle, elem_of_cons. now right.
      - intros ->. contradiction. }
    cbv zeta in IH1, IH2. split.
    + rewrite <- IH1, Hq, (selected_insert _ _ _ Hc0), Hp.
      rewrite <- !app_assoc. apply Permutation_app_swap_app.
    + rewrite IH2, Hs, <- app_assoc. cbn [app map]. do 2 f_equal.
      symmetry. apply shown_frame.
      * now apply fold_select_queues_other.
      * apply fold_select_frame; reflexivity.
Qed.

Lemma selected_all_idle (q : list (option nat)) :
  (forall c, (c < length q)%nat -> q !! c = Some None) -> omap id q = [].
Proof.
  induction q as [|o q IH]; intros H; [reflexivity|].
  pose proof (H 0%nat ltac:(cbn; lia)) as H0. injection H0 as ->. cbn.
  apply IH. intros c Hc. exact (H (S c) ltac:(cbn; lia)).
Qed.

Lemma submseteq_NoDup (l k : list nat) : l ⊆+ k -> NoDup k -> NoDup l.
Proof.
  intros H Hk. apply submseteq_Permutation in H as [k' Hk'].
  rewrite Hk' in Hk. now apply NoDup_app in Hk as [? _].
Qed.

(** The slots and the schedule at the end of a tick. *)
Lemma scheduler_tick_slots s vtime :
  let tick := fst (scheduler_tick s vtime) in
  let s' := snd (scheduler_tick s vtime) in
  omap id (cpu_queues s') ⊆+ all_tasks s
  /\ schedule tick = map (shown s') (seq 0 (cpu_count s)).
Proof.
  cbv zeta. unfold scheduler_tick. cbn [fst snd schedule].
  set (s2 := tick_prepare s vtime).
  pose proof (tick_prepare_cpu_count s vtime) as Hn. fold s2 in Hn.
  destruct (fold_select_spec (cpu_queues s) (tick_runtime s2)
              (seq 0 (cpu_count s2))
              (mkSel s2 [] (replicate (length (all_tasks s2)) false) []))
    as [Hp Hs].
  { apply NoDup_seq. }
  { intros c Hc. apply elem_of_seq in Hc. cbn [sel_sched].
    apply tick_prepare_idle. lia. }
  cbv zeta in Hp, Hs. fold (tick_select (cpu_queues s) s2) in Hp, Hs.
  cbn [sel_sched sel_schedule app] in Hp, Hs.
  rewrite selected_all_idle in Hp.
  2:{ intros c Hc. apply tick_prepare_idle.
      unfold cpu_count in Hn. unfold cpu_count. lia. }
  cbn [app] in Hp. split.
  - cbn [cpu_queues with_task_mem].
    etrans; [apply submseteq_inserts_r|].
    { reflexivity. }
    rewrite <- Hp. unfold s2, tick_prepare.
    etrans; [apply rebuild_runnable_heap_submseteq|].
    unfold account_all. now rewrite fold_account_all_tasks.
  - rewrite Hs, Hn. apply map_ext_in. intros c _.
    apply shown_frame; [reflexivity|].
    cbn [task_mem with_task_mem]. symmetry.
    apply clear_unassigned_frame. reflexivity.
Qed.

(** Task identifiers are constants of a tick. *)
Lemma account_cpu_task_ids s i :
  task_id <$> task_mem (account_cpu s i) = task_id <$> task_mem s.
Proof.
  unfold account_cpu. cbn [task_mem with_cpu_queues].
  destruct (cpu_queues s !! i) as [[p|]|]; try reflexivity.
  destruct (is_running _); [|reflexivity].
  cbn [task_mem with_cgroups with_task_mem].
  rewrite proj_assign by reflexivity.
  destruct (_ && _); rewrite ?proj_assign by reflexivity;
    destruct (negb _); rewrite ?proj_assign by reflexivity; reflexivity.
Qed.

Lemma scheduler_tick_task_ids s vtime :
  task_id <$> task_mem (snd (scheduler_tick s vtime))
  = task_id <$> task_mem s.
Proof.
  rewrite scheduler_tick_frame by reflexivity. unfold account_all.
  generalize (seq 0 (cpu_count
    (refresh_cgroup_periods (with_clock vtime 0 0 s) vtime))).
  intros l.
  change (task_mem s)
    with (task_mem (refresh_cgroup_periods (with_clock vtime 0 0 s) vtime)).
  generalize (refresh_cgroup_periods (with_clock vtime 0 0 s) vtime).
  induction l as [|i l IH]; intros s0; [reflexivity|].
  cbn [fold_left]. now rewrite IH, account_cpu_task_ids.
Qed.


(** ** Quota admission *)

Lemma quota_admits_ext s s' planned tick_us t t' :
  cgroups s' = cgroups s ->
  current_vtime s' = current_vtime s ->
  cgroup_id t' = cgroup_id t ->
  quota_admits s' planned tick_us t' = quota_admits s planned tick_us t.
Proof.
  intros Hc Hv Hid. unfold quota_admits, scheduler_find_cgroup.
  now rewrite Hc, Hv, Hid.
Qed.


(** The candidate that the loop returns passed both tests. *)
Lemma pick_loop_selected fuel s cpu planned tick_us deferred p deferred' s' :
  pick_loop fuel s cpu planned tick_us deferred = (Some p, deferred', s') ->
  can_task_run_on_cpu s' (deref (task_mem s') p) (Z.of_nat cpu) = true
  /\ quota_admits s' planned tick_us (deref (task_mem s') p) = true.
Proof.
  revert s deferred. induction fuel as [|fuel IH]; intros s deferred;
    cbn [pick_loop]; [discriminate|].
  destruct (heap_extract_min _ _) as [[c|] [h m]]; [|discriminate].
  destruct (can_task_run_on_cpu (with_heap h m s) (deref m c) (Z.of_nat cpu))
    eqn:E1; cbn [negb]; [|apply IH].
  destruct (quota_admits (with_heap h m s) planned tick_us (deref m c))
    eqn:E2; cbn [negb]; [|apply IH].
  intros H. injection H as <- <- <-. split; assumption.
Qed.



(** ** Reachable states respect the allocation discipline *)

Lemma dom_of_frame (m m' : gmap nat Task) :
  (fun _ : Task => tt) <$> m = (fun _ : Task => tt) <$> m' ->
  dom m = dom m'.
Proof. intros H. apply (f_equal dom) in H. now rewrite !dom_fmap_L in H. Qed.

Lemma dom_assign f p (m : gmap nat Task) : dom (assign f p m) = dom m.
Proof. apply dom_of_frame, proj_assign. reflexivity. Qed.

Lemma lookup_dom_lt (m : gmap nat Task) n :
  (forall p t, m !! p = Some t -> (p < n)%nat)
  <-> (forall p, p ∈ dom m -> (p < n)%nat).
Proof.
  split.
  - intros H p Hp. apply elem_of_dom in Hp as [t Ht]. eauto.
  - intros H p t Ht. apply H, elem_of_dom. eauto.
Qed.

Lemma pick_loop_registry fuel s cpu planned tick_us deferred :
  registry (snd (pick_loop fuel s cpu planned tick_us deferred)) = registry s.
Proof.
  revert s deferred. induction fuel as [|fuel IH]; intros s deferred;
    cbn [pick_loop]; [reflexivity|].
  destruct (heap_extract_min _ _) as [[c|] [h m]]; [|reflexivity].
  destruct (negb (can_task_run_on_cpu _ _ _)); [now rewrite IH|].
  destruct (negb (quota_admits _ _ _ _)); [now rewrite IH|].
  reflexivity.
Qed.

Lemma fold_reinsert_registry l s :
  registry (fold_left reinsert l s) = registry s.
Proof.
  revert s. induction l as [|p l IH]; intros s; [reflexivity|].
  cbn [fold_left]. now rewrite IH.
Qed.

Lemma pick_task_for_cpu_registry s cpu planned tick_us :
  registry (snd (pick_task_for_cpu s cpu planned tick_us)) = registry s.
Proof.
  unfold pick_task_for_cpu.
  pose proof (pick_loop_registry (length (runnable_heap s)) s cpu planned
                                 tick_us []) as H.
  destruct (pick_loop _ _ _ _ _ _) as [[sel deferred] s1].
  cbn [snd] in *. now rewrite fold_reinsert_registry.
Qed.

Lemma assign_best_registry prev cpu b s :
  registry (assign_best prev cpu b s) = registry s.
Proof.
  unfold assign_best, registry.
  cbn [all_tasks next_task with_cpu_queues with_task_mem].
  destruct (_ && _); cbn [all_tasks next_task with_migrations];
    destruct prev as [q|]; try reflexivity;
    destruct (negb _); try reflexivity;
    destruct (is_running _); reflexivity.
Qed.

Lemma select_cpu_registry prev tick_us a cpu :
  registry (sel_sched (select_cpu prev tick_us a cpu))
  = registry (sel_sched a).
Proof.
  unfold select_cpu.
  pose proof (pick_task_for_cpu_registry (sel_sched a) cpu (sel_planned a)
                                         tick_us) as H.
  destruct (pick_task_for_cpu _ _ _ _) as [[[b|] planned] s1];
    cbn [snd sel_sched] in *; [|exact H].
  now rewrite assign_best_registry.
Qed.

Lemma fold_select_registry prev tick_us l a :
  registry (sel_sched (fold_left (select_cpu prev tick_us) l a))
  = registry (sel_sched a).
Proof.
  revert a. induction l as [|c l IH]; intros a; [reflexivity|].
  cbn [fold_left]. now rewrite IH, select_cpu_registry.
Qed.

Lemma account_cpu_registry s i : registry (account_cpu s i) = registry s.
Proof.
  unfold account_cpu, registry. cbn [all_tasks next_task with_cpu_queues].
  destruct (cpu_queues s !! i) as [[q|]|]; try reflexivity.
  now destruct (is_running _).
Qed.

Lemma fold_account_registry l s :
  registry (fold_left account_cpu l s) = registry s.
Proof.
  revert s. induction l as [|i l IH]; intros s; [reflexivity|].
  cbn [fold_left]. now rewrite IH, account_cpu_registry.
Qed.

Lemma scheduler_tick_registry s vtime :
  registry (snd (scheduler_tick s vtime)) = registry s.
Proof.
  unfold scheduler_tick. cbn [snd]. unfold tick_select.
  change (registry (with_task_mem ?m ?s0)) with (registry s0).
  rewrite fold_select_registry. cbn [sel_sched].
  unfold tick_prepare, rebuild_runnable_heap.
  change (registry (with_heap ?h ?m ?s0)) with (registry s0).
  unfold account_all. now rewrite fold_account_registry.
Qed.

Lemma account_cpu_dom s i :
  dom (task_mem (account_cpu s i)) = dom (task_mem s).
Proof.
  unfold account_cpu. cbn [task_mem with_cpu_queues].
  destruct (cpu_queues s !! i) as [[p|]|]; try reflexivity.
  destruct (is_running _); [|reflexivity].
  cbn [task_mem with_cgroups with_task_mem].
  rewrite dom_assign.
  destruct (_ && _); rewrite ?dom_assign;
    destruct (negb _); rewrite ?dom_assign; reflexivity.
Qed.

Lemma scheduler_tick_dom s vtime :
  dom (task_mem (snd (scheduler_tick s vtime))) = dom (task_mem s).
Proof.
  rewrite (dom_of_frame _ _
             (scheduler_tick_frame (fun _ => tt) ltac:(reflexivity)
                ltac:(reflexivity) ltac:(reflexivity) s vtime)).
  unfold account_all.
  generalize (seq 0 (cpu_count
    (refresh_cgroup_periods (with_clock vtime 0 0 s) vtime))).
  intros l.
  change (task_mem s)
    with (task_mem (refresh_cgroup_periods (with_clock vtime 0 0 s) vtime)).
  generalize (refresh_cgroup_periods (with_clock vtime 0 0 s) vtime).
  induction l as [|i l IH]; intros s0; [reflexivity|].
  cbn [fold_left]. now rewrite IH, account_cpu_dom.
Qed.

Lemma swap_remove_submseteq (d : nat) i (l : list nat) :
  swap_remove d i l ⊆+ l.
Proof.
  unfold swap_remove.
  destruct (decide (i < length l)%nat) as [Hi|Hi].
  - set (n := (length l - 1)%nat).
    assert (Hn : l !! n = Some (nth n l d)).
    { destruct (nth_lookup_or_length l n d) as [H|H]; [exact H|].
      unfold n in H. lia. }
    destruct (lookup_lt_is_Some_2 l i Hi) as [x Hx].
    etrans;
      [|apply Permutation_submseteq,
              (Permutation_insert_swap l i n x (nth n l d) Hx Hn)].
    rewrite <- (take_insert_ge (<[i:=nth n l d]> l) n n x) by lia.
    apply submseteq_take.
  - rewrite list_insert_ge by lia. apply submseteq_take.
Qed.

Lemma heap_remove_dom h m p : dom (snd (heap_remove h m p)) = dom m.
Proof. apply dom_of_frame, heap_remove_frame. reflexivity. Qed.

Lemma scheduler_remove_task_shrinks s id :
  let s' := snd (scheduler_remove_task s id) in
  all_tasks s' ⊆+ all_tasks s
  /\ next_task s' = next_task s
  /\ dom (task_mem s') ⊆ dom (task_mem s).
Proof.
  cbv zeta. unfold scheduler_remove_task.
  destruct (find_pos _ _) as [i|]; [|now split].
  cbn [snd all_tasks next_task task_mem with_all_tasks with_cpu_queues
       with_heap].
  split; [apply swap_remove_submseteq|]. split; [reflexivity|].
  rewrite dom_delete_L.
  destruct (_ >=? 0); cbn [snd]; rewrite ?heap_remove_dom;
    intros x Hx; now apply elem_of_difference in Hx as [Hx _].
Qed.

Lemma fold_reparent_dom id l (m : gmap nat Task) :
  dom (fold_left (fun m p => assign (reparent id) p m) l m) = dom m.
Proof.
  revert m. induction l as [|p l IH]; intros m; [reflexivity|].
  cbn [fold_left]. now rewrite IH, dom_assign.
Qed.

(** Every event but TaskCreate keeps the allocation counter and shrinks,
    if anything, the registry and the store. *)
Lemma process_event_shrinks s e :
  ev_action e <> EVENT_TASK_CREATE ->
  let s' := snd (scheduler_process_event s e) in
  all_tasks s' ⊆+ all_tasks s
  /\ next_task s' = next_task s
  /\ dom (task_mem s') ⊆ dom (task_mem s).
Proof.
  intros Hne. cbv zeta. unfold scheduler_process_event.
  destruct (ev_action e); try contradiction;
    unfold do_task_exit, do_task_block, do_task_unblock,
      do_task_yield, do_task_setnice, do_task_set_affinity,
      do_cgroup_create, do_cgroup_modify, do_cgroup_delete,
      do_task_move_cgroup, do_cpu_burst, on_task;
    try (destruct (scheduler_find_task s (ev_task_id e)) as [p|];
         [|now split]);
    cbn [snd].
  - (* invalid *)
    now split.
  - (* exit *)
    match goal with |- context [scheduler_remove_task ?s1 ?i] =>
      destruct (scheduler_remove_task_shrinks s1 i) as (H1 & H2 & H3) end.
    cbv zeta in H1, H2, H3.
    cbn [all_tasks next_task task_mem with_task_mem] in H1, H2, H3.
    rewrite dom_assign in H3. now split.
  - (* block *)
    split; [|split].
    + destruct (_ >=? 0); reflexivity.
    + destruct (_ >=? 0); reflexivity.
    + destruct (current_cpu _ >=? 0);
        cbn [task_mem with_task_mem with_cpu_queues with_heap];
        rewrite ?dom_assign;
        (destruct (heap_index _ >=? 0); cbn [snd];
         rewrite ?heap_remove_dom, ?dom_assign; reflexivity).
  - (* unblock *)
    destruct (is_blocked _); [|now split].
    split; [|split].
    + destruct (dlt _ _); reflexivity.
    + destruct (dlt _ _); reflexivity.
    + rewrite (dom_of_frame _ _
                 (reinsert_frame (fun _ => tt) ltac:(reflexivity) _ p)).
      destruct (dlt _ _); cbn [task_mem with_task_mem];
        rewrite ?dom_assign; reflexivity.
  - (* yield *)
    split; [|split].
    + destruct (_ >=? 0); reflexivity.
    + destruct (_ >=? 0); reflexivity.
    + destruct (_ >=? 0); cbn [task_mem with_task_mem with_heap].
      * rewrite (dom_of_frame _ _
                   (heap_update_frame (fun _ => tt) ltac:(reflexivity)
                      _ _ p)).
        now rewrite dom_assign.
      * now rewrite dom_assign.
  - (* setnice *)
    cbn [all_tasks next_task task_mem with_task_mem].
    now rewrite dom_assign.
  - (* set affinity *)
    cbn [all_tasks next_task task_mem with_task_mem].
    now rewrite dom_assign.
  - (* cgroup create *)
    unfold scheduler_add_cgroup. destruct (_ <=? _)%nat; now split.
  - (* cgroup modify *)
    destruct (scheduler_find_cgroup s (ev_cgroup_id e)) as [[k c]|];
      now split.
  - (* cgroup delete *)
    unfold scheduler_remove_cgroup.
    destruct (scheduler_find_cgroup s (ev_cgroup_id e)) as [[k c]|];
      [|now split].
    cbn [snd all_tasks next_task task_mem with_cgroups with_task_mem].
    now rewrite fold_reparent_dom.
  - (* move cgroup *)
    cbn [all_tasks next_task task_mem with_task_mem].
    now rewrite dom_assign.
  - (* burst *)
    cbn [all_tasks next_task task_mem with_task_mem].
    now rewrite dom_assign.
Qed.

Lemma do_task_create_alloc s e :
  let s' := snd (do_task_create s e) in
  next_task s' = S (next_task s)
  /\ (all_tasks s' = all_tasks s \/ all_tasks s' = all_tasks s ++ [next_task s])
  /\ dom (task_mem s') = {[next_task s]} ∪ dom (task_mem s).
Proof.
  cbv zeta. unfold do_task_create, alloc_task. cbn [snd].
  match goal with |- context [scheduler_add_task ?s1 ?p] =>
    pose proof (scheduler_add_task_frame (fun _ => tt) ltac:(reflexivity)
                  s1 p) as Hd;
    apply dom_of_frame in Hd;
    assert (Hn : next_task (snd (scheduler_add_task s1 p)) = next_task s1);
    [|assert (Ha : all_tasks (snd (scheduler_add_task s1 p)) = all_tasks s1
                   \/ all_tasks (snd (scheduler_add_task s1 p))
                      = all_tasks s1 ++ [p])]
  end.
  { unfold scheduler_add_task. destruct (_ <=? _)%nat; [reflexivity|].
    now destruct (is_runnable _). }
  { unfold scheduler_add_task. destruct (_ <=? _)%nat; [now left|].
    right. now destruct (is_runnable _). }
  split; [exact Hn|]. split; [exact Ha|].
  rewrite Hd. cbn [task_mem with_alloc]. apply dom_insert_L.
Qed.

Lemma alloc_wf_init ncpu q : alloc_wf (scheduler_init ncpu q).
Proof.
  split; cbn.
  - apply NoDup_nil_2.
  - intros p Hp. now apply elem_of_nil in Hp.
  - intros p t Hp. now rewrite lookup_empty in Hp.
Qed.

Lemma alloc_wf_event s e :
  alloc_wf s -> alloc_wf (snd (scheduler_process_event s e)).
Proof.
  intros [Hnd Hreg Hst0].
  pose proof (proj1 (lookup_dom_lt _ _) Hst0) as Hst. clear Hst0.
  assert (Hdec : ev_action e = EVENT_TASK_CREATE
                 \/ ev_action e <> EVENT_TASK_CREATE)
    by (destruct (ev_action e); (now left) || (right; discriminate)).
  destruct Hdec as [Hc|Hc].
  - unfold scheduler_process_event. rewrite Hc.
    destruct (do_task_create_alloc s e) as (Hn & Ha & Hd). cbv zeta in *.
    split.
    + destruct Ha as [-> | ->]; [exact Hnd|].
      apply NoDup_app. split; [exact Hnd|]. split; [|apply NoDup_singleton].
      intros p Hp Hp'. apply list_elem_of_singleton in Hp'. subst p.
      apply Hreg in Hp. lia.
    + intros p Hp. rewrite Hn.
      destruct Ha as [Ha|Ha]; rewrite Ha in Hp.
      * apply Hreg in Hp. lia.
      * apply elem_of_app in Hp as [Hp|Hp]; [apply Hreg in Hp; lia|].
        apply list_elem_of_singleton in Hp. lia.
    + apply (proj2 (lookup_dom_lt _ _)). intros p Hp.
      rewrite Hn. rewrite Hd in Hp.
      apply elem_of_union in Hp as [Hp|Hp]; [|apply Hst in Hp; lia].
      apply elem_of_singleton in Hp. lia.
  - destruct (process_event_shrinks s e Hc) as (Ha & Hn & Hd).
    cbv zeta in *. split.
    + now apply (submseteq_NoDup _ _ Ha).
    + intros p Hp. rewrite Hn. apply Hreg.
      eapply elem_of_submseteq; eauto.
    + apply (proj2 (lookup_dom_lt _ _)). intros p Hp.
      rewrite Hn. apply Hst, Hd, Hp.
Qed.

Lemma alloc_wf_tick s vtime :
  alloc_wf s -> alloc_wf (snd (scheduler_tick s vtime)).
Proof.
  intros [Hnd Hreg Hst0].
  pose proof (proj1 (lookup_dom_lt _ _) Hst0) as Hst. clear Hst0.
  pose proof (scheduler_tick_registry s vtime) as Hr.
  assert (Ha : all_tasks (snd (scheduler_tick s vtime)) = all_tasks s)
    by exact (f_equal fst Hr).
  assert (Hn : next_task (snd (scheduler_tick s vtime)) = next_task s)
    by exact (f_equal snd Hr).
  split.
  - now rewrite Ha.
  - intros p. rewrite Ha, Hn. apply Hreg.
  - apply (proj2 (lookup_dom_lt _ _)). intros p.
    rewrite scheduler_tick_dom, Hn. apply Hst.
Qed.

Lemma reachable_alloc_wf s : reachable s -> alloc_wf s.
Proof.
  induction 1 as [ncpu q|s e _ IH|s vtime _ IH].
  - apply alloc_wf_init.
  - now apply alloc_wf_event.
  - now apply alloc_wf_tick.
Qed.

Lemma reachable_process_events s evs :
  reachable s -> reachable (process_events s evs).
Proof.
  revert s. induction evs as [|e evs IH]; intros s H; [exact H|].
  unfold process_events in *. cbn [fold_left]. apply IH.
  now apply reachable_event.
Qed.

Lemma reachable_run_frames s tfs :
  reachable s -> reachable (run_frames s tfs).
Proof.
  revert s. induction tfs as [|tf tfs IH]; intros s H; [exact H|].
  unfold run_frames in *. cbn [fold_left]. apply IH.
  unfold run_timeframe. apply reachable_tick.
  now apply reachable_process_events.
Qed.

(** ** Exclusive assignment and repeated identifiers *)

(** C3 (as amended): at the end of every tick of a reachable scheduler no
    task record is assigned to two CPUs, and the schedule shows, for every
    CPU, the identifier of the task in its slot, or "idle" for an empty
    slot; hence, when the identifiers of the registered tasks are pairwise
    distinct, the schedule entries of two distinct CPUs differ unless both
    are "idle". *)
Theorem exclusive_assignment (s : Scheduler) (vtime : Z) :
  reachable s ->
  let tick := fst (scheduler_tick s vtime) in
  let s' := snd (scheduler_tick s vtime) in
  (forall c1 c2 p,
      cpu_queues s' !! c1 = Some (Some p) ->
      cpu_queues s' !! c2 = Some (Some p) -> c1 = c2)
  /\ (forall c, (c < cpu_count s)%nat -> schedule tick !! c = Some (shown s' c))
  /\ ((forall p q, p ∈ all_tasks s -> q ∈ all_tasks s ->
         task_id (deref (task_mem s) p) = task_id (deref (task_mem s) q) ->
         p = q) ->
      forall c1 c2 a b,
        c1 <> c2 ->
        schedule tick !! c1 = Some a -> schedule tick !! c2 = Some b ->
        a <> b \/ (a = "idle" /\ b = "idle")).
Proof.
  intros Hreach tick s'. subst tick s'.
  pose proof (wf_nodup _ (reachable_alloc_wf _ Hreach)) as Hnd.
  destruct (scheduler_tick_slots s vtime) as [Hsub Hsched].
  cbv zeta in Hsub, Hsched.
  set (s' := snd (scheduler_tick s vtime)) in *.
  assert (Hinj : forall c1 c2 p,
             cpu_queues s' !! c1 = Some (Some p) ->
             cpu_queues s' !! c2 = Some (Some p) -> c1 = c2).
  { intros c1 c2 p. apply selected_NoDup_inj.
    now apply (submseteq_NoDup _ _ Hsub). }
  assert (Hshown : forall c a,
             schedule (fst (scheduler_tick s vtime)) !! c = Some a ->
             a = shown s' c).
  { intros c a. rewrite Hsched, list_lookup_fmap.
    destruct (seq 0 (cpu_count s) !! c) as [c'|] eqn:E; [|discriminate].
    apply lookup_seq in E as [-> _]. cbn. congruence. }
  split; [exact Hinj|]. split.
  - intros c Hc. rewrite Hsched, list_lookup_fmap.
    now rewrite lookup_seq_lt by exact Hc.
  - intros Huniq c1 c2 a b Hne Ha Hb.
    apply Hshown in Ha, Hb. subst a b. unfold shown.
    destruct (cpu_queues s' !! c1) as [[p1|]|] eqn:E1;
      destruct (cpu_queues s' !! c2) as [[p2|]|] eqn:E2;
      try (destruct (decide (task_id (deref (task_mem s') p1) = "idle"));
           [right|left]; now auto);
      try (destruct (decide (task_id (deref (task_mem s') p2) = "idle"));
           [right|left]; now auto);
      try (right; now auto).
    left. intros Heq.
    assert (Hids : forall p, task_id (deref (task_mem s') p)
                             = task_id (deref (task_mem s) p)).
    { intros p. apply (proj_deref task_id). symmetry.
      apply scheduler_tick_task_ids. }
    rewrite !Hids in Heq.
    assert (Hin : forall c p, cpu_queues s' !! c = Some (Some p) ->
                              p ∈ all_tasks s).
    { intros c p Hc. eapply elem_of_submseteq; [|exact Hsub].
      apply list_elem_of_omap. exists (Some p). split; [|reflexivity].
      eapply list_elem_of_lookup_2; eauto. }
    apply Huniq in Heq; [|eapply Hin; eauto|eapply Hin; eauto].
    subst p2. apply Hne. eapply Hinj; eauto.
Qed.

(** A TaskCreate event whose taskId already names a task of the registry,
    in a reachable scheduler: the registry and the lookup. *)
Lemma task_create_existing_registry (s : Scheduler) (e : Event) (p : nat) :
  ev_action e = EVENT_TASK_CREATE ->
  scheduler_find_task s (ev_task_id e) = Some p ->
  reachable s ->
  let s' := snd (scheduler_process_event s e) in
  ((length (all_tasks s) < MAX_TASKS)%nat ->
   all_tasks s' = all_tasks s ++ [next_task s]
   /\ task_id (deref (task_mem s') (next_task s)) = ev_task_id e)
  /\ ((MAX_TASKS <= length (all_tasks s))%nat -> all_tasks s' = all_tasks s)
  /\ (forall q t, task_mem s !! q = Some t ->
        exists t', task_mem s' !! q = Some t' /\ strip t' = strip t)
  /\ scheduler_find_task s' (ev_task_id e) = Some p.
Proof.
  intros Hact Hfind Hreach s'. subst s'.
  destruct (reachable_alloc_wf _ Hreach) as [_ Hreg Hstore].
  assert (Hfresh : task_mem s !! next_task s = None).
  { destruct (task_mem s !! next_task s) as [t|] eqn:E; [|reflexivity].
    apply Hstore in E. lia. }
  assert (Hnew : next_task s ∉ all_tasks s).
  { intros Hin. apply Hreg in Hin. lia. }
  unfold scheduler_process_event. rewrite Hact.
  destruct (do_task_create_new s e) as (tn & Hn1 & _ & _ & Hn4).
  assert (Hall : forall s1 : Scheduler,
            all_tasks s1 = all_tasks s ->
            (length (all_tasks s) < MAX_TASKS)%nat ->
            all_tasks (snd (scheduler_add_task s1 (next_task s)))
            = all_tasks s ++ [next_task s]).
  { intros s1 E Hlt. rewrite <- E. apply scheduler_add_task_all_tasks.
    now rewrite E. }
  assert (Hfullg : forall s1 : Scheduler,
            all_tasks s1 = all_tasks s ->
            (MAX_TASKS <= length (all_tasks s))%nat ->
            all_tasks (snd (scheduler_add_task s1 (next_task s)))
            = all_tasks s).
  { intros s1 E Hge. rewrite <- E. apply scheduler_add_task_full.
    now rewrite E. }
  assert (Hold : forall q t, task_mem s !! q = Some t ->
            exists t', task_mem (snd (do_task_create s e)) !! q = Some t'
                       /\ strip t' = strip t).
  { intros q t Hq. unfold do_task_create, alloc_task. cbn [snd].
    match goal with |- context [scheduler_add_task ?s1 ?n] =>
      pose proof (scheduler_add_task_frame strip strip_index s1 n) as Hs end.
    symmetry in Hs. eapply proj_lookup; [exact Hs|].
    cbn [task_mem with_alloc]. rewrite lookup_insert_ne; [exact Hq|].
    intros E. rewrite <- E in Hq. congruence. }
  split; [|split; [|split]].
  - intros Hlt. split.
    + unfold do_task_create, alloc_task. cbn [snd]. now apply Hall.
    + now rewrite (deref_lookup _ _ _ Hn1).
  - intros Hfull. unfold do_task_create, alloc_task. cbn [snd].
    now apply Hfullg.
  - exact Hold.
  - unfold scheduler_find_task in *.
    assert (Hids : forall q, q ∈ all_tasks s ->
              String.eqb (task_id (deref (task_mem (snd (do_task_create s e)))
                                         q)) (ev_task_id e)
              = String.eqb (task_id (deref (task_mem s) q)) (ev_task_id e)).
    { intros q Hq. f_equal. unfold deref at 2.
      destruct (task_mem s !! q) as [t|] eqn:Eq.
      - destruct (Hold q t Eq) as (t' & Ht' & Hst).
        rewrite (deref_lookup _ _ _ Ht'). exact (f_equal task_id Hst).
      - unfold do_task_create, alloc_task. cbn [snd].
        match goal with |- context [scheduler_add_task ?s1 ?n] =>
          pose proof (scheduler_add_task_frame strip strip_index s1 n) as Hs
        end.
        symmetry in Hs. unfold deref.
        erewrite (proj_lookup_None strip _ _ q Hs); [reflexivity|].
        cbn [task_mem with_alloc]. rewrite lookup_insert_ne; [exact Eq|].
        intros E. rewrite E in Hnew. contradiction. }
    destruct (Nat.leb_spec MAX_TASKS (length (all_tasks s))) as [Hfull|Hlt].
    + unfold do_task_create at 2, alloc_task. cbn [snd].
      rewrite Hfullg by (reflexivity || exact Hfull).
      rewrite (find_ext_elem _ _ _ Hids). exact Hfind.
    + unfold do_task_create at 2, alloc_task. cbn [snd].
      rewrite Hall by (reflexivity || exact Hlt).
      apply find_app_Some.
      rewrite (find_ext_elem _ _ _ Hids). exact Hfind.
Qed.

(** A CgroupModify event that supplies shares = 0 for a cgroup of 2048
    shares leaves 2048 shares: the value is not replaced by the default
    1024. *)
Lemma cgroup_modify_nonpositive_shares_counterexample :
  let e := cgroup_modify_shares_event "G" 0 in
  let s' := snd (scheduler_process_event sched_with_G e) in
  ev_has_cpu_shares e = true /\ ev_cpu_shares e <= 0
  /\ cpu_shares <$> cgroups s' !! 0%nat = Some 2048
  /\ cpu_shares <$> cgroups s' !! 0%nat <> Some DEFAULT_CPU_SHARES.
Proof. vm_compute. repeat split; discriminate. Qed.

Lemma cgroup_defaults_and_nice_clamp_witness :
  (exists c,
     cgroups (snd (scheduler_process_event (scheduler_init 1 1)
                     (cgroup_create_event "G" 0 (-1) 0)))
     = [] ++ [c]
     /\ cpu_shares c = DEFAULT_CPU_SHARES
     /\ cpu_period_us c = DEFAULT_CPU_PERIOD_US)
  /\ (exists c',
        cgroups (snd (scheduler_process_event sched_with_G
                        (cgroup_modify_shares_event "G" 0))) !! 0%nat
        = Some c'
        /\ cpu_shares c' = 2048)
  /\ (exists t',
        task_mem (snd (scheduler_process_event sched_with_T1
                         (mkEvent EVENT_TASK_SETNICE "T1" "" "" 42 []
                                  0 0 0 0 true false false false false)))
        !! 1%nat = Some t'
        /\ nice t' = 19)
  /\ (exists t',
        task_mem (snd (scheduler_process_event (scheduler_init 1 1)
                         (task_create_event "T1" "" (-30)))) !! 1%nat
        = Some t'
        /\ nice t' = -20).
Proof.
  split; [|split; [|split]].
  - destruct (proj1 (cgroup_defaults_and_nice_clamp (scheduler_init 1 1)
                       (cgroup_create_event "G" 0 (-1) 0)))
      as (c & H1 & H2 & H3); [reflexivity|vm_compute; lia|].
    exists c. split; [exact H1|]. split.
    + apply H2; [reflexivity|vm_compute; discriminate].
    + apply H3; [reflexivity|vm_compute; discriminate].
  - destruct (proj1 (proj2 (cgroup_defaults_and_nice_clamp sched_with_G
                       (cgroup_modify_shares_event "G" 0)))
                0%nat (mkCgroup "G" 2048 (-1) 100000 [] 0%float 0))
      as (c' & H1 & H2 & _); [reflexivity|vm_compute; reflexivity|].
    exists c'. split; [exact H1|].
    apply H2; [reflexivity|vm_compute; discriminate].
  - destruct (proj1 (proj2 (proj2 (cgroup_defaults_and_nice_clamp
                       sched_with_T1
                       (mkEvent EVENT_TASK_SETNICE "T1" "" "" 42 []
                                0 0 0 0 true false false false false))))
                1%nat
                (mkTask "T1" 0 0%float 1024 TASK_STATE_RUNNABLE "0" []
                        (-1) 0 0 false))
      as (t' & H1 & H2);
      [reflexivity|vm_compute; reflexivity|vm_compute; reflexivity|].
    exists t'. split; [exact H1|exact H2].
  - destruct (proj2 (proj2 (proj2 (cgroup_defaults_and_nice_clamp
                       (scheduler_init 1 1)
                       (task_create_event "T1" "" (-30))))))
      as (t' & H1 & H2); [reflexivity|reflexivity|].
    exists t'. split; [exact H1|exact H2].
Defined.

(** An event that names a task that does not exist returns 0: failure is
    not reported for a missing referent. *)
Lemma missing_task_counterexample :
  let s := scheduler_init 1 1 in
  let e := event_on_task EVENT_TASK_EXIT "ghost" in
  names_missing_referent s e = true
  /\ fst (scheduler_process_event s e) = 0
  /\ ~ (fst (scheduler_process_event s e) <> 0
        <-> ev_action e = EVENT_INVALID
            \/ names_missing_referent s e = true).
Proof.
  cbv zeta. split; [reflexivity|]. split; [reflexivity|].
  intros [_ H]. apply H; [right|]; reflexivity.
Qed.

Lemma unregistered_cgroup_is_unconstrained_witness :
  let s := sched_default_cgroup in
  let t := deref (task_mem s) 1%nat in
  get_effective_task_weight s t = nice_to_weight (nice t)
  /\ (forall cpu, can_task_run_on_cpu s t cpu = task_can_run_on_cpu t cpu)
  /\ scheduler_find_cgroup
       (snd (scheduler_process_event s (event_on_task EVENT_TASK_YIELD "T")))
       (cgroup_id t) = None.
Proof.
  cbv zeta.
  destruct (unregistered_cgroup_is_unconstrained sched_default_cgroup
              (deref (task_mem sched_default_cgroup) 1%nat))
    as (H1 & _ & H3 & _ & H5 & _);
    [vm_compute; reflexivity|vm_compute; reflexivity|].
  split; [exact H3|]. split; [exact H1|].
  apply (H5 (event_on_task EVENT_TASK_YIELD "T")). discriminate.
Defined.

(** A Running task in burst whose cgroup has the finite quota 0: the
    accounting of the tick adds nothing to the used total of the cgroup,
    although quantum * 1000 is not 0.  The same holds for a Running task
    in burst that names the registered cgroup "" of quota 100000: the
    accounting skips an empty cgroup id. *)
Lemma burst_zero_quota_counterexample :
  let s := sched_burst_zero_quota in
  let t := deref (task_mem s) 1%nat in
  cpu_queues s !! 0%nat = Some (Some 1%nat)
  /\ state t = TASK_STATE_RUNNING
  /\ is_burst t = true
  /\ (exists cg, scheduler_find_cgroup s (cgroup_id t) = Some (0%nat, cg)
                 /\ cpu_quota_us cg = 0 /\ quota_used cg = 0%float)
  /\ quota_used <$> cgroups (account_all s) !! 0%nat = Some 0%float
  /\ quota_used <$> cgroups (snd (scheduler_tick s 1)) !! 0%nat
     = Some 0%float
  /\ (0 + double_of_int (quanta s) * 1000)%float <> 0%float
  /\ (let s := sched_burst_empty_id in
      let t := deref (task_mem s) 1%nat in
      cpu_queues s !! 0%nat = Some (Some 1%nat)
      /\ state t = TASK_STATE_RUNNING
      /\ is_burst t = true
      /\ (exists cg, scheduler_find_cgroup s (cgroup_id t) = Some (0%nat, cg)
                     /\ cpu_quota_us cg = 100000
                     /\ quota_used cg = 0%float)
      /\ quota_used <$> cgroups (account_all s) !! 0%nat = Some 0%float
      /\ quota_used <$> cgroups (snd (scheduler_tick s 1)) !! 0%nat
         = Some 0%float).
Proof.
  cbv zeta.
  split; [vm_compute; reflexivity|]. split; [vm_compute; reflexivity|].
  split; [vm_compute; reflexivity|]. split.
  { exists (mkCgroup "Q" 1024 0 100000 [] 0%float 0).
    vm_compute. repeat split; reflexivity. }
  split; [vm_compute; reflexivity|]. split; [vm_compute; reflexivity|].
  split.
  { intros E. apply (f_equal (fun x => PrimFloat.eqb x 0%float)) in E.
    vm_compute in E. discriminate. }
  split; [vm_compute; reflexivity|]. split; [vm_compute; reflexivity|].
  split; [vm_compute; reflexivity|]. split.
  { exists (mkCgroup "" 1024 100000 100000 [] 0%float 0).
    vm_compute. repeat split; reflexivity. }
  split; vm_compute; reflexivity.
Qed.

Lemma burst_freezes_vruntime_but_not_quota_witness :
  let s := sched_burst in
  let t := deref (task_mem s) 1%nat in
  let cg := mkCgroup "Q" 1024 100000 100000 [] 0%float 0 in
  vruntime (deref (task_mem (account_all s)) 1%nat) = vruntime t
  /\ vruntime (deref (task_mem (snd (scheduler_tick s 1))) 1%nat)
     = vruntime t
  /\ quota_used <$> cgroups (account_cpu s 0%nat) !! 0%nat
     = Some (quota_used cg + double_of_int (quanta s) * 1000)%float.
Proof.
  cbv zeta.
  destruct (burst_freezes_vruntime_but_not_quota sched_burst 0%nat 1%nat
              (deref (task_mem sched_burst) 1%nat))
    as (H1 & H2 & H3);
    [vm_compute; reflexivity|vm_compute; reflexivity|vm_compute; reflexivity
    |vm_compute; reflexivity|].
  split; [exact H1|]. split; [exact (H2 1)|].
  apply (H3 0%nat (mkCgroup "Q" 1024 100000 100000 [] 0%float 0));
    [vm_compute; discriminate|vm_compute; reflexivity|reflexivity
    |vm_compute; reflexivity].
Defined.

(** The cgroup "" has 2048 shares and the task "T" names it, but the
    accounting uses the weight 1024 of the task: the vruntime grows by 1
    and not by 1 * (1024 / 2048).  In the second run the task has weight
    88761 and its cgroup "H" 2147483647 shares: the scaled weight
    186145308585 is narrowed to the [int] 1461714857 and the vruntime
    does not grow by 1 * (1024 / 186145308585). *)
Lemma empty_cgroup_id_counterexample :
  let s := sched_empty_id in
  let t := deref (task_mem s) 1%nat in
  cpu_queues s !! 0%nat = Some (Some 1%nat)
  /\ state t = TASK_STATE_RUNNING
  /\ is_burst t = false
  /\ weight t = 1024
  /\ vruntime t = 0%float
  /\ (exists cg, scheduler_find_cgroup s (cgroup_id t) = Some (0%nat, cg)
                 /\ cpu_shares cg = 2048)
  /\ vruntime (deref (task_mem (account_all s)) 1%nat) = 1%float
  /\ (0 + double_of_int (quanta s)
          * (double_of_int 1024
             / double_of_int (Z.max 1 (1024 * 2048 / 1024))))%float
     = 0.5%float
  /\ 1%float <> 0.5%float
  /\ (let s := sched_big_shares in
      let t := deref (task_mem s) 1%nat in
      cpu_queues s !! 0%nat = Some (Some 1%nat)
      /\ state t = TASK_STATE_RUNNING
      /\ is_burst t = false
      /\ weight t = 88761
      /\ vruntime t = 0%float
      /\ (exists cg, scheduler_find_cgroup s (cgroup_id t) = Some (0%nat, cg)
                     /\ cpu_shares cg = 2147483647)
      /\ weight t * 2147483647 / 1024 = 186145308585
      /\ get_effective_task_weight s t = 1461714857
      /\ vruntime (deref (task_mem (account_all s)) 1%nat)
         <> (0 + double_of_int (quanta s)
                 * (double_of_int 1024
                    / double_of_int
                        (Z.max 1 (88761 * 2147483647 / 1024))))%float).
Proof.
  cbv zeta.
  split; [vm_compute; reflexivity|]. split; [vm_compute; reflexivity|].
  split; [vm_compute; reflexivity|]. split; [vm_compute; reflexivity|].
  split; [vm_compute; reflexivity|]. split.
  { exists (mkCgroup "" 2048 (-1) 100000 [] 0%float 0).
    vm_compute. split; reflexivity. }
  split; [vm_compute; reflexivity|]. split; [vm_compute; reflexivity|].
  split.
  { intros E. apply (f_equal (fun x => PrimFloat.eqb x 1%float)) in E.
    vm_compute in E. discriminate. }
  split; [vm_compute; reflexivity|]. split; [vm_compute; reflexivity|].
  split; [vm_compute; reflexivity|]. split; [vm_compute; reflexivity|].
  split; [vm_compute; reflexivity|]. split.
  { exists (mkCgroup "H" 2147483647 (-1) 100000 [] 0%float 0).
    vm_compute. split; reflexivity. }
  split; [vm_compute; reflexivity|]. split; [vm_compute; reflexivity|].
  intros E.
  apply (f_equal (fun x => PrimFloat.eqb x
                             (vruntime (deref (task_mem
                                (account_all sched_big_shares)) 1%nat)))) in E.
  vm_compute in E. discriminate.
Qed.

(** The narrowing conversion of [get_effective_task_weight]: for the
    weight 88761 of nice -20 and 2147483647 shares the scaled weight
    186145308585 does not fit in an [int]. *)
Lemma effective_weight_narrowing_example :
  let s := with_cgroups [mkCgroup "H" 2147483647 (-1) 100000 [] 0%float 0]
                        (scheduler_init 1 1) in
  let t := task_create "T" (-20) (Some "H") in
  weight t * 2147483647 / 1024 = 186145308585
  /\ get_effective_task_weight s t = 1461714857.
Proof. vm_compute. split; reflexivity. Qed.

Lemma running_task_vruntime_delta_witness :
  let s := sched_shares in
  let t := deref (task_mem s) 1%nat in
  let cg := mkCgroup "H" 2048 (-1) 100000 [] 0%float 0 in
  let s0 := sched_default_cgroup in
  let t0 := deref (task_mem s0) 1%nat in
  vruntime (deref (task_mem (account_all s)) 1%nat)
  = (vruntime t
     + double_of_int (quanta s)
       * (double_of_int 1024
          / double_of_int (Z.max 1 (weight t * cpu_shares cg / 1024))))%float
  /\ vruntime (deref (task_mem (account_all s0)) 1%nat)
     = (vruntime t0
        + double_of_int (quanta s0)
          * (double_of_int 1024 / double_of_int (weight t0)))%float.
Proof.
  cbv zeta. split.
  - destruct (running_task_vruntime_delta sched_shares 0%nat 1%nat
                (deref (task_mem sched_shares) 1%nat))
      as (H1 & _);
      [vm_compute; reflexivity|vm_compute; reflexivity
      |vm_compute; reflexivity|vm_compute; reflexivity
      |vm_compute; reflexivity|].
    destruct (H1 0%nat (mkCgroup "H" 2048 (-1) 100000 [] 0%float 0))
      as [Ha _];
      [vm_compute; discriminate|vm_compute; reflexivity|reflexivity
      |vm_compute; discriminate|].
    exact Ha.
  - destruct (running_task_vruntime_delta sched_default_cgroup 0%nat 1%nat
                (deref (task_mem sched_default_cgroup) 1%nat))
      as (_ & H2);
      [vm_compute; reflexivity|vm_compute; reflexivity
      |vm_compute; reflexivity|vm_compute; reflexivity
      |vm_compute; reflexivity|].
    destruct H2 as [Ha _]; [right; vm_compute; reflexivity|].
    exact Ha.
Defined.

(** Two tasks created with the same identifier "T" run on the two CPUs in
    the same tick: the schedule has the same identifier twice. *)
Lemma duplicate_id_schedule_counterexample :
  let tick := fst (scheduler_tick sched_two_T 0) in
  schedule tick !! 0%nat = Some "T"
  /\ schedule tick !! 1%nat = Some "T"
  /\ "T" <> "idle".
Proof. vm_compute. repeat split; discriminate. Qed.

Lemma sched_AB_unique_ids p q :
  p ∈ all_tasks sched_AB -> q ∈ all_tasks sched_AB ->
  task_id (deref (task_mem sched_AB) p) = task_id (deref (task_mem sched_AB) q)
  -> p = q.
Proof.
  change (all_tasks sched_AB) with [1%nat; 2%nat].
  intros Hp Hq.
  apply elem_of_cons in Hp as [->|Hp]; [|apply list_elem_of_singleton in Hp as ->];
    (apply elem_of_cons in Hq as [->|Hq];
       [|apply list_elem_of_singleton in Hq as ->]);
    vm_compute; intros H; (reflexivity || discriminate H).
Defined.

Lemma exclusive_assignment_witness :
  let tick := fst (scheduler_tick sched_AB 0) in
  let s' := snd (scheduler_tick sched_AB 0) in
  (forall c1 c2 p,
      cpu_queues s' !! c1 = Some (Some p) ->
      cpu_queues s' !! c2 = Some (Some p) -> c1 = c2)
  /\ schedule tick !! 0%nat = Some (shown s' 0%nat)
  /\ ("A" <> "B" \/ ("A" = "idle" /\ "B" = "idle")).
Proof.
  cbv zeta.
  destruct (exclusive_assignment sched_AB 0) as (H1 & H2 & H3).
  { apply reachable_process_events, reachable_init. }
  split; [exact H1|]. split.
  - apply H2. vm_compute. lia.
  - apply (H3 sched_AB_unique_ids 0%nat 1%nat);
      [discriminate|vm_compute; reflexivity|vm_compute; reflexivity].
Defined.

(** A second TaskCreate event for the identifier "T1" adds a second task
    record to the registry. *)
Lemma task_create_duplicate_counterexample :
  let e := task_create_event "T1" "" 0 in
  let s' := snd (scheduler_process_event sched_with_T1 e) in
  scheduler_find_task sched_with_T1 (ev_task_id e) = Some 1%nat
  /\ all_tasks sched_with_T1 = [1%nat]
  /\ all_tasks s' = [1%nat; 2%nat]
  /\ task_id (deref (task_mem s') 2%nat) = "T1"
  /\ all_tasks s' <> all_tasks sched_with_T1.
Proof. vm_compute. repeat split; discriminate. Qed.

(** The run [swap_frames]: in tick 1 "B" (the lower vruntime) is selected
    for CPU 0 and marked Running; the selection for CPU 1, whose previous
    task was "B", then resets the state of "B" to Runnable.  At the end of
    the tick "B" is the current task of CPU 0 and Runnable, and the queue
    is empty. *)
Lemma runnable_task_outside_queue :
  let s := sched_swapped in
  all_tasks s = [1%nat; 2%nat]
  /\ task_id (deref (task_mem s) 2%nat) = "B"
  /\ state (deref (task_mem s) 2%nat) = TASK_STATE_RUNNABLE
  /\ cpu_queues s = [Some 2%nat; Some 1%nat]
  /\ runnable_heap s = []
  /\ 2%nat ∉ runnable_heap s.
Proof.
  vm_compute. repeat split; try reflexivity. apply not_elem_of_nil.
Qed.

(** The run [sleeper_frames] and then TaskUnblock("T"): "T" slept with
    vruntime 0 while "U" and "V" reached 5 and 4.  The event makes "T"
    Runnable and enqueues it, but its vruntime stays 0: the minimum is
    taken after "T" itself became Runnable, so the bonus branch cannot
    fire.  The minimum over the tasks that were runnable before the event
    is 4, and 4 - 1 exceeds 0. *)
Lemma unblock_keeps_vruntime :
  let s := sched_sleeper in
  let e := event_on_task EVENT_TASK_UNBLOCK "T" in
  let s' := snd (scheduler_process_event s e) in
  scheduler_find_task s "T" = Some 1%nat
  /\ state (deref (task_mem s) 1%nat) = TASK_STATE_BLOCKED
  /\ vruntime (deref (task_mem s) 1%nat) = 0%float
  /\ get_min_vruntime s = 4%float
  /\ state (deref (task_mem s') 1%nat) = TASK_STATE_RUNNABLE
  /\ runnable_heap s' = [1%nat; 2%nat]
  /\ vruntime (deref (task_mem s') 1%nat) = 0%float
  /\ dlt (vruntime (deref (task_mem s') 1%nat)) (get_min_vruntime s - 1)%float
     = true.
Proof. vm_compute. repeat split; reflexivity. Qed.

(** * Further properties

    ** The order of the doubles

    The comparisons of binary64 are those of a rank in a lexicographic
    order on triples of integers, for every operand that is not a NaN. *)

Lemma SFltb_rank x y :
  x <> SpecFloat.S754_nan -> y <> SpecFloat.S754_nan ->
  (SpecFloat.SFltb x y = true <-> rank_lt (float_rank x) (float_rank y)).
Proof.
  intros Hx Hy. unfold SpecFloat.SFltb.
  destruct x as [sx|sx| |sx mx ex], y as [sy|sy| |sy my ey];
    try contradiction;
    try (destruct sx); try (destruct sy); cbn;
    try (split; [discriminate|lia]);
    try (split; [lia|reflexivity]).
  - destruct (Z.compare_spec ex ey); cbn;
      [subst; rewrite Pos.compare_cont_spec; cbn;
       destruct (Pos.compare_spec mx my); cbn|..];
      (split; [try discriminate; lia|try reflexivity; lia]).
  - destruct (Z.compare_spec ex ey); cbn;
      [subst; rewrite Pos.compare_cont_spec; cbn;
       destruct (Pos.compare_spec mx my); cbn|..];
      (split; [try discriminate; lia|try reflexivity; lia]).
Qed.

Lemma not_nan_spec x :
  not_nan x = true <-> FloatOps.Prim2SF x <> SpecFloat.S754_nan.
Proof.
  unfold not_nan. rewrite FloatAxioms.eqb_spec. unfold SpecFloat.SFeqb.
  destruct (FloatOps.Prim2SF x) as [s|s| |s m e]; cbn.
  - split; [discriminate|reflexivity].
  - destruct s; (split; [discriminate|reflexivity]).
  - split; [discriminate|congruence].
  - rewrite Z.compare_refl, Pos.compare_cont_spec, Pos.compare_refl.
    destruct s; cbn; (split; [discriminate|reflexivity]).
Qed.

Lemma dlt_rank a b :
  not_nan a = true -> not_nan b = true ->
  (dlt a b = true <-> rank_lt (float_rank (FloatOps.Prim2SF a)) (float_rank (FloatOps.Prim2SF b))).
Proof.
  intros Ha Hb. unfold dlt. rewrite FloatAxioms.ltb_spec.
  apply SFltb_rank; now apply not_nan_spec.
Qed.

Lemma dlt_not_nan a b : dlt a b = true -> not_nan a = true /\ not_nan b = true.
Proof.
  unfold dlt. rewrite FloatAxioms.ltb_spec, !not_nan_spec.
  unfold SpecFloat.SFltb.
  destruct (FloatOps.Prim2SF a), (FloatOps.Prim2SF b); cbn; try discriminate;
    intros _; split; discriminate.
Qed.

Lemma dlt_trans a b c : dlt a b = true -> dlt b c = true -> dlt a c = true.
Proof.
  intros H1 H2.
  destruct (dlt_not_nan _ _ H1) as [Ha Hb].
  destruct (dlt_not_nan _ _ H2) as [_ Hc].
  apply dlt_rank in H1; [|assumption..]. apply dlt_rank in H2; [|assumption..].
  apply dlt_rank; [assumption..|].
  unfold rank_lt in *.
  destruct (float_rank _) as [[? ?] ?], (float_rank _) as [[? ?] ?],
    (float_rank _) as [[? ?] ?]. lia.
Qed.

Lemma dlt_asym a b : dlt a b = true -> dlt b a = false.
Proof.
  intros H1. destruct (dlt b a) eqn:H2; [|reflexivity].
  destruct (dlt_not_nan _ _ H1) as [Ha Hb].
  apply dlt_rank in H1; [|assumption..]. apply dlt_rank in H2; [|assumption..].
  unfold rank_lt in *.
  destruct (float_rank _) as [[? ?] ?], (float_rank _) as [[? ?] ?]. lia.
Qed.

Lemma dlt_irrefl a : dlt a a = false.
Proof.
  destruct (dlt a a) eqn:H; [|reflexivity].
  now rewrite (dlt_asym _ _ H) in H.
Qed.

(** [a <= b] and [b <= c] give [a <= c], where [x <= y] is read as
    "not [y < x]" and [b] is not a NaN. *)
Lemma dle_trans a b c :
  not_nan b = true ->
  dlt b a = false -> dlt c b = false -> dlt c a = false.
Proof.
  intros Hb H1 H2. destruct (dlt c a) eqn:H3; [|reflexivity].
  destruct (dlt_not_nan _ _ H3) as [Hc Ha].
  apply dlt_rank in H3; [|assumption..].
  assert (N1 : ~ rank_lt (float_rank (FloatOps.Prim2SF b)) (float_rank (FloatOps.Prim2SF a))).
  { intros H. apply dlt_rank in H; [congruence|assumption..]. }
  assert (N2 : ~ rank_lt (float_rank (FloatOps.Prim2SF c)) (float_rank (FloatOps.Prim2SF b))).
  { intros H. apply dlt_rank in H; [congruence|assumption..]. }
  unfold rank_lt in *.
  destruct (float_rank _) as [[? ?] ?], (float_rank _) as [[? ?] ?],
    (float_rank _) as [[? ?] ?]. lia.
Qed.

(** [a < b] and [b <= c] give [a < c] when [c] is not a NaN. *)
Lemma dlt_dle_trans a b c :
  not_nan c = true ->
  dlt a b = true -> dlt c b = false -> dlt a c = true.
Proof.
  intros Hc H1 H2.
  destruct (dlt_not_nan _ _ H1) as [Ha Hb].
  apply dlt_rank in H1; [|assumption..].
  assert (N2 : ~ rank_lt (float_rank (FloatOps.Prim2SF c)) (float_rank (FloatOps.Prim2SF b))).
  { intros H. apply dlt_rank in H; [congruence|assumption..]. }
  apply dlt_rank; [assumption..|].
  unfold rank_lt in *.
  destruct (float_rank _) as [[? ?] ?], (float_rank _) as [[? ?] ?],
    (float_rank _) as [[? ?] ?]. lia.
Qed.

(** [a <= b] and [b < c] give [a < c] when [a] is not a NaN. *)
Lemma dle_dlt_trans a b c :
  not_nan a = true ->
  dlt b a = false -> dlt b c = true -> dlt a c = true.
Proof.
  intros Ha H1 H2.
  destruct (dlt_not_nan _ _ H2) as [Hb Hc].
  apply dlt_rank in H2; [|assumption..].
  assert (N1 : ~ rank_lt (float_rank (FloatOps.Prim2SF b)) (float_rank (FloatOps.Prim2SF a))).
  { intros H. apply dlt_rank in H; [congruence|assumption..]. }
  apply dlt_rank; [assumption..|].
  unfold rank_lt in *.
  destruct (float_rank _) as [[? ?] ?], (float_rank _) as [[? ?] ?],
    (float_rank _) as [[? ?] ?]. lia.
Qed.

(** ** The heap and the [heap_index] fields *)

Lemma heap_wf_NoDup h m : heap_wf h m -> NoDup h.
Proof.
  intros [Hin _]. apply NoDup_alt. intros i j p Hi Hj.
  destruct (Hin _ _ Hi) as (t & Ht & E1).
  destruct (Hin _ _ Hj) as (t' & Ht' & E2).
  rewrite Ht in Ht'. injection Ht' as <-. lia.
Qed.

Lemma heap_wf_index h m i p :
  heap_wf h m -> h !! i = Some p -> heap_index (deref m p) = Z.of_nat i.
Proof.
  intros [Hin _] Hi. destruct (Hin _ _ Hi) as (t & Ht & E).
  now rewrite (deref_lookup _ _ _ Ht).
Qed.

Lemma heap_wf_index_out h m p :
  heap_wf h m -> p ∉ h -> heap_index (deref m p) = -1.
Proof.
  intros [_ Hout] Hp. unfold deref.
  destruct (m !! p) eqn:E; cbn; [eauto|reflexivity].
Qed.

Lemma heap_wf_queued h m p :
  heap_wf h m -> ((heap_index (deref m p) >=? 0) = true <-> p ∈ h).
Proof.
  intros Hwf. split.
  - intros H. destruct (decide (p ∈ h)) as [|Hn]; [assumption|].
    rewrite (heap_wf_index_out _ _ _ Hwf Hn) in H. discriminate.
  - intros H. apply list_elem_of_lookup_1 in H as [i Hi].
    rewrite (heap_wf_index _ _ _ _ Hwf Hi). apply Z.geb_le. lia.
Qed.

Lemma heap_wf_valid h m p :
  heap_wf h m -> (heap_index_valid h (deref m p) = true <-> p ∈ h).
Proof.
  intros Hwf. unfold heap_index_valid. split.
  - intros H. destruct (decide (p ∈ h)) as [|Hn]; [assumption|].
    rewrite (heap_wf_index_out _ _ _ Hwf Hn) in H. discriminate.
  - intros H. apply list_elem_of_lookup_1 in H as [i Hi].
    rewrite (heap_wf_index _ _ _ _ Hwf Hi).
    apply lookup_lt_Some in Hi.
    destruct (Z.ltb_spec (Z.of_nat i) 0); [lia|].
    destruct (Z.geb_spec (Z.of_nat i) (Z.of_nat (length h))); [lia|].
    reflexivity.
Qed.

Lemma heap_wf_stored h m p : heap_wf h m -> p ∈ h -> is_Some (m !! p).
Proof.
  intros [Hin _] H. apply list_elem_of_lookup_1 in H as [i Hi].
  destruct (Hin _ _ Hi) as (t & Ht & _). eauto.
Qed.

(** Writing the position of one task. *)
Lemma assign_index_lookup (m : gmap nat Task) p q i :
  assign (set_heap_index i) p m !! q
  = if decide (p = q) then set_heap_index i <$> m !! q else m !! q.
Proof.
  unfold assign. destruct (decide (p = q)) as [->|Hne].
  - apply lookup_alter_eq.
  - now apply lookup_alter_ne.
Qed.

Lemma heap_wf_but_NoDup D h m : heap_wf_but D h m -> NoDup h.
Proof.
  intros [Hin _]. apply NoDup_alt. intros i j p Hi Hj.
  destruct (Hin _ _ Hi) as (t & Ht & E1).
  destruct (Hin _ _ Hj) as (t' & Ht' & E2).
  rewrite Ht in Ht'. injection Ht' as <-. lia.
Qed.

Lemma heap_wf_but_False h m : heap_wf h m <-> heap_wf_but (fun _ => False) h m.
Proof.
  split; intros [Hin Hout]; (split; [exact Hin|]).
  - intros p t Hp Hn _. eauto.
  - intros p t Hp Hn. eapply Hout; eauto.
Qed.

Lemma heap_wf_but_weaken (D : nat -> Prop) h m :
  heap_wf h m -> heap_wf_but D h m.
Proof. intros [Hin Hout]. split; [exact Hin|]. intros p t Hp Hn _. eauto. Qed.

Lemma heap_swap_wf_but D h m i j :
  heap_wf_but D h m -> (i < length h)%nat -> (j < length h)%nat ->
  heap_wf_but D (fst (heap_swap h m i j)) (snd (heap_swap h m i j)).
Proof.
  intros Hwf Hi Hj.
  pose proof (heap_wf_but_NoDup _ _ _ Hwf) as Hnd.
  destruct (lookup_lt_is_Some_2 h i Hi) as [a Ha].
  destruct (lookup_lt_is_Some_2 h j Hj) as [b Hb].
  unfold heap_swap. cbn [fst snd].
  rewrite (slot_lookup _ _ _ Ha), (slot_lookup _ _ _ Hb).
  destruct Hwf as [Hin Hout].
  destruct (Hin _ _ Ha) as (ta & Hta & Eta).
  destruct (Hin _ _ Hb) as (tb & Htb & Etb).
  destruct (decide (i = j)) as [->|Hne].
  { rewrite Ha in Hb. injection Hb as <-.
    rewrite list_insert_insert_eq, (list_insert_id _ _ _ Ha).
    rewrite (slot_lookup _ _ _ Ha).
    split.
    - intros k p Hk. rewrite !assign_index_lookup.
      destruct (decide (a = p)) as [<-|Hap]; [|now apply Hin].
      rewrite Hta. cbn. assert (k = j) as -> by (eapply NoDup_lookup; eauto).
      eauto.
    - intros p t Hp Hnin HD. rewrite !assign_index_lookup in Hp.
      destruct (decide (a = p)) as [<-|Hap]; [|eauto].
      exfalso. apply Hnin. eapply list_elem_of_lookup_2; eauto. }
  assert (Hab : a <> b).
  { intros ->. apply Hne. eapply NoDup_lookup; eauto. }
  set (h2 := <[j := a]> (<[i := b]> h)).
  assert (H2j : h2 !! j = Some a).
  { subst h2. apply list_lookup_insert_eq. now rewrite length_insert. }
  assert (H2i : h2 !! i = Some b).
  { subst h2. rewrite list_lookup_insert_ne by congruence.
    now apply list_lookup_insert_eq. }
  assert (H2k : forall k, k <> i -> k <> j -> h2 !! k = h !! k).
  { intros k Hki Hkj. subst h2.
    now rewrite !list_lookup_insert_ne by congruence. }
  rewrite (slot_lookup _ _ _ H2j), (slot_lookup _ _ _ H2i).
  split.
  - intros k p Hk. rewrite !assign_index_lookup.
    destruct (decide (k = j)) as [->|Hkj].
    + rewrite H2j in Hk. injection Hk as <-.
      rewrite decide_True by reflexivity.
      rewrite decide_False by congruence. rewrite Hta. cbn. eauto.
    + destruct (decide (k = i)) as [->|Hki].
      * rewrite H2i in Hk. injection Hk as <-.
        rewrite decide_False by assumption.
        rewrite decide_True by reflexivity. rewrite Htb. cbn. eauto.
      * rewrite H2k in Hk by assumption.
        assert (a <> p).
        { intros ->. apply Hki. eapply NoDup_lookup; eauto. }
        assert (b <> p).
        { intros ->. apply Hkj. eapply NoDup_lookup; eauto. }
        rewrite !decide_False by assumption.
        now apply Hin.
  - intros p t Hp Hnin HD.
    assert (Hp' : p ∉ h).
    { intros [k Hk]%list_elem_of_lookup_1. apply Hnin.
      destruct (decide (k = j)) as [->|Hkj].
      - rewrite Hb in Hk. injection Hk as <-.
        now apply list_elem_of_lookup_2 in H2i.
      - destruct (decide (k = i)) as [->|Hki].
        + rewrite Ha in Hk. injection Hk as <-.
          now apply list_elem_of_lookup_2 in H2j.
        + rewrite <- H2k in Hk by assumption.
          now apply list_elem_of_lookup_2 in Hk. }
    rewrite !assign_index_lookup in Hp.
    assert (a <> p) by (intros ->; apply Hp'; eapply list_elem_of_lookup_2; eauto).
    assert (b <> p) by (intros ->; apply Hp'; eapply list_elem_of_lookup_2; eauto).
    rewrite !decide_False in Hp by assumption.
    eauto.
Qed.

Lemma heap_swap_wf h m i j :
  heap_wf h m -> (i < length h)%nat -> (j < length h)%nat ->
  heap_wf (fst (heap_swap h m i j)) (snd (heap_swap h m i j)).
Proof.
  intros Hwf Hi Hj. apply heap_wf_but_False.
  apply heap_swap_wf_but; [now apply heap_wf_but_False|assumption..].
Qed.

Lemma heap_bubble_up_loop_wf_but D fuel h m idx :
  heap_wf_but D h m -> (idx < length h)%nat ->
  heap_wf_but D (fst (heap_bubble_up_loop fuel h m idx))
          (snd (heap_bubble_up_loop fuel h m idx)).
Proof.
  revert h m idx. induction fuel as [|fuel IH]; intros h m idx Hwf Hidx;
    cbn [heap_bubble_up_loop]; [assumption|].
  destruct (Nat.ltb_spec 0 idx) as [Hpos|]; cbn [andb]; [|assumption].
  destruct (dgt _ _); [|assumption].
  pose proof (parent_lt idx Hpos) as Hp.
  pose proof (heap_swap_wf_but D h m idx (parent idx) Hwf Hidx ltac:(lia)) as Hs.
  pose proof (heap_swap_length h m idx (parent idx)) as Hl.
  destruct (heap_swap h m idx (parent idx)) as [h' m']. cbn [fst snd] in *.
  apply IH; [assumption|lia].
Qed.

Lemma heap_bubble_up_loop_wf fuel h m idx :
  heap_wf h m -> (idx < length h)%nat ->
  heap_wf (fst (heap_bubble_up_loop fuel h m idx))
          (snd (heap_bubble_up_loop fuel h m idx)).
Proof.
  intros Hwf Hi. apply heap_wf_but_False.
  apply heap_bubble_up_loop_wf_but; [now apply heap_wf_but_False|assumption].
Qed.

Lemma heap_bubble_down_loop_wf fuel h m idx :
  heap_wf h m ->
  heap_wf (fst (heap_bubble_down_loop fuel h m idx))
          (snd (heap_bubble_down_loop fuel h m idx)).
Proof.
  revert h m idx. induction fuel as [|fuel IH]; intros h m idx Hwf;
    cbn [heap_bubble_down_loop]; [assumption|]. cbv zeta.
  set (c1 := (left_child idx <? length h)%nat
             && dlt (key h m (left_child idx)) (key h m idx)).
  set (m1 := if c1 then left_child idx else idx).
  set (c2 := (right_child idx <? length h)%nat
             && dlt (key h m (right_child idx)) (key h m m1)).
  set (m2 := if c2 then right_child idx else m1).
  destruct (Nat.eqb_spec m2 idx) as [|Hne]; [assumption|].
  assert (Hb : (idx < m2 < length h)%nat).
  { subst m2 m1. unfold left_child, right_child in *.
    destruct c2 eqn:E2.
    - subst c2. apply andb_true_iff in E2 as [E2 _].
      apply Nat.ltb_lt in E2. unfold right_child in E2. lia.
    - destruct c1 eqn:E1; [|contradiction].
      subst c1. apply andb_true_iff in E1 as [E1 _].
      apply Nat.ltb_lt in E1. unfold left_child in E1. lia. }
  pose proof (heap_swap_wf h m idx m2 Hwf ltac:(lia) ltac:(lia)) as Hs.
  destruct (heap_swap h m idx m2) as [h' m']. cbn [fst snd] in *.
  now apply IH.
Qed.

Lemma heap_restore_wf h m idx :
  heap_wf h m -> (idx < length h)%nat ->
  heap_wf (fst (heap_restore h m idx)) (snd (heap_restore h m idx)).
Proof.
  intros Hwf Hidx. unfold heap_restore, heap_bubble_up, heap_bubble_down.
  destruct (_ && _);
    [now apply heap_bubble_up_loop_wf|now apply heap_bubble_down_loop_wf].
Qed.

(** Appending a task that the heap does not hold. *)
Lemma heap_append_wf_but (D : nat -> Prop) h m p :
  heap_wf_but D h m -> p ∉ h -> is_Some (m !! p) ->
  heap_wf_but (fun q => D q /\ q <> p) (h ++ [p])
              (assign (set_heap_index (Z.of_nat (length h))) p m).
Proof.
  intros [Hin Hout] Hp [t Ht]. split.
  - intros k q Hk. rewrite assign_index_lookup.
    apply lookup_snoc_Some in Hk as [[Hlt Hk]|[-> <-]].
    + rewrite decide_False; [now apply Hin|].
      intros ->. apply Hp. eapply list_elem_of_lookup_2; eauto.
    + rewrite decide_True by reflexivity. rewrite Ht. cbn. eauto.
  - intros q tq Hq Hnin HD. rewrite assign_index_lookup in Hq.
    assert (Hqp : p <> q).
    { intros ->. apply Hnin. apply elem_of_app. right.
      now apply list_elem_of_singleton. }
    rewrite decide_False in Hq by assumption.
    apply (Hout _ _ Hq).
    + intros H. apply Hnin. apply elem_of_app. now left.
    + intros H. apply HD. split; congruence.
Qed.

Lemma heap_insert_wf_but (D : nat -> Prop) h m p :
  heap_wf_but D h m -> p ∉ h -> is_Some (m !! p) ->
  heap_wf_but (fun q => D q /\ q <> p)
              (fst (heap_insert h m p)) (snd (heap_insert h m p)).
Proof.
  intros Hwf Hp Hs. unfold heap_insert, heap_bubble_up.
  apply heap_bubble_up_loop_wf_but; [now apply heap_append_wf_but|].
  rewrite length_app. cbn. lia.
Qed.

(** Dropping the task of the last position. *)
Lemma heap_drop_last_wf h m p :
  heap_wf h m -> h !! (length h - 1)%nat = Some p ->
  heap_wf (take (length h - 1) h) (assign (set_heap_index (-1)) p m).
Proof.
  intros Hwf Hp. pose proof (heap_wf_NoDup _ _ Hwf) as Hnd.
  destruct Hwf as [Hin Hout]. split.
  - intros k q Hk. apply lookup_take_Some in Hk as [Hk Hlt].
    rewrite assign_index_lookup. rewrite decide_False; [now apply Hin|].
    intros ->. assert (k = (length h - 1)%nat) by (eapply NoDup_lookup; eauto).
    lia.
  - intros q tq Hq Hnin. rewrite assign_index_lookup in Hq.
    destruct (decide (p = q)) as [->|Hne].
    + destruct (m !! q); [|discriminate]. cbn in Hq. now injection Hq as <-.
    + apply (Hout _ _ Hq). intros [k Hk]%list_elem_of_lookup_1.
      pose proof (lookup_lt_Some _ _ _ Hk).
      destruct (decide (k = (length h - 1)%nat)) as [->|Hkn];
        [congruence|].
      apply Hnin. apply (list_elem_of_lookup_2 _ k).
      apply lookup_take_Some. split; [assumption|lia].
Qed.

(** Replacing the task of position [idx] by the task of the last
    position. *)
Lemma heap_move_last_wf h m idx p :
  heap_wf h m -> h !! idx = Some p -> (idx < length h - 1)%nat ->
  heap_wf (move_last h idx)
          (assign (set_heap_index (Z.of_nat idx)) (slot (move_last h idx) idx)
                  (assign (set_heap_index (-1)) p m)).
Proof.
  intros Hwf Hp Hidx. pose proof (heap_wf_NoDup _ _ Hwf) as Hnd.
  set (n := (length h - 1)%nat).
  destruct (lookup_lt_is_Some_2 h n ltac:(lia)) as [l Hl].
  assert (Hpl : p <> l).
  { intros ->. assert (idx = n) by (eapply NoDup_lookup; eauto). lia. }
  assert (Hm : move_last h idx = <[idx := l]> (take n h)).
  { unfold move_last. fold n. now rewrite (slot_lookup _ _ _ Hl). }
  rewrite Hm.
  assert (Hs : <[idx := l]> (take n h) !! idx = Some l).
  { apply list_lookup_insert_eq. rewrite length_take. lia. }
  rewrite (slot_lookup _ _ _ Hs).
  destruct Hwf as [Hin Hout].
  destruct (Hin _ _ Hl) as (tl & Htl & _).
  split.
  - intros k q Hk. rewrite !assign_index_lookup.
    destruct (decide (k = idx)) as [->|Hki].
    + rewrite Hs in Hk. injection Hk as <-.
      rewrite decide_True by reflexivity.
      rewrite decide_False by assumption. rewrite Htl. cbn. eauto.
    + rewrite list_lookup_insert_ne in Hk by congruence.
      apply lookup_take_Some in Hk as [Hk Hlt].
      assert (l <> q).
      { intros ->. assert (k = n) by (eapply NoDup_lookup; eauto). lia. }
      assert (p <> q).
      { intros ->. apply Hki. eapply NoDup_lookup; eauto. }
      rewrite !decide_False by assumption. now apply Hin.
  - intros q tq Hq Hnin. rewrite !assign_index_lookup in Hq.
    assert (l <> q).
    { intros ->. apply Hnin. eapply list_elem_of_lookup_2; eauto. }
    rewrite decide_False in Hq by assumption.
    destruct (decide (p = q)) as [->|Hne].
    + destruct (m !! q); [|discriminate]. cbn in Hq. now injection Hq as <-.
    + apply (Hout _ _ Hq). intros [k Hk]%list_elem_of_lookup_1.
      pose proof (lookup_lt_Some _ _ _ Hk).
      assert (k <> idx) by congruence.
      assert (k <> n) by congruence.
      apply Hnin. apply (list_elem_of_lookup_2 _ k).
      rewrite list_lookup_insert_ne by congruence.
      apply lookup_take_Some. split; [assumption|lia].
Qed.

Lemma heap_insert_wf h m p :
  heap_wf h m -> p ∉ h -> is_Some (m !! p) ->
  heap_wf (fst (heap_insert h m p)) (snd (heap_insert h m p)).
Proof.
  intros Hwf Hp Hs. apply heap_wf_but_False in Hwf.
  destruct (heap_insert_wf_but _ h m p Hwf Hp Hs) as [Hin Hout].
  split; [exact Hin|]. intros q t Hq Hn. apply (Hout q t Hq Hn). tauto.
Qed.

Lemma heap_extract_min_wf h m :
  heap_wf h m ->
  heap_wf (fst (snd (heap_extract_min h m)))
          (snd (snd (heap_extract_min h m))).
Proof.
  intros Hwf. unfold heap_extract_min. destruct h as [|x h]; [assumption|].
  destruct (Nat.ltb_spec 0 (length (x :: h) - 1)) as [Hpos|Hz]; cbn [fst snd].
  - unfold heap_bubble_down. apply heap_bubble_down_loop_wf.
    now apply (heap_move_last_wf (x :: h) m 0 x).
  - apply heap_drop_last_wf; [assumption|].
    destruct h; [reflexivity|cbn in Hz; lia].
Qed.

Lemma heap_remove_wf h m p :
  heap_wf h m ->
  heap_wf (fst (heap_remove h m p)) (snd (heap_remove h m p)).
Proof.
  intros Hwf. unfold heap_remove.
  destruct (heap_index_valid h (deref m p)) eqn:Hv; [|assumption].
  apply (heap_wf_valid _ _ _ Hwf) in Hv.
  apply list_elem_of_lookup_1 in Hv as [i Hi].
  rewrite (heap_wf_index _ _ _ _ Hwf Hi), Nat2Z.id. cbv zeta.
  pose proof (lookup_lt_Some _ _ _ Hi) as Hlt.
  destruct (Nat.ltb_spec i (length h - 1)) as [Hin|Hlast]; cbn [fst snd].
  - apply heap_restore_wf; [now apply heap_move_last_wf|].
    unfold move_last. rewrite length_insert, length_take. lia.
  - apply heap_drop_last_wf; [assumption|].
    now replace (length h - 1)%nat with i by lia.
Qed.

Lemma heap_update_wf h m p :
  heap_wf h m ->
  heap_wf (fst (heap_update h m p)) (snd (heap_update h m p)).
Proof.
  intros Hwf. unfold heap_update.
  destruct (heap_index_valid h (deref m p)) eqn:Hv; [|assumption].
  apply (heap_wf_valid _ _ _ Hwf) in Hv.
  apply list_elem_of_lookup_1 in Hv as [i Hi].
  rewrite (heap_wf_index _ _ _ _ Hwf Hi), Nat2Z.id. cbv zeta.
  pose proof (lookup_lt_Some _ _ _ Hi) as Hlt.
  unfold heap_bubble_up, heap_bubble_down.
  destruct (_ && _);
    [now apply heap_bubble_up_loop_wf|now apply heap_bubble_down_loop_wf].
Qed.

(** What [heap_remove] removes. *)
Lemma heap_remove_perm h m p :
  heap_wf h m -> p ∈ h -> p :: fst (heap_remove h m p) ≡ₚ h.
Proof.
  intros Hwf Hp. unfold heap_remove.
  rewrite (proj2 (heap_wf_valid _ _ _ Hwf) Hp).
  apply list_elem_of_lookup_1 in Hp as [i Hi].
  rewrite (heap_wf_index _ _ _ _ Hwf Hi), Nat2Z.id. cbv zeta.
  pose proof (lookup_lt_Some _ _ _ Hi) as Hlt.
  destruct (Nat.ltb_spec i (length h - 1)) as [Hin|Hlast]; cbn [fst snd].
  - unfold heap_restore, heap_bubble_up, heap_bubble_down.
    assert (Hperm : p :: move_last h i ≡ₚ h).
    { rewrite <- (slot_lookup _ _ _ Hi). now apply move_last_perm. }
    destruct (_ && _).
    + rewrite heap_bubble_up_loop_perm; [assumption|].
      unfold move_last. rewrite length_insert, length_take. lia.
    + now rewrite heap_bubble_down_loop_perm.
  - assert (i = (length h - 1)%nat) as -> by lia.
    assert (Hh : h = take (length h - 1) h ++ [p]).
    { rewrite <- (take_drop (length h - 1) h) at 1. f_equal.
      rewrite (drop_S h p (length h - 1)) by assumption.
      now rewrite drop_ge by lia. }
    rewrite Hh at 3. apply Permutation_cons_append.
Qed.

Lemma heap_remove_absent h m p :
  heap_wf h m -> p ∉ h -> heap_remove h m p = (h, m).
Proof.
  intros Hwf Hp. unfold heap_remove.
  destruct (heap_index_valid h (deref m p)) eqn:Hv; [|reflexivity].
  now apply (heap_wf_valid _ _ _ Hwf) in Hv.
Qed.

Lemma heap_update_perm h m p : fst (heap_update h m p) ≡ₚ h.
Proof.
  unfold heap_update.
  destruct (heap_index_valid h (deref m p)) eqn:Hv; [|reflexivity].
  cbv zeta. unfold heap_bubble_up, heap_bubble_down.
  destruct (_ && _).
  - apply heap_bubble_up_loop_perm.
    unfold heap_index_valid in Hv. apply negb_true_iff, orb_false_iff in Hv.
    destruct Hv as [H1 H2]. apply Z.ltb_ge in H1.
    destruct (Z.geb_spec (heap_index (deref m p)) (Z.of_nat (length h)));
      [discriminate|]. lia.
  - apply heap_bubble_down_loop_perm.
Qed.

(** ** The order of the heap *)

Lemma parent_left_child i : parent (left_child i) = i.
Proof.
  unfold parent, left_child.
  replace (2 * i + 1 - 1)%nat with (i * 2)%nat by lia.
  now apply Nat.div_mul.
Qed.

Lemma parent_right_child i : parent (right_child i) = i.
Proof.
  unfold parent, right_child.
  replace (2 * i + 2 - 1)%nat with (1 + i * 2)%nat by lia.
  rewrite Nat.div_add by lia. reflexivity.
Qed.

Lemma child_cases c :
  (0 < c)%nat -> c = left_child (parent c) \/ c = right_child (parent c).
Proof.
  intros Hc. unfold parent, left_child, right_child.
  pose proof (Nat.div_mod_eq (c - 1) 2) as H.
  pose proof (Nat.mod_upper_bound (c - 1) 2 ltac:(lia)) as Hm.
  lia.
Qed.

Lemma key_frame h (m m' : gmap nat Task) i :
  vruntime <$> m' = vruntime <$> m -> key h m' i = key h m i.
Proof. intros H. unfold key. symmetry. now apply (proj_deref vruntime). Qed.

Lemma keys_not_nan_frame h h' (m m' : gmap nat Task) :
  vruntime <$> m' = vruntime <$> m -> h' ≡ₚ h ->
  keys_not_nan h m -> keys_not_nan h' m'.
Proof.
  intros Hm Hh H p Hp. rewrite Hh in Hp.
  rewrite <- (H p Hp). f_equal. symmetry. now apply (proj_deref vruntime).
Qed.

Lemma slot_heap_swap h m i j k :
  (i < length h)%nat -> (j < length h)%nat ->
  slot (fst (heap_swap h m i j)) k
  = slot h (if decide (k = j) then i else if decide (k = i) then j else k).
Proof.
  intros Hi Hj. unfold heap_swap. cbn [fst]. unfold slot at 1.
  rewrite nth_lookup.
  destruct (decide (k = j)) as [->|Hkj].
  - rewrite list_lookup_insert_eq by now rewrite length_insert.
    reflexivity.
  - rewrite list_lookup_insert_ne by congruence.
    destruct (decide (k = i)) as [->|Hki].
    + now rewrite list_lookup_insert_eq.
    + rewrite list_lookup_insert_ne by congruence.
      unfold slot. now rewrite nth_lookup.
Qed.

Lemma key_heap_swap h m i j k :
  (i < length h)%nat -> (j < length h)%nat ->
  key (fst (heap_swap h m i j)) (snd (heap_swap h m i j)) k
  = key h m (if decide (k = j) then i else if decide (k = i) then j else k).
Proof.
  intros Hi Hj. unfold key at 1.
  rewrite (proj_deref vruntime m (snd (heap_swap h m i j)))
    by (symmetry; apply heap_swap_frame; reflexivity).
  now rewrite slot_heap_swap.
Qed.

Lemma ordered_but_none h m idx :
  ordered_but (fun _ => false) h m idx -> heap_ordered h m.
Proof. intros [H _] i Hi. now apply H. Qed.

Lemma heap_bubble_up_loop_ordered fuel h m idx :
  (idx < length h)%nat -> (idx <= fuel)%nat ->
  ordered_but (edge_above idx) h m idx ->
  heap_ordered (fst (heap_bubble_up_loop fuel h m idx))
               (snd (heap_bubble_up_loop fuel h m idx)).
Proof.
  revert h m idx. induction fuel as [|fuel IH]; intros h m idx Hidx Hf Hord.
  - cbn. intros i Hi. apply Hord; [assumption|].
    unfold edge_above. apply Nat.eqb_neq. lia.
  - cbn [heap_bubble_up_loop].
    destruct (Nat.ltb_spec 0 idx) as [Hpos|Hz]; cbn [andb].
    2:{ intros i Hi. apply Hord; [assumption|].
        unfold edge_above. apply Nat.eqb_neq. lia. }
    destruct (dgt (key h m (parent idx)) (key h m idx)) eqn:Hgt.
    2:{ intros i Hi. destruct (decide (i = idx)) as [->|Hne]; [assumption|].
        apply Hord; [assumption|]. unfold edge_above. now apply Nat.eqb_neq. }
    pose proof (parent_lt idx Hpos) as Hp.
    set (q := parent idx) in *.
    pose proof (heap_swap_length h m idx q) as Hl.
    pose proof (key_heap_swap h m idx q) as Hk.
    destruct (heap_swap h m idx q) as [h' m']. cbn [fst snd] in *.
    apply IH; [lia|lia|].
    destruct Hord as [H1 H2]. unfold ordered_but, dgt, dlt, edge_above in *.
    split.
    + intros i Hi Hq. apply Nat.eqb_neq in Hq. rewrite Hl in Hi.
      rewrite !Hk by lia.
      rewrite (decide_False (P := i = q)) by assumption.
      destruct (decide (i = idx)) as [->|Hii].
      * fold q. rewrite decide_True by reflexivity.
        now apply dlt_asym.
      * destruct (decide (parent i = q)) as [Hpq|Hpq].
        -- destruct (PrimFloat.ltb (key h m i) (key h m idx)) eqn:E;
             [|reflexivity].
           pose proof (dlt_trans _ _ _ E Hgt) as Ht.
           specialize (H1 i Hi ltac:(now apply Nat.eqb_neq)).
           rewrite Hpq in H1. unfold dlt in *. congruence.
        -- destruct (decide (parent i = idx)) as [Hpi|Hpi].
           ++ apply (H2 i Hi Hpi Hpos).
           ++ apply (H1 i Hi). now apply Nat.eqb_neq.
    + intros c Hc Hpc Hq0. rewrite Hl in Hc.
      pose proof (parent_lt q Hq0) as Hpq.
      rewrite !Hk by lia.
      rewrite (decide_False (P := parent q = q)) by lia.
      rewrite (decide_False (P := parent q = idx)) by lia.
      assert (c <> q) by (pose proof (parent_lt c ltac:(lia)); lia).
      rewrite (decide_False (P := c = q)) by assumption.
      assert (Hq : PrimFloat.ltb (key h m q) (key h m (parent q)) = false).
      { apply (H1 q); [lia|]. apply Nat.eqb_neq. lia. }
      destruct (decide (c = idx)) as [->|Hci]; [assumption|].
      assert (Hcq : PrimFloat.ltb (key h m c) (key h m q) = false).
      { rewrite <- Hpc. apply (H1 c Hc). now apply Nat.eqb_neq. }
      apply (dle_trans _ (key h m q)); [|assumption..].
      now apply (dlt_not_nan _ _ Hgt).
Qed.

Lemma heap_bubble_down_loop_ordered fuel h m idx :
  (length h - idx <= fuel)%nat ->
  ordered_but (edges_below idx) h m idx ->
  heap_ordered (fst (heap_bubble_down_loop fuel h m idx))
               (snd (heap_bubble_down_loop fuel h m idx)).
Proof.
  revert h m idx. induction fuel as [|fuel IH]; intros h m idx Hf Hord.
  - cbn. intros i Hi. apply Hord; [assumption|].
    unfold edges_below. apply Nat.eqb_neq.
    pose proof (parent_lt i ltac:(lia)). lia.
  - cbn [heap_bubble_down_loop]. cbv zeta.
    set (l := left_child idx). set (r := right_child idx).
    set (c1 := (l <? length h)%nat && dlt (key h m l) (key h m idx)).
    set (m1 := if c1 then l else idx).
    set (c2 := (r <? length h)%nat && dlt (key h m r) (key h m m1)).
    set (m2 := if c2 then r else m1).
    assert (Hl : (idx < l)%nat) by (unfold l, left_child; lia).
    assert (Hr : (idx < r)%nat) by (unfold r, right_child; lia).
    assert (Hlr : l <> r) by (unfold l, r, left_child, right_child; lia).
    assert (Hpl : parent l = idx) by apply parent_left_child.
    assert (Hpr : parent r = idx) by apply parent_right_child.
    assert (Hch : forall c, (0 < c)%nat -> parent c = idx -> c = l \/ c = r).
    { intros c Hc Hpc. destruct (child_cases c Hc) as [E|E];
        rewrite Hpc in E; [now left|now right]. }
    destruct Hord as [H1 H2].
    unfold ordered_but, heap_ordered, dgt, dlt, edges_below in *.
    destruct (Nat.eqb_spec m2 idx) as [Heq|Hne].
    + (* no child is smaller *)
      cbn [fst snd]. intros i Hi.
      destruct (decide (parent i = idx)) as [Hpi|Hpi];
        [|apply H1; [assumption|now apply Nat.eqb_neq]].
      rewrite Hpi.
      assert (Hc2 : c2 = false).
      { destruct c2 eqn:E; [|reflexivity]. subst m2. lia. }
      assert (Hc1 : c1 = false).
      { destruct c1 eqn:E; [|reflexivity]. subst m2 m1.
        rewrite Hc2 in Heq. lia. }
      assert (Hm1 : m1 = idx) by (subst m1; now rewrite Hc1).
      destruct (Hch i ltac:(lia) Hpi) as [->| ->].
      * subst c1. apply andb_false_iff in Hc1 as [Hc1|Hc1]; [|assumption].
        apply Nat.ltb_ge in Hc1. lia.
      * subst c2. rewrite Hm1 in Hc2.
        apply andb_false_iff in Hc2 as [Hc2|Hc2]; [|assumption].
        apply Nat.ltb_ge in Hc2. lia.
    + (* the smaller child moves up *)
      assert (Hfacts :
        (idx < m2 < length h)%nat /\ parent m2 = idx
        /\ PrimFloat.ltb (key h m m2) (key h m idx) = true
        /\ forall s, (s < length h)%nat -> parent s = idx -> (0 < s)%nat ->
                     s <> m2 ->
                     PrimFloat.ltb (key h m s) (key h m m2) = false).
      { destruct c2 eqn:E2.
        - subst c2. apply andb_true_iff in E2 as [E2 E2'].
          apply Nat.ltb_lt in E2.
          destruct c1 eqn:E1.
          + subst c1. apply andb_true_iff in E1 as [E1 E1'].
            apply Nat.ltb_lt in E1. subst m2 m1.
            split; [lia|]. split; [assumption|].
            split; [exact (dlt_trans _ _ _ E2' E1')|].
            intros s Hs Hps Hs0 Hsr.
            destruct (Hch s Hs0 Hps) as [->| ->]; [|contradiction].
            now apply dlt_asym.
          + subst m2 m1. split; [lia|]. split; [assumption|].
            split; [assumption|].
            intros s Hs Hps Hs0 Hsr.
            destruct (Hch s Hs0 Hps) as [->| ->]; [|contradiction].
            subst c1. apply andb_false_iff in E1 as [E1|E1];
              [apply Nat.ltb_ge in E1; lia|].
            destruct (PrimFloat.ltb (key h m l) (key h m r)) eqn:E;
              [|reflexivity].
            pose proof (dlt_trans _ _ _ E E2') as Ht.
            unfold dlt in Ht. congruence.
        - destruct c1 eqn:E1; [|subst m2 m1; contradiction].
          subst c1. apply andb_true_iff in E1 as [E1 E1'].
          apply Nat.ltb_lt in E1. subst m2 m1.
          split; [lia|]. split; [assumption|]. split; [assumption|].
          intros s Hs Hps Hs0 Hsl.
          destruct (Hch s Hs0 Hps) as [->| ->]; [contradiction|].
          subst c2. apply andb_false_iff in E2 as [E2|E2]; [|assumption].
          apply Nat.ltb_ge in E2. lia. }
      clearbody m2. clear c1 m1 c2.
      destruct Hfacts as (Hb & Hpm & Hlt & Hsib).
      pose proof (heap_swap_length h m idx m2) as Hlen.
      pose proof (key_heap_swap h m idx m2) as Hk.
      destruct (heap_swap h m idx m2) as [h' m']. cbn [fst snd] in *.
      apply IH; [lia|].
      unfold ordered_but, dgt, edges_below. split.
      * intros i Hi Hq. apply Nat.eqb_neq in Hq. rewrite Hlen in Hi.
        rewrite !Hk by lia.
        rewrite (decide_False (P := parent i = m2)) by assumption.
        destruct (decide (parent i = idx)) as [Hpi|Hpi].
        -- assert (i <> idx) by (pose proof (parent_lt i ltac:(lia)); lia).
           destruct (decide (i = m2)) as [->|Him].
           ++ now apply dlt_asym.
           ++ rewrite (decide_False (P := i = idx)) by assumption.
              apply Hsib; [lia|assumption|lia|assumption].
        -- destruct (decide (i = m2)) as [->|Him]; [contradiction|].
           destruct (decide (i = idx)) as [->|Hii].
           ++ apply (H2 m2); [lia|assumption|lia].
           ++ apply H1; [assumption|now apply Nat.eqb_neq].
      * intros c Hc Hpc Hm0. rewrite Hlen in Hc.
        rewrite !Hk by lia. rewrite Hpm.
        rewrite (decide_False (P := idx = m2)) by lia.
        rewrite (decide_True (P := idx = idx)) by reflexivity.
        pose proof (parent_lt c ltac:(lia)).
        rewrite (decide_False (P := c = m2)) by lia.
        rewrite (decide_False (P := c = idx)) by lia.
        rewrite <- Hpc. apply H1; [assumption|].
        apply Nat.eqb_neq. lia.
Qed.

Lemma heap_restore_ordered h m idx :
  (idx < length h)%nat ->
  ordered_but (edges_at idx) h m idx ->
  heap_ordered (fst (heap_restore h m idx)) (snd (heap_restore h m idx)).
Proof.
  intros Hidx [H1 H2]. unfold heap_restore, heap_bubble_up, heap_bubble_down.
  destruct ((0 <? idx)%nat && dgt (key h m (parent idx)) (key h m idx))
    eqn:Ht.
  - apply andb_true_iff in Ht as [Hpos Hgt]. apply Nat.ltb_lt in Hpos.
    apply heap_bubble_up_loop_ordered; [assumption|lia|].
    unfold ordered_but, edges_at, edge_above, dgt in *. split; [|assumption].
    intros i Hi Hne. apply Nat.eqb_neq in Hne.
    destruct (decide (parent i = idx)) as [Hpi|Hpi].
    + rewrite Hpi.
      destruct (PrimFloat.ltb (key h m i) (key h m idx)) eqn:E;
        [|reflexivity].
      pose proof (dlt_trans _ _ _ E Hgt) as Hc.
      specialize (H2 i Hi Hpi Hpos). unfold dlt in Hc. congruence.
    + apply H1; [assumption|].
      apply orb_false_iff. split; now apply Nat.eqb_neq.
  - apply heap_bubble_down_loop_ordered; [lia|].
    unfold ordered_but, edges_at, edges_below, dgt in *. split; [|assumption].
    intros i Hi Hne. apply Nat.eqb_neq in Hne.
    destruct (decide (i = idx)) as [->|Hii].
    + apply andb_false_iff in Ht as [Ht|Ht]; [|assumption].
      apply Nat.ltb_ge in Ht. lia.
    + apply H1; [assumption|].
      apply orb_false_iff. split; now apply Nat.eqb_neq.
Qed.

Lemma slot_app_l (h : list nat) p i :
  (i < length h)%nat -> slot (h ++ [p]) i = slot h i.
Proof. intros H. unfold slot. now rewrite app_nth1. Qed.

Lemma slot_move_last h idx i :
  (idx < length h - 1)%nat -> (i < length h - 1)%nat ->
  slot (move_last h idx) i
  = slot h (if decide (i = idx) then (length h - 1)%nat else i).
Proof.
  intros Hidx Hi. unfold move_last, slot at 1. rewrite nth_lookup.
  destruct (decide (i = idx)) as [->|Hne].
  - rewrite list_lookup_insert_eq by (rewrite length_take; lia). reflexivity.
  - rewrite list_lookup_insert_ne by congruence.
    rewrite lookup_take_lt by assumption.
    unfold slot. now rewrite nth_lookup.
Qed.

Lemma length_move_last h idx : length (move_last h idx) = (length h - 1)%nat.
Proof. unfold move_last. rewrite length_insert, length_take. lia. Qed.

Lemma heap_insert_ordered_aux h m p :
  heap_ordered h m ->
  heap_ordered (fst (heap_insert h m p)) (snd (heap_insert h m p)).
Proof.
  intros Hord. unfold heap_insert, heap_bubble_up.
  apply heap_bubble_up_loop_ordered;
    [rewrite length_app; cbn; lia|lia|].
  set (m1 := assign _ p m).
  assert (Hm : vruntime <$> m1 = vruntime <$> m) by now apply proj_assign.
  unfold ordered_but, edge_above, dgt. split.
  - intros i Hi Hne. apply Nat.eqb_neq in Hne.
    rewrite length_app in Hi. cbn in Hi.
    pose proof (parent_lt i ltac:(lia)).
    rewrite !(key_frame _ m m1) by assumption.
    unfold key. rewrite !slot_app_l by lia.
    apply (Hord i). lia.
  - intros c Hc Hpc _. rewrite length_app in Hc. cbn in Hc.
    pose proof (parent_lt c ltac:(lia)). lia.
Qed.

Lemma heap_extract_min_ordered_aux h m :
  heap_ordered h m ->
  heap_ordered (fst (snd (heap_extract_min h m)))
               (snd (snd (heap_extract_min h m))).
Proof.
  intros Hord. unfold heap_extract_min. destruct h as [|x h]; [assumption|].
  destruct (Nat.ltb_spec 0 (length (x :: h) - 1)) as [Hpos|Hz]; cbn [fst snd].
  - unfold heap_bubble_down.
    apply heap_bubble_down_loop_ordered; [lia|].
    set (h0 := x :: h) in *.
    set (m2 := assign _ _ (assign _ x m)).
    assert (Hm : vruntime <$> m2 = vruntime <$> m).
    { unfold m2. now rewrite !proj_assign. }
    unfold ordered_but, edges_below, dgt. split; [|intros; lia].
    intros i Hi Hne. apply Nat.eqb_neq in Hne.
    rewrite length_move_last in Hi.
    pose proof (parent_lt i ltac:(lia)).
    rewrite !(key_frame _ m m2) by assumption.
    unfold key. rewrite !slot_move_last by lia.
    rewrite !decide_False by lia.
    apply (Hord i). lia.
  - intros i Hi. rewrite length_take in Hi. lia.
Qed.

(** The root of an ordered heap has the least vruntime. *)
Lemma heap_root_least h m i :
  heap_ordered h m -> keys_not_nan h m -> (i < length h)%nat ->
  dlt (key h m i) (key h m 0) = false.
Proof.
  intros Hord Hnn. induction i as [i IH] using lt_wf_ind. intros Hi.
  destruct (Nat.eq_dec i 0%nat) as [->|Hne]; [apply dlt_irrefl|].
  pose proof (parent_lt i ltac:(lia)) as Hp.
  apply (dle_trans _ (key h m (parent i))).
  - apply Hnn. unfold key. apply (list_elem_of_lookup_2 _ (parent i)).
    apply lookup_slot. lia.
  - apply IH; lia.
  - apply (Hord i). lia.
Qed.

Lemma heap_remove_ordered_aux h m p :
  heap_wf h m -> heap_ordered h m -> keys_not_nan h m ->
  heap_ordered (fst (heap_remove h m p)) (snd (heap_remove h m p)).
Proof.
  intros Hwf Hord Hnn. unfold heap_remove.
  destruct (heap_index_valid h (deref m p)) eqn:Hv; [|assumption].
  apply (heap_wf_valid _ _ _ Hwf) in Hv.
  apply list_elem_of_lookup_1 in Hv as [idx Hidx].
  rewrite (heap_wf_index _ _ _ _ Hwf Hidx), Nat2Z.id. cbv zeta.
  pose proof (lookup_lt_Some _ _ _ Hidx) as Hlt.
  destruct (Nat.ltb_spec idx (length h - 1)) as [Hin|Hlast]; cbn [fst snd].
  - apply heap_restore_ordered; [rewrite length_move_last; lia|].
    set (m2 := assign _ _ (assign _ p m)).
    assert (Hm : vruntime <$> m2 = vruntime <$> m).
    { unfold m2. now rewrite !proj_assign. }
    unfold ordered_but, edges_at, dgt. rewrite length_move_last. split.
    + intros i Hi Hne. apply orb_false_iff in Hne as [Hne1 Hne2].
      apply Nat.eqb_neq in Hne1, Hne2.
      pose proof (parent_lt i ltac:(lia)).
      rewrite !(key_frame _ m m2) by assumption.
      unfold key. rewrite !slot_move_last by lia.
      rewrite !decide_False by assumption.
      apply (Hord i). lia.
    + intros c Hc Hpc Hpos.
      pose proof (parent_lt c ltac:(lia)).
      pose proof (parent_lt idx Hpos).
      rewrite !(key_frame _ m m2) by assumption.
      unfold key. rewrite !slot_move_last by lia.
      rewrite !decide_False by lia.
      apply (dle_trans _ (key h m idx)).
      * apply Hnn. unfold key. apply (list_elem_of_lookup_2 _ idx).
        now apply lookup_slot.
      * apply (Hord idx). lia.
      * rewrite <- Hpc. apply (Hord c). lia.
  - intros i Hi. rewrite length_take in Hi.
    set (m1 := assign _ p m).
    assert (Hm : vruntime <$> m1 = vruntime <$> m) by now apply proj_assign.
    pose proof (parent_lt i ltac:(lia)).
    rewrite !(key_frame _ m m1) by assumption.
    unfold key, slot. rewrite !nth_lookup, !lookup_take_lt by lia.
    rewrite <- !nth_lookup. apply (Hord i). lia.
Qed.

Lemma heap_update_restore h m p idx :
  heap_wf h m -> h !! idx = Some p ->
  heap_update h m p = heap_restore h m idx.
Proof.
  intros Hwf Hidx. unfold heap_update, heap_restore.
  rewrite (proj2 (heap_wf_valid _ _ _ Hwf)
             (list_elem_of_lookup_2 _ _ _ Hidx)).
  rewrite (heap_wf_index _ _ _ _ Hwf Hidx), Nat2Z.id. cbv zeta.
  replace (key h m idx) with (vruntime (deref m p)); [reflexivity|].
  unfold key. now rewrite (slot_lookup _ _ _ Hidx).
Qed.

Lemma heap_wf_frame h (m m' : gmap nat Task) :
  heap_index <$> m' = heap_index <$> m -> heap_wf h m -> heap_wf h m'.
Proof.
  intros Hm [Hin Hout]. split.
  - intros i p Hi. destruct (Hin _ _ Hi) as (t & Ht & E).
    destruct (proj_lookup heap_index m m' p t (eq_sym Hm) Ht)
      as (t' & Ht' & E').
    exists t'. split; [assumption|congruence].
  - intros p t' Ht' Hp.
    destruct (proj_lookup heap_index m' m p t' Hm Ht') as (t & Ht & E).
    rewrite <- E. eauto.
Qed.

Lemma heap_update_ordered_aux h m p v :
  heap_wf h m -> heap_ordered h m -> keys_not_nan h m ->
  let m' := assign (set_vruntime v) p m in
  heap_ordered (fst (heap_update h m' p)) (snd (heap_update h m' p)).
Proof.
  intros Hwf Hord Hnn m'.
  assert (Hwf' : heap_wf h m').
  { apply (heap_wf_frame h m); [|assumption]. now apply proj_assign. }
  destruct (decide (p ∈ h)) as [Hp|Hp].
  2:{ unfold heap_update.
      rewrite (proj1 (not_true_iff_false _)
                 (fun H => Hp (proj1 (heap_wf_valid _ _ _ Hwf') H))).
      cbn [fst snd]. intros i Hi. unfold dgt, key.
      assert (Hk : forall j, (j < length h)%nat ->
                 vruntime (deref m' (slot h j)) = vruntime (deref m (slot h j))).
      { intros j Hj. unfold m'. rewrite deref_assign_ne; [reflexivity|].
        intros ->. apply Hp. apply (list_elem_of_lookup_2 _ j).
        now apply lookup_slot. }
      pose proof (parent_lt i ltac:(lia)).
      rewrite !Hk by lia. apply (Hord i Hi). }
  apply list_elem_of_lookup_1 in Hp as [idx Hidx].
  pose proof (lookup_lt_Some _ _ _ Hidx) as Hlt.
  pose proof (heap_wf_NoDup _ _ Hwf) as Hnd.
  rewrite (heap_update_restore h m' p idx Hwf' Hidx).
  apply heap_restore_ordered; [assumption|].
  assert (Hk : forall j, (j < length h)%nat -> j <> idx ->
             key h m' j = key h m j).
  { intros j Hj Hne. unfold key, m'. rewrite deref_assign_ne; [reflexivity|].
    intros E. apply Hne. apply (NoDup_lookup h j idx p Hnd); [|assumption].
    rewrite E. now apply lookup_slot. }
  unfold ordered_but, edges_at, dgt. split.
  - intros i Hi Hne. apply orb_false_iff in Hne as [Hne1 Hne2].
    apply Nat.eqb_neq in Hne1, Hne2.
    pose proof (parent_lt i ltac:(lia)).
    rewrite !Hk by (assumption || lia). apply (Hord i Hi).
  - intros c Hc Hpc Hpos.
    pose proof (parent_lt c ltac:(lia)).
    pose proof (parent_lt idx Hpos).
    rewrite !Hk by lia.
    apply (dle_trans _ (key h m idx)).
    + apply Hnn. unfold key. apply (list_elem_of_lookup_2 _ idx).
      now apply lookup_slot.
    + apply (Hord idx). lia.
    + rewrite <- Hpc. apply (Hord c). lia.
Qed.

(** ** The choice of [pick_task_for_cpu] *)

Lemma can_task_run_on_cpu_ext s s' t t' cpu :
  cgroups s' = cgroups s ->
  cgroup_id t' = cgroup_id t ->
  cpu_affinity t' = cpu_affinity t ->
  can_task_run_on_cpu s' t' cpu = can_task_run_on_cpu s t cpu.
Proof.
  intros Hc Hid Ha.
  unfold can_task_run_on_cpu, task_can_run_on_cpu, scheduler_find_cgroup.
  now rewrite Hc, Hid, Ha.
Qed.

Lemma eligible_ext s s' cpu planned tick_us t t' :
  cgroups s' = cgroups s ->
  current_vtime s' = current_vtime s ->
  strip t' = strip t ->
  eligible s' cpu planned tick_us t' = eligible s cpu planned tick_us t.
Proof.
  intros Hc Hv Hs. unfold eligible.
  assert (Hid : cgroup_id t' = cgroup_id t) by exact (f_equal cgroup_id Hs).
  assert (Ha : cpu_affinity t' = cpu_affinity t)
    by exact (f_equal cpu_affinity Hs).
  rewrite (can_task_run_on_cpu_ext s s' t t') by assumption.
  now rewrite (quota_admits_ext s s' planned tick_us t t').
Qed.

Lemma strip_vruntime t t' : strip t' = strip t -> vruntime t' = vruntime t.
Proof. intros H. exact (f_equal vruntime H). Qed.

Lemma heap_extract_min_least h m c hm :
  heap_ordered h m -> keys_not_nan h m ->
  heap_extract_min h m = (Some c, hm) ->
  forall q, q ∈ h ->
    dlt (vruntime (deref m q)) (vruntime (deref m c)) = false.
Proof.
  intros Hord Hnn He q Hq.
  assert (Hc : h !! 0%nat = Some c).
  { unfold heap_extract_min in He. destruct h as [|x h]; [discriminate|].
    destruct (_ <? _)%nat; injection He as <- _; reflexivity. }
  apply list_elem_of_lookup_1 in Hq as [i Hi].
  pose proof (heap_root_least h m i Hord Hnn (lookup_lt_Some _ _ _ Hi)) as H.
  unfold key in H.
  now rewrite (slot_lookup _ _ _ Hi), (slot_lookup _ _ _ Hc) in H.
Qed.

Lemma pick_loop_least fuel s cpu planned tick_us deferred sel deferred' s' :
  heap_ordered (runnable_heap s) (task_mem s) ->
  keys_not_nan (runnable_heap s) (task_mem s) ->
  (forall q, q ∈ deferred ->
     eligible s cpu planned tick_us (deref (task_mem s) q) = false) ->
  pick_loop fuel s cpu planned tick_us deferred = (sel, deferred', s') ->
  (length (runnable_heap s) <= fuel)%nat ->
  heap_ordered (runnable_heap s') (task_mem s')
  /\ (forall q, q ∈ deferred' ->
        eligible s cpu planned tick_us (deref (task_mem s) q) = false)
  /\ match sel with
     | Some b =>
       eligible s cpu planned tick_us (deref (task_mem s) b) = true
       /\ forall q, q ∈ runnable_heap s' ->
            dlt (vruntime (deref (task_mem s) q))
                (vruntime (deref (task_mem s) b)) = false
     | None => runnable_heap s' = []
     end.
Proof.
  revert s deferred. induction fuel as [|fuel IH];
    intros s deferred Hord Hnn Hdef; cbn [pick_loop].
  - intros H Hf. injection H as <- <- <-.
    split; [assumption|]. split; [assumption|].
    destruct (runnable_heap s); [reflexivity|cbn in Hf; lia].
  - pose proof (heap_extract_min_ordered_aux _ _ Hord) as Hord1.
    pose proof (heap_extract_min_frame strip strip_index
                  (runnable_heap s) (task_mem s)) as Hfr.
    destruct (heap_extract_min (runnable_heap s) (task_mem s))
      as [[c|] [h m]] eqn:E; cbn [fst snd] in *.
    2:{ intros H Hf. injection H as <- <- <-.
        split; [assumption|]. split; [assumption|].
        now apply heap_extract_min_None in E. }
    pose proof (heap_extract_min_least _ _ _ _ Hord Hnn E) as Hleast.
    pose proof (heap_extract_min_perm _ _ _ _ E) as Hperm.
    pose proof (heap_extract_min_length _ _ _ _ E) as Hlen.
    cbn [fst] in Hperm, Hlen.
    assert (Hst : forall q, strip (deref m q) = strip (deref (task_mem s) q)).
    { intros q. apply (proj_deref strip). now symmetry. }
    assert (Hel : forall q,
               eligible (with_heap h m s) cpu planned tick_us (deref m q)
               = eligible s cpu planned tick_us (deref (task_mem s) q)).
    { intros q. apply eligible_ext; [reflexivity..|apply Hst]. }
    assert (Hnn1 : keys_not_nan h m).
    { intros q Hq. rewrite (strip_vruntime _ _ (Hst q)). apply Hnn.
      rewrite <- Hperm. now apply elem_of_cons; right. }
    assert (Hrec : forall d,
      (forall q, q ∈ d ->
         eligible s cpu planned tick_us (deref (task_mem s) q) = false) ->
      pick_loop fuel (with_heap h m s) cpu planned tick_us d
      = (sel, deferred', s') ->
      (S (length h) <= S fuel)%nat ->
      heap_ordered (runnable_heap s') (task_mem s')
      /\ (forall q, q ∈ deferred' ->
            eligible s cpu planned tick_us (deref (task_mem s) q) = false)
      /\ match sel with
         | Some b =>
           eligible s cpu planned tick_us (deref (task_mem s) b) = true
           /\ forall q, q ∈ runnable_heap s' ->
                dlt (vruntime (deref (task_mem s) q))
                    (vruntime (deref (task_mem s) b)) = false
         | None => runnable_heap s' = []
         end).
    { intros d Hd H Hf.
      apply IH in H; cbn [runnable_heap task_mem with_heap];
        [|assumption|assumption| |lia].
      2:{ intros q Hq. rewrite Hel. now apply Hd. }
      destruct H as (H1 & H2 & H3). split; [assumption|]. split.
      - intros q Hq. rewrite <- Hel. now apply H2.
      - destruct sel as [b|]; [|assumption].
        destruct H3 as [H3 H4]. split; [now rewrite <- Hel|].
        intros q Hq. rewrite <- !(strip_vruntime _ _ (Hst _)).
        now apply H4. }
    assert (Hdc : eligible s cpu planned tick_us (deref (task_mem s) c)
                  = false ->
                  forall q, q ∈ deferred ++ [c] ->
                    eligible s cpu planned tick_us (deref (task_mem s) q)
                    = false).
    { intros Hc q Hq. apply elem_of_app in Hq as [Hq|Hq]; [now apply Hdef|].
      apply list_elem_of_singleton in Hq as ->. exact Hc. }
    pose proof (Hel c) as Helc. unfold eligible at 1 in Helc.
    destruct (can_task_run_on_cpu (with_heap h m s) (deref m c)
                                  (Z.of_nat cpu)) eqn:E1; cbn [negb].
    2:{ intros H Hf. apply (Hrec _ (Hdc (eq_sym Helc)) H). lia. }
    destruct (quota_admits (with_heap h m s) planned tick_us (deref m c))
      eqn:E2; cbn [negb].
    2:{ intros H Hf. apply (Hrec _ (Hdc (eq_sym Helc)) H). lia. }
    intros H Hf. injection H as <- <- <-.
    cbn [runnable_heap task_mem with_heap].
    split; [assumption|]. split; [assumption|].
    split; [now rewrite <- Helc|].
    intros q Hq. apply Hleast. rewrite <- Hperm. now apply elem_of_cons; right.
Qed.

Lemma fold_reinsert_ordered l s :
  heap_ordered (runnable_heap s) (task_mem s) ->
  heap_ordered (runnable_heap (fold_left reinsert l s))
               (task_mem (fold_left reinsert l s)).
Proof.
  revert s. induction l as [|p l IH]; intros s H; [assumption|].
  cbn [fold_left]. apply IH. unfold reinsert.
  cbn [runnable_heap task_mem with_heap].
  now apply heap_insert_ordered_aux.
Qed.

Lemma pick_task_for_cpu_ordered s cpu planned tick_us :
  heap_ordered (runnable_heap s) (task_mem s) ->
  keys_not_nan (runnable_heap s) (task_mem s) ->
  let s' := snd (pick_task_for_cpu s cpu planned tick_us) in
  heap_ordered (runnable_heap s') (task_mem s').
Proof.
  intros Hord Hnn. cbv zeta. unfold pick_task_for_cpu.
  destruct (pick_loop _ _ _ _ _ _) as [[sel deferred] s1] eqn:E.
  apply pick_loop_least in E as (H & _); try assumption.
  - cbn [snd]. now apply fold_reinsert_ordered.
  - intros q Hq. now apply elem_of_nil in Hq.
  - lia.
Qed.

(** ** What the accounting loop writes *)

Section AccountFrame.
Context {X : Type} (proj : Task -> X).
Hypothesis proj_vruntime : forall v t, proj (set_vruntime v t) = proj t.
Hypothesis proj_burst : forall b r t, proj (set_burst b r t) = proj t.
Hypothesis proj_state : forall st t, proj (set_state st t) = proj t.

Lemma account_cpu_frame s i :
  proj <$> task_mem (account_cpu s i) = proj <$> task_mem s.
Proof.
  unfold account_cpu. cbn [task_mem with_cpu_queues].
  destruct (cpu_queues s !! i) as [[p|]|]; try reflexivity.
  destruct (is_running _); [|reflexivity].
  cbn [task_mem with_cgroups with_task_mem].
  rewrite proj_assign by auto.
  destruct (_ && _); rewrite ?proj_assign by auto;
    destruct (negb _); rewrite ?proj_assign by auto; reflexivity.
Qed.

Lemma fold_account_frame l s :
  proj <$> task_mem (fold_left account_cpu l s) = proj <$> task_mem s.
Proof.
  revert s. induction l as [|i l IH]; intros s; [reflexivity|].
  cbn [fold_left]. now rewrite IH, account_cpu_frame.
Qed.

Lemma tick_prepare_frame s vtime :
  (forall i t, proj (set_heap_index i t) = proj t) ->
  proj <$> task_mem (tick_prepare s vtime) = proj <$> task_mem s.
Proof.
  intros proj_index. unfold tick_prepare.
  rewrite (rebuild_runnable_heap_frame proj proj_index).
  unfold account_all. now rewrite fold_account_frame.
Qed.

End AccountFrame.

(** The accounting loop turns Running into Runnable and changes no other
    state. *)
Lemma account_cpu_state s i p :
  let st := state (deref (task_mem s) p) in
  let st' := state (deref (task_mem (account_cpu s i)) p) in
  st' = st \/ (st = TASK_STATE_RUNNING /\ st' = TASK_STATE_RUNNABLE).
Proof.
  cbv zeta.
  destruct (decide (cpu_queues s !! i = Some (Some p))) as [Hq|Hq].
  - destruct (task_mem s !! p) as [t|] eqn:Hp.
    + destruct (is_running t) eqn:Er;
        [apply is_running_true in Er; rename Er into Hst
        |assert (Hst : state t <> TASK_STATE_RUNNING)
           by (intros H; apply is_running_true in H; congruence)].
      * right. unfold deref.
        rewrite (account_cpu_running _ _ _ _ Hq Hp Hst), Hp. cbn.
        split; [assumption|reflexivity].
      * left. unfold deref.
        now rewrite (account_cpu_not_running _ _ _ _ Hp Hst), Hp.
    + left. unfold deref. rewrite Hp.
      assert (H : task_mem (account_cpu s i) !! p = None).
      { apply not_elem_of_dom. rewrite account_cpu_dom.
        now apply not_elem_of_dom. }
      now rewrite H.
  - left. unfold deref. now rewrite account_cpu_other.
Qed.

Lemma fold_account_state l s p :
  let st := state (deref (task_mem s) p) in
  let st' := state (deref (task_mem (fold_left account_cpu l s)) p) in
  st' = st \/ (st = TASK_STATE_RUNNING /\ st' = TASK_STATE_RUNNABLE).
Proof.
  cbv zeta. revert s. induction l as [|i l IH]; intros s; [now left|].
  cbn [fold_left].
  destruct (IH (account_cpu s i)) as [H|[H1 H2]];
    destruct (account_cpu_state s i p) as [H'|[H1' H2']]; cbv zeta in *.
  - left. congruence.
  - right. split; congruence.
  - right. split; congruence.
  - rewrite H2' in H1. discriminate.
Qed.

(** ** The slots at the end of a tick *)

(** The tasks of the slots come out of the heap that the tick rebuilt. *)
Lemma scheduler_tick_from_heap s vtime :
  omap id (cpu_queues (snd (scheduler_tick s vtime)))
  ⊆+ runnable_heap (tick_prepare s vtime).
Proof.
  unfold scheduler_tick. cbn [fst snd schedule].
  set (s2 := tick_prepare s vtime).
  destruct (fold_select_spec (cpu_queues s) (tick_runtime s2)
              (seq 0 (cpu_count s2))
              (mkSel s2 [] (replicate (length (all_tasks s2)) false) []))
    as [Hp _].
  { apply NoDup_seq. }
  { intros c Hc. apply elem_of_seq in Hc. cbn [sel_sched].
    unfold s2 in *. apply tick_prepare_idle.
    rewrite tick_prepare_cpu_count in Hc. lia. }
  cbv zeta in Hp. fold (tick_select (cpu_queues s) s2) in Hp.
  cbn [sel_sched sel_schedule app] in Hp.
  rewrite selected_all_idle in Hp.
  2:{ intros c Hc. unfold s2 in *. apply tick_prepare_idle.
      pose proof (tick_prepare_cpu_count s vtime) as Hn.
      unfold cpu_count in *. lia. }
  cbn [app] in Hp. cbn [cpu_queues with_task_mem].
  rewrite Hp. apply submseteq_inserts_r. reflexivity.
Qed.

Lemma slot_elem (q : list (option nat)) c p :
  q !! c = Some (Some p) -> p ∈ omap id q.
Proof.
  intros H. apply list_elem_of_omap. exists (Some p).
  split; [|reflexivity]. eapply list_elem_of_lookup_2; eauto.
Qed.

Lemma scheduler_tick_placed_state s vtime c p :
  cpu_queues (snd (scheduler_tick s vtime)) !! c = Some (Some p) ->
  p ∈ all_tasks s
  /\ (state (deref (task_mem s) p) = TASK_STATE_RUNNABLE
      \/ state (deref (task_mem s) p) = TASK_STATE_RUNNING).
Proof.
  intros Hc. apply slot_elem in Hc.
  pose proof (elem_of_submseteq _ _ _ Hc (scheduler_tick_from_heap s vtime))
    as Hh.
  unfold tick_prepare in Hh.
  apply rebuild_runnable_heap_members in Hh as [Hreg Hst].
  unfold account_all in Hreg, Hst.
  rewrite fold_account_all_tasks in Hreg. split; [exact Hreg|].
  destruct (fold_account_state
              (seq 0 (cpu_count (refresh_cgroup_periods
                                   (with_clock vtime 0 0 s) vtime)))
              (refresh_cgroup_periods (with_clock vtime 0 0 s) vtime) p)
    as [H|[H _]]; cbv zeta in H; cbn [task_mem refresh_cgroup_periods
      with_cgroups with_clock] in H.
  - left. rewrite <- H. exact Hst.
  - now right.
Qed.

(** The fields that the CPU test reads. *)
Lemma can_task_run_on_cpu_frame s s' p cpu :
  cgroups s' = cgroups s ->
  (fun t => (cgroup_id t, cpu_affinity t)) <$> task_mem s'
  = (fun t => (cgroup_id t, cpu_affinity t)) <$> task_mem s ->
  can_task_run_on_cpu s' (deref (task_mem s') p) cpu
  = can_task_run_on_cpu s (deref (task_mem s) p) cpu.
Proof.
  intros Hc Hm.
  pose proof (proj_deref (fun t => (cgroup_id t, cpu_affinity t))
                _ _ p (eq_sym Hm)) as H.
  cbv beta in H. injection H as H1 H2.
  apply can_task_run_on_cpu_ext; congruence.
Qed.

Lemma pick_task_for_cpu_may_run s cpu planned tick_us b planned' s' :
  pick_task_for_cpu s cpu planned tick_us = (Some b, planned', s') ->
  can_task_run_on_cpu s' (deref (task_mem s') b) (Z.of_nat cpu) = true.
Proof.
  unfold pick_task_for_cpu.
  destruct (pick_loop _ _ _ _ _ _) as [[sel deferred] s1] eqn:E.
  intros H. injection H as -> _ <-.
  apply pick_loop_selected in E as [E _]. rewrite <- E.
  apply can_task_run_on_cpu_frame.
  - apply fold_reinsert_cgroups.
  - apply fold_reinsert_frame. reflexivity.
Qed.

Lemma select_cpu_placed prev tick_us a cpu p :
  cpu_queues (sel_sched a) !! cpu = Some None ->
  let a' := select_cpu prev tick_us a cpu in
  cpu_queues (sel_sched a') !! cpu = Some (Some p) ->
  can_task_run_on_cpu (sel_sched a') (deref (task_mem (sel_sched a')) p)
                      (Z.of_nat cpu) = true.
Proof.
  intros Hidle. cbv zeta. unfold select_cpu.
  pose proof (pick_task_for_cpu_queues (sel_sched a) cpu (sel_planned a)
                                       tick_us) as Hq.
  destruct (pick_task_for_cpu _ _ _ _) as [[[b|] planned] s1] eqn:E;
    cbn [snd sel_sched] in *.
  - rewrite assign_best_queues, Hq.
    rewrite list_lookup_insert_eq by now apply lookup_lt_Some in Hidle.
    intros H. injection H as <-.
    apply pick_task_for_cpu_may_run in E. rewrite <- E.
    apply can_task_run_on_cpu_frame.
    + apply assign_best_cgroups.
    + apply assign_best_frame; reflexivity.
  - rewrite Hq, Hidle. discriminate.
Qed.

Lemma fold_select_placed prev tick_us l a :
  NoDup l ->
  (forall c, c ∈ l -> cpu_queues (sel_sched a) !! c = Some None) ->
  let a' := fold_left (select_cpu prev tick_us) l a in
  forall c p, c ∈ l ->
    cpu_queues (sel_sched a') !! c = Some (Some p) ->
    can_task_run_on_cpu (sel_sched a') (deref (task_mem (sel_sched a')) p)
                        (Z.of_nat c) = true.
Proof.
  revert a. induction l as [|cpu l IH]; intros a Hnd Hidle; cbn [fold_left].
  - intros c p Hc. now apply elem_of_nil in Hc.
  - apply NoDup_cons in Hnd as [Hcpu Hnd].
    set (a1 := select_cpu prev tick_us a cpu).
    assert (Hidle1 : forall c, c ∈ l ->
               cpu_queues (sel_sched a1) !! c = Some None).
    { intros j Hj. unfold a1. rewrite select_cpu_queues_other.
      - apply Hidle, elem_of_cons. now right.
      - intros ->. contradiction. }
    intros c p Hc Hp. apply elem_of_cons in Hc as [->|Hc].
    + rewrite fold_select_queues_other in Hp by assumption.
      rewrite <- (select_cpu_placed prev tick_us a cpu p);
        [|apply Hidle, elem_of_cons; now left|exact Hp].
      apply can_task_run_on_cpu_frame.
      * apply fold_select_cgroups.
      * apply fold_select_frame; reflexivity.
    + now apply (IH a1 Hnd Hidle1).
Qed.

Lemma scheduler_tick_may_run s vtime c p :
  let s' := snd (scheduler_tick s vtime) in
  cpu_queues s' !! c = Some (Some p) ->
  can_task_run_on_cpu s' (deref (task_mem s') p) (Z.of_nat c) = true.
Proof.
  cbv zeta. unfold scheduler_tick. cbn [snd cpu_queues with_task_mem].
  set (s2 := tick_prepare s vtime).
  set (a := tick_select (cpu_queues s) s2).
  intros Hp.
  assert (Hc : (c < cpu_count s2)%nat).
  { apply lookup_lt_Some in Hp.
    destruct (Nat.lt_ge_cases c (cpu_count s2)) as [|Hge]; [assumption|].
    exfalso. unfold a, tick_select in Hp.
    assert (Hn : c ∉ seq 0 (cpu_count s2))
      by (rewrite elem_of_seq; lia).
    pose proof (fold_select_queues_other (cpu_queues s) (tick_runtime s2)
                  (seq 0 (cpu_count s2))
                  (mkSel s2 [] (replicate (length (all_tasks s2)) false) [])
                  c Hn) as Hq.
    cbn [sel_sched] in Hq.
    apply lookup_lt_is_Some_2 in Hp. rewrite Hq in Hp.
    apply lookup_lt_is_Some_1 in Hp. unfold cpu_count in Hge. lia. }
  pose proof (fold_select_placed (cpu_queues s) (tick_runtime s2)
                (seq 0 (cpu_count s2))
                (mkSel s2 [] (replicate (length (all_tasks s2)) false) [])
                (NoDup_seq _ _)) as H.
  cbv zeta in H. fold (tick_select (cpu_queues s) s2) in H. fold a in H.
  rewrite <- (H ltac:(intros j Hj; apply elem_of_seq in Hj; cbn [sel_sched];
                      unfold s2 in *; apply tick_prepare_idle;
                      rewrite tick_prepare_cpu_count in Hj; lia)
                c p ltac:(apply elem_of_seq; lia) Hp).
  apply can_task_run_on_cpu_frame; [reflexivity|].
  cbn [task_mem with_task_mem]. apply clear_unassigned_frame; reflexivity.
Qed.

(** ** The invariants of the heap and the registries *)

Lemma sched_view_deref (m m' : gmap nat Task) p :
  sched_view <$> m' = sched_view <$> m ->
  heap_index (deref m' p) = heap_index (deref m p)
  /\ state (deref m' p) = state (deref m p)
  /\ current_cpu (deref m' p) = current_cpu (deref m p).
Proof.
  intros H. pose proof (proj_deref sched_view m m' p (eq_sym H)) as E.
  unfold sched_view in E. injection E as E1 E2 E3. auto.
Qed.

Lemma sched_view_heap_index (m m' : gmap nat Task) :
  sched_view <$> m' = sched_view <$> m ->
  heap_index <$> m' = heap_index <$> m.
Proof.
  intros H. apply map_eq. intros p.
  pose proof (f_equal (fun x => x !! p) H) as E. cbv beta in E.
  rewrite !lookup_fmap in *.
  destruct (m' !! p) as [t'|], (m !! p) as [t|]; cbn in *;
    try discriminate; [|reflexivity].
  injection E as E. now rewrite E.
Qed.

Lemma fmap_is_Some {X} (f : Task -> X) (m m' : gmap nat Task) p :
  f <$> m' = f <$> m -> is_Some (m !! p) -> is_Some (m' !! p).
Proof.
  intros H [t Ht]. destruct (proj_lookup f m m' p t (eq_sym H) Ht)
    as (t' & Ht' & _). eauto.
Qed.

Lemma heap_state_deref (m m' : gmap nat Task) p :
  (fun t => (heap_index t, state t)) <$> m'
  = (fun t => (heap_index t, state t)) <$> m ->
  heap_index (deref m' p) = heap_index (deref m p)
  /\ state (deref m' p) = state (deref m p).
Proof.
  intros H.
  pose proof (proj_deref (fun t => (heap_index t, state t)) m m' p
                (eq_sym H)) as E.
  cbv beta in E. injection E as E1 E2. auto.
Qed.

Lemma fmap_fmap_eq {X Y} (f : Task -> X) (g : X -> Y) (m m' : gmap nat Task) :
  f <$> m' = f <$> m -> (fun t => g (f t)) <$> m' = (fun t => g (f t)) <$> m.
Proof.
  intros H. apply map_eq. intros p.
  pose proof (f_equal (fun x => x !! p) H) as E. cbv beta in E.
  rewrite !lookup_fmap in *.
  destruct (m' !! p) as [t'|], (m !! p) as [t|]; cbn in *;
    try discriminate; [|reflexivity].
  injection E as E. now rewrite E.
Qed.

(** The invariants read the store through [heap_index] and [state]. *)
Lemma sched_inv_frame_fields s s' :
  runnable_heap s' = runnable_heap s ->
  all_tasks s' = all_tasks s ->
  length (cgroups s') = length (cgroups s) ->
  (fun t => (heap_index t, state t)) <$> task_mem s'
  = (fun t => (heap_index t, state t)) <$> task_mem s ->
  sched_inv s -> sched_inv s'.
Proof.
  intros Hh Ha Hc Hm [I1 I2 I3 I4 I5 I6].
  split; rewrite ?Hh, ?Ha, ?Hc; try assumption.
  - apply (heap_wf_frame _ (task_mem s)); [|assumption].
    exact (fmap_fmap_eq _ fst _ _ Hm).
  - intros p Hp. destruct (I2 p Hp) as [H1 H2]. split; [assumption|].
    now rewrite (proj2 (heap_state_deref _ _ p Hm)).
  - intros p Hp. eapply fmap_is_Some; eauto.
  - intros p Hp. rewrite (proj2 (heap_state_deref _ _ p Hm)).
    now apply I4.
Qed.

Lemma sched_inv_frame s s' :
  runnable_heap s' = runnable_heap s ->
  all_tasks s' = all_tasks s ->
  length (cgroups s') = length (cgroups s) ->
  sched_view <$> task_mem s' = sched_view <$> task_mem s ->
  sched_inv s -> sched_inv s'.
Proof.
  intros Hh Ha Hc Hm. apply sched_inv_frame_fields; try assumption.
  exact (fmap_fmap_eq sched_view (fun v => (fst (fst v), snd (fst v))) _ _ Hm).
Qed.

Lemma sched_inv_init ncpu q : sched_inv (scheduler_init ncpu q).
Proof.
  split; cbn.
  - split.
    + intros i p H. discriminate.
    + intros p t H. now rewrite lookup_empty in H.
  - intros p Hp. now apply elem_of_nil in Hp.
  - intros p Hp. now apply elem_of_nil in Hp.
  - intros p Hp. now apply elem_of_nil in Hp.
  - unfold MAX_TASKS. lia.
  - unfold MAX_CGROUPS. lia.
Qed.

Lemma sched_inv_heap_NoDup s : sched_inv s -> NoDup (runnable_heap s).
Proof. intros H. eapply heap_wf_NoDup, inv_heap, H. Qed.

Lemma sched_inv_assign s p f :
  (forall t, sched_view (f t) = sched_view t) ->
  sched_inv s -> sched_inv (with_task_mem (assign f p (task_mem s)) s).
Proof.
  intros Hf. apply sched_inv_frame; try reflexivity.
  cbn [task_mem with_task_mem]. now apply proj_assign.
Qed.

(** *** Events that write one field *)

Lemma sched_inv_setnice s e :
  sched_inv s -> sched_inv (snd (do_task_setnice s e)).
Proof.
  intros H. unfold do_task_setnice, on_task.
  destruct (scheduler_find_task _ _); [|assumption].
  now apply sched_inv_assign.
Qed.

Lemma sched_inv_set_affinity s e :
  sched_inv s -> sched_inv (snd (do_task_set_affinity s e)).
Proof.
  intros H. unfold do_task_set_affinity, on_task.
  destruct (scheduler_find_task _ _); [|assumption].
  now apply sched_inv_assign.
Qed.

Lemma sched_inv_move_cgroup s e :
  sched_inv s -> sched_inv (snd (do_task_move_cgroup s e)).
Proof.
  intros H. unfold do_task_move_cgroup, on_task.
  destruct (scheduler_find_task _ _); [|assumption].
  now apply sched_inv_assign.
Qed.

Lemma sched_inv_cpu_burst s e :
  sched_inv s -> sched_inv (snd (do_cpu_burst s e)).
Proof.
  intros H. unfold do_cpu_burst, on_task.
  destruct (scheduler_find_task _ _); [|assumption].
  now apply sched_inv_assign.
Qed.

(** *** The cgroup events *)

Lemma sched_inv_cgroup_create s e :
  sched_inv s -> sched_inv (snd (do_cgroup_create s e)).
Proof.
  intros [I1 I2 I3 I4 I5 I6]. unfold do_cgroup_create, scheduler_add_cgroup.
  cbn [snd]. destruct (Nat.leb_spec MAX_CGROUPS (length (cgroups s)));
    cbn [snd]; split; cbn [runnable_heap task_mem all_tasks cgroups
                           with_cgroups]; try assumption.
  rewrite length_app. cbn. lia.
Qed.

Lemma sched_inv_cgroup_modify s e :
  sched_inv s -> sched_inv (snd (do_cgroup_modify s e)).
Proof.
  intros H. unfold do_cgroup_modify.
  destruct (scheduler_find_cgroup _ _) as [[k c]|]; [|assumption].
  cbn [snd]. revert H. apply sched_inv_frame; try reflexivity.
  cbn [cgroups with_cgroups]. apply length_insert.
Qed.

Lemma fold_reparent_frame {X} (proj : Task -> X) id l (m : gmap nat Task) :
  (forall c t, proj (set_cgroup_id c t) = proj t) ->
  proj <$> fold_left (fun m p => assign (reparent id) p m) l m = proj <$> m.
Proof.
  intros Hp. revert m. induction l as [|p l IH]; intros m; [reflexivity|].
  cbn [fold_left]. rewrite IH. apply proj_assign.
  intros t. unfold reparent. destruct (String.eqb _ _); auto.
Qed.

Lemma length_swap_remove {A} (d : A) i (l : list A) :
  length (swap_remove d i l) = (length l - 1)%nat.
Proof. unfold swap_remove. rewrite length_take, length_insert. lia. Qed.

Lemma sched_inv_cgroup_delete s e :
  sched_inv s -> sched_inv (snd (do_cgroup_delete s e)).
Proof.
  intros H. unfold do_cgroup_delete, scheduler_remove_cgroup. cbn [snd].
  destruct (scheduler_find_cgroup _ _) as [[k c]|]; [|assumption].
  cbn [snd]. destruct H as [I1 I2 I3 I4 I5 I6].
  assert (Hm : sched_view
                 <$> fold_left (fun m p => assign (reparent (ev_cgroup_id e)) p m)
                       (all_tasks s) (task_mem s)
               = sched_view <$> task_mem s)
    by now apply fold_reparent_frame.
  split; cbn [runnable_heap task_mem all_tasks cgroups
              with_cgroups with_task_mem].
  - apply (heap_wf_frame _ (task_mem s)); [|assumption].
    now apply sched_view_heap_index.
  - intros p Hp. destruct (I2 p Hp) as [H1 H2]. split; [assumption|].
    now rewrite (proj1 (proj2 (sched_view_deref _ _ p Hm))).
  - intros p Hp. eapply fmap_is_Some; eauto.
  - intros p Hp. rewrite (proj1 (proj2 (sched_view_deref _ _ p Hm))).
    now apply I4.
  - assumption.
  - rewrite length_swap_remove. lia.
Qed.

(** *** Events that move a task into or out of the heap *)

Lemma strip_deref_state (m m' : gmap nat Task) p :
  strip <$> m' = strip <$> m -> state (deref m' p) = state (deref m p).
Proof.
  intros H. exact (f_equal state (proj_deref strip m m' p (eq_sym H))).
Qed.

Lemma scheduler_find_task_elem s id p :
  scheduler_find_task s id = Some p ->
  p ∈ all_tasks s /\ task_id (deref (task_mem s) p) = id.
Proof.
  intros H. apply find_Some_elem in H as [H1 H2].
  split; [assumption|]. now apply String.eqb_eq.
Qed.

Lemma sched_inv_yield s e :
  sched_inv s -> sched_inv (snd (do_task_yield s e)).
Proof.
  intros H. unfold do_task_yield, on_task.
  destruct (scheduler_find_task _ _) as [p|]; [|assumption]. cbn [snd].
  set (s1 := with_task_mem _ s).
  assert (H1 : sched_inv s1) by now apply sched_inv_assign.
  destruct (heap_index _ >=? 0); [|assumption].
  destruct H1 as [I1 I2 I3 I4 I5 I6].
  pose proof (heap_update_frame strip strip_index (runnable_heap s1)
                (task_mem s1) p) as Hfr.
  pose proof (heap_update_perm (runnable_heap s1) (task_mem s1) p) as Hperm.
  split; cbn [runnable_heap task_mem all_tasks cgroups with_heap];
    try assumption.
  - now apply heap_update_wf.
  - intros q Hq. rewrite Hperm in Hq. destruct (I2 q Hq) as [Ha Hb].
    split; [assumption|]. now rewrite (strip_deref_state _ _ q Hfr).
  - intros q Hq. eapply fmap_is_Some; eauto.
  - intros q Hq. rewrite (strip_deref_state _ _ q Hfr). now apply I4.
Qed.

Lemma sched_inv_unblock s e :
  sched_inv s -> sched_inv (snd (do_task_unblock s e)).
Proof.
  intros H. unfold do_task_unblock, on_task.
  destruct (scheduler_find_task _ _) as [p|] eqn:Hfind; [|assumption].
  cbn [snd]. apply scheduler_find_task_elem in Hfind as [Hreg _].
  destruct (is_blocked (deref (task_mem s) p)) eqn:Hb; [|assumption].
  apply TaskState_eqb_eq in Hb.
  destruct H as [I1 I2 I3 I4 I5 I6].
  destruct (I3 p Hreg) as [t Ht].
  rewrite (deref_lookup _ _ _ Ht) in Hb.
  assert (Hp : p ∉ runnable_heap s).
  { intros Hp. destruct (I2 p Hp) as [_ Hst].
    rewrite (deref_lookup _ _ _ Ht) in Hst. congruence. }
  set (m1 := assign (set_state TASK_STATE_RUNNABLE) p (task_mem s)).
  set (s1 := with_task_mem m1 s).
  set (s2 := if dlt _ _ then _ else s1).
  assert (Hh2 : runnable_heap s2 = runnable_heap s)
    by (unfold s2; destruct (dlt _ _); reflexivity).
  assert (Ha2 : all_tasks s2 = all_tasks s)
    by (unfold s2; destruct (dlt _ _); reflexivity).
  assert (Hc2 : cgroups s2 = cgroups s)
    by (unfold s2; destruct (dlt _ _); reflexivity).
  assert (Hi2 : heap_index <$> task_mem s2 = heap_index <$> task_mem s).
  { unfold s2, s1. destruct (dlt _ _); cbn [task_mem with_task_mem];
      unfold m1; now rewrite !proj_assign. }
  assert (Hst2 : forall q, state (deref (task_mem s2) q)
                           = if decide (q = p) then TASK_STATE_RUNNABLE
                             else state (deref (task_mem s) q)).
  { intros q. unfold s2, s1.
    assert (Hm1 : state (deref m1 q)
                  = if decide (q = p) then TASK_STATE_RUNNABLE
                    else state (deref (task_mem s) q)).
    { unfold m1. destruct (decide (q = p)) as [->|Hne].
      - now rewrite (deref_assign_eq _ _ _ _ Ht).
      - now rewrite deref_assign_ne by congruence. }
    destruct (dlt _ _); cbn [task_mem with_task_mem]; [|exact Hm1].
    rewrite <- Hm1. apply (proj_deref state). symmetry.
    now apply proj_assign. }
  assert (Hs2 : is_Some (task_mem s2 !! p)).
  { apply (fmap_is_Some heap_index (task_mem s)); eauto. }
  unfold reinsert.
  pose proof (heap_insert_frame strip strip_index (runnable_heap s2)
                (task_mem s2) p) as Hfr.
  pose proof (heap_insert_perm (runnable_heap s2) (task_mem s2) p) as Hperm.
  split; cbn [runnable_heap task_mem all_tasks cgroups with_heap];
    rewrite ?Ha2, ?Hc2; try assumption.
  - apply heap_insert_wf; [|now rewrite Hh2|assumption].
    rewrite Hh2. now apply (heap_wf_frame _ (task_mem s)).
  - intros q Hq. rewrite Hperm, Hh2 in Hq.
    rewrite (strip_deref_state _ _ q Hfr), Hst2.
    apply elem_of_cons in Hq as [->|Hq].
    + split; [assumption|]. now rewrite decide_True.
    + destruct (I2 q Hq) as [Ha Hb']. split; [assumption|].
      now destruct (decide (q = p)).
  - intros q Hq. apply (fmap_is_Some strip (task_mem s2)); [assumption|].
    apply (fmap_is_Some heap_index (task_mem s)); auto.
  - intros q Hq. rewrite (strip_deref_state _ _ q Hfr), Hst2.
    destruct (decide (q = p)); [discriminate|now apply I4].
Qed.

Lemma heap_remove_if_queued_wf h m p :
  heap_wf h m ->
  let hm := if heap_index (deref m p) >=? 0 then heap_remove h m p
            else (h, m) in
  heap_wf (fst hm) (snd hm)
  /\ (p ∉ fst hm)
  /\ (forall q, q ∈ fst hm -> q ∈ h)
  /\ (forall q, q ∈ h -> q <> p -> q ∈ fst hm)
  /\ strip <$> snd hm = strip <$> m.
Proof.
  intros Hwf. cbv zeta.
  pose proof (heap_wf_NoDup _ _ Hwf) as Hnd.
  destruct (heap_index (deref m p) >=? 0) eqn:E.
  - apply (heap_wf_queued _ _ _ Hwf) in E.
    pose proof (heap_remove_perm _ _ _ Hwf E) as Hperm.
    split; [now apply heap_remove_wf|].
    rewrite <- Hperm in Hnd. apply NoDup_cons in Hnd as [Hn _].
    split; [assumption|]. split; [|split].
    + intros q Hq. rewrite <- Hperm. now apply elem_of_cons; right.
    + intros q Hq Hne. rewrite <- Hperm in Hq.
      apply elem_of_cons in Hq as [|]; [contradiction|assumption].
    + apply heap_remove_frame, strip_index.
  - cbn [fst snd]. split; [assumption|]. split; [|auto].
    intros Hp. apply (heap_wf_queued _ _ _ Hwf) in Hp. congruence.
Qed.

Lemma sched_inv_block s e :
  sched_inv s -> sched_inv (snd (do_task_block s e)).
Proof.
  intros H. unfold do_task_block, on_task.
  destruct (scheduler_find_task _ _) as [p|] eqn:Hfind; [|assumption].
  cbn [snd]. apply scheduler_find_task_elem in Hfind as [Hreg _].
  destruct H as [I1 I2 I3 I4 I5 I6].
  destruct (I3 p Hreg) as [t Ht].
  set (m1 := assign (set_state TASK_STATE_BLOCKED) p (task_mem s)).
  assert (Hwf1 : heap_wf (runnable_heap s) m1).
  { apply (heap_wf_frame _ (task_mem s)); [|assumption].
    unfold m1. now apply proj_assign. }
  destruct (heap_remove_if_queued_wf _ _ p Hwf1)
    as (Hwf & Hp & Hsub & _ & Hfr).
  cbv zeta in Hwf, Hp, Hsub, Hfr.
  set (hm := if heap_index (deref m1 p) >=? 0
             then heap_remove (runnable_heap s) m1 p
             else (runnable_heap s, m1)) in *.
  assert (Hst : forall q, state (deref (snd hm) q)
                          = if decide (q = p) then TASK_STATE_BLOCKED
                            else state (deref (task_mem s) q)).
  { intros q. rewrite (strip_deref_state _ _ q Hfr). unfold m1.
    destruct (decide (q = p)) as [->|Hne].
    - now rewrite (deref_assign_eq _ _ _ _ Ht).
    - now rewrite deref_assign_ne by congruence. }
  assert (Hsome : forall q, is_Some (task_mem s !! q) ->
                            is_Some (snd hm !! q)).
  { intros q Hq. apply (fmap_is_Some strip m1); [assumption|].
    unfold m1. now apply assign_is_Some. }
  assert (Hinv : sched_inv (with_heap (fst hm) (snd hm) s)).
  { split; cbn [runnable_heap task_mem all_tasks cgroups with_heap];
      try assumption.
    - intros q Hq. destruct (I2 q (Hsub q Hq)) as [Ha Hb].
      split; [assumption|]. rewrite Hst.
      destruct (decide (q = p)) as [->|]; [contradiction|assumption].
    - intros q Hq. auto.
    - intros q Hq. rewrite Hst.
      destruct (decide (q = p)); [discriminate|now apply I4]. }
  destruct (current_cpu _ >=? 0); [|assumption].
  revert Hinv. apply sched_inv_frame_fields; try reflexivity.
  cbn [task_mem with_task_mem with_cpu_queues]. now apply proj_assign.
Qed.

Lemma find_pos_spec {A} (f : A -> bool) l :
  match find_pos f l with
  | Some i => exists x, l !! i = Some x /\ List.find f l = Some x
  | None => List.find f l = None
  end.
Proof.
  induction l as [|y l IH]; cbn; [reflexivity|].
  destruct (f y); [exists y; auto|].
  destruct (find_pos f l) as [i|]; [|assumption].
  destruct IH as (x & H1 & H2). exists x. auto.
Qed.

Lemma swap_remove_perm (l : list nat) i x :
  l !! i = Some x -> x :: swap_remove 0%nat i l ≡ₚ l.
Proof.
  intros Hi. pose proof (lookup_lt_Some _ _ _ Hi) as Hlt.
  unfold swap_remove.
  destruct (decide (i < length l - 1)%nat) as [Hin|Hlast].
  - rewrite take_insert_lt by assumption.
    rewrite <- (slot_lookup _ _ _ Hi). now apply move_last_perm.
  - assert (i = (length l - 1)%nat) as -> by lia.
    rewrite take_insert_ge by lia.
    assert (Hl : l = take (length l - 1) l ++ [x]).
    { rewrite <- (take_drop (length l - 1) l) at 1. f_equal.
      rewrite (drop_S l x (length l - 1)) by assumption.
      now rewrite drop_ge by lia. }
    rewrite Hl at 3. apply Permutation_cons_append.
Qed.

(** [scheduler_remove_task] removes the record that [scheduler_find_task]
    returns. *)
Lemma scheduler_remove_task_found s id p :
  scheduler_find_task s id = Some p ->
  exists i,
    all_tasks s !! i = Some p
    /\ scheduler_remove_task s id
       = (0, (let hm := if heap_index (deref (task_mem s) p) >=? 0
                        then heap_remove (runnable_heap s) (task_mem s) p
                        else (runnable_heap s, task_mem s) in
              with_all_tasks (swap_remove 0%nat i (all_tasks s))
                (with_cpu_queues (map (clear_slot p) (cpu_queues s))
                   (with_heap (fst hm) (delete p (snd hm)) s)))).
Proof.
  intros Hfind. unfold scheduler_remove_task, scheduler_find_task in *.
  pose proof (find_pos_spec
                (fun p => String.eqb (task_id (deref (task_mem s) p)) id)
                (all_tasks s)) as H.
  destruct (find_pos _ _) as [i|]; [|congruence].
  destruct H as (x & Hi & Hx). rewrite Hfind in Hx. injection Hx as <-.
  exists i. split; [assumption|].
  now rewrite (nth_lookup_Some _ _ 0%nat _ Hi).
Qed.

Lemma scheduler_remove_task_missing s id :
  scheduler_find_task s id = None -> scheduler_remove_task s id = (-1, s).
Proof.
  intros Hfind. unfold scheduler_remove_task, scheduler_find_task in *.
  pose proof (find_pos_spec
                (fun p => String.eqb (task_id (deref (task_mem s) p)) id)
                (all_tasks s)) as H.
  destruct (find_pos _ _) as [i|]; [|reflexivity].
  destruct H as (x & _ & Hx). congruence.
Qed.

Lemma deref_delete_ne (m : gmap nat Task) p q :
  q <> p -> deref (delete p m) q = deref m q.
Proof. intros H. unfold deref. now rewrite lookup_delete_ne by congruence. Qed.

Lemma heap_wf_delete h m p :
  heap_wf h m -> p ∉ h -> heap_wf h (delete p m).
Proof.
  intros [Hin Hout] Hp. split.
  - intros i q Hq. destruct (Hin _ _ Hq) as (t & Ht & E).
    exists t. split; [|assumption]. rewrite lookup_delete_ne; [assumption|].
    intros ->. apply Hp. eapply list_elem_of_lookup_2; eauto.
  - intros q t Hq Hn. apply lookup_delete_Some in Hq as [_ Hq]. eauto.
Qed.

Lemma sched_inv_exit s e :
  alloc_wf s -> sched_inv s -> sched_inv (snd (do_task_exit s e)).
Proof.
  intros Hal H. unfold do_task_exit, on_task.
  destruct (scheduler_find_task _ _) as [p|] eqn:Hfind; [|assumption].
  cbn [snd].
  set (m1 := assign (set_state TASK_STATE_EXITED) p (task_mem s)).
  set (s1 := with_task_mem m1 s).
  assert (Hfind1 : scheduler_find_task s1 (ev_task_id e) = Some p).
  { rewrite <- Hfind. unfold scheduler_find_task. cbn [all_tasks s1
      with_task_mem task_mem]. apply find_ext_elem. intros q _. f_equal.
    apply (proj_deref task_id). symmetry. now apply proj_assign. }
  destruct (scheduler_remove_task_found _ _ _ Hfind1) as (i & Hi & ->).
  cbn [snd]. cbn [all_tasks runnable_heap task_mem cpu_queues s1
                  with_task_mem] in *.
  apply scheduler_find_task_elem in Hfind as [Hreg _].
  destruct H as [I1 I2 I3 I4 I5 I6].
  destruct (I3 p Hreg) as [t Ht].
  assert (Hwf1 : heap_wf (runnable_heap s) m1).
  { apply (heap_wf_frame _ (task_mem s)); [|assumption].
    unfold m1. now apply proj_assign. }
  destruct (heap_remove_if_queued_wf _ _ p Hwf1)
    as (Hwf & Hp & Hsub & _ & Hfr).
  cbv zeta in Hwf, Hp, Hsub, Hfr.
  set (hm := if heap_index (deref m1 p) >=? 0
             then heap_remove (runnable_heap s) m1 p
             else (runnable_heap s, m1)) in *.
  pose proof (swap_remove_perm _ _ _ Hi) as Hperm.
  assert (Hnd : p ∉ swap_remove 0%nat i (all_tasks s)).
  { pose proof (wf_nodup _ Hal) as Hnd. rewrite <- Hperm in Hnd.
    now apply NoDup_cons in Hnd as [Hn _]. }
  assert (Hmem : forall q, q ∈ swap_remove 0%nat i (all_tasks s) ->
                           q ∈ all_tasks s /\ q <> p).
  { intros q Hq. split.
    - rewrite <- Hperm. now apply elem_of_cons; right.
    - intros ->. contradiction. }
  assert (Hst : forall q, q <> p ->
                  state (deref (delete p (snd hm)) q)
                  = state (deref (task_mem s) q)).
  { intros q Hne. rewrite deref_delete_ne by assumption.
    rewrite (strip_deref_state _ _ q Hfr). unfold m1.
    now rewrite deref_assign_ne by congruence. }
  split; cbn [runnable_heap task_mem all_tasks cgroups with_heap
              with_all_tasks with_cpu_queues]; try assumption.
  - now apply heap_wf_delete.
  - intros q Hq. assert (Hne : q <> p) by (intros ->; contradiction).
    destruct (I2 q (Hsub q Hq)) as [Ha Hb]. split.
    + rewrite <- Hperm in Ha.
      apply elem_of_cons in Ha as [|]; [contradiction|assumption].
    + now rewrite Hst.
  - intros q Hq. destruct (Hmem q Hq) as [Ha Hne].
    rewrite lookup_delete_ne by congruence.
    apply (fmap_is_Some strip m1); [assumption|].
    unfold m1. apply assign_is_Some. auto.
  - intros q Hq. destruct (Hmem q Hq) as [Ha Hne].
    rewrite Hst by assumption. now apply I4.
  - rewrite length_swap_remove. lia.
Qed.

Lemma sched_inv_create s e :
  alloc_wf s -> sched_inv s -> sched_inv (snd (do_task_create s e)).
Proof.
  intros Hal [I1 I2 I3 I4 I5 I6]. unfold do_task_create, alloc_task.
  cbn [snd].
  set (t := if ev_has_cpu_mask e then _ else _).
  set (p := next_task s).
  set (m1 := <[p := t]> (task_mem s)).
  set (s1 := with_alloc m1 (S p) s).
  assert (Hfresh : task_mem s !! p = None).
  { destruct (task_mem s !! p) as [t0|] eqn:E; [|reflexivity].
    apply (wf_store _ Hal) in E. unfold p in E. lia. }
  assert (Hnreg : p ∉ all_tasks s).
  { intros Hp. apply (wf_registry _ Hal) in Hp. unfold p in Hp. lia. }
  assert (Hnq : p ∉ runnable_heap s).
  { intros Hp. now apply I2 in Hp as [Hp _]. }
  assert (Ht : heap_index t = -1 /\ state t = TASK_STATE_RUNNABLE).
  { unfold t. destruct (ev_has_cpu_mask e); split; reflexivity. }
  destruct Ht as [Hti Hts].
  assert (Hd : forall q, q <> p -> deref m1 q = deref (task_mem s) q).
  { intros q Hne. unfold deref, m1. now rewrite lookup_insert_ne. }
  assert (Hdp : deref m1 p = t).
  { unfold deref, m1. now rewrite lookup_insert_eq. }
  assert (Hwf1 : heap_wf (runnable_heap s) m1).
  { destruct I1 as [Hin Hout]. split.
    - intros i q Hq. destruct (Hin _ _ Hq) as (tq & Htq & E).
      exists tq. split; [|assumption]. unfold m1.
      rewrite lookup_insert_ne; [assumption|].
      intros <-. apply Hnq. eapply list_elem_of_lookup_2; eauto.
    - intros q tq Hq Hn. unfold m1 in Hq.
      apply lookup_insert_Some in Hq as [[<- <-]|[_ Hq]]; eauto. }
  assert (Hinv1 : sched_inv s1).
  { unfold s1.
    split; cbn [runnable_heap task_mem all_tasks cgroups with_alloc];
      try assumption.
    - intros q Hq. destruct (I2 q Hq) as [Ha Hb]. split; [assumption|].
      rewrite Hd; [assumption|]. intros ->. contradiction.
    - intros q Hq. unfold m1. rewrite lookup_insert_ne; [auto|].
      intros <-. contradiction.
    - intros q Hq. rewrite Hd; [auto|]. intros ->. contradiction. }
  unfold scheduler_add_task.
  destruct (Nat.leb_spec MAX_TASKS (length (all_tasks s1))) as [|Hroom];
    [assumption|].
  change (task_mem (with_all_tasks (all_tasks s1 ++ [p]) s1)) with m1.
  rewrite Hdp.
  assert (Hr : is_runnable t = true) by now apply is_runnable_true.
  rewrite Hr. cbn [snd]. unfold reinsert, s1.
  cbn [runnable_heap task_mem with_all_tasks with_alloc].
  pose proof (heap_insert_frame strip strip_index (runnable_heap s) m1 p)
    as Hfr.
  pose proof (heap_insert_perm (runnable_heap s) m1 p) as Hperm.
  split; cbn [runnable_heap task_mem all_tasks cgroups with_heap
              with_all_tasks with_alloc]; try assumption.
  - apply heap_insert_wf; [assumption..|].
    unfold m1. rewrite lookup_insert_eq. eauto.
  - intros q Hq. rewrite Hperm in Hq.
    rewrite (strip_deref_state _ _ q Hfr).
    apply elem_of_cons in Hq as [->|Hq].
    + split; [|now rewrite Hdp].
      apply elem_of_app. right. now apply list_elem_of_singleton.
    + destruct (I2 q Hq) as [Ha Hb]. split.
      * apply elem_of_app. now left.
      * rewrite Hd; [assumption|]. intros ->. contradiction.
  - intros q Hq. apply (fmap_is_Some strip m1); [assumption|].
    unfold m1. apply elem_of_app in Hq as [Hq|Hq].
    + rewrite lookup_insert_ne; [auto|]. intros <-. contradiction.
    + apply list_elem_of_singleton in Hq as ->.
      rewrite lookup_insert_eq. eauto.
  - intros q Hq. rewrite (strip_deref_state _ _ q Hfr).
    apply elem_of_app in Hq as [Hq|Hq].
    + rewrite Hd; [auto|]. intros ->. contradiction.
    + apply list_elem_of_singleton in Hq as ->. rewrite Hdp, Hts.
      discriminate.
  - unfold s1 in Hroom. cbn [all_tasks with_alloc] in Hroom.
    rewrite length_app. cbn. lia.
Qed.

Lemma sched_inv_event s e :
  alloc_wf s -> sched_inv s ->
  sched_inv (snd (scheduler_process_event s e)).
Proof.
  intros Hal H. unfold scheduler_process_event.
  destruct (ev_action e).
  - assumption.
  - now apply sched_inv_create.
  - now apply sched_inv_exit.
  - now apply sched_inv_block.
  - now apply sched_inv_unblock.
  - now apply sched_inv_yield.
  - now apply sched_inv_setnice.
  - now apply sched_inv_set_affinity.
  - now apply sched_inv_cgroup_create.
  - now apply sched_inv_cgroup_modify.
  - now apply sched_inv_cgroup_delete.
  - now apply sched_inv_move_cgroup.
  - now apply sched_inv_cpu_burst.
Qed.

(** ** The invariants across a tick *)

Lemma account_cpu_heap s i :
  runnable_heap (account_cpu s i) = runnable_heap s.
Proof.
  unfold account_cpu. cbn [runnable_heap with_cpu_queues].
  destruct (cpu_queues s !! i) as [[q|]|]; try reflexivity.
  now destruct (is_running _).
Qed.

Lemma account_cpu_cgroups_length s i :
  length (cgroups (account_cpu s i)) = length (cgroups s).
Proof.
  unfold account_cpu. cbn [cgroups with_cpu_queues].
  destruct (cpu_queues s !! i) as [[q|]|]; try reflexivity.
  destruct (is_running _); [|reflexivity]. cbn [cgroups with_cgroups].
  destruct (nonempty _); [|reflexivity].
  destruct (scheduler_find_cgroup _ _) as [[k cg]|]; [|reflexivity].
  apply length_insert.
Qed.

Lemma sched_inv_account_cpu s i : sched_inv s -> sched_inv (account_cpu s i).
Proof.
  intros [I1 I2 I3 I4 I5 I6].
  pose proof (account_cpu_frame heap_index ltac:(reflexivity)
                ltac:(reflexivity) ltac:(reflexivity) s i) as Hfr.
  split; rewrite ?account_cpu_heap, ?account_cpu_all_tasks,
           ?account_cpu_cgroups_length; try assumption.
  - now apply (heap_wf_frame _ (task_mem s)).
  - intros p Hp. destruct (I2 p Hp) as [Ha Hb]. split; [assumption|].
    destruct (account_cpu_state s i p) as [H|[H _]]; cbv zeta in H;
      congruence.
  - intros p Hp. eapply fmap_is_Some; eauto.
  - intros p Hp.
    destruct (account_cpu_state s i p) as [H|[_ H]]; cbv zeta in H;
      rewrite H; [now apply I4|discriminate].
Qed.

Lemma sched_inv_account_all s : sched_inv s -> sched_inv (account_all s).
Proof.
  unfold account_all. generalize (seq 0 (cpu_count s)). intros l.
  revert s. induction l as [|i l IH]; intros s H; [assumption|].
  cbn [fold_left]. now apply IH, sched_inv_account_cpu.
Qed.

(** *** The rebuild of the heap *)

Lemma heap_wf_but_mono (D D' : nat -> Prop) h m :
  (forall q, D q -> D' q) -> heap_wf_but D h m -> heap_wf_but D' h m.
Proof.
  intros HD [Hin Hout]. split; [exact Hin|].
  intros p t Hp Hn HD'. apply (Hout p t Hp Hn). intros H. apply HD'. auto.
Qed.

Lemma fold_rebuild_wf l h m :
  NoDup l ->
  heap_wf_but (fun q => q ∈ l) h m ->
  (forall p, p ∈ l -> p ∉ h) ->
  (forall p, p ∈ l -> is_Some (m !! p)) ->
  heap_wf (fst (fold_left rebuild_step l (h, m)))
          (snd (fold_left rebuild_step l (h, m))).
Proof.
  revert h m. induction l as [|p l IH]; intros h m Hnd Hwf Hh Hs.
  - cbn. apply heap_wf_but_False. revert Hwf. apply heap_wf_but_mono.
    intros q Hq. now apply elem_of_nil in Hq.
  - apply NoDup_cons in Hnd as [Hp Hnd]. cbn [fold_left].
    set (m1 := assign (set_heap_index (-1)) p m).
    assert (Hph : p ∉ h) by (apply Hh, elem_of_cons; now left).
    assert (Hwf1 : heap_wf_but (fun q => q ∈ l) h m1).
    { destruct Hwf as [Hin Hout]. split.
      - intros i q Hq. destruct (Hin _ _ Hq) as (t & Ht & E).
        exists t. split; [|assumption]. unfold m1.
        rewrite assign_index_lookup, decide_False; [assumption|].
        intros ->. apply Hph. eapply list_elem_of_lookup_2; eauto.
      - intros q t Hq Hn HD. unfold m1 in Hq.
        rewrite assign_index_lookup in Hq.
        destruct (decide (p = q)) as [->|Hne].
        + destruct (m !! q); [|discriminate]. cbn in Hq.
          now injection Hq as <-.
        + apply (Hout q t Hq Hn). intros H.
          apply elem_of_cons in H as [|]; [congruence|contradiction]. }
    assert (Hs1 : forall q, q ∈ l -> is_Some (m1 !! q)).
    { intros q Hq. unfold m1. apply assign_is_Some, Hs, elem_of_cons.
      now right. }
    assert (Hstep : rebuild_step (h, m) p
                    = if is_runnable (deref m1 p) then heap_insert h m1 p
                      else (h, m1)) by reflexivity.
    rewrite Hstep. clear Hstep.
    destruct (is_runnable (deref m1 p)).
    + pose proof (heap_insert_perm h m1 p) as Hperm.
      pose proof (heap_insert_frame strip strip_index h m1 p) as Hfr.
      destruct (heap_insert h m1 p) as [h' m'] eqn:E.
      cbn [fst snd] in *. apply IH; [assumption| | |].
      * pose proof (heap_insert_wf_but _ h m1 p Hwf1 Hph) as H.
        rewrite E in H. cbn [fst snd] in H.
        eapply heap_wf_but_mono; [|apply H].
        -- intros q [Hq _]. exact Hq.
        -- unfold m1. apply assign_is_Some, Hs, elem_of_cons. now left.
      * intros q Hq. rewrite Hperm. intros Hin.
        apply elem_of_cons in Hin as [->|Hin]; [contradiction|].
        revert Hin. apply Hh, elem_of_cons. now right.
      * intros q Hq. apply (fmap_is_Some strip m1); auto.
    + apply IH; [assumption..| |assumption].
      intros q Hq. apply Hh, elem_of_cons. now right.
Qed.

Lemma sched_inv_rebuild s :
  NoDup (all_tasks s) -> sched_inv s -> sched_inv (rebuild_runnable_heap s).
Proof.
  intros Hnd [I1 I2 I3 I4 I5 I6].
  pose proof (rebuild_runnable_heap_frame strip strip_index s) as Hfr.
  split.
  - unfold rebuild_runnable_heap. cbn [runnable_heap task_mem with_heap].
    apply fold_rebuild_wf; [assumption| | |assumption].
    + split; [intros i p H; discriminate|].
      intros p t Hp _ Hn. apply (heap_wf_out _ _ I1 p t Hp).
      intros Hq. apply Hn. now apply I2.
    + intros p _ H. now apply elem_of_nil in H.
  - intros p Hp. apply rebuild_runnable_heap_members in Hp as [Ha Hb].
    split; [assumption|]. now rewrite (strip_deref_state _ _ p Hfr).
  - intros p Hp. apply (fmap_is_Some strip (task_mem s)); auto.
  - intros p Hp. rewrite (strip_deref_state _ _ p Hfr). now apply I4.
  - assumption.
  - assumption.
Qed.

Lemma sched_inv_tick_prepare s vtime :
  NoDup (all_tasks s) -> sched_inv s -> sched_inv (tick_prepare s vtime).
Proof.
  intros Hnd H. unfold tick_prepare. apply sched_inv_rebuild.
  - unfold account_all. now rewrite fold_account_all_tasks.
  - apply sched_inv_account_all. revert H.
    apply sched_inv_frame; try reflexivity.
    cbn [cgroups refresh_cgroup_periods with_cgroups]. apply length_map.
Qed.

(** *** The selection loop *)

Lemma sched_inv_with_heap s h m :
  sched_inv s -> heap_wf h m ->
  (forall q, q ∈ h ->
     q ∈ all_tasks s /\ state (deref (task_mem s) q) = TASK_STATE_RUNNABLE) ->
  strip <$> m = strip <$> task_mem s ->
  sched_inv (with_heap h m s).
Proof.
  intros [I1 I2 I3 I4 I5 I6] Hwf Hq Hfr.
  split; cbn [runnable_heap task_mem all_tasks cgroups with_heap];
    try assumption.
  - intros q Hin. destruct (Hq q Hin) as [Ha Hb]. split; [assumption|].
    now rewrite (strip_deref_state _ _ q Hfr).
  - intros q Hin. apply (fmap_is_Some strip (task_mem s)); auto.
  - intros q Hin. rewrite (strip_deref_state _ _ q Hfr). now apply I4.
Qed.

Lemma pick_loop_inv fuel s cpu planned tick_us deferred :
  sched_inv s ->
  sched_inv (snd (pick_loop fuel s cpu planned tick_us deferred)).
Proof.
  revert s deferred. induction fuel as [|fuel IH]; intros s deferred H;
    cbn [pick_loop]; [assumption|].
  pose proof (heap_extract_min_wf _ _ (inv_heap _ H)) as Hwf.
  pose proof (heap_extract_min_frame strip strip_index (runnable_heap s)
                (task_mem s)) as Hfr.
  destruct (heap_extract_min _ _) as [[c|] [h m]] eqn:E; [|assumption].
  cbn [fst snd] in *.
  apply heap_extract_min_perm in E. cbn [fst] in E.
  assert (H1 : sched_inv (with_heap h m s)).
  { apply sched_inv_with_heap; try assumption.
    intros q Hq. apply (inv_queued _ H). rewrite <- E.
    now apply elem_of_cons; right. }
  destruct (negb (can_task_run_on_cpu _ _ _)); [now apply IH|].
  destruct (negb (quota_admits _ _ _ _)); [now apply IH|].
  assumption.
Qed.

Lemma sched_inv_reinsert s q :
  sched_inv s -> q ∉ runnable_heap s -> q ∈ all_tasks s ->
  state (deref (task_mem s) q) = TASK_STATE_RUNNABLE ->
  sched_inv (reinsert s q).
Proof.
  intros H Hq Ha Hst. unfold reinsert.
  apply sched_inv_with_heap; [assumption| | |].
  - apply heap_insert_wf; [apply H|assumption|now apply (inv_stored _ H)].
  - intros x Hx. rewrite heap_insert_perm in Hx.
    apply elem_of_cons in Hx as [->|Hx]; [auto|now apply (inv_queued _ H)].
  - apply heap_insert_frame, strip_index.
Qed.

Lemma fold_reinsert_inv l s :
  sched_inv s -> NoDup (l ++ runnable_heap s) ->
  (forall q, q ∈ l ->
     q ∈ all_tasks s /\ state (deref (task_mem s) q) = TASK_STATE_RUNNABLE) ->
  sched_inv (fold_left reinsert l s).
Proof.
  revert s. induction l as [|q l IH]; intros s H Hnd Hl; [assumption|].
  cbn [fold_left]. cbn in Hnd. apply NoDup_cons in Hnd as [Hq Hnd].
  destruct (Hl q ltac:(apply elem_of_cons; now left)) as [Ha Hst].
  apply IH.
  - apply sched_inv_reinsert; try assumption.
    intros Hin. apply Hq, elem_of_app. now right.
  - rewrite reinsert_perm, <- Permutation_middle.
    apply NoDup_cons. split; assumption.
  - intros x Hx. destruct (Hl x ltac:(apply elem_of_cons; now right))
      as [Hxa Hxs].
    split.
    + exact Hxa.
    + rewrite <- Hxs. apply strip_deref_state.
      apply reinsert_frame, strip_index.
Qed.

Lemma pick_task_for_cpu_inv s cpu planned tick_us sel planned' s' :
  sched_inv s ->
  pick_task_for_cpu s cpu planned tick_us = (sel, planned', s') ->
  sched_inv s'
  /\ forall b, sel = Some b ->
       b ∈ runnable_heap s /\ (b ∉ runnable_heap s') /\ b ∈ all_tasks s'.
Proof.
  intros H. unfold pick_task_for_cpu.
  pose proof (pick_loop_inv (length (runnable_heap s)) s cpu planned tick_us
                [] H) as H1.
  pose proof (pick_loop_frame strip strip_index
                (length (runnable_heap s)) s cpu planned tick_us []) as Hfr.
  pose proof (pick_loop_registry (length (runnable_heap s)) s cpu planned
                tick_us []) as Hreg.
  destruct (pick_loop _ _ _ _ _ _) as [[sel0 deferred] s1] eqn:E.
  cbn [snd] in *. apply pick_loop_perm in E. cbn [app] in E.
  intros Heq. injection Heq as -> _ <-.
  pose proof (sched_inv_heap_NoDup _ H) as Hnd. rewrite E in Hnd.
  assert (Hmem : forall q, q ∈ option_list sel ++ deferred ->
             q ∈ all_tasks s1
             /\ state (deref (task_mem s1) q) = TASK_STATE_RUNNABLE).
  { intros q Hq.
    assert (Hin : q ∈ runnable_heap s).
    { rewrite E, app_assoc. apply elem_of_app. now left. }
    destruct (inv_queued _ H q Hin) as [Ha Hb]. split.
    - now rewrite (f_equal fst Hreg : all_tasks s1 = all_tasks s).
    - now rewrite (strip_deref_state _ _ q Hfr). }
  split.
  - apply fold_reinsert_inv; [assumption| |].
    + now apply NoDup_app in Hnd as (_ & _ & Hnd).
    + intros q Hq. apply Hmem, elem_of_app. now right.
  - intros b ->. cbn [option_list app] in *. split; [|split].
    + rewrite E. now apply elem_of_cons; left.
    + rewrite fold_reinsert_perm. now apply NoDup_cons in Hnd as [Hb _].
    + rewrite (f_equal fst (fold_reinsert_registry deferred s1)
               : all_tasks _ = all_tasks s1).
      apply Hmem. now apply elem_of_cons; left.
Qed.

Lemma assign_best_state prev cpu b s q :
  let st := state (deref (task_mem s) q) in
  let st' := state (deref (task_mem (assign_best prev cpu b s)) q) in
  (q <> b -> st' = st \/ st' = TASK_STATE_RUNNABLE)
  /\ (is_Some (task_mem s !! b) -> q = b -> st' = TASK_STATE_RUNNING).
Proof.
  cbv zeta. unfold assign_best.
  set (s1 := match prev with Some _ => _ | None => s end).
  assert (H1 : state (deref (task_mem s1) q) = state (deref (task_mem s) q)
               \/ state (deref (task_mem s1) q) = TASK_STATE_RUNNABLE).
  { unfold s1. destruct prev as [pr|]; [|now left].
    destruct (negb _); [|now left].
    cbn [task_mem with_preemptions].
    destruct (is_running _); [|now left]. cbn [task_mem with_task_mem].
    destruct (decide (q = pr)) as [->|Hne].
    - destruct (task_mem s !! pr) as [t|] eqn:Ht.
      + right. now rewrite (deref_assign_eq _ _ _ _ Ht).
      + left. unfold deref, assign. now rewrite lookup_alter_eq, Ht.
    - left. now rewrite deref_assign_ne by congruence. }
  assert (Hd : dom (task_mem s1) = dom (task_mem s)).
  { unfold s1. destruct prev as [pr|]; [|reflexivity].
    destruct (negb _); [|reflexivity]. cbn [task_mem with_preemptions].
    destruct (is_running _); [|reflexivity]. apply dom_assign. }
  set (s2 := if _ && _ then _ else s1).
  assert (H2 : task_mem s2 = task_mem s1)
    by (unfold s2; destruct (_ && _); reflexivity).
  cbn [task_mem with_cpu_queues with_task_mem]. rewrite H2. split.
  - intros Hne. rewrite !deref_assign_ne by congruence. exact H1.
  - intros Hs ->. apply elem_of_dom in Hs. rewrite <- Hd in Hs.
    apply elem_of_dom in Hs as [t Ht].
    rewrite (deref_assign_eq _ _ _ _
               (lookup_assign_eq _ (set_current_cpu (Z.of_nat cpu)) _ _ Ht)).
    reflexivity.
Qed.

Lemma assign_best_inv prev cpu b s :
  sched_inv s -> b ∉ runnable_heap s -> b ∈ all_tasks s ->
  sched_inv (assign_best prev cpu b s).
Proof.
  intros [I1 I2 I3 I4 I5 I6] Hb Ha.
  pose proof (assign_best_frame heap_index ltac:(reflexivity)
                ltac:(reflexivity) prev cpu b s) as Hfr.
  pose proof (f_equal fst (assign_best_registry prev cpu b s)) as Hreg.
  cbn [fst registry] in Hreg.
  split; rewrite ?assign_best_heap, ?assign_best_cgroups, ?Hreg;
    try assumption.
  - now apply (heap_wf_frame _ (task_mem s)).
  - intros q Hq. destruct (I2 q Hq) as [Hqa Hqs]. split; [assumption|].
    destruct (assign_best_state prev cpu b s q) as [H _]. cbv zeta in H.
    destruct H as [H|H]; [intros ->; contradiction|congruence|assumption].
  - intros q Hq. eapply fmap_is_Some; eauto.
  - intros q Hq.
    destruct (assign_best_state prev cpu b s q) as [H1 H2]. cbv zeta in *.
    destruct (decide (q = b)) as [->|Hne].
    + rewrite H2; [discriminate|auto|reflexivity].
    + destruct (H1 Hne) as [H|H]; rewrite H; [now apply I4|discriminate].
Qed.

Lemma select_cpu_inv prev tick_us a cpu :
  sched_inv (sel_sched a) ->
  sched_inv (sel_sched (select_cpu prev tick_us a cpu)).
Proof.
  intros H. unfold select_cpu.
  destruct (pick_task_for_cpu _ _ _ _) as [[[b|] planned] s1] eqn:E;
    apply (pick_task_for_cpu_inv _ _ _ _ _ _ _ H) in E as [H1 Hb];
    cbn [sel_sched]; [|assumption].
  destruct (Hb b eq_refl) as (Hin & Hout & Hreg).
  now apply assign_best_inv.
Qed.

Lemma fold_select_inv prev tick_us l a :
  sched_inv (sel_sched a) ->
  sched_inv (sel_sched (fold_left (select_cpu prev tick_us) l a)).
Proof.
  revert a. induction l as [|c l IH]; intros a H; [assumption|].
  cbn [fold_left]. now apply IH, select_cpu_inv.
Qed.

Lemma sched_inv_tick s vtime :
  NoDup (all_tasks s) -> sched_inv s ->
  sched_inv (snd (scheduler_tick s vtime)).
Proof.
  intros Hnd H. unfold scheduler_tick. cbn [snd].
  set (a := tick_select _ _).
  assert (Ha : sched_inv (sel_sched a)).
  { unfold a, tick_select. apply fold_select_inv. cbn [sel_sched].
    now apply sched_inv_tick_prepare. }
  revert Ha. apply sched_inv_frame_fields; try reflexivity.
  cbn [task_mem with_task_mem]. apply clear_unassigned_frame. reflexivity.
Qed.

Lemma reachable_sched_inv s : reachable s -> sched_inv s.
Proof.
  induction 1 as [ncpu q|s e Hr IH|s vtime Hr IH].
  - apply sched_inv_init.
  - apply sched_inv_event; [now apply reachable_alloc_wf|assumption].
  - apply sched_inv_tick; [|assumption].
    apply (wf_nodup _ (reachable_alloc_wf _ Hr)).
Qed.

(** *** The order of the heap across a tick *)

Lemma heap_ordered_frame h (m m' : gmap nat Task) :
  vruntime <$> m' = vruntime <$> m -> heap_ordered h m -> heap_ordered h m'.
Proof.
  intros Hm H i Hi. rewrite !(key_frame _ m m') by assumption. now apply H.
Qed.

Lemma fold_rebuild_ordered l hm :
  heap_ordered (fst hm) (snd hm) ->
  heap_ordered (fst (fold_left rebuild_step l hm))
               (snd (fold_left rebuild_step l hm)).
Proof.
  revert hm. induction l as [|p l IH]; intros hm H; [assumption|].
  cbn [fold_left]. apply IH. unfold rebuild_step.
  assert (H1 : heap_ordered (fst hm) (assign (set_heap_index (-1)) p (snd hm))).
  { revert H. apply heap_ordered_frame. now apply proj_assign. }
  destruct (is_runnable _); [|assumption].
  now apply heap_insert_ordered_aux.
Qed.

Lemma rebuild_runnable_heap_ordered s :
  heap_ordered (runnable_heap (rebuild_runnable_heap s))
               (task_mem (rebuild_runnable_heap s)).
Proof.
  unfold rebuild_runnable_heap. cbn [runnable_heap task_mem with_heap].
  apply fold_rebuild_ordered. intros i Hi. cbn in Hi. lia.
Qed.

Lemma pick_loop_ordered fuel s cpu planned tick_us deferred :
  heap_ordered (runnable_heap s) (task_mem s) ->
  let s' := snd (pick_loop fuel s cpu planned tick_us deferred) in
  heap_ordered (runnable_heap s') (task_mem s').
Proof.
  cbv zeta. revert s deferred.
  induction fuel as [|fuel IH]; intros s deferred H; cbn [pick_loop];
    [assumption|].
  pose proof (heap_extract_min_ordered_aux _ _ H) as H1.
  destruct (heap_extract_min _ _) as [[c|] [h m]]; [|assumption].
  cbn [fst snd] in H1.
  destruct (negb (can_task_run_on_cpu _ _ _)); [now apply IH|].
  destruct (negb (quota_admits _ _ _ _)); [now apply IH|].
  assumption.
Qed.

Lemma pick_task_for_cpu_keeps_order s cpu planned tick_us :
  heap_ordered (runnable_heap s) (task_mem s) ->
  let s' := snd (pick_task_for_cpu s cpu planned tick_us) in
  heap_ordered (runnable_heap s') (task_mem s').
Proof.
  intros H. cbv zeta. unfold pick_task_for_cpu.
  pose proof (pick_loop_ordered (length (runnable_heap s)) s cpu planned
                tick_us [] H) as H1.
  destruct (pick_loop _ _ _ _ _ _) as [[sel deferred] s1].
  cbn [snd] in *. now apply fold_reinsert_ordered.
Qed.

Lemma select_cpu_ordered prev tick_us a cpu :
  heap_ordered (runnable_heap (sel_sched a)) (task_mem (sel_sched a)) ->
  let a' := select_cpu prev tick_us a cpu in
  heap_ordered (runnable_heap (sel_sched a')) (task_mem (sel_sched a')).
Proof.
  intros H. cbv zeta. unfold select_cpu.
  pose proof (pick_task_for_cpu_keeps_order (sel_sched a) cpu (sel_planned a)
                tick_us H) as H1.
  destruct (pick_task_for_cpu _ _ _ _) as [[[b|] planned] s1];
    cbn [snd sel_sched] in *; [|assumption].
  rewrite assign_best_heap. revert H1. apply heap_ordered_frame.
  apply assign_best_frame; reflexivity.
Qed.

Lemma fold_select_ordered prev tick_us l a :
  heap_ordered (runnable_heap (sel_sched a)) (task_mem (sel_sched a)) ->
  let a' := fold_left (select_cpu prev tick_us) l a in
  heap_ordered (runnable_heap (sel_sched a')) (task_mem (sel_sched a')).
Proof.
  cbv zeta. revert a. induction l as [|c l IH]; intros a H; [assumption|].
  cbn [fold_left]. now apply IH, select_cpu_ordered.
Qed.

Lemma scheduler_tick_ordered s vtime :
  let s' := snd (scheduler_tick s vtime) in
  heap_ordered (runnable_heap s') (task_mem s').
Proof.
  cbv zeta. unfold scheduler_tick. cbn [snd runnable_heap task_mem
    with_task_mem].
  set (a := tick_select _ _).
  assert (Ha : heap_ordered (runnable_heap (sel_sched a))
                            (task_mem (sel_sched a))).
  { unfold a, tick_select. apply fold_select_ordered. cbn [sel_sched].
    unfold tick_prepare. apply rebuild_runnable_heap_ordered. }
  revert Ha. apply heap_ordered_frame.
  apply clear_unassigned_frame. reflexivity.
Qed.

(** ** The tests of the invariants are sound *)

Lemma existsb_eqb_elem (h : list nat) p :
  existsb (Nat.eqb p) h = true <-> p ∈ h.
Proof.
  rewrite existsb_exists. split.
  - intros (x & Hx & E). apply Nat.eqb_eq in E as ->.
    now apply list_elem_of_In.
  - intros H. exists p. split; [now apply list_elem_of_In|].
    apply Nat.eqb_refl.
Qed.

Lemma heap_wf_test_sound h m : heap_wf_test h m = true -> heap_wf h m.
Proof.
  unfold heap_wf_test. intros H. apply andb_true_iff in H as [H1 H2].
  rewrite forallb_forall in H1, H2. split.
  - intros i p Hi. pose proof (lookup_lt_Some _ _ _ Hi) as Hlt.
    specialize (H1 i ltac:(apply in_seq; lia)).
    rewrite (slot_lookup _ _ _ Hi) in H1. unfold heap_index_is in H1.
    destruct (m !! p) as [t|]; [|discriminate].
    exists t. split; [reflexivity|]. now apply Z.eqb_eq.
  - intros p t Hp Hn.
    specialize (H2 (p, t)
      ltac:(apply list_elem_of_In, elem_of_map_to_list; exact Hp)).
    cbn [fst snd] in H2. apply orb_true_iff in H2 as [H2|H2].
    + now apply existsb_eqb_elem in H2.
    + now apply Z.eqb_eq.
Qed.

Lemma heap_ordered_test_sound h m :
  heap_ordered_test h m = true -> heap_ordered h m.
Proof.
  unfold heap_ordered_test. intros H i Hi.
  rewrite forallb_forall in H.
  specialize (H i ltac:(apply in_seq; lia)).
  now apply negb_true_iff in H.
Qed.

Lemma keys_not_nan_test_sound h m :
  keys_not_nan_test h m = true -> keys_not_nan h m.
Proof.
  unfold keys_not_nan_test. intros H p Hp.
  rewrite forallb_forall in H. apply H. now apply list_elem_of_In.
Qed.

(** ** The invariants of the CPU slots *)

Lemma slot_view_deref (m m' : gmap nat Task) p :
  slot_view <$> m' = slot_view <$> m ->
  state (deref m' p) = state (deref m p)
  /\ current_cpu (deref m' p) = current_cpu (deref m p).
Proof.
  intros H. pose proof (proj_deref slot_view m m' p (eq_sym H)) as E.
  unfold slot_view in E. injection E as E1 E2. auto.
Qed.

Lemma sched_view_slot_view (m m' : gmap nat Task) :
  sched_view <$> m' = sched_view <$> m -> slot_view <$> m' = slot_view <$> m.
Proof.
  exact (fmap_fmap_eq sched_view (fun v => (snd (fst v), snd v)) m m').
Qed.

Lemma on_cpu_frame s s' p :
  cpu_queues s' = cpu_queues s -> on_cpu s' p <-> on_cpu s p.
Proof. intros H. unfold on_cpu. now rewrite H. Qed.

Lemma slot_inv_frame s s' :
  cpu_queues s' = cpu_queues s ->
  all_tasks s' = all_tasks s ->
  runnable_heap s' ≡ₚ runnable_heap s ->
  slot_view <$> task_mem s' = slot_view <$> task_mem s ->
  slot_inv s -> slot_inv s'.
Proof.
  intros Hq Ha Hh Hm [J1 J2 J3 J4].
  assert (Hv : forall p, state (deref (task_mem s') p)
                         = state (deref (task_mem s) p)
                         /\ current_cpu (deref (task_mem s') p)
                            = current_cpu (deref (task_mem s) p))
    by (intros p; now apply slot_view_deref).
  split; unfold on_cpu; rewrite ?Hq, ?Ha.
  - intros c p Hc. destruct (Hv p) as [-> ->]. rewrite Hh. now apply J1.
  - intros p Hp. destruct (Hv p) as [_ ->]. now apply J2.
  - intros p Hp. destruct (Hv p) as [-> _]. now apply J3.
  - intros p Hp. destruct (Hv p) as [-> _]. rewrite Hh. now apply J4.
Qed.

Lemma slot_inv_init ncpu q : slot_inv (scheduler_init ncpu q).
Proof.
  split; cbn.
  - intros c p H. apply lookup_replicate in H as [H _]. discriminate.
  - intros p Hp. now apply elem_of_nil in Hp.
  - intros p Hp. now apply elem_of_nil in Hp.
  - intros p Hp. now apply elem_of_nil in Hp.
Qed.

(** One record [p] changes its place; every other record keeps its slot,
    its place in the heap and its view. *)
Lemma slot_inv_update s s' p :
  (forall c q, cpu_queues s' !! c = Some (Some q)
     <-> cpu_queues s !! c = Some (Some q) /\ q <> p) ->
  (forall q, q <> p -> q ∈ all_tasks s' <-> q ∈ all_tasks s) ->
  (forall q, q <> p -> q ∈ runnable_heap s' <-> q ∈ runnable_heap s) ->
  (forall q, q <> p ->
     slot_view (deref (task_mem s') q) = slot_view (deref (task_mem s) q)) ->
  (p ∈ all_tasks s' ->
     current_cpu (deref (task_mem s') p) = -1
     /\ state (deref (task_mem s') p) <> TASK_STATE_RUNNING
     /\ (state (deref (task_mem s') p) = TASK_STATE_RUNNABLE ->
         p ∈ runnable_heap s')) ->
  slot_inv s -> slot_inv s'.
Proof.
  intros Hq Ha Hh Hv Hp [J1 J2 J3 J4].
  assert (Hst : forall q, q <> p ->
            state (deref (task_mem s') q) = state (deref (task_mem s) q)).
  { intros q Hne. exact (f_equal fst (Hv q Hne)). }
  assert (Hcpu : forall q, q <> p ->
            current_cpu (deref (task_mem s') q)
            = current_cpu (deref (task_mem s) q)).
  { intros q Hne. exact (f_equal snd (Hv q Hne)). }
  assert (Hon : forall q, q <> p -> on_cpu s q -> on_cpu s' q).
  { intros q Hne [c Hc]. exists c. now apply Hq. }
  split.
  - intros c q Hc. apply Hq in Hc as [Hc Hne].
    destruct (J1 c q Hc) as (H1 & H2 & H3 & H4).
    rewrite Hst, Hcpu by assumption.
    split; [now apply Ha|]. split; [assumption|]. split; [|assumption].
    intros H. apply H3. now apply Hh.
  - intros q Hreg. destruct (decide (q = p)) as [->|Hne].
    + left. now apply Hp.
    + rewrite Hcpu by assumption.
      destruct (J2 q (proj1 (Ha q Hne) Hreg)) as [H|(c & H1 & H2)];
        [now left|right].
      exists c. split; [assumption|]. now apply Hq.
  - intros q Hreg Hs. destruct (decide (q = p)) as [->|Hne].
    + now destruct (Hp Hreg) as (_ & H & _).
    + rewrite Hst in Hs by assumption.
      apply Hon; [assumption|]. apply J3; [|assumption]. now apply Ha.
  - intros q Hreg Hs. destruct (decide (q = p)) as [->|Hne].
    + left. now apply Hp.
    + rewrite Hst in Hs by assumption.
      destruct (J4 q (proj1 (Ha q Hne) Hreg) Hs) as [H|H].
      * left. now apply Hh.
      * right. now apply Hon.
Qed.

Lemma slot_inv_assign s p f :
  (forall t, slot_view (f t) = slot_view t) ->
  slot_inv s -> slot_inv (with_task_mem (assign f p (task_mem s)) s).
Proof.
  intros Hf. apply slot_inv_frame; try reflexivity.
  cbn [task_mem with_task_mem]. now apply proj_assign.
Qed.

Lemma strip_slot_view (m m' : gmap nat Task) q :
  strip <$> m' = strip <$> m ->
  slot_view (deref m' q) = slot_view (deref m q).
Proof.
  intros H. exact (f_equal slot_view (proj_deref strip m m' q (eq_sym H))).
Qed.

Lemma lookup_map {A B} (f : A -> B) (l : list A) i :
  map f l !! i = f <$> (l !! i).
Proof.
  revert i. induction l as [|x l IH]; intros [|i]; cbn; auto.
Qed.

(** *** Events that keep the slots and the places *)

Lemma slot_inv_setnice s e :
  slot_inv s -> slot_inv (snd (do_task_setnice s e)).
Proof.
  intros H. unfold do_task_setnice, on_task.
  destruct (scheduler_find_task _ _); [|assumption].
  now apply slot_inv_assign.
Qed.

Lemma slot_inv_set_affinity s e :
  slot_inv s -> slot_inv (snd (do_task_set_affinity s e)).
Proof.
  intros H. unfold do_task_set_affinity, on_task.
  destruct (scheduler_find_task _ _); [|assumption].
  now apply slot_inv_assign.
Qed.

Lemma slot_inv_move_cgroup s e :
  slot_inv s -> slot_inv (snd (do_task_move_cgroup s e)).
Proof.
  intros H. unfold do_task_move_cgroup, on_task.
  destruct (scheduler_find_task _ _); [|assumption].
  now apply slot_inv_assign.
Qed.

Lemma slot_inv_cpu_burst s e :
  slot_inv s -> slot_inv (snd (do_cpu_burst s e)).
Proof.
  intros H. unfold do_cpu_burst, on_task.
  destruct (scheduler_find_task _ _); [|assumption].
  now apply slot_inv_assign.
Qed.

Lemma slot_inv_cgroup_create s e :
  slot_inv s -> slot_inv (snd (do_cgroup_create s e)).
Proof.
  unfold do_cgroup_create, scheduler_add_cgroup. cbn [snd].
  destruct (_ <=? _)%nat; cbn [snd]; [auto|].
  apply slot_inv_frame; reflexivity.
Qed.

Lemma slot_inv_cgroup_modify s e :
  slot_inv s -> slot_inv (snd (do_cgroup_modify s e)).
Proof.
  unfold do_cgroup_modify.
  destruct (scheduler_find_cgroup _ _) as [[k c]|]; [|auto].
  cbn [snd]. apply slot_inv_frame; reflexivity.
Qed.

Lemma slot_inv_cgroup_delete s e :
  slot_inv s -> slot_inv (snd (do_cgroup_delete s e)).
Proof.
  unfold do_cgroup_delete, scheduler_remove_cgroup. cbn [snd].
  destruct (scheduler_find_cgroup _ _) as [[k c]|]; [|auto].
  cbn [snd]. apply slot_inv_frame; try reflexivity.
  cbn [task_mem with_cgroups with_task_mem].
  now apply fold_reparent_frame.
Qed.

Lemma slot_inv_yield s e :
  slot_inv s -> slot_inv (snd (do_task_yield s e)).
Proof.
  intros H. unfold do_task_yield, on_task.
  destruct (scheduler_find_task _ _) as [p|]; [|assumption]. cbn [snd].
  set (s1 := with_task_mem _ s).
  assert (H1 : slot_inv s1) by now apply slot_inv_assign.
  destruct (heap_index _ >=? 0); [|assumption].
  revert H1. apply slot_inv_frame; try reflexivity.
  - cbn [runnable_heap with_heap]. apply heap_update_perm.
  - cbn [task_mem with_heap]. now apply heap_update_frame.
Qed.

(** *** Events that move a task *)

Lemma blocked_off_cpu s p :
  slot_inv s -> p ∈ all_tasks s ->
  state (deref (task_mem s) p) = TASK_STATE_BLOCKED ->
  current_cpu (deref (task_mem s) p) = -1 /\ ~ on_cpu s p.
Proof.
  intros [J1 J2 J3 J4] Hreg Hst.
  assert (Hoff : ~ on_cpu s p).
  { intros [c Hc]. destruct (J1 c p Hc) as (_ & _ & _ & [H|H]); congruence. }
  split; [|assumption].
  destruct (J2 p Hreg) as [H|(c & _ & Hc)]; [assumption|].
  exfalso. apply Hoff. now exists c.
Qed.

Lemma slot_inv_unblock s e :
  sched_inv s -> slot_inv s -> slot_inv (snd (do_task_unblock s e)).
Proof.
  intros Hinv H. unfold do_task_unblock, on_task.
  destruct (scheduler_find_task _ _) as [p|] eqn:Hfind; [|assumption].
  cbn [snd]. apply scheduler_find_task_elem in Hfind as [Hreg _].
  destruct (is_blocked (deref (task_mem s) p)) eqn:Hb; [|assumption].
  apply TaskState_eqb_eq in Hb.
  destruct (blocked_off_cpu s p H Hreg Hb) as [Hcpu Hoff].
  destruct (inv_stored s Hinv p Hreg) as [t Ht].
  set (m1 := assign (set_state TASK_STATE_RUNNABLE) p (task_mem s)).
  set (s1 := with_task_mem m1 s).
  set (s2 := if dlt _ _ then _ else s1).
  assert (Hh2 : runnable_heap s2 = runnable_heap s)
    by (unfold s2; destruct (dlt _ _); reflexivity).
  assert (Hq2 : cpu_queues s2 = cpu_queues s)
    by (unfold s2; destruct (dlt _ _); reflexivity).
  assert (Ha2 : all_tasks s2 = all_tasks s)
    by (unfold s2; destruct (dlt _ _); reflexivity).
  assert (Hc2 : current_cpu <$> task_mem s2 = current_cpu <$> task_mem s).
  { unfold s2, s1. destruct (dlt _ _); cbn [task_mem with_task_mem];
      unfold m1; now rewrite !proj_assign. }
  assert (Hm2 : forall q, q <> p ->
                  deref (task_mem s2) q = deref (task_mem s) q).
  { intros q Hne. unfold s2, s1.
    destruct (dlt _ _); cbn [task_mem with_task_mem]; unfold m1;
      now rewrite !deref_assign_ne by congruence. }
  assert (Hst2 : state (deref (task_mem s2) p) = TASK_STATE_RUNNABLE).
  { assert (Hm1 : state (deref m1 p) = TASK_STATE_RUNNABLE).
    { unfold m1. now rewrite (deref_assign_eq _ _ _ _ Ht). }
    unfold s2, s1. destruct (dlt _ _); cbn [task_mem with_task_mem];
      [|exact Hm1].
    rewrite <- Hm1. apply (proj_deref state). symmetry.
    now apply proj_assign. }
  unfold reinsert.
  pose proof (heap_insert_frame strip strip_index (runnable_heap s2)
                (task_mem s2) p) as Hfr.
  pose proof (heap_insert_perm (runnable_heap s2) (task_mem s2) p) as Hperm.
  apply (slot_inv_update s _ p); cbn [cpu_queues all_tasks runnable_heap
    task_mem with_heap]; rewrite ?Hq2, ?Ha2; try assumption.
  - intros c q. split; [|tauto]. intros Hc. split; [assumption|].
    intros ->. apply Hoff. now exists c.
  - tauto.
  - intros q Hne. rewrite Hperm, Hh2, elem_of_cons. tauto.
  - intros q Hne. rewrite (strip_slot_view _ _ q Hfr). now rewrite Hm2.
  - intros _. pose proof (strip_slot_view _ _ p Hfr) as E.
    unfold slot_view in E. injection E as E1 E2. rewrite E1, E2, Hst2.
    split; [|split; [discriminate|]].
    + rewrite <- Hcpu. apply (proj_deref current_cpu). now symmetry.
    + intros _. rewrite Hperm. now apply elem_of_cons; left.
Qed.

Lemma slot_inv_block s e :
  sched_inv s -> slot_inv s -> slot_inv (snd (do_task_block s e)).
Proof.
  intros Hinv H. unfold do_task_block, on_task.
  destruct (scheduler_find_task _ _) as [p|] eqn:Hfind; [|assumption].
  cbn [snd]. apply scheduler_find_task_elem in Hfind as [Hreg _].
  destruct (inv_stored s Hinv p Hreg) as [t Ht].
  set (m1 := assign (set_state TASK_STATE_BLOCKED) p (task_mem s)).
  assert (Hwf1 : heap_wf (runnable_heap s) m1).
  { apply (heap_wf_frame _ (task_mem s)); [|apply (inv_heap s Hinv)].
    unfold m1. now apply proj_assign. }
  destruct (heap_remove_if_queued_wf _ _ p Hwf1)
    as (_ & Hp & Hsub & Hsup & Hfr).
  cbv zeta in Hp, Hsub, Hsup, Hfr.
  set (hm := if heap_index (deref m1 p) >=? 0
             then heap_remove (runnable_heap s) m1 p
             else (runnable_heap s, m1)) in *.
  cbn [task_mem with_heap].
  assert (Hv : forall q, q <> p ->
                 slot_view (deref (snd hm) q)
                 = slot_view (deref (task_mem s) q)).
  { intros q Hne. rewrite (strip_slot_view _ _ q Hfr). unfold m1.
    now rewrite deref_assign_ne by congruence. }
  assert (Hvp : state (deref (snd hm) p) = TASK_STATE_BLOCKED
                /\ current_cpu (deref (snd hm) p)
                   = current_cpu (deref (task_mem s) p)).
  { pose proof (strip_slot_view _ _ p Hfr) as E. unfold slot_view in E.
    injection E as E1 E2. rewrite E1, E2. unfold m1.
    rewrite (deref_assign_eq _ _ _ _ Ht), (deref_lookup _ _ _ Ht).
    split; reflexivity. }
  destruct Hvp as [Hstp Hcpup].
  assert (Hsome : is_Some (snd hm !! p)).
  { apply (fmap_is_Some strip m1); [assumption|].
    unfold m1. apply assign_is_Some. eauto. }
  destruct Hsome as [t1 Ht1].
  rewrite Hcpup.
  destruct (task_slot s H p Hreg) as [Hc|(c0 & Hc & Hslot)]; rewrite Hc.
  - change (-1 >=? 0) with false. cbv iota.
    apply (slot_inv_update s _ p); cbn [cpu_queues all_tasks runnable_heap
      task_mem with_heap]; try assumption.
    + intros c q. split; [|tauto]. intros Hq. split; [assumption|].
      intros ->. destruct (slot_task s H c p Hq) as (_ & Hcc & _). lia.
    + tauto.
    + intros q Hne. split; [apply Hsub|]. intros Hq. now apply Hsup.
    + intros _. rewrite Hstp, Hcpup. split; [assumption|].
      split; discriminate.
  - assert (Hge : (Z.of_nat c0 >=? 0) = true) by (apply Z.geb_le; lia).
    rewrite Hge, Nat2Z.id.
    pose proof (lookup_lt_Some _ _ _ Hslot) as Hlt.
    apply (slot_inv_update s _ p); cbn [cpu_queues all_tasks runnable_heap
      task_mem with_heap with_task_mem with_cpu_queues]; try assumption.
    + intros c q. destruct (decide (c = c0)) as [->|Hne].
      * rewrite list_lookup_insert_eq by assumption. split.
        -- discriminate.
        -- intros [Hq Hnp]. congruence.
      * rewrite list_lookup_insert_ne by congruence.
        split; [|tauto]. intros Hq. split; [assumption|]. intros ->.
        destruct (slot_task s H c p Hq) as (_ & Hcc & _). lia.
    + tauto.
    + intros q Hne. split; [apply Hsub|]. intros Hq. now apply Hsup.
    + intros q Hne. rewrite deref_assign_ne by congruence. now apply Hv.
    + intros _. rewrite (deref_assign_eq _ _ _ _ Ht1).
      assert (E : state t1 = TASK_STATE_BLOCKED)
        by now rewrite <- (deref_lookup _ _ _ Ht1).
      cbn. rewrite E. split; [reflexivity|]. split; discriminate.
Qed.

Lemma slot_inv_exit s e :
  alloc_wf s -> sched_inv s -> slot_inv s ->
  slot_inv (snd (do_task_exit s e)).
Proof.
  intros Hal Hinv H. unfold do_task_exit, on_task.
  destruct (scheduler_find_task _ _) as [p|] eqn:Hfind; [|assumption].
  cbn [snd].
  set (m1 := assign (set_state TASK_STATE_EXITED) p (task_mem s)).
  set (s1 := with_task_mem m1 s).
  assert (Hfind1 : scheduler_find_task s1 (ev_task_id e) = Some p).
  { rewrite <- Hfind. unfold scheduler_find_task. cbn [all_tasks s1
      with_task_mem task_mem]. apply find_ext_elem. intros q _. f_equal.
    apply (proj_deref task_id). symmetry. now apply proj_assign. }
  destruct (scheduler_remove_task_found _ _ _ Hfind1) as (i & Hi & ->).
  cbn [snd]. cbn [all_tasks runnable_heap task_mem cpu_queues s1
                  with_task_mem] in *.
  assert (Hwf1 : heap_wf (runnable_heap s) m1).
  { apply (heap_wf_frame _ (task_mem s)); [|apply (inv_heap s Hinv)].
    unfold m1. now apply proj_assign. }
  destruct (heap_remove_if_queued_wf _ _ p Hwf1)
    as (_ & Hp & Hsub & Hsup & Hfr).
  cbv zeta in Hp, Hsub, Hsup, Hfr.
  set (hm := if heap_index (deref m1 p) >=? 0
             then heap_remove (runnable_heap s) m1 p
             else (runnable_heap s, m1)) in *.
  pose proof (swap_remove_perm _ _ _ Hi) as Hperm.
  assert (Hnd : p ∉ swap_remove 0%nat i (all_tasks s)).
  { pose proof (wf_nodup _ Hal) as Hnd. rewrite <- Hperm in Hnd.
    now apply NoDup_cons in Hnd as [Hn _]. }
  apply (slot_inv_update s _ p); cbn [cpu_queues all_tasks runnable_heap
    task_mem with_heap with_all_tasks with_cpu_queues]; try assumption.
  - intros c q. rewrite lookup_map.
    destruct (cpu_queues s !! c) as [[r|]|]; cbn;
      try (split; [discriminate|intros [? _]; discriminate]).
    destruct (Nat.eqb_spec r p) as [->|Hne]; split.
    + discriminate.
    + intros [E Hn]. congruence.
    + intros E. split; congruence.
    + tauto.
  - intros q Hne. split; intros Hq.
    + rewrite <- Hperm. now apply elem_of_cons; right.
    + rewrite <- Hperm in Hq.
      apply elem_of_cons in Hq as [|]; [contradiction|assumption].
  - intros q Hne. split; [apply Hsub|]. intros Hq. now apply Hsup.
  - intros q Hne. rewrite deref_delete_ne by assumption.
    rewrite (strip_slot_view _ _ q Hfr). unfold m1.
    now rewrite deref_assign_ne by congruence.
  - intros Hc. contradiction.
Qed.

Lemma slot_inv_create s e :
  alloc_wf s -> sched_inv s -> slot_inv s ->
  slot_inv (snd (do_task_create s e)).
Proof.
  intros Hal Hinv H. unfold do_task_create, alloc_task. cbn [snd].
  set (t := if ev_has_cpu_mask e then _ else _).
  set (p := next_task s).
  set (m1 := <[p := t]> (task_mem s)).
  set (s1 := with_alloc m1 (S p) s).
  assert (Hnreg : p ∉ all_tasks s).
  { intros Hp. apply (wf_registry _ Hal) in Hp. unfold p in Hp. lia. }
  assert (Ht : current_cpu t = -1 /\ state t = TASK_STATE_RUNNABLE).
  { unfold t. destruct (ev_has_cpu_mask e); split; reflexivity. }
  destruct Ht as [Htc Hts].
  assert (Hd : forall q, q <> p -> deref m1 q = deref (task_mem s) q).
  { intros q Hne. unfold deref, m1. now rewrite lookup_insert_ne. }
  assert (Hdp : deref m1 p = t).
  { unfold deref, m1. now rewrite lookup_insert_eq. }
  assert (Hoff : forall c q, cpu_queues s !! c = Some (Some q) -> q <> p).
  { intros c q Hc ->. now apply (slot_task s H) in Hc as (Hc & _). }
  unfold scheduler_add_task.
  destruct (Nat.leb_spec MAX_TASKS (length (all_tasks s1))) as [|Hroom].
  - cbn [snd]. apply (slot_inv_update s _ p); unfold s1;
      cbn [cpu_queues all_tasks runnable_heap task_mem with_alloc];
      try assumption; try tauto.
    + intros c q. split; [|tauto]. intros Hc. split; [assumption|eauto].
    + intros q Hne. now rewrite Hd.
  - change (task_mem (with_all_tasks (all_tasks s1 ++ [p]) s1)) with m1.
    rewrite Hdp.
    assert (Hr : is_runnable t = true) by now apply is_runnable_true.
    rewrite Hr. cbn [snd]. unfold reinsert, s1.
    cbn [runnable_heap task_mem with_all_tasks with_alloc].
    pose proof (heap_insert_frame strip strip_index (runnable_heap s) m1 p)
      as Hfr.
    pose proof (heap_insert_perm (runnable_heap s) m1 p) as Hperm.
    apply (slot_inv_update s _ p);
      cbn [cpu_queues all_tasks runnable_heap task_mem with_alloc
           with_heap with_all_tasks]; try assumption.
    + intros c q. split; [|tauto]. intros Hc. split; [assumption|eauto].
    + intros q Hne. rewrite elem_of_app, list_elem_of_singleton. tauto.
    + intros q Hne. rewrite Hperm, elem_of_cons. tauto.
    + intros q Hne. rewrite (strip_slot_view _ _ q Hfr). now rewrite Hd.
    + intros _. pose proof (strip_slot_view _ _ p Hfr) as E.
      unfold slot_view in E. injection E as E1 E2.
      rewrite E1, E2, Hdp, Hts, Htc.
      split; [reflexivity|]. split; [discriminate|].
      intros _. rewrite Hperm. now apply elem_of_cons; left.
Qed.

Lemma slot_inv_event s e :
  alloc_wf s -> sched_inv s -> slot_inv s ->
  slot_inv (snd (scheduler_process_event s e)).
Proof.
  intros Hal Hinv H. unfold scheduler_process_event.
  destruct (ev_action e).
  - assumption.
  - now apply slot_inv_create.
  - now apply slot_inv_exit.
  - now apply slot_inv_block.
  - now apply slot_inv_unblock.
  - now apply slot_inv_yield.
  - now apply slot_inv_setnice.
  - now apply slot_inv_set_affinity.
  - now apply slot_inv_cgroup_create.
  - now apply slot_inv_cgroup_modify.
  - now apply slot_inv_cgroup_delete.
  - now apply slot_inv_move_cgroup.
  - now apply slot_inv_cpu_burst.
Qed.

(** *** The selection loop *)

Lemma mark_assigned_length tasks b flags :
  length (mark_assigned tasks b flags) = length flags.
Proof.
  revert flags. induction tasks as [|p tasks IH]; intros [|a flags];
    cbn [mark_assigned]; try reflexivity.
  destruct (p =? b)%nat; cbn; [reflexivity|]. now rewrite IH.
Qed.

Lemma mark_assigned_lookup tasks b flags i p :
  NoDup tasks -> tasks !! i = Some p -> (i < length flags)%nat ->
  mark_assigned tasks b flags !! i
  = if decide (p = b) then Some true else flags !! i.
Proof.
  revert flags i. induction tasks as [|p0 tasks IH]; intros flags i Hnd Hi Hlt;
    [discriminate|].
  apply NoDup_cons in Hnd as [Hp0 Hnd].
  destruct flags as [|a flags]; [cbn in Hlt; lia|]. cbn [mark_assigned].
  destruct i as [|i]; cbn in Hi, Hlt.
  - injection Hi as ->.
    destruct (Nat.eqb_spec p b) as [->|Hne].
    + now rewrite decide_True.
    + now rewrite decide_False.
  - assert (Hne : p <> p0).
    { intros ->. apply Hp0. eapply list_elem_of_lookup_2; eauto. }
    destruct (Nat.eqb_spec p0 b) as [->|Hne0].
    + now rewrite decide_False.
    + cbn. apply IH; [assumption..|lia].
Qed.

Lemma assign_best_view prev cpu b s q :
  let t := deref (task_mem s) q in
  let t' := deref (task_mem (assign_best prev cpu b s)) q in
  (q <> b ->
     current_cpu t' = current_cpu t
     /\ (state t' = state t
         \/ (state t = TASK_STATE_RUNNING
             /\ state t' = TASK_STATE_RUNNABLE)))
  /\ (is_Some (task_mem s !! b) -> q = b ->
      current_cpu t' = Z.of_nat cpu /\ state t' = TASK_STATE_RUNNING).
Proof.
  cbv zeta. unfold assign_best.
  set (s1 := match prev with Some _ => _ | None => s end).
  assert (H1 : current_cpu (deref (task_mem s1) q)
               = current_cpu (deref (task_mem s) q)
               /\ (state (deref (task_mem s1) q) = state (deref (task_mem s) q)
                   \/ (state (deref (task_mem s) q) = TASK_STATE_RUNNING
                       /\ state (deref (task_mem s1) q)
                          = TASK_STATE_RUNNABLE))).
  { unfold s1. destruct prev as [pr|]; [|now auto].
    destruct (negb _); [|now auto].
    cbn [task_mem with_preemptions].
    destruct (is_running _) eqn:Er; [|now auto].
    cbn [task_mem with_task_mem]. apply is_running_true in Er.
    cbn [task_mem with_preemptions] in Er.
    destruct (decide (q = pr)) as [->|Hne].
    - destruct (task_mem s !! pr) as [t|] eqn:Ht.
      + rewrite (deref_assign_eq _ _ _ _ Ht). cbn.
        rewrite (deref_lookup _ _ _ Ht) in *. auto.
      + unfold deref, assign. rewrite lookup_alter_eq, Ht. cbn. auto.
    - rewrite deref_assign_ne by congruence. auto. }
  assert (Hd : dom (task_mem s1) = dom (task_mem s)).
  { unfold s1. destruct prev as [pr|]; [|reflexivity].
    destruct (negb _); [|reflexivity]. cbn [task_mem with_preemptions].
    destruct (is_running _); [|reflexivity]. apply dom_assign. }
  set (s2 := if _ && _ then _ else s1).
  assert (H2 : task_mem s2 = task_mem s1)
    by (unfold s2; destruct (_ && _); reflexivity).
  cbn [task_mem with_cpu_queues with_task_mem]. rewrite H2. split.
  - intros Hne. rewrite !deref_assign_ne by congruence. exact H1.
  - intros Hs ->. apply elem_of_dom in Hs. rewrite <- Hd in Hs.
    apply elem_of_dom in Hs as [t Ht].
    rewrite (deref_assign_eq _ _ _ _
               (lookup_assign_eq _ (set_current_cpu (Z.of_nat cpu)) _ _ Ht)).
    split; reflexivity.
Qed.

Lemma select_cpu_sel_inv prev tick_us a cpu :
  cpu_queues (sel_sched a) !! cpu = Some None ->
  sel_inv a -> sel_inv (select_cpu prev tick_us a cpu).
Proof.
  intros Hidle [K0 K1 K2 K3 K4 K5 K6 K7]. unfold select_cpu.
  pose proof (pick_task_for_cpu_queues (sel_sched a) cpu (sel_planned a)
                tick_us) as Hq.
  pose proof (f_equal fst (pick_task_for_cpu_registry (sel_sched a) cpu
                (sel_planned a) tick_us)) as Ha.
  pose proof (pick_task_for_cpu_frame slot_view ltac:(reflexivity)
                (sel_sched a) cpu (sel_planned a) tick_us) as Hfr.
  destruct (pick_task_for_cpu _ _ _ _) as [[best planned] s1] eqn:E.
  cbn [snd fst registry] in Hq, Ha, Hfr.
  pose proof (pick_task_for_cpu_perm _ _ _ _ _ _ _ E) as Hperm.
  destruct (pick_task_for_cpu_inv _ _ _ _ _ _ _ K0 E) as [Hinv1 Hb].
  assert (Hv : forall q, state (deref (task_mem s1) q)
                         = state (deref (task_mem (sel_sched a)) q)
                         /\ current_cpu (deref (task_mem s1) q)
                            = current_cpu (deref (task_mem (sel_sched a)) q))
    by (intros q; now apply slot_view_deref).
  assert (Hon1 : forall q, on_cpu s1 q <-> on_cpu (sel_sched a) q)
    by (intros q; now apply on_cpu_frame).
  assert (Hsub : forall q, q ∈ runnable_heap s1 ->
                           q ∈ runnable_heap (sel_sched a)).
  { intros q Hq1. rewrite Hperm. apply elem_of_app. now right. }
  destruct best as [b|]; cbn [sel_sched sel_assigned].
  - destruct (Hb b eq_refl) as (Hbin & Hbout & Hbreg).
    cbn [option_list app] in Hperm.
    set (s2 := assign_best (default None (prev !! cpu)) cpu b s1).
    pose proof (assign_best_queues (default None (prev !! cpu)) cpu b s1)
      as Hq2. fold s2 in Hq2. rewrite Hq in Hq2.
    pose proof (assign_best_heap (default None (prev !! cpu)) cpu b s1)
      as Hh2. fold s2 in Hh2.
    pose proof (f_equal fst (assign_best_registry
                  (default None (prev !! cpu)) cpu b s1)) as Ha2.
    cbn [fst registry] in Ha2. fold s2 in Ha2.
    pose proof (fun q => assign_best_view (default None (prev !! cpu))
                           cpu b s1 q) as Hv2.
    cbv zeta in Hv2. fold s2 in Hv2.
    assert (Hlt : (cpu < length (cpu_queues (sel_sched a)))%nat)
      by now apply lookup_lt_Some in Hidle.
    assert (Hbs : is_Some (task_mem s1 !! b))
      by now apply (inv_stored s1 Hinv1).
    assert (Hnotb : forall c q, cpu_queues (sel_sched a) !! c = Some (Some q)
                                -> q <> b /\ c <> cpu).
    { intros c q Hc. split.
      - intros ->. now apply K3 in Hc as (_ & _ & Hc & _).
      - intros ->. congruence. }
    assert (Hon2 : forall q, q <> b ->
                     on_cpu s2 q <-> on_cpu (sel_sched a) q).
    { intros q Hne. unfold on_cpu. rewrite Hq2. split; intros [c Hc].
      - destruct (decide (c = cpu)) as [->|Hc'].
        + rewrite list_lookup_insert_eq in Hc by assumption. congruence.
        + rewrite list_lookup_insert_ne in Hc by congruence. eauto.
      - exists c. destruct (Hnotb c q Hc) as [_ Hc'].
        now rewrite list_lookup_insert_ne by congruence. }
    assert (Honb : on_cpu s2 b).
    { exists cpu. rewrite Hq2. now apply list_lookup_insert_eq. }
    destruct (proj2 (Hv2 b) Hbs eq_refl) as [Hbc Hbst].
    split; cbn [sel_sched sel_assigned]; rewrite ?Ha2, ?Ha, ?Hh2.
    + now apply assign_best_inv.
    + assumption.
    + now rewrite mark_assigned_length.
    + intros c q Hc. rewrite Hq2 in Hc.
      destruct (decide (c = cpu)) as [->|Hc'].
      * rewrite list_lookup_insert_eq in Hc by assumption.
        injection Hc as <-. rewrite Hbc, Hbst. rewrite <- Ha. auto.
      * rewrite list_lookup_insert_ne in Hc by congruence.
        destruct (Hnotb c q Hc) as [Hne _].
        destruct (K3 c q Hc) as (H1 & H2 & H3 & H4).
        destruct (proj1 (Hv2 q) Hne) as [E1 E2].
        destruct (Hv q) as [E3 E4]. rewrite E1, E4.
        split; [assumption|]. split; [assumption|]. split; [auto|].
        rewrite E3 in E2. destruct E2 as [E2|[_ E2]]; rewrite E2; auto.
    + intros i q Hi.
      rewrite (mark_assigned_lookup _ b _ i q); [|assumption|assumption|].
      2:{ rewrite K2. eapply lookup_lt_Some; eauto. }
      destruct (decide (q = b)) as [->|Hne]; [tauto|].
      rewrite (Hon2 q Hne). now apply K4.
    + intros q Hreg Hst. destruct (decide (q = b)) as [->|Hne];
        [assumption|].
      apply Hon2; [assumption|]. apply K5; [assumption|].
      destruct (proj1 (Hv2 q) Hne) as [_ [E2|[_ E2]]]; [|congruence].
      destruct (Hv q) as [E3 _]. congruence.
    + intros q Hreg Hst. destruct (decide (q = b)) as [->|Hne];
        [now right|].
      destruct (Hv q) as [E3 _].
      destruct (proj1 (Hv2 q) Hne) as [_ [E2|[E2 _]]].
      * destruct (K6 q Hreg ltac:(congruence)) as [Hh|Hc].
        -- left. rewrite Hperm in Hh.
           apply elem_of_cons in Hh as [|]; [contradiction|assumption].
        -- right. now apply Hon2.
      * right. apply Hon2; [assumption|]. apply K5; [assumption|].
        congruence.
    + intros q Hreg Hoff Hst.
      assert (Hne : q <> b) by (intros ->; contradiction).
      destruct (Hv q) as [E3 E4].
      destruct (proj1 (Hv2 q) Hne) as [E1 [E2|[_ E2]]]; [|congruence].
      rewrite E1, E4. apply K7; [assumption| |congruence].
      intros Hc. apply Hoff. now apply Hon2.
  - cbn [option_list app] in Hperm.
    split; cbn [sel_sched sel_assigned]; rewrite ?Ha; try assumption.
    + intros c q Hc. rewrite Hq in Hc. destruct (Hv q) as [-> ->].
      destruct (K3 c q Hc) as (H1 & H2 & H3 & H4).
      repeat split; auto.
    + intros i q Hi. rewrite Hon1. now apply K4.
    + intros q Hreg Hst. destruct (Hv q) as [E1 _]. rewrite E1 in Hst.
      apply Hon1. now apply K5.
    + intros q Hreg Hst. destruct (Hv q) as [E1 _]. rewrite E1 in Hst.
      rewrite Hon1, <- Hperm. now apply K6.
    + intros q Hreg Hoff Hst. destruct (Hv q) as [E1 E2].
      rewrite E2. rewrite E1 in Hst. apply K7; [assumption| |assumption].
      intros Hc. apply Hoff. now apply Hon1.
Qed.

Lemma fold_select_sel_inv prev tick_us l a :
  NoDup l ->
  (forall c, c ∈ l -> cpu_queues (sel_sched a) !! c = Some None) ->
  sel_inv a -> sel_inv (fold_left (select_cpu prev tick_us) l a).
Proof.
  revert a. induction l as [|c l IH]; intros a Hnd Hidle H; [assumption|].
  apply NoDup_cons in Hnd as [Hc Hnd]. cbn [fold_left].
  apply IH; [assumption| |].
  - intros j Hj. rewrite select_cpu_queues_other.
    + apply Hidle, elem_of_cons. now right.
    + intros ->. contradiction.
  - apply select_cpu_sel_inv; [|assumption].
    apply Hidle, elem_of_cons. now left.
Qed.

(** *** The accounting loop and the rebuilt heap *)

Lemma tick_prepare_state s vtime p :
  sched_inv s -> slot_inv s -> p ∈ all_tasks s ->
  let st := state (deref (task_mem s) p) in
  let st' := state (deref (task_mem (tick_prepare s vtime)) p) in
  (st = TASK_STATE_RUNNING /\ st' = TASK_STATE_RUNNABLE)
  \/ (st <> TASK_STATE_RUNNING /\ st' = st).
Proof.
  intros Hinv H Hreg. cbv zeta. unfold tick_prepare.
  set (s1 := refresh_cgroup_periods (with_clock vtime 0 0 s) vtime).
  rewrite (strip_deref_state _ _ p
             (rebuild_runnable_heap_frame strip strip_index (account_all s1))).
  destruct (inv_stored s Hinv p Hreg) as [t Ht].
  rewrite (deref_lookup _ _ _ Ht).
  destruct (is_running t) eqn:Er.
  - apply is_running_true in Er. left. split; [assumption|].
    destruct (running_slot s H p Hreg) as [c Hc].
    { now rewrite (deref_lookup _ _ _ Ht). }
    unfold deref.
    now rewrite (account_all_running s1 c p t Hc Ht Er).
  - assert (Hst : state t <> TASK_STATE_RUNNING).
    { intros E. apply is_running_true in E. congruence. }
    right. split; [assumption|]. unfold deref, account_all.
    now rewrite (fold_account_not_running _ s1 p t Ht Hst).
Qed.

Lemma tick_prepare_sel_inv s vtime :
  NoDup (all_tasks s) -> sched_inv s -> slot_inv s ->
  sel_inv (mkSel (tick_prepare s vtime) []
                 (replicate (length (all_tasks (tick_prepare s vtime))) false)
                 []).
Proof.
  intros Hnd Hinv H.
  pose proof (tick_prepare_all_tasks s vtime) as Ha.
  pose proof (tick_prepare_cpu_count s vtime) as Hn.
  assert (Hidle : forall p, ~ on_cpu (tick_prepare s vtime) p).
  { intros p [c Hc]. pose proof (lookup_lt_Some _ _ _ Hc) as Hlt.
    rewrite tick_prepare_idle in Hc; [discriminate|].
    unfold cpu_count in *. lia. }
  pose proof (tick_prepare_frame current_cpu ltac:(reflexivity)
                ltac:(reflexivity) ltac:(reflexivity) s vtime
                ltac:(reflexivity)) as Hcpu.
  split; cbn [sel_sched sel_assigned]; rewrite ?Ha.
  - now apply sched_inv_tick_prepare.
  - assumption.
  - apply length_replicate.
  - intros c p Hc. exfalso. apply (Hidle p). now exists c.
  - intros i p Hi. split.
    + intros Hf. apply lookup_replicate in Hf as [Hf _]. discriminate.
    + intros Hc. now apply Hidle in Hc.
  - intros p Hreg Hst.
    destruct (tick_prepare_state s vtime p Hinv H Hreg) as [[_ E]|[E1 E2]];
      cbv zeta in *; congruence.
  - intros p Hreg Hst. left. unfold tick_prepare.
    apply rebuild_runnable_heap_members. split.
    + unfold account_all. now rewrite fold_account_all_tasks.
    + rewrite <- Hst. symmetry. apply strip_deref_state.
      apply rebuild_runnable_heap_frame, strip_index.
  - intros p Hreg _ Hst.
    replace (current_cpu (deref (task_mem (tick_prepare s vtime)) p))
      with (current_cpu (deref (task_mem s) p))
      by (apply (proj_deref current_cpu); now symmetry).
    destruct (tick_prepare_state s vtime p Hinv H Hreg) as [[_ E]|[E1 E2]];
      cbv zeta in *; [congruence|].
    destruct (task_slot s H p Hreg) as [Hc|(c & _ & Hc)]; [assumption|].
    destruct (slot_task s H c p Hc) as (_ & _ & _ & [E|E]); congruence.
Qed.

(** *** The last loop of the tick *)

Lemma clear_unassigned_other tasks flags (m : gmap nat Task) p :
  p ∉ tasks -> deref (clear_unassigned tasks flags m) p = deref m p.
Proof.
  revert flags m. induction tasks as [|q tasks IH]; intros flags m Hp;
    [reflexivity|].
  apply not_elem_of_cons in Hp as [Hne Hp].
  destruct flags as [|a flags]; [reflexivity|]. cbn [clear_unassigned].
  rewrite IH by assumption.
  destruct (_ && _); [|reflexivity]. now rewrite deref_assign_ne by congruence.
Qed.

Lemma clear_unassigned_spec tasks flags (m : gmap nat Task) i p f :
  NoDup tasks -> tasks !! i = Some p -> flags !! i = Some f ->
  is_Some (m !! p) ->
  current_cpu (deref (clear_unassigned tasks flags m) p)
  = if negb f && is_runnable (deref m p) then -1
    else current_cpu (deref m p).
Proof.
  revert flags m i. induction tasks as [|q tasks IH];
    intros flags m i Hnd Hi Hf Hs; [discriminate|].
  apply NoDup_cons in Hnd as [Hq Hnd].
  destruct flags as [|a flags]; [discriminate|]. cbn [clear_unassigned].
  destruct i as [|i]; cbn in Hi, Hf.
  - injection Hi as ->. injection Hf as ->.
    rewrite clear_unassigned_other by assumption.
    destruct (_ && _); [|reflexivity].
    destruct Hs as [t Ht]. now rewrite (deref_assign_eq _ _ _ _ Ht).
  - assert (Hne : p <> q).
    { intros ->. apply Hq. eapply list_elem_of_lookup_2; eauto. }
    assert (Hd : deref (if negb a && is_runnable (deref m q)
                        then assign (set_current_cpu (-1)) q m else m) p
                 = deref m p).
    { destruct (_ && _); [|reflexivity].
      now rewrite deref_assign_ne by congruence. }
    rewrite (IH flags _ i Hnd Hi Hf), Hd; [reflexivity|].
    destruct (_ && _); [|assumption]. now apply assign_is_Some.
Qed.

Lemma slot_inv_tick s vtime :
  NoDup (all_tasks s) -> sched_inv s -> slot_inv s ->
  slot_inv (snd (scheduler_tick s vtime)).
Proof.
  intros Hnd Hinv H. unfold scheduler_tick. cbn [snd].
  set (a := tick_select _ _).
  assert (K : sel_inv a).
  { unfold a, tick_select. apply fold_select_sel_inv.
    - apply NoDup_seq.
    - intros c Hc. apply elem_of_seq in Hc. cbn [sel_sched].
      apply tick_prepare_idle. rewrite tick_prepare_cpu_count in Hc. lia.
    - now apply tick_prepare_sel_inv. }
  destruct K as [K0 K1 K2 K3 K4 K5 K6 K7].
  set (s3 := sel_sched a) in *.
  set (m4 := clear_unassigned (all_tasks s3) (sel_assigned a) (task_mem s3)).
  assert (Hst : forall p, state (deref m4 p) = state (deref (task_mem s3) p)).
  { intros p. apply (proj_deref state). symmetry.
    apply clear_unassigned_frame. reflexivity. }
  assert (Hcpu : forall i p f,
            all_tasks s3 !! i = Some p -> sel_assigned a !! i = Some f ->
            current_cpu (deref m4 p)
            = if negb f && is_runnable (deref (task_mem s3) p) then -1
              else current_cpu (deref (task_mem s3) p)).
  { intros i p f Hi Hf. apply (clear_unassigned_spec _ _ _ i); try assumption.
    apply (inv_stored s3 K0). eapply list_elem_of_lookup_2; eauto. }
  split; unfold on_cpu; cbn [cpu_queues all_tasks runnable_heap task_mem
                             with_task_mem]; fold m4.
  - intros c p Hc. destruct (K3 c p Hc) as (H1 & H2 & H3 & H4).
    rewrite Hst. split; [assumption|]. split; [|auto].
    apply list_elem_of_lookup_1 in H1 as [i Hi].
    assert (Hf : sel_assigned a !! i = Some true).
    { apply (K4 i p Hi). now exists c. }
    now rewrite (Hcpu i p true Hi Hf).
  - intros p Hreg. apply list_elem_of_lookup_1 in Hreg as [i Hi].
    pose proof (list_elem_of_lookup_2 _ _ _ Hi) as Hreg.
    destruct (lookup_lt_is_Some_2 (sel_assigned a) i) as [f Hf].
    { rewrite K2. eapply lookup_lt_Some; eauto. }
    rewrite (Hcpu i p f Hi Hf). destruct f; cbn [negb andb].
    + right. destruct (proj1 (K4 i p Hi) Hf) as [c Hc].
      exists c. split; [|assumption]. now apply K3 in Hc as (_ & Hc & _).
    + destruct (is_runnable _) eqn:Er; [now left|]. left.
      apply K7; [assumption| |].
      * intros Hon. apply (K4 i p Hi) in Hon. congruence.
      * intros E. apply is_runnable_true in E. congruence.
  - intros p Hreg Hs. rewrite Hst in Hs. now apply K5.
  - intros p Hreg Hs. rewrite Hst in Hs. now apply K6.
Qed.

(** The invariants of the slots hold in every reachable state. *)
Lemma reachable_slot_inv s : reachable s -> slot_inv s.
Proof.
  induction 1 as [ncpu q|s e Hr IH|s vtime Hr IH].
  - apply slot_inv_init.
  - apply slot_inv_event; [now apply reachable_alloc_wf| |assumption].
    now apply reachable_sched_inv.
  - apply slot_inv_tick; [| |assumption].
    + apply (wf_nodup _ (reachable_alloc_wf _ Hr)).
    + now apply reachable_sched_inv.
Qed.

(** ** The bounds of the vruntimes: [get_max_vruntime] *)

Lemma fold_max_bound (m : gmap nat Task) l max0 :
  not_nan max0 = true ->
  let step := fun max_vr p =>
                let t := deref m p in
                if (is_runnable t || is_running t) && dgt (vruntime t) max_vr
                then vruntime t else max_vr in
  let r := fold_left step l max0 in
  not_nan r = true
  /\ dlt r max0 = false
  /\ forall p, p ∈ l ->
       is_runnable (deref m p) || is_running (deref m p) = true ->
       dgt (vruntime (deref m p)) r = false.
Proof.
  cbv zeta. revert max0. induction l as [|q l IH]; intros max0 Hnan.
  - cbn. split; [assumption|]. split; [apply dlt_irrefl|].
    intros p Hp. now apply elem_of_nil in Hp.
  - cbn [fold_left].
    set (max1 := if _ && _ then vruntime (deref m q) else max0).
    assert (H1 : not_nan max1 = true
                 /\ dlt max1 max0 = false
                 /\ (is_runnable (deref m q) || is_running (deref m q) = true
                     -> dgt (vruntime (deref m q)) max1 = false)).
    { unfold max1.
      destruct (is_runnable (deref m q) || is_running (deref m q));
        cbn [andb].
      - destruct (dgt (vruntime (deref m q)) max0) eqn:E.
        + unfold dgt in E. fold (dlt max0 (vruntime (deref m q))) in E.
          split; [now apply dlt_not_nan in E|].
          split; [now apply dlt_asym|]. intros _. apply dlt_irrefl.
        + split; [assumption|]. split; [apply dlt_irrefl|auto].
      - split; [assumption|]. split; [apply dlt_irrefl|discriminate]. }
    destruct H1 as (Hn1 & Hle1 & Hq).
    destruct (IH max1 Hn1) as (Hn & Hle & Hall).
    split; [assumption|]. split.
    + now apply (dle_trans max0 max1).
    + intros p Hp Hact. apply elem_of_cons in Hp as [->|Hp]; [|auto].
      unfold dgt. fold (dlt (fold_left
        (fun max_vr p => if (is_runnable (deref m p) || is_running (deref m p))
                            && dgt (vruntime (deref m p)) max_vr
                         then vruntime (deref m p) else max_vr) l max1)
        (vruntime (deref m q))).
      apply (dle_trans _ max1); [assumption| |assumption].
      exact (Hq Hact).
Qed.

Lemma get_max_vruntime_bound s :
  not_nan (get_max_vruntime s) = true
  /\ dlt (get_max_vruntime s) 0 = false
  /\ forall p, p ∈ all_tasks s ->
       is_runnable (deref (task_mem s) p)
       || is_running (deref (task_mem s) p) = true ->
       dgt (vruntime (deref (task_mem s) p)) (get_max_vruntime s) = false.
Proof.
  unfold get_max_vruntime.
  apply (fold_max_bound (task_mem s) (all_tasks s) 0%float). reflexivity.
Qed.

(** ** What the task events do to the task they name *)

Lemma strip_deref (m m' : gmap nat Task) q :
  strip <$> m' = strip <$> m -> strip (deref m' q) = strip (deref m q).
Proof. intros H. exact (proj_deref strip m m' q (eq_sym H)). Qed.

Lemma scheduler_tick_skips s vtime p :
  state (deref (task_mem s) p) <> TASK_STATE_RUNNABLE ->
  state (deref (task_mem s) p) <> TASK_STATE_RUNNING ->
  forall c, cpu_queues (snd (scheduler_tick s vtime)) !! c <> Some (Some p).
Proof.
  intros H1 H2 c Hc.
  apply scheduler_tick_placed_state in Hc as [_ [H|H]]; contradiction.
Qed.

Lemma do_task_block_effect s e p :
  sched_inv s -> scheduler_find_task s (ev_task_id e) = Some p ->
  let s' := snd (do_task_block s e) in
  state (deref (task_mem s') p) = TASK_STATE_BLOCKED
  /\ all_tasks s' = all_tasks s
  /\ (forall q, q <> p ->
        strip (deref (task_mem s') q) = strip (deref (task_mem s) q))
  /\ vruntime <$> task_mem s' = vruntime <$> task_mem s.
Proof.
  intros Hinv Hfind. cbv zeta. unfold do_task_block, on_task.
  rewrite Hfind. cbn [snd].
  apply scheduler_find_task_elem in Hfind as [Hreg _].
  destruct (inv_stored s Hinv p Hreg) as [t Ht].
  set (m1 := assign (set_state TASK_STATE_BLOCKED) p (task_mem s)).
  set (hm := if heap_index (deref m1 p) >=? 0
             then heap_remove (runnable_heap s) m1 p
             else (runnable_heap s, m1)).
  assert (Hfr : forall {X} (proj : Task -> X),
            (forall i t, proj (set_heap_index i t) = proj t) ->
            proj <$> snd hm = proj <$> m1).
  { intros X proj Hp. unfold hm. destruct (_ >=? 0); [|reflexivity].
    now apply heap_remove_frame. }
  cbn [task_mem with_heap].
  set (m2 := snd hm).
  assert (Hst : state (deref m2 p) = TASK_STATE_BLOCKED).
  { unfold m2. rewrite (strip_deref_state _ _ p (Hfr _ strip strip_index)).
    unfold m1. now rewrite (deref_assign_eq _ _ _ _ Ht). }
  assert (Hq : forall q, q <> p -> strip (deref m2 q)
                                   = strip (deref (task_mem s) q)).
  { intros q Hne. unfold m2.
    rewrite (strip_deref _ _ q (Hfr _ strip strip_index)).
    unfold m1. now rewrite deref_assign_ne by congruence. }
  assert (Hvr : vruntime <$> m2 = vruntime <$> task_mem s).
  { unfold m2. rewrite (Hfr _ vruntime) by reflexivity.
    now apply proj_assign. }
  destruct (current_cpu (deref m2 p) >=? 0);
    cbn [task_mem all_tasks with_heap with_task_mem with_cpu_queues].
  - split; [|split; [reflexivity|split]].
    + rewrite <- Hst. apply (proj_deref state). symmetry.
      now apply proj_assign.
    + intros q Hne. rewrite deref_assign_ne by congruence. now apply Hq.
    + rewrite proj_assign by reflexivity. exact Hvr.
  - auto.
Qed.

Lemma do_task_exit_effect s e p :
  alloc_wf s -> sched_inv s ->
  scheduler_find_task s (ev_task_id e) = Some p ->
  let s' := snd (do_task_exit s e) in
  (p ∉ all_tasks s')
  /\ task_mem s' !! p = None
  /\ p :: all_tasks s' ≡ₚ all_tasks s
  /\ (forall q, q <> p ->
        strip (deref (task_mem s') q) = strip (deref (task_mem s) q)).
Proof.
  intros Hal Hinv Hfind. cbv zeta. unfold do_task_exit, on_task.
  rewrite Hfind. cbn [snd].
  set (m1 := assign (set_state TASK_STATE_EXITED) p (task_mem s)).
  set (s1 := with_task_mem m1 s).
  assert (Hfind1 : scheduler_find_task s1 (ev_task_id e) = Some p).
  { rewrite <- Hfind. unfold scheduler_find_task. cbn [all_tasks s1
      with_task_mem task_mem]. apply find_ext_elem. intros q _. f_equal.
    apply (proj_deref task_id). symmetry. now apply proj_assign. }
  destruct (scheduler_remove_task_found _ _ _ Hfind1) as (i & Hi & ->).
  cbn [snd]. cbn [all_tasks runnable_heap task_mem cpu_queues s1
                  with_task_mem with_all_tasks with_cpu_queues with_heap] in *.
  set (hm := if heap_index (deref m1 p) >=? 0
             then heap_remove (runnable_heap s) m1 p
             else (runnable_heap s, m1)).
  assert (Hfr : strip <$> snd hm = strip <$> m1).
  { unfold hm. destruct (_ >=? 0); [|reflexivity].
    apply heap_remove_frame, strip_index. }
  pose proof (swap_remove_perm _ _ _ Hi) as Hperm.
  split; [|split; [|split]].
  - pose proof (wf_nodup _ Hal) as Hnd. rewrite <- Hperm in Hnd.
    now apply NoDup_cons in Hnd as [Hn _].
  - apply lookup_delete_eq.
  - exact Hperm.
  - intros q Hne. rewrite deref_delete_ne by assumption.
    rewrite (strip_deref _ _ q Hfr). unfold m1.
    now rewrite deref_assign_ne by congruence.
Qed.

Lemma do_task_unblock_effect s e p :
  sched_inv s -> scheduler_find_task s (ev_task_id e) = Some p ->
  state (deref (task_mem s) p) = TASK_STATE_BLOCKED ->
  let s' := snd (do_task_unblock s e) in
  state (deref (task_mem s') p) = TASK_STATE_RUNNABLE
  /\ runnable_heap s' ≡ₚ p :: runnable_heap s
  /\ cpu_queues s' = cpu_queues s
  /\ all_tasks s' = all_tasks s
  /\ (forall q, q <> p ->
        strip (deref (task_mem s') q) = strip (deref (task_mem s) q)).
Proof.
  intros Hinv Hfind Hb. cbv zeta. unfold do_task_unblock, on_task.
  rewrite Hfind. cbn [snd].
  apply scheduler_find_task_elem in Hfind as [Hreg _].
  destruct (inv_stored s Hinv p Hreg) as [t Ht].
  assert (Hb' : is_blocked (deref (task_mem s) p) = true)
    by now apply TaskState_eqb_eq.
  rewrite Hb'.
  set (m1 := assign (set_state TASK_STATE_RUNNABLE) p (task_mem s)).
  set (s1 := with_task_mem m1 s).
  set (s2 := if dlt _ _ then _ else s1).
  assert (Hh2 : runnable_heap s2 = runnable_heap s)
    by (unfold s2; destruct (dlt _ _); reflexivity).
  assert (Hq2 : cpu_queues s2 = cpu_queues s)
    by (unfold s2; destruct (dlt _ _); reflexivity).
  assert (Ha2 : all_tasks s2 = all_tasks s)
    by (unfold s2; destruct (dlt _ _); reflexivity).
  assert (Hm2 : forall q, q <> p ->
                  deref (task_mem s2) q = deref (task_mem s) q).
  { intros q Hne. unfold s2, s1.
    destruct (dlt _ _); cbn [task_mem with_task_mem]; unfold m1;
      now rewrite !deref_assign_ne by congruence. }
  assert (Hst2 : state (deref (task_mem s2) p) = TASK_STATE_RUNNABLE).
  { assert (Hm1 : state (deref m1 p) = TASK_STATE_RUNNABLE).
    { unfold m1. now rewrite (deref_assign_eq _ _ _ _ Ht). }
    unfold s2, s1. destruct (dlt _ _); cbn [task_mem with_task_mem];
      [|exact Hm1].
    rewrite <- Hm1. apply (proj_deref state). symmetry.
    now apply proj_assign. }
  unfold reinsert.
  pose proof (heap_insert_frame strip strip_index (runnable_heap s2)
                (task_mem s2) p) as Hfr.
  pose proof (heap_insert_perm (runnable_heap s2) (task_mem s2) p) as Hperm.
  cbn [runnable_heap task_mem cpu_queues all_tasks with_heap].
  split; [|split; [|split; [|split]]]; try assumption.
  - now rewrite (strip_deref_state _ _ p Hfr).
  - now rewrite Hperm, Hh2.
  - intros q Hne. rewrite (strip_deref _ _ q Hfr). now rewrite Hm2.
Qed.

Lemma heap_update_not_queued h (m : gmap nat Task) p :
  (heap_index (deref m p) >=? 0) = false -> heap_update h m p = (h, m).
Proof.
  intros H. unfold heap_update, heap_index_valid.
  assert (E : (heap_index (deref m p) <? 0) = true).
  { apply Z.ltb_lt. destruct (Z.geb_spec (heap_index (deref m p)) 0);
      [discriminate|lia]. }
  now rewrite E.
Qed.

Lemma do_task_yield_effect s e p :
  sched_inv s -> scheduler_find_task s (ev_task_id e) = Some p ->
  let s' := snd (do_task_yield s e) in
  vruntime (deref (task_mem s') p) = get_max_vruntime s
  /\ (forall q, q <> p ->
        strip (deref (task_mem s') q) = strip (deref (task_mem s) q))
  /\ slot_view <$> task_mem s' = slot_view <$> task_mem s
  /\ cpu_queues s' = cpu_queues s
  /\ all_tasks s' = all_tasks s
  /\ runnable_heap s' ≡ₚ runnable_heap s
  /\ (heap_ordered (runnable_heap s) (task_mem s) ->
      keys_not_nan (runnable_heap s) (task_mem s) ->
      heap_ordered (runnable_heap s') (task_mem s')).
Proof.
  intros Hinv Hfind. cbv zeta. unfold do_task_yield, on_task.
  rewrite Hfind. cbn [snd].
  apply scheduler_find_task_elem in Hfind as [Hreg _].
  destruct (inv_stored s Hinv p Hreg) as [t Ht].
  set (m1 := assign (set_vruntime (get_max_vruntime s)) p (task_mem s)).
  set (s1 := with_task_mem m1 s).
  match goal with |- context [if heap_index ?x >=? 0 then ?u else ?v] =>
    assert (E : (if heap_index x >=? 0 then u else v)
                = with_heap (fst (heap_update (runnable_heap s) m1 p))
                            (snd (heap_update (runnable_heap s) m1 p)) s1);
    [|rewrite E; clear E]
  end.
  { cbn [task_mem runnable_heap s1 with_task_mem].
    destruct (heap_index (deref m1 p) >=? 0) eqn:Ei; [reflexivity|].
    rewrite (heap_update_not_queued _ _ _ Ei). now destruct s. }
  cbn [task_mem runnable_heap cpu_queues all_tasks with_heap s1
       with_task_mem].
  pose proof (heap_update_frame strip strip_index (runnable_heap s) m1 p)
    as Hfr.
  split; [|split; [|split; [|split; [|split; [|split]]]]]; try reflexivity.
  - rewrite (strip_vruntime _ _ (strip_deref _ _ p Hfr)). unfold m1.
    now rewrite (deref_assign_eq _ _ _ _ Ht).
  - intros q Hne. rewrite (strip_deref _ _ q Hfr). unfold m1.
    now rewrite deref_assign_ne by congruence.
  - rewrite (heap_update_frame slot_view) by reflexivity.
    unfold m1. now apply proj_assign.
  - apply heap_update_perm.
  - intros Hord Hnn.
    apply heap_update_ordered_aux; [apply (inv_heap s Hinv)|assumption..].
Qed.

Lemma do_task_create_effect s e :
  alloc_wf s ->
  let p := next_task s in
  let s' := snd (do_task_create s e) in
  (forall q, q <> p ->
     strip (deref (task_mem s') q) = strip (deref (task_mem s) q))
  /\ vruntime (deref (task_mem s') p) = get_max_vruntime s
  /\ state (deref (task_mem s') p) = TASK_STATE_RUNNABLE
  /\ current_cpu (deref (task_mem s') p) = -1
  /\ cpu_queues s' = cpu_queues s
  /\ ((length (all_tasks s) < MAX_TASKS)%nat ->
      all_tasks s' = all_tasks s ++ [p]
      /\ runnable_heap s' ≡ₚ p :: runnable_heap s).
Proof.
  intros Hal. cbv zeta. unfold do_task_create, alloc_task. cbn [snd].
  set (t := if ev_has_cpu_mask e then _ else _).
  set (p := next_task s).
  set (m1 := <[p := t]> (task_mem s)).
  set (s1 := with_alloc m1 (S p) s).
  assert (Ht : current_cpu t = -1 /\ state t = TASK_STATE_RUNNABLE
               /\ vruntime t = get_max_vruntime s).
  { unfold t. destruct (ev_has_cpu_mask e); repeat split; reflexivity. }
  destruct Ht as (Htc & Hts & Htv).
  assert (Hd : forall q, q <> p -> deref m1 q = deref (task_mem s) q).
  { intros q Hne. unfold deref, m1. now rewrite lookup_insert_ne. }
  assert (Hdp : deref m1 p = t).
  { unfold deref, m1. now rewrite lookup_insert_eq. }
  pose proof (scheduler_add_task_frame strip strip_index s1 p) as Hfr.
  pose proof (scheduler_add_task_cpu_queues s1 p) as Hq.
  set (s' := snd (scheduler_add_task s1 p)) in *.
  cbn [task_mem s1 with_alloc] in Hfr.
  pose proof (strip_deref _ _ p Hfr) as Hp. rewrite Hdp in Hp.
  split; [|split; [|split; [|split; [|split]]]].
  - intros q Hne. rewrite (strip_deref _ _ q Hfr). now rewrite Hd.
  - rewrite <- Htv. exact (f_equal vruntime Hp).
  - rewrite <- Hts. exact (f_equal state Hp).
  - rewrite <- Htc. exact (f_equal current_cpu Hp).
  - exact Hq.
  - intros Hroom. unfold s', scheduler_add_task.
    destruct (Nat.leb_spec MAX_TASKS (length (all_tasks s1))) as [Hfull|_].
    { unfold s1 in Hfull. cbn [all_tasks with_alloc] in Hfull. lia. }
    change (task_mem (with_all_tasks (all_tasks s1 ++ [p]) s1)) with m1.
    rewrite Hdp.
    assert (Hr : is_runnable t = true) by now apply is_runnable_true.
    rewrite Hr. cbn [snd]. unfold reinsert, s1.
    cbn [runnable_heap task_mem all_tasks with_all_tasks with_alloc
         with_heap].
    split; [reflexivity|]. apply heap_insert_perm.
Qed.

(** ** Idle CPUs *)

Lemma pick_loop_rejects fuel s cpu planned tick_us deferred sel deferred' s' :
  (forall q, q ∈ deferred ->
     eligible s cpu planned tick_us (deref (task_mem s) q) = false) ->
  pick_loop fuel s cpu planned tick_us deferred = (sel, deferred', s') ->
  (length (runnable_heap s) <= fuel)%nat ->
  (forall q, q ∈ deferred' ->
     eligible s cpu planned tick_us (deref (task_mem s) q) = false)
  /\ (sel = None -> runnable_heap s' = []).
Proof.
  revert s deferred. induction fuel as [|fuel IH];
    intros s deferred Hdef; cbn [pick_loop].
  - intros H Hf. injection H as <- <- <-. split; [assumption|].
    intros _. destruct (runnable_heap s); [reflexivity|cbn in Hf; lia].
  - pose proof (heap_extract_min_frame strip strip_index
                  (runnable_heap s) (task_mem s)) as Hfr.
    destruct (heap_extract_min (runnable_heap s) (task_mem s))
      as [[c|] [h m]] eqn:E; cbn [fst snd] in *.
    2:{ intros H Hf. injection H as <- <- <-. split; [assumption|].
        intros _. now apply heap_extract_min_None in E. }
    pose proof (heap_extract_min_length _ _ _ _ E) as Hlen.
    cbn [fst] in Hlen.
    assert (Hel : forall q,
               eligible (with_heap h m s) cpu planned tick_us (deref m q)
               = eligible s cpu planned tick_us (deref (task_mem s) q)).
    { intros q. apply eligible_ext; [reflexivity..|].
      apply (proj_deref strip). now symmetry. }
    assert (Hrec : forall d,
      (forall q, q ∈ d ->
         eligible s cpu planned tick_us (deref (task_mem s) q) = false) ->
      pick_loop fuel (with_heap h m s) cpu planned tick_us d
      = (sel, deferred', s') ->
      (S (length h) <= S fuel)%nat ->
      (forall q, q ∈ deferred' ->
         eligible s cpu planned tick_us (deref (task_mem s) q) = false)
      /\ (sel = None -> runnable_heap s' = [])).
    { intros d Hd H Hf.
      apply IH in H; cbn [runnable_heap task_mem with_heap]; [| |lia].
      2:{ intros q Hq. rewrite Hel. now apply Hd. }
      destruct H as (H1 & H2). split; [|assumption].
      intros q Hq. rewrite <- Hel. now apply H1. }
    assert (Hdc : eligible s cpu planned tick_us (deref (task_mem s) c)
                  = false ->
                  forall q, q ∈ deferred ++ [c] ->
                    eligible s cpu planned tick_us (deref (task_mem s) q)
                    = false).
    { intros Hc q Hq. apply elem_of_app in Hq as [Hq|Hq]; [now apply Hdef|].
      apply list_elem_of_singleton in Hq as ->. exact Hc. }
    pose proof (Hel c) as Helc. unfold eligible at 1 in Helc.
    destruct (can_task_run_on_cpu (with_heap h m s) (deref m c)
                                  (Z.of_nat cpu)) eqn:E1; cbn [negb].
    2:{ intros H Hf. apply (Hrec _ (Hdc (eq_sym Helc)) H). lia. }
    destruct (quota_admits (with_heap h m s) planned tick_us (deref m c))
      eqn:E2; cbn [negb].
    2:{ intros H Hf. apply (Hrec _ (Hdc (eq_sym Helc)) H). lia. }
    intros H Hf. injection H as <- <- <-. split; [assumption|discriminate].
Qed.

Lemma pick_task_for_cpu_none s cpu planned tick_us planned' s' :
  pick_task_for_cpu s cpu planned tick_us = (None, planned', s') ->
  forall q, q ∈ runnable_heap s ->
    eligible s cpu planned tick_us (deref (task_mem s) q) = false.
Proof.
  unfold pick_task_for_cpu.
  destruct (pick_loop _ _ _ _ _ _) as [[sel deferred] s1] eqn:E.
  intros H. injection H as -> _ _.
  pose proof (pick_loop_perm _ _ _ _ _ _ _ _ _ E) as Hperm.
  apply pick_loop_rejects in E as [Hdef Hnone]; [| |lia].
  2:{ intros q Hq. now apply elem_of_nil in Hq. }
  intros q Hq. cbn [app option_list] in Hperm.
  rewrite Hperm, (Hnone eq_refl), app_nil_r in Hq. now apply Hdef.
Qed.

Lemma quota_admits_false s planned tick_us t :
  quota_admits s planned tick_us t = false -> waits_for_quota s t = true.
Proof.
  unfold quota_admits, waits_for_quota, cgroup_has_quota.
  destruct (nonempty _); [|discriminate]. cbn [andb].
  destruct (scheduler_find_cgroup _ _) as [[k cg]|]; [|discriminate].
  destruct (Z.ltb_spec (cpu_quota_us cg) 0) as [Hlt|Hge].
  - cbn [negb]. destruct (Z.geb_spec (cpu_quota_us cg) 0); [lia|discriminate].
  - intros _. apply Z.geb_le. lia.
Qed.

Lemma waits_for_quota_frame s s' p :
  cgroups s' = cgroups s ->
  (fun t => (cgroup_id t, cpu_affinity t)) <$> task_mem s'
  = (fun t => (cgroup_id t, cpu_affinity t)) <$> task_mem s ->
  waits_for_quota s' (deref (task_mem s') p)
  = waits_for_quota s (deref (task_mem s) p).
Proof.
  intros Hc Hm.
  pose proof (proj_deref (fun t => (cgroup_id t, cpu_affinity t))
                _ _ p (eq_sym Hm)) as H.
  cbv beta in H. injection H as H1 H2.
  unfold waits_for_quota, scheduler_find_cgroup. now rewrite Hc, H1.
Qed.

Lemma select_cpu_heap_sub prev tick_us a cpu q :
  q ∈ runnable_heap (sel_sched (select_cpu prev tick_us a cpu)) ->
  q ∈ runnable_heap (sel_sched a).
Proof.
  unfold select_cpu.
  destruct (pick_task_for_cpu _ _ _ _) as [[sel planned] s1] eqn:E.
  apply pick_task_for_cpu_perm in E. intros Hq. rewrite E.
  apply elem_of_app. right.
  destruct sel as [b|]; cbn [sel_sched] in Hq; [|assumption].
  now rewrite assign_best_heap in Hq.
Qed.

Lemma fold_select_heap_sub prev tick_us l a q :
  q ∈ runnable_heap (sel_sched (fold_left (select_cpu prev tick_us) l a)) ->
  q ∈ runnable_heap (sel_sched a).
Proof.
  revert a. induction l as [|c l IH]; intros a Hq; [assumption|].
  cbn [fold_left] in Hq. apply IH in Hq. eapply select_cpu_heap_sub; eauto.
Qed.

Lemma select_cpu_idle prev tick_us a cpu :
  cpu_queues (sel_sched (select_cpu prev tick_us a cpu)) !! cpu = Some None ->
  forall q, q ∈ runnable_heap (sel_sched a) ->
    can_task_run_on_cpu (sel_sched a) (deref (task_mem (sel_sched a)) q)
                        (Z.of_nat cpu) = true ->
    waits_for_quota (sel_sched a) (deref (task_mem (sel_sched a)) q) = true.
Proof.
  unfold select_cpu.
  pose proof (pick_task_for_cpu_queues (sel_sched a) cpu (sel_planned a)
                tick_us) as Hq.
  destruct (pick_task_for_cpu _ _ _ _) as [[[b|] planned] s1] eqn:E;
    cbn [snd sel_sched] in *.
  - rewrite assign_best_queues. intros H.
    pose proof (lookup_lt_Some _ _ _ H) as Hlt.
    rewrite length_insert in Hlt.
    rewrite list_lookup_insert_eq in H by assumption. discriminate.
  - intros _ q Hin Hrun.
    pose proof (pick_task_for_cpu_none _ _ _ _ _ _ E q Hin) as Hel.
    unfold eligible in Hel. rewrite Hrun in Hel. cbn [andb] in Hel.
    now apply quota_admits_false in Hel.
Qed.

Lemma fold_select_idle prev tick_us l a c q :
  NoDup l -> c ∈ l ->
  let a' := fold_left (select_cpu prev tick_us) l a in
  cpu_queues (sel_sched a') !! c = Some None ->
  q ∈ runnable_heap (sel_sched a') ->
  can_task_run_on_cpu (sel_sched a') (deref (task_mem (sel_sched a')) q)
                      (Z.of_nat c) = true ->
  waits_for_quota (sel_sched a') (deref (task_mem (sel_sched a')) q) = true.
Proof.
  cbv zeta. revert a. induction l as [|j l IH]; intros a Hnd Hc;
    [now apply elem_of_nil in Hc|].
  apply NoDup_cons in Hnd as [Hj Hnd]. cbn [fold_left].
  apply elem_of_cons in Hc as [->|Hc]; [|now apply IH].
  set (a1 := select_cpu prev tick_us a j).
  set (a' := fold_left (select_cpu prev tick_us) l a1).
  assert (Hcg : cgroups (sel_sched a') = cgroups (sel_sched a)).
  { unfold a', a1. now rewrite fold_select_cgroups, select_cpu_cgroups. }
  assert (Hfr : (fun t => (cgroup_id t, cpu_affinity t))
                  <$> task_mem (sel_sched a')
                = (fun t => (cgroup_id t, cpu_affinity t))
                    <$> task_mem (sel_sched a)).
  { unfold a', a1.
    rewrite fold_select_frame by reflexivity.
    apply select_cpu_frame; reflexivity. }
  intros Hidle Hq Hrun.
  rewrite (waits_for_quota_frame _ _ q Hcg Hfr).
  rewrite (can_task_run_on_cpu_frame _ _ q _ Hcg Hfr) in Hrun.
  apply (select_cpu_idle prev tick_us a j); [|..|assumption].
  - unfold a' in Hidle. now rewrite fold_select_queues_other in Hidle.
  - eapply select_cpu_heap_sub, fold_select_heap_sub. exact Hq.
Qed.

Lemma select_cpu_cpu_count prev tick_us a cpu :
  cpu_count (sel_sched (select_cpu prev tick_us a cpu))
  = cpu_count (sel_sched a).
Proof.
  unfold select_cpu, cpu_count.
  pose proof (pick_task_for_cpu_queues (sel_sched a) cpu (sel_planned a)
                tick_us) as Hq.
  destruct (pick_task_for_cpu _ _ _ _) as [[[b|] planned] s1];
    cbn [snd sel_sched] in *.
  - now rewrite assign_best_queues, length_insert, Hq.
  - now rewrite Hq.
Qed.

Lemma fold_select_cpu_count prev tick_us l a :
  cpu_count (sel_sched (fold_left (select_cpu prev tick_us) l a))
  = cpu_count (sel_sched a).
Proof.
  revert a. induction l as [|c l IH]; intros a; [reflexivity|].
  cbn [fold_left]. now rewrite IH, select_cpu_cpu_count.
Qed.

Lemma scheduler_tick_idle s vtime c q :
  let s' := snd (scheduler_tick s vtime) in
  cpu_queues s' !! c = Some None ->
  q ∈ runnable_heap s' ->
  can_task_run_on_cpu s' (deref (task_mem s') q) (Z.of_nat c) = true ->
  waits_for_quota s' (deref (task_mem s') q) = true.
Proof.
  cbv zeta. unfold scheduler_tick. cbn [snd].
  set (s2 := tick_prepare s vtime).
  set (a := tick_select (cpu_queues s) s2).
  set (s4 := with_task_mem _ (sel_sched a)).
  assert (Hcg : cgroups s4 = cgroups (sel_sched a)) by reflexivity.
  assert (Hfr : (fun t => (cgroup_id t, cpu_affinity t)) <$> task_mem s4
                = (fun t => (cgroup_id t, cpu_affinity t))
                    <$> task_mem (sel_sched a)).
  { unfold s4. cbn [task_mem with_task_mem].
    apply clear_unassigned_frame. reflexivity. }
  intros Hidle Hq Hrun.
  rewrite (waits_for_quota_frame _ _ q Hcg Hfr).
  rewrite (can_task_run_on_cpu_frame _ _ q _ Hcg Hfr) in Hrun.
  unfold s4 in Hidle, Hq. cbn [cpu_queues runnable_heap with_task_mem] in *.
  unfold a, tick_select in *.
  apply (fold_select_idle _ _ _ _ c q); try assumption.
  - apply NoDup_seq.
  - apply elem_of_seq. apply lookup_lt_Some in Hidle.
    fold (cpu_count (sel_sched
            (fold_left (select_cpu (cpu_queues s) (tick_runtime s2))
               (seq 0 (cpu_count s2))
               (mkSel s2 [] (replicate (length (all_tasks s2)) false) []))))
      in Hidle.
    rewrite fold_select_cpu_count in Hidle. cbn [sel_sched] in Hidle. lia.
Qed.

(** ** The countdown of a CPU burst *)

Lemma accounted_burst s t :
  burst_remaining (accounted s t)
  = (if is_burst t && (burst_remaining t >? 0) then burst_remaining t - 1
     else burst_remaining t)
  /\ is_burst (accounted s t)
     = (if is_burst t && (burst_remaining t >? 0)
        then negb (burst_remaining t - 1 =? 0) else is_burst t).
Proof.
  unfold accounted. destruct (is_burst t) eqn:E; cbn [negb andb].
  - rewrite E. cbn [andb]. destruct (burst_remaining t >? 0); cbn; auto.
  - cbn [is_burst set_vruntime]. rewrite E. cbn. auto.
Qed.

Lemma scheduler_tick_burst_fields s vtime p :
  sched_inv s -> slot_inv s -> p ∈ all_tasks s ->
  let t := deref (task_mem s) p in
  let t' := deref (task_mem (snd (scheduler_tick s vtime))) p in
  let counts := is_running t && is_burst t && (burst_remaining t >? 0) in
  burst_remaining t'
  = (if counts then burst_remaining t - 1 else burst_remaining t)
  /\ is_burst t'
     = (if counts then negb (burst_remaining t - 1 =? 0) else is_burst t).
Proof.
  intros Hinv H Hreg. cbv zeta.
  set (s0 := refresh_cgroup_periods (with_clock vtime 0 0 s) vtime).
  destruct (inv_stored s Hinv p Hreg) as [t Ht].
  rewrite (deref_lookup _ _ _ Ht).
  pose proof (scheduler_tick_frame
                (fun t => (burst_remaining t, is_burst t))
                ltac:(reflexivity) ltac:(reflexivity) ltac:(reflexivity)
                s vtime) as Hfr.
  fold s0 in Hfr.
  pose proof (proj_deref (fun t => (burst_remaining t, is_burst t)) _ _ p
                (eq_sym Hfr)) as E.
  cbv beta in E.
  pose proof (f_equal fst E) as E1. pose proof (f_equal snd E) as E2.
  cbn [fst snd] in E1, E2. rewrite E1, E2.
  destruct (is_running t) eqn:Er; cbn [andb].
  - apply is_running_true in Er.
    destruct (running_slot s H p Hreg) as [c Hc].
    { now rewrite (deref_lookup _ _ _ Ht). }
    unfold deref. rewrite (account_all_running s0 c p t Hc Ht Er).
    apply accounted_burst.
  - assert (Hst : state t <> TASK_STATE_RUNNING).
    { intros Es. apply is_running_true in Es. congruence. }
    unfold deref, account_all.
    rewrite (fold_account_not_running _ s0 p t Ht Hst). auto.
Qed.

(** ** The deletion of a cgroup *)

Lemma insert_head_perm {A} (l : list A) i x y :
  l !! i = Some x -> x :: <[i := y]> l ≡ₚ y :: l.
Proof.
  revert i. induction l as [|z l IH]; intros [|i] Hi; try discriminate.
  - injection Hi as ->. cbn. apply Permutation_swap.
  - cbn in Hi. cbn [insert list_insert]. change (list_insert i y l) with (<[i := y]> l).
    rewrite Permutation_swap, (IH i Hi). apply Permutation_swap.
Qed.

Lemma swap_remove_perm_gen {A} (d : A) (l : list A) i x :
  l !! i = Some x -> x :: swap_remove d i l ≡ₚ l.
Proof.
  intros Hi. pose proof (lookup_lt_Some _ _ _ Hi) as Hlt.
  unfold swap_remove.
  set (n := (length l - 1)%nat).
  destruct (lookup_lt_is_Some_2 l n) as [y Hy]; [unfold n; lia|].
  assert (Hl : l = take n l ++ [y]).
  { rewrite <- (take_drop n l) at 1. f_equal.
    rewrite (drop_S l y n) by assumption.
    rewrite drop_ge by (unfold n; lia). reflexivity. }
  rewrite (nth_lookup_Some _ _ d _ Hy).
  destruct (decide (i < n)%nat) as [Hin|Hlast].
  - rewrite take_insert_lt by assumption.
    rewrite Hl at 2.
    rewrite (insert_head_perm (take n l) i x y).
    + apply Permutation_cons_append.
    + now rewrite lookup_take_lt.
  - assert (i = n) as -> by (unfold n in *; lia).
    rewrite take_insert_ge by lia.
    assert (x = y) as -> by congruence.
    rewrite Hl at 2. apply Permutation_cons_append.
Qed.

Lemma reparent_idem id t : reparent id (reparent id t) = reparent id t.
Proof.
  unfold reparent. destruct (String.eqb (cgroup_id t) id) eqn:E.
  - cbn [cgroup_id set_cgroup_id]. destruct (String.eqb "0" id); reflexivity.
  - now rewrite E.
Qed.

Lemma fold_reparent_deref id l (m : gmap nat Task) p :
  is_Some (m !! p) ->
  deref (fold_left (fun m q => assign (reparent id) q m) l m) p
  = if decide (p ∈ l) then reparent id (deref m p) else deref m p.
Proof.
  revert m. induction l as [|q l IH]; intros m Hs; cbn [fold_left].
  - rewrite decide_False; [reflexivity|]. apply not_elem_of_nil.
  - rewrite IH by now apply assign_is_Some.
    destruct (decide (q = p)) as [->|Hne].
    + destruct Hs as [t Ht]. rewrite (deref_assign_eq _ _ _ _ Ht).
      rewrite (deref_lookup _ _ _ Ht), reparent_idem.
      rewrite (decide_True (P := p ∈ p :: l)) by (apply elem_of_cons; auto).
      now destruct (decide (p ∈ l)).
    + rewrite deref_assign_ne by assumption.
      destruct (decide (p ∈ l)) as [Hin|Hout].
      * rewrite decide_True; [reflexivity|]. apply elem_of_cons. auto.
      * rewrite decide_False; [reflexivity|].
        intros Hc. apply elem_of_cons in Hc as [->|]; contradiction.
Qed.

Lemma do_cgroup_delete_effect s e k c :
  sched_inv s ->
  scheduler_find_cgroup s (ev_cgroup_id e) = Some (k, c) ->
  let s' := snd (do_cgroup_delete s e) in
  cg_id c = ev_cgroup_id e
  /\ c :: cgroups s' ≡ₚ cgroups s
  /\ (forall p, p ∈ all_tasks s ->
        deref (task_mem s') p
        = reparent (ev_cgroup_id e) (deref (task_mem s) p))
  /\ all_tasks s' = all_tasks s
  /\ runnable_heap s' = runnable_heap s
  /\ cpu_queues s' = cpu_queues s.
Proof.
  intros Hinv Hfind. cbv zeta.
  unfold do_cgroup_delete, scheduler_remove_cgroup. rewrite Hfind.
  cbn [snd cgroups task_mem all_tasks runnable_heap cpu_queues
       with_cgroups with_task_mem].
  apply scheduler_find_cgroup_Some in Hfind as [Hk Hid].
  split; [assumption|]. split; [now apply swap_remove_perm_gen|].
  split; [|auto].
  intros p Hp. rewrite fold_reparent_deref by now apply (inv_stored s Hinv).
  now rewrite decide_True.
Qed.

(** ** The names of the actions *)

Lemma json_action_to_string_parse a :
  json_parse_action (Some (json_action_to_string a)) = a.
Proof. destruct a; reflexivity. Qed.

Lemma json_parse_action_to_string str :
  json_parse_action (Some str) <> EVENT_INVALID ->
  json_action_to_string (json_parse_action (Some str)) = str.
Proof.
  unfold json_parse_action, action_map. cbn [List.find fst snd].
  repeat match goal with
         | |- context [String.eqb str ?x] =>
           destruct (String.eqb_spec str x) as [->|_]; [reflexivity|]
         end.
  intros H. now contradiction H.
Qed.

(** ** The weights of the nice values *)

Lemma sched_prio_to_weight_antitone :
  forallb (fun i =>
     forallb (fun j =>
        negb (i <=? j)%nat
        || (nth j sched_prio_to_weight 0 <=? nth i sched_prio_to_weight 0))
       (seq 0 40))
    (seq 0 40) = true.
Proof. vm_compute. reflexivity. Qed.

Lemma nice_to_weight_antitone a b :
  a <= b -> nice_to_weight b <= nice_to_weight a.
Proof.
  intros Hab. unfold nice_to_weight.
  pose proof (clamp_nice_range a) as Ha.
  pose proof (clamp_nice_range b) as Hb.
  assert (Hc : clamp_nice a <= clamp_nice b).
  { rewrite !clamp_nice_spec. lia. }
  unfold NICE_MIN, NICE_MAX in *.
  set (i := Z.to_nat (clamp_nice a - -20)).
  set (j := Z.to_nat (clamp_nice b - -20)).
  pose proof sched_prio_to_weight_antitone as H.
  rewrite forallb_forall in H.
  specialize (H i ltac:(apply in_seq; unfold i; lia)).
  rewrite forallb_forall in H.
  specialize (H j ltac:(apply in_seq; unfold j; lia)).
  destruct (Nat.leb_spec i j) as [_|Hlt]; [|unfold i, j in Hlt; lia].
  cbn [negb orb] in H. now apply Z.leb_le in H.
Qed.

(** ** The bounds of the tables of [pick_task_for_cpu] *)

Lemma bump_planned_length planned k d planned' :
  bump_planned planned k d = Some planned' ->
  length planned' = length planned.
Proof.
  revert planned'. induction planned as [|[c r] rest IH]; intros planned';
    cbn [bump_planned]; [discriminate|].
  destruct (c =? k)%nat.
  - intros H. injection H as <-. reflexivity.
  - destruct (bump_planned rest k d) as [rest'|]; [|discriminate].
    intros H. injection H as <-. cbn. now rewrite (IH rest').
Qed.

Lemma add_planned_length planned k d :
  (length planned <= MAX_CGROUPS)%nat ->
  (length (add_planned_runtime_for_cgroup planned k d) <= MAX_CGROUPS)%nat.
Proof.
  intros H. unfold add_planned_runtime_for_cgroup.
  destruct (bump_planned planned k d) as [planned'|] eqn:E.
  - now rewrite (bump_planned_length _ _ _ _ E).
  - destruct (Nat.ltb_spec (length planned) MAX_CGROUPS); [|assumption].
    rewrite length_app. cbn. lia.
Qed.

Lemma pick_task_for_cpu_tables s cpu planned tick_us :
  sched_inv s -> (length planned <= MAX_CGROUPS)%nat ->
  (length (snd (fst (pick_loop (length (runnable_heap s)) s cpu planned
                               tick_us []))) <= MAX_TASKS)%nat
  /\ (length (snd (fst (pick_task_for_cpu s cpu planned tick_us)))
      <= MAX_CGROUPS)%nat.
Proof.
  intros Hinv Hpl. split.
  - destruct (pick_loop _ _ _ _ _ _) as [[sel deferred] s1] eqn:E.
    cbn [fst snd]. apply pick_loop_perm in E. cbn [app] in E.
    pose proof (Permutation_length E) as Hlen.
    assert (Hh : (length (runnable_heap s) <= length (all_tasks s))%nat).
    { apply submseteq_length, NoDup_submseteq.
      - apply (heap_wf_NoDup _ _ (inv_heap s Hinv)).
      - intros p Hp. now apply (inv_queued s Hinv). }
    pose proof (inv_tasks s Hinv). rewrite !length_app in Hlen. lia.
  - unfold pick_task_for_cpu.
    destruct (pick_loop _ _ _ _ _ _) as [[sel deferred] s1].
    cbn [fst snd]. unfold plan_selected.
    destruct sel as [p|]; [|assumption].
    destruct (nonempty _); [|assumption].
    destruct (scheduler_find_cgroup _ _) as [[k cg]|]; [|assumption].
    destruct (_ >=? 0); [|assumption]. now apply add_planned_length.
Qed.

(** ** The lists of the decision record *)

Lemma fill_meta_partition s :
  (forall p, p ∈ all_tasks s ->
     state (deref (task_mem s) p) <> TASK_STATE_EXITED) ->
  (length (runnable_tasks (fill_meta s))
   + length (blocked_tasks (fill_meta s)) = length (all_tasks s))%nat.
Proof.
  unfold fill_meta. cbn [runnable_tasks blocked_tasks].
  rewrite !length_map. induction (all_tasks s) as [|p l IH]; intros Hlive;
    [reflexivity|].
  cbn [map]. rewrite !filter_cons.
  assert (Hp : state (deref (task_mem s) p) <> TASK_STATE_EXITED)
    by (apply Hlive, elem_of_cons; auto).
  assert (IH' := IH (fun q Hq => Hlive q ltac:(apply elem_of_cons; auto))).
  unfold is_runnable, is_running, is_blocked in *.
  destruct (state (deref (task_mem s) p)); [| | |now contradiction Hp];
    cbn; repeat case_decide; try tauto; cbn; lia.
Qed.

Lemma fill_meta_runnable s p :
  p ∈ all_tasks s ->
  state (deref (task_mem s) p) = TASK_STATE_RUNNING
  \/ state (deref (task_mem s) p) = TASK_STATE_RUNNABLE ->
  task_id (deref (task_mem s) p) ∈ runnable_tasks (fill_meta s).
Proof.
  intros Hp Hst. unfold fill_meta. cbn [runnable_tasks].
  apply list_elem_of_In, in_map, list_elem_of_In.
  apply list_elem_of_filter. split.
  - unfold is_runnable, is_running. destruct Hst as [-> | ->]; exact I.
  - apply list_elem_of_In, in_map, list_elem_of_In. exact Hp.
Qed.

(** ** The framing of the messages *)

Lemma room_step bs n :
  room bs n -> Z.of_nat n + 1 < MAX_MESSAGE_SIZE ->
  (Z.of_nat n >=? bs - 1) && (bs >=? MAX_MESSAGE_SIZE) = false
  /\ room (next_size bs n) (S n).
Proof.
  intros [Hn (k & Hk & ->)] Hlt. unfold next_size.
  unfold MAX_MESSAGE_SIZE, INITIAL_BUFFER_SIZE in *.
  assert (Hpos : 0 < 2 ^ k) by (apply Z.pow_pos_nonneg; lia).
  destruct (Z.geb_spec (Z.of_nat n) (4096 * 2 ^ k - 1)) as [Hge|Hlt'].
  - assert (Hk' : k < 12).
    { destruct (Z.lt_ge_cases k 12) as [|Hge12]; [assumption|].
      assert (k = 12) as -> by lia. change (2 ^ 12) with 4096 in *. lia. }
    split.
    + cbn [andb]. rewrite Z.geb_leb. apply Z.leb_gt.
      assert (2 ^ k <= 2 ^ 11) by (apply Z.pow_le_mono_r; lia).
      change (2 ^ 11) with 2048 in *. lia.
    + split; [lia|]. exists (k + 1). split; [lia|].
      unfold INITIAL_BUFFER_SIZE. rewrite Z.pow_add_r by lia.
      change (2 ^ 1) with 2. lia.
  - split; [reflexivity|]. split; [lia|]. exists k. auto.
Qed.

Lemma room_initial : room INITIAL_BUFFER_SIZE 0.
Proof.
  split; [unfold INITIAL_BUFFER_SIZE; lia|]. exists 0. split; [lia|].
  reflexivity.
Qed.

Lemma nth_previous (buf : list ascii) c d :
  nth (Z.to_nat (Z.of_nat (length buf) + 1 - 2)) (buf ++ [c]) d
  = nth (length buf - 1) buf d \/ length buf = 0%nat.
Proof.
  destruct (decide (length buf = 0%nat)) as [|Hne]; [now right|left].
  replace (Z.to_nat (Z.of_nat (length buf) + 1 - 2))
    with (length buf - 1)%nat by lia.
  apply app_nth1. lia.
Qed.

(** One iteration on a byte that changes no flag. *)
Lemma receive_loop_skip c rest buf bs br ins fs :
  room bs (length buf) ->
  Z.of_nat (length buf) + 1 < MAX_MESSAGE_SIZE ->
  Ascii.eqb c quote_char = false ->
  (ins = false ->
   Ascii.eqb c open_brace = false /\ Ascii.eqb c close_brace = false) ->
  receive_loop (c :: rest) (mkFraming buf bs br ins fs)
  = receive_loop rest
      (mkFraming (buf ++ [c]) (next_size bs (length buf)) br ins fs).
Proof.
  intros Hroom Hlt Hq Hb.
  destruct (room_step _ _ Hroom Hlt) as [Hno _].
  cbn [receive_loop fr_buffer fr_buffer_size fr_brace_count fr_in_string
       fr_found_start].
  rewrite Hno, Hq. cbn [andb]. fold (next_size bs (length buf)).
  destruct ins; cbn [negb]; [reflexivity|].
  destruct (Hb eq_refl) as [-> ->]. reflexivity.
Qed.

(** One iteration on a quote that no backslash precedes. *)
Lemma receive_loop_quote rest buf bs br ins fs :
  room bs (length buf) ->
  Z.of_nat (length buf) + 1 < MAX_MESSAGE_SIZE ->
  Forall (fun c => Ascii.eqb c backslash_char = false) buf ->
  receive_loop (quote_char :: rest) (mkFraming buf bs br ins fs)
  = receive_loop rest
      (mkFraming (buf ++ [quote_char]) (next_size bs (length buf)) br
                 (negb ins) fs).
Proof.
  intros Hroom Hlt Hbuf.
  destruct (room_step _ _ Hroom Hlt) as [Hno _].
  cbn [receive_loop fr_buffer fr_buffer_size fr_brace_count fr_in_string
       fr_found_start].
  rewrite Hno. fold (next_size bs (length buf)).
  assert (E : (Z.of_nat (length buf) + 1 <? 2)
              || negb (Ascii.eqb
                         (nth (Z.to_nat (Z.of_nat (length buf) + 1 - 2))
                              (buf ++ [quote_char]) Ascii.zero)
                         backslash_char) = true).
  { destruct (nth_previous buf quote_char Ascii.zero) as [->|Hz].
    - destruct (decide (length buf = 0%nat)) as [Hz|Hnz].
      + rewrite Hz. reflexivity.
      + rewrite Forall_forall in Hbuf.
        rewrite (Hbuf (nth (length buf - 1) buf Ascii.zero)).
        * apply orb_true_r.
        * apply list_elem_of_In, nth_In. lia.
    - rewrite Hz. reflexivity. }
  rewrite E. reflexivity.
Qed.

Lemma receive_loop_open rest buf bs br fs :
  room bs (length buf) ->
  Z.of_nat (length buf) + 1 < MAX_MESSAGE_SIZE ->
  receive_loop (open_brace :: rest) (mkFraming buf bs br false fs)
  = receive_loop rest
      (mkFraming (buf ++ [open_brace]) (next_size bs (length buf)) (br + 1)
                 false true).
Proof.
  intros Hroom Hlt.
  destruct (room_step _ _ Hroom Hlt) as [Hno _].
  cbn [receive_loop fr_buffer fr_buffer_size fr_brace_count fr_in_string
       fr_found_start].
  rewrite Hno. reflexivity.
Qed.

Lemma receive_loop_close rest buf bs br fs :
  room bs (length buf) ->
  Z.of_nat (length buf) + 1 < MAX_MESSAGE_SIZE ->
  receive_loop (close_brace :: rest) (mkFraming buf bs br false fs)
  = if fs && (br - 1 =? 0) then (Some (buf ++ [close_brace]), rest)
    else receive_loop rest
           (mkFraming (buf ++ [close_brace]) (next_size bs (length buf))
                      (br - 1) false fs).
Proof.
  intros Hroom Hlt.
  destruct (room_step _ _ Hroom Hlt) as [Hno _].
  cbn [receive_loop fr_buffer fr_buffer_size fr_brace_count fr_in_string
       fr_found_start].
  rewrite Hno. reflexivity.
Qed.

Lemma plain_byte_spec c :
  plain_byte c = true ->
  Ascii.eqb c quote_char = false /\ Ascii.eqb c backslash_char = false
  /\ Ascii.eqb c open_brace = false /\ Ascii.eqb c close_brace = false.
Proof.
  unfold plain_byte. intros H.
  apply andb_prop in H as [H H4]. apply andb_prop in H as [H H3].
  apply andb_prop in H as [H1 H2].
  repeat split; now apply negb_true_iff.
Qed.

Lemma string_byte_spec c :
  string_byte c = true ->
  Ascii.eqb c quote_char = false /\ Ascii.eqb c backslash_char = false.
Proof.
  unfold string_byte. intros H. apply andb_prop in H as [H1 H2].
  split; now apply negb_true_iff.
Qed.

(** The bytes of a string literal, and leading plain bytes. *)
Lemma receive_loop_bytes w rest buf bs br ins fs :
  Forall (fun c => Ascii.eqb c quote_char = false
                   /\ Ascii.eqb c backslash_char = false
                   /\ (ins = false ->
                       Ascii.eqb c open_brace = false
                       /\ Ascii.eqb c close_brace = false)) w ->
  room bs (length buf) ->
  Z.of_nat (length buf) + Z.of_nat (length w) < MAX_MESSAGE_SIZE ->
  exists bs',
    room bs' (length (buf ++ w))
    /\ receive_loop (w ++ rest) (mkFraming buf bs br ins fs)
       = receive_loop rest (mkFraming (buf ++ w) bs' br ins fs).
Proof.
  revert buf bs. induction w as [|c w IH]; intros buf bs Hw Hroom Hlt.
  - exists bs. rewrite app_nil_r. auto.
  - apply Forall_cons in Hw as [(Hq & _ & Hb) Hw]. cbn [length] in Hlt.
    destruct (room_step _ _ Hroom ltac:(lia)) as [_ Hroom'].
    destruct (IH (buf ++ [c]) (next_size bs (length buf)) Hw) as (bs' & H1 & H2).
    { rewrite length_app. cbn. now rewrite Nat.add_1_r. }
    { rewrite length_app. cbn [length]. lia. }
    exists bs'. rewrite <- app_assoc in H1, H2. cbn [app] in *.
    split; [assumption|]. rewrite <- H2.
    apply receive_loop_skip; [assumption|lia|assumption..].
Qed.

Lemma balanced_no_backslash w :
  balanced w -> Forall (fun c => Ascii.eqb c backslash_char = false) w.
Proof.
  induction 1 as [|c w Hc _ IH|body w Hb _ IH|v w _ IHv _ IHw].
  - constructor.
  - constructor; [|assumption]. now apply plain_byte_spec in Hc.
  - constructor; [reflexivity|]. apply Forall_app. split.
    + rewrite forallb_forall in Hb. apply Forall_forall. intros c Hc.
      apply list_elem_of_In in Hc. now apply Hb, string_byte_spec in Hc.
    + constructor; [reflexivity|assumption].
  - constructor; [reflexivity|]. apply Forall_app. split; [assumption|].
    constructor; [reflexivity|assumption].
Qed.

(** A balanced text inside an object leaves the flags and the depth as
    they were. *)
Lemma receive_loop_balanced w :
  balanced w ->
  forall rest buf bs d,
    1 <= d ->
    Forall (fun c => Ascii.eqb c backslash_char = false) buf ->
    room bs (length buf) ->
    Z.of_nat (length buf) + Z.of_nat (length w) < MAX_MESSAGE_SIZE ->
    exists bs',
      room bs' (length (buf ++ w))
      /\ receive_loop (w ++ rest) (mkFraming buf bs d false true)
         = receive_loop rest (mkFraming (buf ++ w) bs' d false true).
Proof.
  induction 1 as [|c w Hc Hw IH|body w Hb Hw IH|v w Hv IHv Hw IHw];
    intros rest buf bs d Hd Hbuf Hroom Hlt.
  - exists bs. rewrite app_nil_r. auto.
  - cbn [length] in Hlt.
    destruct (plain_byte_spec c Hc) as (Hq & Hbs & Ho & Hcl).
    destruct (room_step _ _ Hroom ltac:(lia)) as [_ Hroom'].
    destruct (IH rest (buf ++ [c]) (next_size bs (length buf)) d Hd)
      as (bs' & H1 & H2).
    { apply Forall_app. split; [assumption|]. now constructor. }
    { rewrite length_app. cbn. now rewrite Nat.add_1_r. }
    { rewrite length_app. cbn [length]. lia. }
    exists bs'. rewrite <- app_assoc in H1, H2. cbn [app] in *.
    split; [assumption|]. rewrite <- H2.
    apply receive_loop_skip; [assumption|lia|assumption|auto].
  - cbn [length] in Hlt. rewrite length_app in Hlt. cbn [length] in Hlt.
    destruct (room_step _ _ Hroom ltac:(lia)) as [_ Hroom1].
    assert (Hbody : Forall (fun c => Ascii.eqb c quote_char = false
                              /\ Ascii.eqb c backslash_char = false
                              /\ (true = false ->
                                  Ascii.eqb c open_brace = false
                                  /\ Ascii.eqb c close_brace = false)) body).
    { rewrite forallb_forall in Hb. apply Forall_forall. intros c Hc.
      apply list_elem_of_In in Hc.
      destruct (string_byte_spec c (Hb c Hc)) as [E1 E2].
      split; [assumption|]. split; [assumption|discriminate]. }
    destruct (receive_loop_bytes body (quote_char :: w ++ rest)
                (buf ++ [quote_char]) (next_size bs (length buf)) d true true
                Hbody) as (bs1 & Hr1 & E1).
    { rewrite length_app. cbn. now rewrite Nat.add_1_r. }
    { rewrite length_app. cbn [length]. lia. }
    assert (Hbuf1 : Forall (fun c => Ascii.eqb c backslash_char = false)
                           ((buf ++ [quote_char]) ++ body)).
    { apply Forall_app. split.
      - apply Forall_app. split; [assumption|]. now constructor.
      - eapply Forall_impl; [exact Hbody|]. intros c (_ & H & _). exact H. }
    assert (Hlen1 : Z.of_nat (length ((buf ++ [quote_char]) ++ body))
                    = Z.of_nat (length buf) + 1 + Z.of_nat (length body)).
    { rewrite !length_app. cbn [length]. lia. }
    destruct (room_step _ _ Hr1 ltac:(lia)) as [_ Hroom2].
    destruct (IH rest (((buf ++ [quote_char]) ++ body) ++ [quote_char])
                (next_size bs1 (length ((buf ++ [quote_char]) ++ body))) d Hd)
      as (bs' & H1 & H2).
    { apply Forall_app. split; [assumption|]. now constructor. }
    { rewrite (length_app _ [quote_char]). cbn [length].
      now rewrite Nat.add_1_r. }
    { rewrite (length_app _ [quote_char]). cbn [length]. lia. }
    exists bs'.
    replace (buf ++ quote_char :: body ++ quote_char :: w)
      with ((((buf ++ [quote_char]) ++ body) ++ [quote_char]) ++ w)
      by (rewrite <- !app_assoc; reflexivity).
    split; [assumption|]. rewrite <- H2.
    cbn [app]. rewrite receive_loop_quote by (assumption || lia).
    cbn [negb]. rewrite <- app_assoc. cbn [app]. rewrite E1.
    rewrite receive_loop_quote by (assumption || lia). reflexivity.
  - cbn [length] in Hlt. rewrite length_app in Hlt. cbn [length] in Hlt.
    destruct (room_step _ _ Hroom ltac:(lia)) as [_ Hroom1].
    destruct (IHv (close_brace :: w ++ rest) (buf ++ [open_brace])
                (next_size bs (length buf)) (d + 1) ltac:(lia))
      as (bs1 & Hr1 & E1).
    { apply Forall_app. split; [assumption|]. now constructor. }
    { rewrite length_app. cbn. now rewrite Nat.add_1_r. }
    { rewrite length_app. cbn [length]. lia. }
    assert (Hbuf1 : Forall (fun c => Ascii.eqb c backslash_char = false)
                           ((buf ++ [open_brace]) ++ v)).
    { apply Forall_app. split.
      - apply Forall_app. split; [assumption|]. now constructor.
      - now apply balanced_no_backslash. }
    assert (Hlen1 : Z.of_nat (length ((buf ++ [open_brace]) ++ v))
                    = Z.of_nat (length buf) + 1 + Z.of_nat (length v)).
    { rewrite !length_app. cbn [length]. lia. }
    destruct (room_step _ _ Hr1 ltac:(lia)) as [_ Hroom2].
    destruct (IHw rest (((buf ++ [open_brace]) ++ v) ++ [close_brace])
                (next_size bs1 (length ((buf ++ [open_brace]) ++ v))) d Hd)
      as (bs' & H1 & H2).
    { apply Forall_app. split; [assumption|]. now constructor. }
    { rewrite (length_app _ [close_brace]). cbn [length].
      now rewrite Nat.add_1_r. }
    { rewrite (length_app _ [close_brace]). cbn [length]. lia. }
    exists bs'.
    replace (buf ++ open_brace :: v ++ close_brace :: w)
      with ((((buf ++ [open_brace]) ++ v) ++ [close_brace]) ++ w)
      by (rewrite <- !app_assoc; reflexivity).
    split; [assumption|]. rewrite <- H2.
    cbn [app]. rewrite receive_loop_open by (assumption || lia).
    rewrite <- app_assoc. cbn [app]. rewrite E1.
    rewrite receive_loop_close by (assumption || lia).
    replace (d + 1 - 1) with d by lia.
    destruct (Z.eqb_spec d 0) as [|_]; [lia|]. reflexivity.
Qed.

Lemma plain_bytes_skip pre :
  forallb plain_byte pre = true ->
  Forall (fun c => Ascii.eqb c quote_char = false
                   /\ Ascii.eqb c backslash_char = false
                   /\ (false = false ->
                       Ascii.eqb c open_brace = false
                       /\ Ascii.eqb c close_brace = false)) pre.
Proof.
  intros H. rewrite forallb_forall in H. apply Forall_forall. intros c Hc.
  apply list_elem_of_In in Hc.
  destruct (plain_byte_spec c (H c Hc)) as (H1 & H2 & H3 & H4). auto.
Qed.

Lemma receive_loop_eof buf bs br ins fs :
  room bs (length buf) ->
  Z.of_nat (length buf) + 1 < MAX_MESSAGE_SIZE ->
  receive_loop [] (mkFraming buf bs br ins fs)
  = if negb fs then (None, [])
    else if Z.of_nat (length buf) >? 0 then (Some buf, []) else (None, []).
Proof.
  intros Hroom Hlt. destruct (room_step _ _ Hroom Hlt) as [Hno _].
  cbn [receive_loop fr_buffer fr_buffer_size fr_found_start].
  now rewrite Hno.
Qed.

(** The scan up to the end of the first object. *)
Lemma receive_loop_object pre v rest :
  forallb plain_byte pre = true -> balanced v ->
  Z.of_nat (length (pre ++ open_brace :: v)) + 1 < MAX_MESSAGE_SIZE ->
  exists bs,
    room bs (length (pre ++ open_brace :: v))
    /\ receive_loop (pre ++ open_brace :: v ++ rest) framing_init
       = receive_loop rest
           (mkFraming (pre ++ open_brace :: v) bs 1 false true).
Proof.
  intros Hpre Hv Hlt. unfold framing_init.
  rewrite length_app in Hlt. cbn [length] in Hlt.
  destruct (receive_loop_bytes pre (open_brace :: v ++ rest) []
              INITIAL_BUFFER_SIZE 0 false false (plain_bytes_skip pre Hpre)
              room_initial) as (bs1 & Hr1 & E1).
  { cbn [length]. lia. }
  cbn [app] in Hr1, E1. rewrite E1.
  destruct (room_step _ _ Hr1 ltac:(lia)) as [_ Hr2].
  rewrite receive_loop_open by (assumption || lia).
  destruct (receive_loop_balanced v Hv rest (pre ++ [open_brace])
              (next_size bs1 (length pre)) (0 + 1) ltac:(lia))
    as (bs2 & Hr3 & E2).
  { apply Forall_app. split; [|now constructor].
    eapply Forall_impl; [exact (plain_bytes_skip pre Hpre)|].
    intros c (_ & H & _). exact H. }
  { rewrite length_app. cbn. now rewrite Nat.add_1_r. }
  { rewrite length_app. cbn [length]. lia. }
  rewrite <- app_assoc in Hr3, E2. cbn [app] in Hr3, E2.
  exists bs2. split; [assumption|]. exact E2.
Qed.

Lemma receive_loop_complete pre v rest :
  forallb plain_byte pre = true -> balanced v ->
  Z.of_nat (length (pre ++ open_brace :: v ++ [close_brace]))
  < MAX_MESSAGE_SIZE ->
  receive_loop ((pre ++ open_brace :: v ++ [close_brace]) ++ rest)
               framing_init
  = (Some (pre ++ open_brace :: v ++ [close_brace]), rest).
Proof.
  intros Hpre Hv Hlt.
  assert (Hlen : Z.of_nat (length (pre ++ open_brace :: v ++ [close_brace]))
                 = Z.of_nat (length (pre ++ open_brace :: v)) + 1).
  { rewrite !length_app. cbn [length]. rewrite length_app. cbn [length]. lia. }
  destruct (receive_loop_object pre v (close_brace :: rest) Hpre Hv
              ltac:(lia)) as (bs & Hr & E).
  replace ((pre ++ open_brace :: v ++ [close_brace]) ++ rest)
    with (pre ++ open_brace :: v ++ close_brace :: rest)
    by (rewrite <- !app_assoc; cbn [app]; now rewrite <- app_assoc).
  rewrite E, receive_loop_close by (assumption || lia).
  cbn. now rewrite <- app_assoc.
Qed.

Lemma receive_loop_truncated pre v :
  forallb plain_byte pre = true -> balanced v ->
  Z.of_nat (length (pre ++ open_brace :: v)) + 1 < MAX_MESSAGE_SIZE ->
  receive_loop (pre ++ open_brace :: v) framing_init
  = (Some (pre ++ open_brace :: v), []).
Proof.
  intros Hpre Hv Hlt.
  destruct (receive_loop_object pre v [] Hpre Hv Hlt) as (bs & Hr & E).
  rewrite app_nil_r in E.
  rewrite E, receive_loop_eof by assumption. cbn [negb].
  rewrite length_app. cbn [length].
  destruct (Z.gtb_spec (Z.of_nat (length pre + S (length v))) 0);
    [reflexivity|lia].
Qed.

Lemma receive_loop_no_object pre :
  forallb plain_byte pre = true ->
  Z.of_nat (length pre) + 1 < MAX_MESSAGE_SIZE ->
  receive_loop pre framing_init = (None, []).
Proof.
  intros Hpre Hlt. unfold framing_init.
  destruct (receive_loop_bytes pre [] [] INITIAL_BUFFER_SIZE 0 false false
              (plain_bytes_skip pre Hpre) room_initial) as (bs1 & Hr1 & E1).
  { cbn [length]. lia. }
  rewrite app_nil_r in E1. cbn [app] in Hr1, E1.
  now rewrite E1, receive_loop_eof by assumption.
Qed.

(** No byte is lost or invented: a message and the unread bytes make up
    the buffer and the input. *)
Lemma receive_loop_conserves input st msg rest :
  receive_loop input st = (Some msg, rest) ->
  msg ++ rest = fr_buffer st ++ input.
Proof.
  revert st. induction input as [|c input IH]; intros st;
    cbn [receive_loop].
  - destruct (_ && _); [discriminate|].
    destruct (negb _); [discriminate|].
    destruct (_ >? 0); [|discriminate].
    intros H. injection H as <- <-. reflexivity.
  - destruct (_ && _); [discriminate|].
    assert (Hrec : forall st',
              fr_buffer st' = fr_buffer st ++ [c] ->
              receive_loop input st' = (Some msg, rest) ->
              msg ++ rest = fr_buffer st ++ c :: input).
    { intros st' Hb H. apply IH in H. rewrite H, Hb, <- app_assoc.
      reflexivity. }
    destruct (_ && _); [now apply Hrec|].
    destruct (negb (fr_in_string st)); [|now apply Hrec].
    destruct (Ascii.eqb c open_brace); [now apply Hrec|].
    destruct (Ascii.eqb c close_brace); [|now apply Hrec].
    destruct (_ && _); [|now apply Hrec].
    intros H. injection H as <- <-. now rewrite <- app_assoc.
Qed.

(** The string of a text without NUL is the text, and nothing behind a
    NUL belongs to it. *)
Lemma c_string_nul_free w : nul_free w = true -> c_string w = w.
Proof.
  induction w as [|c w IH]; cbn; [reflexivity|].
  destruct (Ascii.eqb c Ascii.zero); cbn; [discriminate|].
  intros H. now rewrite IH.
Qed.

Lemma c_string_cut w junk :
  nul_free w = true -> c_string (w ++ Ascii.zero :: junk) = w.
Proof.
  induction w as [|c w IH]; cbn; [reflexivity|].
  destruct (Ascii.eqb c Ascii.zero); cbn; [discriminate|].
  intros H. now rewrite IH.
Qed.

Lemma c_string_prefix w : exists tail, c_string w ++ tail = w.
Proof.
  induction w as [|c w [tail IH]]; cbn; [now exists []|].
  destruct (Ascii.eqb c Ascii.zero).
  - now exists (c :: w).
  - exists tail. cbn. now rewrite IH.
Qed.

Lemma c_string_nul_free_result w : nul_free (c_string w) = true.
Proof.
  unfold nul_free.
  induction w as [|c w IH]; cbn [c_string forallb]; [reflexivity|].
  destruct (Ascii.eqb c Ascii.zero) eqn:E; cbn [forallb]; [reflexivity|].
  now rewrite E, IH.
Qed.
(** ** The CPU test spelled out *)

Lemma existsb_Zeqb_elem (l : list Z) x :
  existsb (Z.eqb x) l = true <-> x ∈ l.
Proof.
  rewrite existsb_exists. split.
  - intros (y & Hy & E). apply Z.eqb_eq in E as ->.
    now apply list_elem_of_In.
  - intros H. exists x. split; [now apply list_elem_of_In|].
    apply Z.eqb_refl.
Qed.

Lemma task_can_run_on_cpu_spec t cpu :
  task_can_run_on_cpu t cpu = true
  <-> cpu_affinity t = [] \/ cpu ∈ cpu_affinity t.
Proof.
  unfold task_can_run_on_cpu. destruct (cpu_affinity t) as [|x l] eqn:E.
  - split; [now left|reflexivity].
  - rewrite existsb_Zeqb_elem. split; [now right|].
    intros [H|H]; [discriminate|assumption].
Qed.

Lemma cgroup_allows_cpu_spec cg cpu :
  cgroup_allows_cpu cg cpu = true
  <-> cpu_mask cg = [] \/ cpu ∈ cpu_mask cg.
Proof.
  unfold cgroup_allows_cpu. destruct (cpu_mask cg) as [|x l] eqn:E.
  - split; [now left|reflexivity].
  - rewrite existsb_Zeqb_elem. split; [now right|].
    intros [H|H]; [discriminate|assumption].
Qed.

(** [can_task_run_on_cpu] holds exactly when the affinity list admits the
    CPU and, for a task whose cgroup identifier is not empty and names a
    registered cgroup, the mask of the first cgroup with that identifier
    admits it too. *)
Lemma can_task_run_on_cpu_spec s t cpu :
  can_task_run_on_cpu s t cpu = true
  <-> (cpu_affinity t = [] \/ cpu ∈ cpu_affinity t)
      /\ (forall k cg,
            cgroup_id t <> "" ->
            scheduler_find_cgroup s (cgroup_id t) = Some (k, cg) ->
            cpu_mask cg = [] \/ cpu ∈ cpu_mask cg).
Proof.
  unfold can_task_run_on_cpu.
  rewrite <- task_can_run_on_cpu_spec.
  destruct (task_can_run_on_cpu t cpu); cbn [negb].
  2:{ split; [discriminate|]. now intros [H _]. }
  destruct (nonempty (cgroup_id t)) eqn:Hne.
  - apply nonempty_true in Hne.
    destruct (scheduler_find_cgroup s (cgroup_id t)) as [[k cg]|].
    + destruct (cgroup_allows_cpu cg cpu) eqn:Ha; cbn [negb].
      * split; [|reflexivity]. intros _. split; [reflexivity|].
        intros k' cg' _ E. injection E as <- <-.
        now apply cgroup_allows_cpu_spec.
      * split; [discriminate|]. intros [_ H].
        specialize (H k cg Hne eq_refl).
        apply cgroup_allows_cpu_spec in H. congruence.
    + split; [|reflexivity]. intros _. split; [reflexivity|]. discriminate.
  - split; [|reflexivity]. intros _. split; [reflexivity|].
    intros k cg Hid. exfalso. apply Hid.
    destruct (cgroup_id t); [reflexivity|discriminate].
Qed.

(** A tick writes neither the cgroup identifier nor the affinity list of
    a task. *)
Lemma scheduler_tick_keeps_placement_fields s vtime p :
  let t' := deref (task_mem (snd (scheduler_tick s vtime))) p in
  cgroup_id t' = cgroup_id (deref (task_mem s) p)
  /\ cpu_affinity t' = cpu_affinity (deref (task_mem s) p).
Proof.
  cbv zeta.
  pose proof (scheduler_tick_frame (fun t => (cgroup_id t, cpu_affinity t))
                ltac:(reflexivity) ltac:(reflexivity) ltac:(reflexivity)
                s vtime) as H1.
  unfold account_all in H1.
  rewrite (fold_account_frame (fun t => (cgroup_id t, cpu_affinity t))
             ltac:(reflexivity) ltac:(reflexivity) ltac:(reflexivity))
    in H1.
  cbn [task_mem refresh_cgroup_periods with_cgroups with_clock] in H1.
  pose proof (proj_deref (fun t => (cgroup_id t, cpu_affinity t))
                _ _ p (eq_sym H1)) as H.
  cbv beta in H. injection H as E1 E2. split; assumption.
Qed.
(** ** Integers as doubles

    The quota test and the accounting of a cgroup compute with doubles
    that hold integers below 2^53.  On such values the sum, the product
    and the comparison of binary64 are those of the integers. *)

Lemma digits2_pos_bounds p :
  2 ^ (Z.pos (SpecFloat.digits2_pos p) - 1) <= Z.pos p
  < 2 ^ Z.pos (SpecFloat.digits2_pos p).
Proof.
  induction p as [p IH|p IH|]; cbn [SpecFloat.digits2_pos].
  - rewrite Pos2Z.inj_succ, (Pos2Z.inj_xI p).
    replace (Z.succ (Z.pos (SpecFloat.digits2_pos p)) - 1)
      with (Z.succ (Z.pos (SpecFloat.digits2_pos p) - 1)) by lia.
    rewrite !Z.pow_succ_r by lia. lia.
  - rewrite Pos2Z.inj_succ, (Pos2Z.inj_xO p).
    replace (Z.succ (Z.pos (SpecFloat.digits2_pos p)) - 1)
      with (Z.succ (Z.pos (SpecFloat.digits2_pos p) - 1)) by lia.
    rewrite !Z.pow_succ_r by lia. lia.
  - cbn. lia.
Qed.

Lemma digits2_pos_unique p k :
  2 ^ (k - 1) <= Z.pos p < 2 ^ k -> Z.pos (SpecFloat.digits2_pos p) = k.
Proof.
  intros [H1 H2]. pose proof (digits2_pos_bounds p) as [H3 H4].
  set (d := Z.pos (SpecFloat.digits2_pos p)) in *.
  destruct (Z.lt_trichotomy d k) as [Hlt|[Heq|Hgt]]; [|assumption|].
  - pose proof (Z.pow_le_mono_r 2 d (k - 1) ltac:(lia) ltac:(lia)). lia.
  - pose proof (Z.pow_le_mono_r 2 k (d - 1) ltac:(lia) ltac:(lia)). lia.
Qed.

Lemma digits2_pos_shift p m k :
  0 <= k -> Z.pos m = Z.pos p * 2 ^ k ->
  Z.pos (SpecFloat.digits2_pos m) = Z.pos (SpecFloat.digits2_pos p) + k.
Proof.
  intros Hk Hm. apply digits2_pos_unique.
  pose proof (digits2_pos_bounds p) as [H1 H2].
  set (d := Z.pos (SpecFloat.digits2_pos p)) in *.
  assert (Hd : 1 <= d) by (unfold d; lia).
  replace (d + k - 1) with (d - 1 + k) by lia.
  rewrite !Z.pow_add_r by lia. rewrite Hm.
  assert (0 < 2 ^ k) by (apply Z.pow_pos_nonneg; lia).
  nia.
Qed.

Lemma iter_xO_val p n : Z.pos (Pos.iter xO p n) = Z.pos p * 2 ^ Z.pos n.
Proof.
  induction n as [|n IH] using Pos.peano_ind.
  - cbn [Pos.iter]. rewrite (Pos2Z.inj_xO p). change (2 ^ 1) with 2. lia.
  - rewrite Pos.iter_succ, (Pos2Z.inj_xO (Pos.iter xO p n)), IH,
      Pos2Z.inj_succ.
    rewrite Z.pow_succ_r by lia. lia.
Qed.

Lemma iter_pos_eq {A} (f : A -> A) n x :
  SpecFloat.iter_pos f n x = Pos.iter f x n.
Proof.
  revert x. induction n as [n IH|n IH|]; intros x;
    cbn [SpecFloat.iter_pos Pos.iter]; [|now rewrite !IH|reflexivity].
  now rewrite !IH, !Pos.iter_swap.
Qed.

Lemma shr_exact q n :
  Pos.iter SpecFloat.shr_1
    (SpecFloat.Build_shr_record (Z.pos (Pos.iter xO q n)) false false) n
  = SpecFloat.Build_shr_record (Z.pos q) false false.
Proof.
  revert q. induction n as [|n IH] using Pos.peano_ind; intros q.
  - reflexivity.
  - rewrite Pos.iter_succ_r. rewrite (Pos.iter_succ n).
    cbn [SpecFloat.shr_1 orb]. apply IH.
Qed.

(** Rounding a mantissa that is a canonical mantissa shifted to the left
    gives the canonical mantissa: nothing is rounded off. *)
Lemma binary_round_aux_canonical mz e :
  Z.pos (SpecFloat.digits2_pos mz) = 53 ->
  -1074 <= e <= 971 ->
  (let '(mrs, e') :=
     SpecFloat.shr_fexp FloatOps.prec FloatOps.emax (Z.pos mz) e
                        SpecFloat.loc_Exact in
   match SpecFloat.shr_m mrs with
   | 0 => SpecFloat.S754_zero false
   | Z.pos m => if e' <=? FloatOps.emax - FloatOps.prec
                then SpecFloat.S754_finite false m e'
                else SpecFloat.S754_infinity false
   | Z.neg _ => SpecFloat.S754_nan
   end)
  = SpecFloat.S754_finite false mz e.
Proof.
  intros Hd He. unfold SpecFloat.shr_fexp.
  cbn [SpecFloat.Zdigits2 SpecFloat.shr_record_of_loc]. rewrite Hd.
  replace (SpecFloat.fexp FloatOps.prec FloatOps.emax (53 + e) - e) with 0
    by (unfold SpecFloat.fexp, SpecFloat.emin, FloatOps.prec, FloatOps.emax;
        lia).
  cbn [SpecFloat.shr SpecFloat.shr_m].
  destruct (Z.leb_spec e (FloatOps.emax - FloatOps.prec)) as [_|H];
    [reflexivity|].
  unfold FloatOps.prec, FloatOps.emax in H. lia.
Qed.

Lemma binary_round_aux_exact M mz k e :
  Z.pos (SpecFloat.digits2_pos mz) = 53 ->
  0 <= k -> Z.pos M = Z.pos mz * 2 ^ k ->
  -1074 <= e + k <= 971 ->
  SpecFloat.binary_round_aux FloatOps.prec FloatOps.emax false (Z.pos M) e
                             SpecFloat.loc_Exact
  = SpecFloat.S754_finite false mz (e + k).
Proof.
  intros Hd Hk HM He.
  pose proof (digits2_pos_shift mz M k Hk HM) as HdM. rewrite Hd in HdM.
  unfold SpecFloat.binary_round_aux.
  assert (Hs : SpecFloat.shr_fexp FloatOps.prec FloatOps.emax (Z.pos M) e
                                  SpecFloat.loc_Exact
               = (SpecFloat.Build_shr_record (Z.pos mz) false false, e + k)).
  { unfold SpecFloat.shr_fexp.
    cbn [SpecFloat.Zdigits2 SpecFloat.shr_record_of_loc]. rewrite HdM.
    replace (SpecFloat.fexp FloatOps.prec FloatOps.emax (53 + k + e) - e)
      with k
      by (unfold SpecFloat.fexp, SpecFloat.emin, FloatOps.prec,
            FloatOps.emax; lia).
    destruct k as [|k'|k']; [| |lia].
    - cbn [SpecFloat.shr]. rewrite Z.add_0_r. do 2 f_equal.
      change (2 ^ 0) with 1 in HM. lia.
    - cbn [SpecFloat.shr]. f_equal.
      rewrite iter_pos_eq.
      assert (EM : M = Pos.iter xO mz k').
      { apply Pos2Z.inj. now rewrite iter_xO_val. }
      rewrite EM. apply shr_exact. }
  rewrite Hs.
  cbn [SpecFloat.shr_m SpecFloat.loc_of_shr_record
       SpecFloat.round_nearest_even].
  now apply binary_round_aux_canonical.
Qed.

(** The same for [binary_round], which first shifts a short mantissa to
    the left: a mantissa and an exponent that denote the value of a
    canonical pair are rounded to that pair. *)
Lemma binary_round_exact M E mz ez K :
  Z.pos (SpecFloat.digits2_pos mz) = 53 ->
  -1074 <= ez <= 971 ->
  0 <= E + K -> 0 <= ez + K ->
  Z.pos M * 2 ^ (E + K) = Z.pos mz * 2 ^ (ez + K) ->
  SpecFloat.binary_round FloatOps.prec FloatOps.emax false M E
  = SpecFloat.S754_finite false mz ez.
Proof.
  intros Hd Hez HE1 HE2 Hval. unfold SpecFloat.binary_round.
  destruct (Z.le_gt_cases E ez) as [Hle|Hgt].
  - assert (HM : Z.pos M = Z.pos mz * 2 ^ (ez - E)).
    { replace (ez + K) with (ez - E + (E + K)) in Hval by lia.
      rewrite (Z.pow_add_r 2 (ez - E) (E + K)) in Hval by lia.
      assert (0 < 2 ^ (E + K)) by (apply Z.pow_pos_nonneg; lia).
      nia. }
    pose proof (digits2_pos_shift mz M (ez - E) ltac:(lia) HM) as HdM.
    rewrite Hd in HdM. rewrite HdM.
    replace (SpecFloat.fexp FloatOps.prec FloatOps.emax (53 + (ez - E) + E))
      with ez
      by (unfold SpecFloat.fexp, SpecFloat.emin, FloatOps.prec,
            FloatOps.emax; lia).
    unfold SpecFloat.shl_align.
    destruct (ez - E) as [|d|d] eqn:Ed; [| |lia].
    + rewrite (binary_round_aux_exact M mz 0 E Hd ltac:(lia) HM ltac:(lia)).
      f_equal. lia.
    + rewrite (binary_round_aux_exact M mz (Z.pos d) E Hd ltac:(lia) HM
                 ltac:(lia)).
      f_equal. lia.
  - assert (HM : Z.pos mz = Z.pos M * 2 ^ (E - ez)).
    { replace (E + K) with (E - ez + (ez + K)) in Hval by lia.
      rewrite (Z.pow_add_r 2 (E - ez) (ez + K)) in Hval by lia.
      assert (0 < 2 ^ (ez + K)) by (apply Z.pow_pos_nonneg; lia).
      nia. }
    pose proof (digits2_pos_shift M mz (E - ez) ltac:(lia) HM) as HdM.
    rewrite Hd in HdM.
    replace (Z.pos (SpecFloat.digits2_pos M)) with (53 - (E - ez)) by lia.
    replace (SpecFloat.fexp FloatOps.prec FloatOps.emax (53 - (E - ez) + E))
      with ez
      by (unfold SpecFloat.fexp, SpecFloat.emin, FloatOps.prec,
            FloatOps.emax; lia).
    unfold SpecFloat.shl_align.
    destruct (ez - E) as [|d|d] eqn:Ed; [lia|lia|].
    rewrite (binary_round_aux_exact (Pos.iter xO M d) mz 0 ez Hd ltac:(lia));
      [f_equal; lia| |lia].
    change (2 ^ 0) with 1. rewrite Z.mul_1_r, iter_xO_val.
    replace (Z.pos d) with (E - ez) by lia. lia.
Qed.

(** The canonical mantissa and exponent of a positive integer up to
    2^53. *)
Lemma canonical_exists v :
  1 <= v <= 2 ^ 53 ->
  exists mz ez,
    Z.pos (SpecFloat.digits2_pos mz) = 53 /\ -52 <= ez <= 1
    /\ Z.pos mz * 2 ^ (ez + 52) = v * 2 ^ 52.
Proof.
  intros Hv. destruct v as [|p|p]; try lia.
  pose proof (digits2_pos_bounds p) as [H1 H2].
  set (d := Z.pos (SpecFloat.digits2_pos p)) in *.
  assert (Hd1 : 1 <= d) by (unfold d; lia).
  destruct (Z.le_gt_cases d 53) as [Hd|Hd].
  - assert (Hpos : 0 < 2 ^ (53 - d)) by (apply Z.pow_pos_nonneg; lia).
    assert (E : Z.pos (Z.to_pos (Z.pos p * 2 ^ (53 - d)))
                = Z.pos p * 2 ^ (53 - d)) by (apply Z2Pos.id; nia).
    exists (Z.to_pos (Z.pos p * 2 ^ (53 - d))), (d - 53).
    split.
    { rewrite (digits2_pos_shift p _ (53 - d) ltac:(lia) E).
      fold d. lia. }
    split; [lia|].
    rewrite E, <- Z.mul_assoc, <- Z.pow_add_r by lia.
    do 2 f_equal. lia.
  - pose proof (Z.pow_le_mono_r 2 53 (d - 1) ltac:(lia) ltac:(lia)).
    assert (Ep : Z.pos p = 2 ^ 53) by lia.
    exists 4503599627370496%positive, 1.
    split; [reflexivity|]. split; [lia|]. rewrite Ep. reflexivity.
Qed.

Lemma double_of_int_zero :
  FloatOps.Prim2SF (double_of_int 0) = SpecFloat.S754_zero false.
Proof. reflexivity. Qed.

Lemma double_of_int_finite v :
  1 <= v <= 2 ^ 53 ->
  exists mz ez,
    Z.pos (SpecFloat.digits2_pos mz) = 53 /\ -52 <= ez <= 1
    /\ Z.pos mz * 2 ^ (ez + 52) = v * 2 ^ 52
    /\ FloatOps.Prim2SF (double_of_int v)
       = SpecFloat.S754_finite false mz ez.
Proof.
  intros Hv. destruct (canonical_exists v Hv) as (mz & ez & Hd & He & Hval).
  exists mz, ez. split; [assumption|]. split; [assumption|].
  split; [assumption|].
  unfold double_of_int. destruct (Z.ltb_spec v 0) as [|_]; [lia|].
  rewrite FloatAxioms.of_uint63_spec, Uint63.of_Z_spec.
  assert (Hw : 2 ^ 53 < Uint63.wB) by reflexivity.
  rewrite Z.mod_small by lia.
  destruct v as [|p|p]; try lia.
  cbn [SpecFloat.binary_normalize].
  apply (binary_round_exact p 0 mz ez 52); try lia; assumption.
Qed.





Lemma double_of_int_not_nan v :
  0 <= v <= 2 ^ 53 -> not_nan (double_of_int v) = true.
Proof.
  intros Hv. apply not_nan_spec.
  destruct (Z.eq_dec v 0) as [->|Hv0].
  - rewrite double_of_int_zero. discriminate.
  - destruct (double_of_int_finite v ltac:(lia)) as (m & e & _ & _ & _ & ->).
    discriminate.
Qed.
(** ** The quota of a cgroup over a period

    *** Counting the CPUs of a cgroup *)











(** *** The views of a record *)







(** *** The events and the CPU slots *)











(** *** The events and the invariant *)







Lemma double_of_int_0 : double_of_int 0 = 0%float.
Proof. reflexivity. Qed.

(** *** The prologue and the accounting loop of a tick *)











(** *** The table of planned runtimes *)







(** *** Counting after an assignment *)



(** *** The fields that the selection leaves alone *)







(** *** The quota test on whole microseconds *)




(** *** A tick and the invariant *)






(** * The min-heap of runnable tasks (heap.c) *)

(** X1: [heap_insert] adds the task to the array of the heap and keeps
    every element that was there: the new array is a permutation of the
    old one with the task added.  It writes no field of a task record
    other than [heap_index]. *)
Theorem heap_insert_adds_task h m p :
  fst (heap_insert h m p) ≡ₚ p :: h
  /\ strip <$> snd (heap_insert h m p) = strip <$> m.
Proof.
  split.
  - apply heap_insert_perm.
  - apply heap_insert_frame, strip_index.
Qed.

(** X2: inserting a task that has a record and is not in the heap keeps
    the two invariants of the heap: every task of the array records its
    position in [heap_index] and every other task records -1, and no
    parent has a greater vruntime than its child. *)
Theorem heap_insert_keeps_invariants h m p :
  heap_wf h m -> heap_ordered h m -> p ∉ h -> is_Some (m !! p) ->
  heap_wf (fst (heap_insert h m p)) (snd (heap_insert h m p))
  /\ heap_ordered (fst (heap_insert h m p)) (snd (heap_insert h m p)).
Proof.
  intros Hwf Hord Hp Hs. split.
  - now apply heap_insert_wf.
  - now apply heap_insert_ordered_aux.
Qed.

Lemma heap_insert_keeps_invariants_witness :
  let h := runnable_heap sched_four in
  let m := task_mem sched_four in
  heap_wf (fst (heap_insert h m 3%nat)) (snd (heap_insert h m 3%nat))
  /\ heap_ordered (fst (heap_insert h m 3%nat)) (snd (heap_insert h m 3%nat)).
Proof.
  cbv zeta.
  apply (heap_insert_keeps_invariants (runnable_heap sched_four)
           (task_mem sched_four) 3%nat).
  - apply heap_wf_test_sound. vm_compute. reflexivity.
  - apply heap_ordered_test_sound. vm_compute. reflexivity.
  - intros H. apply existsb_eqb_elem in H. vm_compute in H. discriminate.
  - vm_compute. eauto.
Defined.

(** X3: [heap_extract_min] returns no task and changes nothing on an
    empty heap (the heap that [heap_is_empty] reports); otherwise it
    returns the task of position 0 (the one that [heap_peek] shows), the
    array keeps exactly the other elements, [heap_size] drops by one, and
    no field of a task record other than [heap_index] is written. *)
Theorem heap_extract_min_result h m :
  match heap_extract_min h m with
  | (None, hm) => heap_is_empty h = true /\ h = [] /\ hm = (h, m)
  | (Some x, hm) =>
    heap_is_empty h = false
    /\ heap_peek h = Some x
    /\ x :: fst hm ≡ₚ h
    /\ heap_size (fst hm) = heap_size h - 1
    /\ strip <$> snd hm = strip <$> m
  end.
Proof.
  pose proof (heap_extract_min_frame strip strip_index h m) as Hfr.
  destruct (heap_extract_min h m) as [[x|] hm] eqn:E.
  - pose proof (heap_extract_min_perm _ _ _ _ E) as Hperm.
    split; [|split; [|split; [assumption|split; [|exact Hfr]]]].
    + unfold heap_extract_min in E. destruct h; [discriminate|reflexivity].
    + unfold heap_extract_min in E. destruct h as [|y h]; [discriminate|].
      destruct (_ <? _)%nat; injection E as <- _; reflexivity.
    + apply Permutation_length in Hperm. unfold heap_size.
      cbn [length] in Hperm. lia.
  - pose proof (heap_extract_min_None _ _ _ E) as ->.
    cbn in E. injection E as <-. auto.
Qed.

(** X4: on a heap that is in heap order and holds no NaN, the task that
    [heap_extract_min] returns has the least vruntime: no task of the heap
    has a smaller one. *)
Theorem heap_extract_min_is_least h m x hm :
  heap_ordered h m -> keys_not_nan h m ->
  heap_extract_min h m = (Some x, hm) ->
  forall q, q ∈ h ->
    dlt (vruntime (deref m q)) (vruntime (deref m x)) = false.
Proof. apply heap_extract_min_least. Qed.

Lemma heap_extract_min_is_least_witness :
  let h := runnable_heap sched_four in
  let m := task_mem sched_four in
  dlt (vruntime (deref m 4%nat)) (vruntime (deref m 1%nat)) = false.
Proof.
  cbv zeta.
  apply (heap_extract_min_is_least (runnable_heap sched_four)
           (task_mem sched_four) 1%nat
           (snd (heap_extract_min (runnable_heap sched_four)
                                  (task_mem sched_four)))).
  - apply heap_ordered_test_sound. vm_compute. reflexivity.
  - apply keys_not_nan_test_sound. vm_compute. reflexivity.
  - vm_compute. reflexivity.
  - apply existsb_eqb_elem. vm_compute. reflexivity.
Defined.

(** X5: [heap_extract_min] keeps the two invariants of the heap (the
    [heap_index] fields agree with the positions, and the heap order);
    the task it returns is no longer in the array and records -1. *)
Theorem heap_extract_min_keeps_invariants h m x hm :
  heap_wf h m -> heap_ordered h m ->
  heap_extract_min h m = (Some x, hm) ->
  heap_wf (fst hm) (snd hm)
  /\ heap_ordered (fst hm) (snd hm)
  /\ (x ∉ fst hm)
  /\ heap_index (deref (snd hm) x) = -1.
Proof.
  intros Hwf Hord E.
  pose proof (heap_extract_min_wf _ _ Hwf) as Hwf'.
  pose proof (heap_extract_min_ordered_aux _ _ Hord) as Hord'.
  pose proof (heap_extract_min_perm _ _ _ _ E) as Hperm.
  rewrite E in Hwf', Hord'. cbn [fst snd] in *.
  assert (Hx : x ∉ fst hm).
  { pose proof (heap_wf_NoDup _ _ Hwf) as Hnd. rewrite <- Hperm in Hnd.
    now apply NoDup_cons in Hnd as [Hn _]. }
  split; [assumption|]. split; [assumption|]. split; [assumption|].
  now apply (heap_wf_index_out (fst hm)).
Qed.

Lemma heap_extract_min_keeps_invariants_witness :
  let h := runnable_heap sched_four in
  let m := task_mem sched_four in
  let hm := snd (heap_extract_min h m) in
  heap_wf (fst hm) (snd hm)
  /\ heap_ordered (fst hm) (snd hm)
  /\ (1%nat ∉ fst hm)
  /\ heap_index (deref (snd hm) 1%nat) = -1.
Proof.
  cbv zeta.
  apply (heap_extract_min_keeps_invariants (runnable_heap sched_four)
           (task_mem sched_four) 1%nat
           (snd (heap_extract_min (runnable_heap sched_four)
                                  (task_mem sched_four)))).
  - apply heap_wf_test_sound. vm_compute. reflexivity.
  - apply heap_ordered_test_sound. vm_compute. reflexivity.
  - vm_compute. reflexivity.
Defined.

(** X6: [heap_remove] of a task that is in a coherent heap returns 0,
    takes exactly that task out of the array, leaves -1 in its
    [heap_index] and keeps the fields of the others coherent; when the
    heap is in heap order and holds no NaN it is in heap order again. *)
Theorem heap_remove_queued h m p :
  heap_wf h m -> p ∈ h ->
  heap_remove_code h m p = 0
  /\ p :: fst (heap_remove h m p) ≡ₚ h
  /\ heap_wf (fst (heap_remove h m p)) (snd (heap_remove h m p))
  /\ heap_index (deref (snd (heap_remove h m p)) p) = -1
  /\ (heap_ordered h m -> keys_not_nan h m ->
      heap_ordered (fst (heap_remove h m p)) (snd (heap_remove h m p))).
Proof.
  intros Hwf Hp.
  pose proof (heap_remove_perm _ _ _ Hwf Hp) as Hperm.
  pose proof (heap_remove_wf _ _ p Hwf) as Hwf'.
  split; [|split; [assumption|split; [assumption|split]]].
  - unfold heap_remove_code.
    now rewrite (proj2 (heap_wf_valid _ _ _ Hwf) Hp).
  - apply (heap_wf_index_out _ _ _ Hwf').
    pose proof (heap_wf_NoDup _ _ Hwf) as Hnd. rewrite <- Hperm in Hnd.
    now apply NoDup_cons in Hnd as [Hn _].
  - intros Hord Hnn. now apply heap_remove_ordered_aux.
Qed.

Lemma heap_remove_queued_witness :
  let h := runnable_heap sched_four in
  let m := task_mem sched_four in
  heap_remove_code h m 1%nat = 0
  /\ 1%nat :: fst (heap_remove h m 1%nat) ≡ₚ h
  /\ heap_wf (fst (heap_remove h m 1%nat)) (snd (heap_remove h m 1%nat))
  /\ heap_index (deref (snd (heap_remove h m 1%nat)) 1%nat) = -1
  /\ (heap_ordered h m -> keys_not_nan h m ->
      heap_ordered (fst (heap_remove h m 1%nat))
                   (snd (heap_remove h m 1%nat))).
Proof.
  cbv zeta.
  apply (heap_remove_queued (runnable_heap sched_four)
           (task_mem sched_four) 1%nat).
  - apply heap_wf_test_sound. vm_compute. reflexivity.
  - apply existsb_eqb_elem. vm_compute. reflexivity.
Defined.

(** X7: [heap_remove] of a task that is not in a coherent heap (its
    [heap_index] is -1) returns -1 and changes neither the array nor any
    record. *)
Theorem heap_remove_not_queued h m p :
  heap_wf h m -> p ∉ h ->
  heap_remove_code h m p = -1 /\ heap_remove h m p = (h, m).
Proof.
  intros Hwf Hp. split; [|now apply heap_remove_absent].
  unfold heap_remove_code.
  destruct (heap_index_valid h (deref m p)) eqn:E; [|reflexivity].
  now apply (heap_wf_valid _ _ _ Hwf) in E.
Qed.

Lemma heap_remove_not_queued_witness :
  let h := runnable_heap sched_four in
  let m := task_mem sched_four in
  heap_remove_code h m 3%nat = -1 /\ heap_remove h m 3%nat = (h, m).
Proof.
  cbv zeta.
  apply (heap_remove_not_queued (runnable_heap sched_four)
           (task_mem sched_four) 3%nat).
  - apply heap_wf_test_sound. vm_compute. reflexivity.
  - intros H. apply existsb_eqb_elem in H. vm_compute in H. discriminate.
Defined.

(** X8: after the vruntime of a task of the heap was assigned a new value
    (on a coherent heap in heap order without NaN), [heap_update]
    restores the heap order; the array keeps its elements, the
    [heap_index] fields stay coherent and no vruntime is written. *)
Theorem heap_update_restores_order h m p v :
  heap_wf h m -> heap_ordered h m -> keys_not_nan h m ->
  let m' := assign (set_vruntime v) p m in
  fst (heap_update h m' p) ≡ₚ h
  /\ heap_wf (fst (heap_update h m' p)) (snd (heap_update h m' p))
  /\ heap_ordered (fst (heap_update h m' p)) (snd (heap_update h m' p))
  /\ vruntime <$> snd (heap_update h m' p) = vruntime <$> m'.
Proof.
  intros Hwf Hord Hnn m'. split; [apply heap_update_perm|]. split; [|split].
  - apply heap_update_wf. apply (heap_wf_frame _ m); [|assumption].
    now apply proj_assign.
  - now apply heap_update_ordered_aux.
  - apply heap_update_frame. reflexivity.
Qed.

Lemma heap_update_restores_order_witness :
  let h := runnable_heap sched_four in
  let m := task_mem sched_four in
  let m' := assign (set_vruntime 20%float) 1%nat m in
  fst (heap_update h m' 1%nat) ≡ₚ h
  /\ heap_wf (fst (heap_update h m' 1%nat)) (snd (heap_update h m' 1%nat))
  /\ heap_ordered (fst (heap_update h m' 1%nat))
                  (snd (heap_update h m' 1%nat))
  /\ vruntime <$> snd (heap_update h m' 1%nat) = vruntime <$> m'.
Proof.
  cbv zeta.
  apply (heap_update_restores_order (runnable_heap sched_four)
           (task_mem sched_four) 1%nat 20%float).
  - apply heap_wf_test_sound. vm_compute. reflexivity.
  - apply heap_ordered_test_sound. vm_compute. reflexivity.
  - apply keys_not_nan_test_sound. vm_compute. reflexivity.
Defined.

(** * The scheduler (scheduler.c) *)

(** X9: in every state that the scheduler reaches from [scheduler_init]
    by events and ticks, the runnable heap is coherent with the task
    records ([heap_index] is the position of a queued task and -1 for
    every other record), it holds no task twice, and every task it holds
    is registered and in state Runnable. *)
Theorem reachable_heap_coherent s :
  reachable s ->
  heap_wf (runnable_heap s) (task_mem s)
  /\ NoDup (runnable_heap s)
  /\ forall p, p ∈ runnable_heap s ->
       p ∈ all_tasks s
       /\ state (deref (task_mem s) p) = TASK_STATE_RUNNABLE.
Proof.
  intros Hr. pose proof (reachable_sched_inv s Hr) as H.
  split; [apply (inv_heap s H)|].
  split; [apply (heap_wf_NoDup _ _ (inv_heap s H))|].
  apply (inv_queued s H).
Qed.

Lemma reachable_heap_coherent_witness :
  heap_wf (runnable_heap sched_four) (task_mem sched_four)
  /\ NoDup (runnable_heap sched_four)
  /\ forall p, p ∈ runnable_heap sched_four ->
       p ∈ all_tasks sched_four
       /\ state (deref (task_mem sched_four) p) = TASK_STATE_RUNNABLE.
Proof.
  apply (reachable_heap_coherent sched_four).
  apply reachable_run_frames, reachable_init.
Defined.

(** X10: in every reachable state the registries stay within their
    capacities (at most MAX_TASKS tasks and MAX_CGROUPS cgroups), the
    registry of tasks holds no task twice, every registered task has a
    record, none of them is in state Exited, and the heap is no larger
    than the registry. *)
Theorem reachable_registry_bounds s :
  reachable s ->
  (length (all_tasks s) <= MAX_TASKS)%nat
  /\ (length (cgroups s) <= MAX_CGROUPS)%nat
  /\ NoDup (all_tasks s)
  /\ (length (runnable_heap s) <= length (all_tasks s))%nat
  /\ forall p, p ∈ all_tasks s ->
       is_Some (task_mem s !! p)
       /\ state (deref (task_mem s) p) <> TASK_STATE_EXITED.
Proof.
  intros Hr. pose proof (reachable_sched_inv s Hr) as H.
  pose proof (wf_nodup _ (reachable_alloc_wf _ Hr)) as Hnd.
  split; [apply (inv_tasks s H)|].
  split; [apply (inv_cgroups s H)|].
  split; [assumption|]. split.
  - apply submseteq_length, NoDup_submseteq.
    + apply (heap_wf_NoDup _ _ (inv_heap s H)).
    + intros p Hp. now apply (inv_queued s H).
  - intros p Hp. split; [now apply (inv_stored s H)|now apply (inv_live s H)].
Qed.

Lemma reachable_registry_bounds_witness :
  (length (all_tasks sched_four) <= MAX_TASKS)%nat
  /\ (length (cgroups sched_four) <= MAX_CGROUPS)%nat
  /\ NoDup (all_tasks sched_four)
  /\ (length (runnable_heap sched_four) <= length (all_tasks sched_four))%nat
  /\ forall p, p ∈ all_tasks sched_four ->
       is_Some (task_mem sched_four !! p)
       /\ state (deref (task_mem sched_four) p) <> TASK_STATE_EXITED.
Proof.
  apply (reachable_registry_bounds sched_four).
  apply reachable_run_frames, reachable_init.
Defined.

(** X11: [rebuild_runnable_heap] leaves in the heap exactly the
    registered tasks whose state is Runnable, and the heap it builds is in
    heap order, whatever the heap held before. *)
Theorem rebuild_runnable_heap_result s :
  (forall p, p ∈ runnable_heap (rebuild_runnable_heap s)
     <-> p ∈ all_tasks s
         /\ state (deref (task_mem s) p) = TASK_STATE_RUNNABLE)
  /\ heap_ordered (runnable_heap (rebuild_runnable_heap s))
                  (task_mem (rebuild_runnable_heap s)).
Proof.
  split.
  - intros p. apply rebuild_runnable_heap_members.
  - apply rebuild_runnable_heap_ordered.
Qed.

(** X12: after [scheduler_tick], from any state, the runnable heap is in
    heap order: no task of the heap has a smaller vruntime than its
    parent, so the root is the next candidate. *)
Theorem scheduler_tick_heap_ordered s vtime :
  heap_ordered (runnable_heap (snd (scheduler_tick s vtime)))
               (task_mem (snd (scheduler_tick s vtime))).
Proof. apply scheduler_tick_ordered. Qed.

(** X13: on a heap in heap order without NaN, [pick_task_for_cpu]
    returns an eligible task of the heap (it may run on the CPU and its
    cgroup has quota for the tick) such that no eligible task of the heap
    has a smaller vruntime; it returns no task only when no task of the
    heap is eligible.  The tasks it does not return stay in the heap. *)
Theorem pick_task_for_cpu_least s cpu planned tick_us sel planned' s' :
  heap_ordered (runnable_heap s) (task_mem s) ->
  keys_not_nan (runnable_heap s) (task_mem s) ->
  pick_task_for_cpu s cpu planned tick_us = (sel, planned', s') ->
  runnable_heap s ≡ₚ option_list sel ++ runnable_heap s'
  /\ match sel with
     | Some b =>
       b ∈ runnable_heap s
       /\ eligible s cpu planned tick_us (deref (task_mem s) b) = true
       /\ forall q, q ∈ runnable_heap s ->
            eligible s cpu planned tick_us (deref (task_mem s) q) = true ->
            dlt (vruntime (deref (task_mem s) q))
                (vruntime (deref (task_mem s) b)) = false
     | None =>
       forall q, q ∈ runnable_heap s ->
         eligible s cpu planned tick_us (deref (task_mem s) q) = false
     end.
Proof.
  intros Hord Hnn Hpick.
  split; [eapply pick_task_for_cpu_perm; eassumption|].
  unfold pick_task_for_cpu in Hpick.
  destruct (pick_loop _ _ _ _ _ _) as [[sel0 deferred] s1] eqn:E.
  injection Hpick as <- _ _.
  pose proof (pick_loop_perm _ _ _ _ _ _ _ _ _ E) as Hperm.
  cbn [app] in Hperm.
  apply pick_loop_least in E as (_ & Hdef & Hsel); try assumption;
    [|intros q Hq; now apply elem_of_nil in Hq|lia].
  destruct sel0 as [b|].
  - destruct Hsel as [Hb Hleast]. split; [|split; [assumption|]].
    + rewrite Hperm. cbn. left.
    + intros q Hq Hel. rewrite Hperm in Hq. cbn in Hq.
      apply elem_of_cons in Hq as [->|Hq].
      * apply dlt_irrefl.
      * apply elem_of_app in Hq as [Hq|Hq]; [|now apply Hleast].
        rewrite (Hdef q Hq) in Hel. discriminate.
  - intros q Hq. rewrite Hperm, Hsel, app_nil_r in Hq. cbn in Hq.
    now apply Hdef.
Qed.

Lemma pick_task_for_cpu_least_witness :
  let s := sched_four in
  let r := pick_task_for_cpu s 0%nat [] 1%float in
  runnable_heap s ≡ₚ option_list (Some 1%nat) ++ runnable_heap (snd r)
  /\ (1%nat ∈ runnable_heap s
      /\ eligible s 0%nat [] 1%float (deref (task_mem s) 1%nat) = true
      /\ forall q, q ∈ runnable_heap s ->
           eligible s 0%nat [] 1%float (deref (task_mem s) q) = true ->
           dlt (vruntime (deref (task_mem s) q))
               (vruntime (deref (task_mem s) 1%nat)) = false).
Proof.
  cbv zeta.
  apply (pick_task_for_cpu_least sched_four 0%nat [] 1%float (Some 1%nat)
           (snd (fst (pick_task_for_cpu sched_four 0%nat [] 1%float)))
           (snd (pick_task_for_cpu sched_four 0%nat [] 1%float))).
  - apply heap_ordered_test_sound. vm_compute. reflexivity.
  - apply keys_not_nan_test_sound. vm_compute. reflexivity.
  - vm_compute. reflexivity.
Defined.

(** X14: every placement of a tick is legal.  A task that
    [scheduler_tick] leaves on a CPU is registered and was Runnable or
    Running when the tick began (a Blocked or Exited task is never
    scheduled).  Its affinity list, which the tick does not change, is
    empty or holds the CPU; and when its cgroup identifier, unchanged
    too, is not empty and names a registered cgroup, the CPU mask of the
    first cgroup with that identifier is empty or holds the CPU.  The
    mask of a cgroup registered under the empty identifier is not
    applied. *)
Theorem scheduler_tick_placement s vtime c p :
  cpu_queues (snd (scheduler_tick s vtime)) !! c = Some (Some p) ->
  let s' := snd (scheduler_tick s vtime) in
  let t := deref (task_mem s') p in
  p ∈ all_tasks s
  /\ (state (deref (task_mem s) p) = TASK_STATE_RUNNABLE
      \/ state (deref (task_mem s) p) = TASK_STATE_RUNNING)
  /\ cpu_affinity t = cpu_affinity (deref (task_mem s) p)
  /\ cgroup_id t = cgroup_id (deref (task_mem s) p)
  /\ (cpu_affinity t = [] \/ Z.of_nat c ∈ cpu_affinity t)
  /\ (forall k cg,
        cgroup_id t <> "" ->
        scheduler_find_cgroup s' (cgroup_id t) = Some (k, cg) ->
        cpu_mask cg = [] \/ Z.of_nat c ∈ cpu_mask cg).
Proof.
  intros Hc. cbv zeta.
  destruct (scheduler_tick_placed_state s vtime c p Hc) as [H1 H2].
  destruct (scheduler_tick_keeps_placement_fields s vtime p) as [H3 H4].
  split; [assumption|]. split; [assumption|].
  split; [assumption|]. split; [assumption|].
  apply can_task_run_on_cpu_spec. now apply scheduler_tick_may_run.
Qed.

Lemma scheduler_tick_placement_witness :
  let s' := snd (scheduler_tick sched_masked 0) in
  let t := deref (task_mem s') 1%nat in
  cpu_queues s' = [None; Some 1%nat]
  /\ cpu_affinity t = [0; 1]
  /\ cgroup_id t = "G"
  /\ (cpu_affinity t = [] \/ Z.of_nat 1 ∈ cpu_affinity t)
  /\ (forall k cg,
        cgroup_id t <> "" ->
        scheduler_find_cgroup s' (cgroup_id t) = Some (k, cg) ->
        cpu_mask cg = [] \/ Z.of_nat 1 ∈ cpu_mask cg).
Proof.
  cbv zeta.
  destruct (scheduler_tick_placement sched_masked 0 1%nat 1%nat)
    as (_ & _ & H3 & H4 & H5 & H6).
  - vm_compute. reflexivity.
  - split; [vm_compute; reflexivity|].
    split; [vm_compute; reflexivity|].
    split; [vm_compute; reflexivity|].
    split; [exact H5|exact H6].
Defined.

(** X15: no CPU idles while a task that it could run waits without a
    quota.  When a tick leaves a CPU idle, every task left in the
    runnable heap that may run on that CPU (by its affinity and the mask
    of its cgroup) belongs to a registered cgroup with a finite quota:
    only the quota test can have deferred it. *)
Theorem scheduler_tick_work_conserving s vtime c q :
  cpu_queues (snd (scheduler_tick s vtime)) !! c = Some None ->
  q ∈ runnable_heap (snd (scheduler_tick s vtime)) ->
  can_task_run_on_cpu (snd (scheduler_tick s vtime))
    (deref (task_mem (snd (scheduler_tick s vtime))) q) (Z.of_nat c) = true ->
  waits_for_quota (snd (scheduler_tick s vtime))
    (deref (task_mem (snd (scheduler_tick s vtime))) q) = true.
Proof. apply scheduler_tick_idle. Qed.

Lemma scheduler_tick_work_conserving_witness :
  waits_for_quota (snd (scheduler_tick sched_quota_idle 0))
    (deref (task_mem (snd (scheduler_tick sched_quota_idle 0))) 2%nat)
  = true.
Proof.
  apply (scheduler_tick_work_conserving sched_quota_idle 0 1%nat 2%nat).
  - vm_compute. reflexivity.
  - apply existsb_eqb_elem. vm_compute. reflexivity.
  - vm_compute. reflexivity.
Defined.

(** X26: the local tables of [pick_task_for_cpu] are large enough.  On a
    state that satisfies the invariants of the registries (every
    reachable state does), the loop defers at most MAX_TASKS candidates,
    the size of the array [deferred]; and a table of planned runtimes of
    at most MAX_CGROUPS entries stays within MAX_CGROUPS entries. *)
Theorem pick_task_for_cpu_tables_fit s cpu planned tick_us :
  sched_inv s -> (length planned <= MAX_CGROUPS)%nat ->
  (length (snd (fst (pick_loop (length (runnable_heap s)) s cpu planned
                               tick_us []))) <= MAX_TASKS)%nat
  /\ (length (snd (fst (pick_task_for_cpu s cpu planned tick_us)))
      <= MAX_CGROUPS)%nat.
Proof. apply pick_task_for_cpu_tables. Qed.

Lemma pick_task_for_cpu_tables_fit_witness :
  (length (snd (fst (pick_loop (length (runnable_heap sched_four))
                               sched_four 0%nat [] 1%float [])))
   <= MAX_TASKS)%nat
  /\ (length (snd (fst (pick_task_for_cpu sched_four 0%nat [] 1%float)))
      <= MAX_CGROUPS)%nat.
Proof.
  apply (pick_task_for_cpu_tables_fit sched_four 0%nat [] 1%float).
  - apply reachable_sched_inv, reachable_run_frames, reachable_init.
  - cbn. unfold MAX_CGROUPS. lia.
Defined.

(** X27: the lists of the decision record.  After a tick from a
    reachable state [runnable_tasks] (the tasks that are Runnable or
    Running) and [blocked_tasks] together have one entry for every
    registered task, and the task of every busy CPU is listed in
    [runnable_tasks]. *)
Theorem scheduler_tick_meta_lists s vtime :
  reachable s ->
  let tick := fst (scheduler_tick s vtime) in
  let s' := snd (scheduler_tick s vtime) in
  (length (runnable_tasks (meta tick)) + length (blocked_tasks (meta tick))
   = length (all_tasks s'))%nat
  /\ forall c p, cpu_queues s' !! c = Some (Some p) ->
       task_id (deref (task_mem s') p) ∈ runnable_tasks (meta tick).
Proof.
  intros Hr. cbv zeta.
  pose proof (reachable_tick s vtime Hr) as Hr'.
  pose proof (reachable_sched_inv _ Hr') as Hinv.
  pose proof (reachable_slot_inv _ Hr') as H.
  change (meta (fst (scheduler_tick s vtime)))
    with (fill_meta (snd (scheduler_tick s vtime))).
  split.
  - apply fill_meta_partition. apply (inv_live _ Hinv).
  - intros c p Hc. destruct (slot_task _ H c p Hc) as (H1 & _ & _ & H4).
    now apply fill_meta_runnable.
Qed.

Lemma scheduler_tick_meta_lists_witness :
  let tick := fst (scheduler_tick sched_four 6) in
  let s' := snd (scheduler_tick sched_four 6) in
  (length (runnable_tasks (meta tick)) + length (blocked_tasks (meta tick))
   = length (all_tasks s'))%nat
  /\ forall c p, cpu_queues s' !! c = Some (Some p) ->
       task_id (deref (task_mem s') p) ∈ runnable_tasks (meta tick).
Proof.
  cbv zeta. apply (scheduler_tick_meta_lists sched_four 6).
  apply reachable_run_frames, reachable_init.
Defined.

(** * The CPU slots (scheduler.c) *)

(** X16: in every reachable state the current task of a CPU is a
    registered task with a live record, its [current_cpu] is that CPU, it
    is outside the runnable heap and it is Running or Runnable; no task
    is the current task of two CPUs. *)
Theorem reachable_cpu_slot_task s c p :
  reachable s -> cpu_queues s !! c = Some (Some p) ->
  p ∈ all_tasks s
  /\ is_Some (task_mem s !! p)
  /\ current_cpu (deref (task_mem s) p) = Z.of_nat c
  /\ (p ∉ runnable_heap s)
  /\ (state (deref (task_mem s) p) = TASK_STATE_RUNNING
      \/ state (deref (task_mem s) p) = TASK_STATE_RUNNABLE)
  /\ forall c', cpu_queues s !! c' = Some (Some p) -> c' = c.
Proof.
  intros Hr Hc.
  pose proof (reachable_slot_inv s Hr) as H.
  pose proof (reachable_sched_inv s Hr) as Hinv.
  destruct (slot_task s H c p Hc) as (H1 & H2 & H3 & H4).
  split; [assumption|]. split; [now apply (inv_stored s Hinv)|].
  split; [assumption|]. split; [assumption|]. split; [assumption|].
  intros c' Hc'. destruct (slot_task s H c' p Hc') as (_ & H2' & _). lia.
Qed.

Lemma reachable_cpu_slot_task_witness :
  1%nat ∈ all_tasks sched_swapped
  /\ is_Some (task_mem sched_swapped !! 1%nat)
  /\ current_cpu (deref (task_mem sched_swapped) 1%nat) = Z.of_nat 1
  /\ (1%nat ∉ runnable_heap sched_swapped)
  /\ (state (deref (task_mem sched_swapped) 1%nat) = TASK_STATE_RUNNING
      \/ state (deref (task_mem sched_swapped) 1%nat) = TASK_STATE_RUNNABLE)
  /\ forall c', cpu_queues sched_swapped !! c' = Some (Some 1%nat) ->
                c' = 1%nat.
Proof.
  apply (reachable_cpu_slot_task sched_swapped 1%nat 1%nat).
  - apply reachable_run_frames, reachable_init.
  - vm_compute. reflexivity.
Defined.

(** X17: in every reachable state [current_cpu] of a registered task is
    -1 or the index of a CPU of the scheduler, and then the slot of that
    CPU holds the task: the write to [cpu_queues[task->current_cpu]] of
    TaskBlock stays inside the array. *)
Theorem reachable_current_cpu_valid s p :
  reachable s -> p ∈ all_tasks s ->
  current_cpu (deref (task_mem s) p) = -1
  \/ (0 <= current_cpu (deref (task_mem s) p) < Z.of_nat (cpu_count s)
      /\ cpu_queues s !! Z.to_nat (current_cpu (deref (task_mem s) p))
         = Some (Some p)).
Proof.
  intros Hr Hreg.
  destruct (task_slot s (reachable_slot_inv s Hr) p Hreg)
    as [H|(c & H1 & H2)]; [now left|right].
  rewrite H1, Nat2Z.id. split; [|assumption].
  apply lookup_lt_Some in H2. unfold cpu_count. lia.
Qed.

Lemma reachable_current_cpu_valid_witness :
  current_cpu (deref (task_mem sched_swapped) 2%nat) = -1
  \/ (0 <= current_cpu (deref (task_mem sched_swapped) 2%nat)
        < Z.of_nat (cpu_count sched_swapped)
      /\ cpu_queues sched_swapped
           !! Z.to_nat (current_cpu (deref (task_mem sched_swapped) 2%nat))
         = Some (Some 2%nat)).
Proof.
  apply (reachable_current_cpu_valid sched_swapped 2%nat).
  - apply reachable_run_frames, reachable_init.
  - apply existsb_eqb_elem. vm_compute. reflexivity.
Defined.

(** X18: where a task is, by its state.  In every reachable state the
    runnable heap holds exactly the registered tasks that are Runnable
    and are not the current task of a CPU; a Running task is the current
    task of a CPU; a Blocked task is in no CPU slot and not in the heap,
    with [current_cpu] -1. *)
Theorem reachable_task_places s p :
  reachable s ->
  (p ∈ runnable_heap s
   <-> p ∈ all_tasks s
       /\ state (deref (task_mem s) p) = TASK_STATE_RUNNABLE
       /\ ~ on_cpu s p)
  /\ (p ∈ all_tasks s ->
      state (deref (task_mem s) p) = TASK_STATE_RUNNING -> on_cpu s p)
  /\ (p ∈ all_tasks s ->
      state (deref (task_mem s) p) = TASK_STATE_BLOCKED ->
      ~ on_cpu s p
      /\ (p ∉ runnable_heap s)
      /\ current_cpu (deref (task_mem s) p) = -1).
Proof.
  intros Hr.
  pose proof (reachable_slot_inv s Hr) as H.
  pose proof (reachable_sched_inv s Hr) as Hinv.
  split; [split|split].
  - intros Hp. destruct (inv_queued s Hinv p Hp) as [H1 H2].
    split; [assumption|]. split; [assumption|].
    intros [c Hc]. now apply (slot_task s H) in Hc as (_ & _ & Hc & _).
  - intros (H1 & H2 & H3).
    destruct (runnable_place s H p H1 H2); [assumption|contradiction].
  - apply (running_slot s H).
  - intros Hreg Hb. destruct (blocked_off_cpu s p H Hreg Hb) as [H1 H2].
    split; [assumption|]. split; [|assumption].
    intros Hp. destruct (inv_queued s Hinv p Hp) as [_ Hst]. congruence.
Qed.

Lemma reachable_task_places_witness :
  (1%nat ∈ runnable_heap sched_sleeper
   <-> 1%nat ∈ all_tasks sched_sleeper
       /\ state (deref (task_mem sched_sleeper) 1%nat) = TASK_STATE_RUNNABLE
       /\ ~ on_cpu sched_sleeper 1%nat)
  /\ (1%nat ∈ all_tasks sched_sleeper ->
      state (deref (task_mem sched_sleeper) 1%nat) = TASK_STATE_RUNNING ->
      on_cpu sched_sleeper 1%nat)
  /\ (1%nat ∈ all_tasks sched_sleeper ->
      state (deref (task_mem sched_sleeper) 1%nat) = TASK_STATE_BLOCKED ->
      ~ on_cpu sched_sleeper 1%nat
      /\ (1%nat ∉ runnable_heap sched_sleeper)
      /\ current_cpu (deref (task_mem sched_sleeper) 1%nat) = -1).
Proof.
  apply (reachable_task_places sched_sleeper 1%nat).
  apply reachable_run_frames, reachable_init.
Defined.

(** * The task events (scheduler.c, [scheduler_process_event]) *)

(** X19: a TaskCreate event in a reachable state gives the new record
    (at the fresh address [next_task]) the state Runnable, no CPU and the
    vruntime [get_max_vruntime], which is not NaN and not negative: no
    Runnable or Running task of the registry has a greater vruntime than
    the newcomer, and every existing record keeps its fields
    ([heap_index] apart).  While the registry has room the record is
    appended to it and enters the runnable heap. *)
Theorem task_create_vruntime s e :
  reachable s -> ev_action e = EVENT_TASK_CREATE ->
  let p := next_task s in
  let s' := snd (scheduler_process_event s e) in
  state (deref (task_mem s') p) = TASK_STATE_RUNNABLE
  /\ current_cpu (deref (task_mem s') p) = -1
  /\ vruntime (deref (task_mem s') p) = get_max_vruntime s
  /\ not_nan (vruntime (deref (task_mem s') p)) = true
  /\ dlt (vruntime (deref (task_mem s') p)) 0 = false
  /\ (forall q, q ∈ all_tasks s ->
        strip (deref (task_mem s') q) = strip (deref (task_mem s) q)
        /\ (is_runnable (deref (task_mem s) q)
            || is_running (deref (task_mem s) q) = true ->
            dgt (vruntime (deref (task_mem s') q))
                (vruntime (deref (task_mem s') p)) = false))
  /\ ((length (all_tasks s) < MAX_TASKS)%nat ->
      all_tasks s' = all_tasks s ++ [p]
      /\ p ∈ runnable_heap s'
      /\ ~ on_cpu s' p).
Proof.
  intros Hr Ha. cbv zeta. unfold scheduler_process_event. rewrite Ha.
  pose proof (reachable_alloc_wf s Hr) as Hal.
  destruct (do_task_create_effect s e Hal) as (H1 & H2 & H3 & H4 & H5 & H6).
  cbv zeta in *.
  destruct (get_max_vruntime_bound s) as (Hnn & Hpos & _).
  split; [assumption|]. split; [assumption|]. split; [assumption|].
  split; [now rewrite H2|]. split; [now rewrite H2|].
  split.
  - intros q Hq.
    assert (Hne : q <> next_task s).
    { apply (wf_registry _ Hal) in Hq. lia. }
    split; [now apply H1|]. intros Hact.
    rewrite H2, (strip_vruntime _ _ (H1 q Hne)).
    now apply get_max_vruntime_bound.
  - intros Hroom. destruct (H6 Hroom) as [E1 E2].
    split; [assumption|]. split.
    + rewrite E2. now apply elem_of_cons; left.
    + intros [c Hc]. rewrite H5 in Hc.
      apply (slot_task s (reachable_slot_inv s Hr)) in Hc as (Hc & _).
      apply (wf_registry _ Hal) in Hc. lia.
Qed.

Lemma task_create_vruntime_witness :
  let e := task_create_event "E" "" 0 in
  let p := next_task sched_four in
  let s' := snd (scheduler_process_event sched_four e) in
  state (deref (task_mem s') p) = TASK_STATE_RUNNABLE
  /\ current_cpu (deref (task_mem s') p) = -1
  /\ vruntime (deref (task_mem s') p) = get_max_vruntime sched_four
  /\ not_nan (vruntime (deref (task_mem s') p)) = true
  /\ dlt (vruntime (deref (task_mem s') p)) 0 = false
  /\ (forall q, q ∈ all_tasks sched_four ->
        strip (deref (task_mem s') q)
        = strip (deref (task_mem sched_four) q)
        /\ (is_runnable (deref (task_mem sched_four) q)
            || is_running (deref (task_mem sched_four) q) = true ->
            dgt (vruntime (deref (task_mem s') q))
                (vruntime (deref (task_mem s') p)) = false))
  /\ ((length (all_tasks sched_four) < MAX_TASKS)%nat ->
      all_tasks s' = all_tasks sched_four ++ [p]
      /\ p ∈ runnable_heap s'
      /\ ~ on_cpu s' p).
Proof.
  cbv zeta.
  apply (task_create_vruntime sched_four (task_create_event "E" "" 0)).
  - apply reachable_run_frames, reachable_init.
  - reflexivity.
Defined.

(** X20: a TaskBlock event that names a registered task, in a reachable
    state: afterwards the task is Blocked, it is in no CPU slot and not
    in the runnable heap, its [current_cpu] is -1, no vruntime changed
    and the other records keep their fields ([heap_index] apart); the
    next tick, whatever its time, puts the task on no CPU. *)
Theorem task_block_effect s e p :
  reachable s -> ev_action e = EVENT_TASK_BLOCK ->
  scheduler_find_task s (ev_task_id e) = Some p ->
  let s' := snd (scheduler_process_event s e) in
  state (deref (task_mem s') p) = TASK_STATE_BLOCKED
  /\ current_cpu (deref (task_mem s') p) = -1
  /\ (p ∉ runnable_heap s')
  /\ ~ on_cpu s' p
  /\ vruntime <$> task_mem s' = vruntime <$> task_mem s
  /\ (forall q, q <> p ->
        strip (deref (task_mem s') q) = strip (deref (task_mem s) q))
  /\ forall vtime c,
       cpu_queues (snd (scheduler_tick s' vtime)) !! c <> Some (Some p).
Proof.
  intros Hr Ha Hfind. cbv zeta.
  pose proof (reachable_event s e Hr) as Hr'.
  pose proof (reachable_slot_inv _ Hr') as H'.
  pose proof (reachable_sched_inv _ Hr') as Hinv'.
  revert Hr' H' Hinv'. unfold scheduler_process_event. rewrite Ha.
  intros Hr' H' Hinv'.
  destruct (do_task_block_effect s e p (reachable_sched_inv s Hr) Hfind)
    as (H1 & H2 & H3 & H4).
  cbv zeta in *.
  assert (Hreg : p ∈ all_tasks (snd (do_task_block s e))).
  { rewrite H2. now apply scheduler_find_task_elem in Hfind as [? _]. }
  destruct (blocked_off_cpu _ p H' Hreg H1) as [H5 H6].
  split; [assumption|]. split; [assumption|]. split.
  { intros Hp. destruct (inv_queued _ Hinv' p Hp) as [_ Hst]. congruence. }
  split; [assumption|]. split; [assumption|]. split; [assumption|].
  intros vtime c. apply scheduler_tick_skips; rewrite H1; discriminate.
Qed.

Lemma task_block_effect_witness :
  let e := event_on_task EVENT_TASK_BLOCK "C" in
  let s' := snd (scheduler_process_event sched_four e) in
  state (deref (task_mem s') 3%nat) = TASK_STATE_BLOCKED
  /\ current_cpu (deref (task_mem s') 3%nat) = -1
  /\ (3%nat ∉ runnable_heap s')
  /\ ~ on_cpu s' 3%nat
  /\ vruntime <$> task_mem s' = vruntime <$> task_mem sched_four
  /\ (forall q, q <> 3%nat ->
        strip (deref (task_mem s') q)
        = strip (deref (task_mem sched_four) q))
  /\ forall vtime c,
       cpu_queues (snd (scheduler_tick s' vtime)) !! c <> Some (Some 3%nat).
Proof.
  cbv zeta.
  apply (task_block_effect sched_four (event_on_task EVENT_TASK_BLOCK "C")
           3%nat).
  - apply reachable_run_frames, reachable_init.
  - reflexivity.
  - vm_compute. reflexivity.
Defined.

(** X21: a TaskExit event that names a registered task, in a reachable
    state: afterwards the record is freed and no pointer to it is left,
    neither in the registry, nor in the runnable heap, nor in a CPU slot;
    the registry holds exactly the other tasks, whose records keep their
    fields ([heap_index] apart). *)
Theorem task_exit_effect s e p :
  reachable s -> ev_action e = EVENT_TASK_EXIT ->
  scheduler_find_task s (ev_task_id e) = Some p ->
  let s' := snd (scheduler_process_event s e) in
  task_mem s' !! p = None
  /\ (p ∉ all_tasks s')
  /\ (p ∉ runnable_heap s')
  /\ ~ on_cpu s' p
  /\ p :: all_tasks s' ≡ₚ all_tasks s
  /\ (forall q, q <> p ->
        strip (deref (task_mem s') q) = strip (deref (task_mem s) q)).
Proof.
  intros Hr Ha Hfind. cbv zeta.
  pose proof (reachable_event s e Hr) as Hr'.
  pose proof (reachable_slot_inv _ Hr') as H'.
  pose proof (reachable_sched_inv _ Hr') as Hinv'.
  revert Hr' H' Hinv'. unfold scheduler_process_event. rewrite Ha.
  intros Hr' H' Hinv'.
  destruct (do_task_exit_effect s e p (reachable_alloc_wf s Hr)
              (reachable_sched_inv s Hr) Hfind) as (H1 & H2 & H3 & H4).
  cbv zeta in *.
  split; [assumption|]. split; [assumption|]. split.
  { intros Hp. now apply (inv_queued _ Hinv') in Hp as [Hp _]. }
  split; [|split; assumption].
  intros [c Hc]. now apply (slot_task _ H') in Hc as (Hc & _).
Qed.

Lemma task_exit_effect_witness :
  let e := event_on_task EVENT_TASK_EXIT "C" in
  let s' := snd (scheduler_process_event sched_four e) in
  task_mem s' !! 3%nat = None
  /\ (3%nat ∉ all_tasks s')
  /\ (3%nat ∉ runnable_heap s')
  /\ ~ on_cpu s' 3%nat
  /\ 3%nat :: all_tasks s' ≡ₚ all_tasks sched_four
  /\ (forall q, q <> 3%nat ->
        strip (deref (task_mem s') q)
        = strip (deref (task_mem sched_four) q)).
Proof.
  cbv zeta.
  apply (task_exit_effect sched_four (event_on_task EVENT_TASK_EXIT "C")
           3%nat).
  - apply reachable_run_frames, reachable_init.
  - reflexivity.
  - vm_compute. reflexivity.
Defined.

(** X22: a TaskUnblock event that names a registered task, in a
    reachable state: a task that is not Blocked is left alone and nothing
    changes; a Blocked task becomes Runnable and enters the runnable
    heap, it is on no CPU, and the other records keep their fields
    ([heap_index] apart). *)
Theorem task_unblock_effect s e p :
  reachable s -> ev_action e = EVENT_TASK_UNBLOCK ->
  scheduler_find_task s (ev_task_id e) = Some p ->
  let s' := snd (scheduler_process_event s e) in
  (state (deref (task_mem s) p) <> TASK_STATE_BLOCKED -> s' = s)
  /\ (state (deref (task_mem s) p) = TASK_STATE_BLOCKED ->
      state (deref (task_mem s') p) = TASK_STATE_RUNNABLE
      /\ p ∈ runnable_heap s'
      /\ runnable_heap s' ≡ₚ p :: runnable_heap s
      /\ ~ on_cpu s' p
      /\ current_cpu (deref (task_mem s') p) = -1
      /\ (forall q, q <> p ->
            strip (deref (task_mem s') q) = strip (deref (task_mem s) q))).
Proof.
  intros Hr Ha Hfind. cbv zeta.
  pose proof (reachable_event s e Hr) as Hr'.
  pose proof (reachable_slot_inv _ Hr') as H'.
  revert Hr' H'. unfold scheduler_process_event. rewrite Ha.
  intros Hr' H'. split.
  - intros Hst. unfold do_task_unblock, on_task. rewrite Hfind. cbn [snd].
    destruct (is_blocked _) eqn:E; [|reflexivity].
    now apply TaskState_eqb_eq in E.
  - intros Hst.
    destruct (do_task_unblock_effect s e p (reachable_sched_inv s Hr)
                Hfind Hst) as (H1 & H2 & H3 & H4 & H5).
    cbv zeta in *.
    assert (Hin : p ∈ runnable_heap (snd (do_task_unblock s e))).
    { rewrite H2. now apply elem_of_cons; left. }
    assert (Hoff : ~ on_cpu (snd (do_task_unblock s e)) p).
    { intros [c Hc]. now apply (slot_task _ H') in Hc as (_ & _ & Hc & _). }
    split; [assumption|]. split; [assumption|]. split; [assumption|].
    split; [assumption|]. split; [|assumption].
    assert (Hreg : p ∈ all_tasks (snd (do_task_unblock s e))).
    { rewrite H4. now apply scheduler_find_task_elem in Hfind as [? _]. }
    destruct (task_slot _ H' p Hreg) as [Hc|(c & _ & Hc)]; [assumption|].
    exfalso. apply Hoff. now exists c.
Qed.

Lemma task_unblock_effect_witness :
  let e := event_on_task EVENT_TASK_UNBLOCK "T" in
  let s' := snd (scheduler_process_event sched_sleeper e) in
  (state (deref (task_mem sched_sleeper) 1%nat) <> TASK_STATE_BLOCKED ->
   s' = sched_sleeper)
  /\ (state (deref (task_mem sched_sleeper) 1%nat) = TASK_STATE_BLOCKED ->
      state (deref (task_mem s') 1%nat) = TASK_STATE_RUNNABLE
      /\ 1%nat ∈ runnable_heap s'
      /\ runnable_heap s' ≡ₚ 1%nat :: runnable_heap sched_sleeper
      /\ ~ on_cpu s' 1%nat
      /\ current_cpu (deref (task_mem s') 1%nat) = -1
      /\ (forall q, q <> 1%nat ->
            strip (deref (task_mem s') q)
            = strip (deref (task_mem sched_sleeper) q))).
Proof.
  cbv zeta.
  apply (task_unblock_effect sched_sleeper
           (event_on_task EVENT_TASK_UNBLOCK "T") 1%nat).
  - apply reachable_run_frames, reachable_init.
  - reflexivity.
  - vm_compute. reflexivity.
Defined.

(** X23: a TaskYield event that names a registered task, in a reachable
    state: the task gets the vruntime [get_max_vruntime], so that
    afterwards no Runnable or Running task has a greater vruntime than
    the task that yielded; states, CPU slots and the members of the heap
    are unchanged, and a heap that was in heap order without NaN is in
    heap order again. *)
Theorem task_yield_effect s e p :
  reachable s -> ev_action e = EVENT_TASK_YIELD ->
  scheduler_find_task s (ev_task_id e) = Some p ->
  let s' := snd (scheduler_process_event s e) in
  vruntime (deref (task_mem s') p) = get_max_vruntime s
  /\ (forall q, q ∈ all_tasks s' ->
        is_runnable (deref (task_mem s') q)
        || is_running (deref (task_mem s') q) = true ->
        dgt (vruntime (deref (task_mem s') q))
            (vruntime (deref (task_mem s') p)) = false)
  /\ slot_view <$> task_mem s' = slot_view <$> task_mem s
  /\ cpu_queues s' = cpu_queues s
  /\ runnable_heap s' ≡ₚ runnable_heap s
  /\ (heap_ordered (runnable_heap s) (task_mem s) ->
      keys_not_nan (runnable_heap s) (task_mem s) ->
      heap_ordered (runnable_heap s') (task_mem s')).
Proof.
  intros Hr Ha Hfind. cbv zeta. unfold scheduler_process_event. rewrite Ha.
  destruct (do_task_yield_effect s e p (reachable_sched_inv s Hr) Hfind)
    as (H1 & H2 & H3 & H4 & H5 & H6 & H7).
  cbv zeta in *.
  split; [assumption|]. split; [|auto].
  intros q Hq Hact. rewrite H1.
  destruct (decide (q = p)) as [->|Hne].
  - rewrite H1. apply dlt_irrefl.
  - pose proof (H2 q Hne) as E.
    rewrite (strip_vruntime _ _ E).
    apply get_max_vruntime_bound; [now rewrite <- H5|].
    unfold is_runnable, is_running in *.
    now rewrite <- (f_equal state E : state (deref _ q) = state (deref _ q)).
Qed.

Lemma task_yield_effect_witness :
  let e := event_on_task EVENT_TASK_YIELD "A" in
  let s' := snd (scheduler_process_event sched_four e) in
  vruntime (deref (task_mem s') 1%nat) = get_max_vruntime sched_four
  /\ (forall q, q ∈ all_tasks s' ->
        is_runnable (deref (task_mem s') q)
        || is_running (deref (task_mem s') q) = true ->
        dgt (vruntime (deref (task_mem s') q))
            (vruntime (deref (task_mem s') 1%nat)) = false)
  /\ slot_view <$> task_mem s' = slot_view <$> task_mem sched_four
  /\ cpu_queues s' = cpu_queues sched_four
  /\ runnable_heap s' ≡ₚ runnable_heap sched_four
  /\ (heap_ordered (runnable_heap sched_four) (task_mem sched_four) ->
      keys_not_nan (runnable_heap sched_four) (task_mem sched_four) ->
      heap_ordered (runnable_heap s') (task_mem s')).
Proof.
  cbv zeta.
  apply (task_yield_effect sched_four (event_on_task EVENT_TASK_YIELD "A")
           1%nat).
  - apply reachable_run_frames, reachable_init.
  - reflexivity.
  - vm_compute. reflexivity.
Defined.

(** X24: the countdown of a CPU burst.  Across a tick from a reachable
    state the burst of a registered task counts down only if the task was
    Running with the burst flag set and a positive [burst_remaining]: the
    counter drops by one and the flag is cleared when it reaches 0.  In
    every other case both fields are unchanged, so a burst of duration 0
    or less never ends, and a burst does not count down while the task
    waits. *)
Theorem scheduler_tick_burst_countdown s vtime p :
  reachable s -> p ∈ all_tasks s ->
  let t := deref (task_mem s) p in
  let t' := deref (task_mem (snd (scheduler_tick s vtime))) p in
  let counts := is_running t && is_burst t && (burst_remaining t >? 0) in
  burst_remaining t'
  = (if counts then burst_remaining t - 1 else burst_remaining t)
  /\ is_burst t'
     = (if counts then negb (burst_remaining t - 1 =? 0) else is_burst t).
Proof.
  intros Hr Hreg. apply scheduler_tick_burst_fields; try assumption.
  - now apply reachable_sched_inv.
  - now apply reachable_slot_inv.
Qed.

Lemma scheduler_tick_burst_countdown_witness :
  let t := deref (task_mem sched_burst) 1%nat in
  let t' := deref (task_mem (snd (scheduler_tick sched_burst 1))) 1%nat in
  let counts := is_running t && is_burst t && (burst_remaining t >? 0) in
  burst_remaining t'
  = (if counts then burst_remaining t - 1 else burst_remaining t)
  /\ is_burst t'
     = (if counts then negb (burst_remaining t - 1 =? 0) else is_burst t).
Proof.
  cbv zeta. apply (scheduler_tick_burst_countdown sched_burst 1 1%nat).
  - apply reachable_process_events, reachable_run_frames, reachable_init.
  - apply existsb_eqb_elem. vm_compute. reflexivity.
Defined.

(** X25: a CgroupDelete event that names a registered cgroup, in a
    reachable state: the first record of the registry with that
    identifier is removed and the others stay; every registered task of
    that cgroup is moved to the cgroup "0" and every other task record is
    unchanged; the registry of tasks, the heap and the CPU slots are as
    before. *)
Theorem cgroup_delete_effect s e k c :
  reachable s -> ev_action e = EVENT_CGROUP_DELETE ->
  scheduler_find_cgroup s (ev_cgroup_id e) = Some (k, c) ->
  let s' := snd (scheduler_process_event s e) in
  cg_id c = ev_cgroup_id e
  /\ c :: cgroups s' ≡ₚ cgroups s
  /\ (forall p, p ∈ all_tasks s ->
        deref (task_mem s') p
        = if String.eqb (cgroup_id (deref (task_mem s) p)) (ev_cgroup_id e)
          then set_cgroup_id "0" (deref (task_mem s) p)
          else deref (task_mem s) p)
  /\ all_tasks s' = all_tasks s
  /\ runnable_heap s' = runnable_heap s
  /\ cpu_queues s' = cpu_queues s.
Proof.
  intros Hr Ha Hfind. cbv zeta. unfold scheduler_process_event. rewrite Ha.
  apply (do_cgroup_delete_effect s e k c); [|assumption].
  now apply reachable_sched_inv.
Qed.

Lemma cgroup_delete_effect_witness :
  let e := cgroup_delete_event "Q" in
  let c := mkCgroup "Q" 1024 100000 100000 [] 0%float 0 in
  let s' := snd (scheduler_process_event sched_burst e) in
  cg_id c = ev_cgroup_id e
  /\ c :: cgroups s' ≡ₚ cgroups sched_burst
  /\ (forall p, p ∈ all_tasks sched_burst ->
        deref (task_mem s') p
        = if String.eqb (cgroup_id (deref (task_mem sched_burst) p))
                        (ev_cgroup_id e)
          then set_cgroup_id "0" (deref (task_mem sched_burst) p)
          else deref (task_mem sched_burst) p)
  /\ all_tasks s' = all_tasks sched_burst
  /\ runnable_heap s' = runnable_heap sched_burst
  /\ cpu_queues s' = cpu_queues sched_burst.
Proof.
  cbv zeta.
  apply (cgroup_delete_effect sched_burst (cgroup_delete_event "Q") 0%nat
           (mkCgroup "Q" 1024 100000 100000 [] 0%float 0)).
  - apply reachable_process_events, reachable_run_frames, reachable_init.
  - reflexivity.
  - vm_compute. reflexivity.
Defined.

(** * The weights, the names of the actions and the framing *)

(** X28: the names of the actions.  [json_parse_action] inverts
    [json_action_to_string] on every action, the invalid one included
    ("UNKNOWN" is no name of an action), the NULL string is invalid, and
    a string that [json_parse_action] accepts is the name that
    [json_action_to_string] gives to its action: the twelve names are
    recognised exactly, with their case. *)
Theorem json_action_round_trip :
  (forall a, json_parse_action (Some (json_action_to_string a)) = a)
  /\ json_parse_action None = EVENT_INVALID
  /\ (forall str,
        json_parse_action (Some str) <> EVENT_INVALID ->
        json_action_to_string (json_parse_action (Some str)) = str).
Proof.
  split; [apply json_action_to_string_parse|].
  split; [reflexivity|apply json_parse_action_to_string].
Qed.

(** X29: a greater nice value never gives a greater weight:
    [nice_to_weight] is antitone over all integers (values outside
    [-20, 19] are clamped), it is 1024 at nice 0 and it stays within
    [15, 88761], so it is never 0 where [calc_vruntime_delta] divides by
    it. *)
Theorem nice_to_weight_antitone_bounded a b :
  a <= b ->
  nice_to_weight b <= nice_to_weight a
  /\ 15 <= nice_to_weight a <= 88761
  /\ nice_to_weight 0 = NICE_0_WEIGHT.
Proof.
  intros H. split; [now apply nice_to_weight_antitone|].
  split; [apply nice_to_weight_range|reflexivity].
Qed.

Lemma nice_to_weight_antitone_bounded_witness :
  nice_to_weight 3 <= nice_to_weight (-5)
  /\ 15 <= nice_to_weight (-5) <= 88761
  /\ nice_to_weight 0 = NICE_0_WEIGHT.
Proof. apply (nice_to_weight_antitone_bounded (-5) 3). lia. Defined.

(** X30: the framing of [uds_receive_message] and of
    [uds_send_message].  Whatever the input, a message that is returned
    is the string of the bytes read (it ends before their first NUL
    byte), and the bytes read followed by the bytes left unread are the
    input.  When the input starts with bytes that are no quote, brace or
    backslash (the newline that ends the previous message, say), then an
    opening brace, a balanced text and the closing brace, all within the
    size limit, the bytes read end at that closing brace and the bytes
    behind it are left unread; [uds_send_message] sends the bytes of its
    message before the first NUL and a newline, so that an object
    without NUL is received as it was sent and its newline stays in the
    stream; when the peer closes the connection before the closing brace
    the string of the bytes received is returned; and when it closes
    after leading bytes alone, no message is returned. *)
Theorem uds_receive_message_frames pre v rest :
  forallb plain_byte pre = true -> balanced v ->
  Z.of_nat (length (pre ++ open_brace :: v ++ [close_brace]))
  < MAX_MESSAGE_SIZE ->
  (forall input msg unread,
     uds_receive_message input = (Some msg, unread) ->
     nul_free msg = true
     /\ exists buffer, buffer ++ unread = input /\ msg = c_string buffer)
  /\ uds_receive_message ((pre ++ open_brace :: v ++ [close_brace]) ++ rest)
     = (Some (c_string (pre ++ open_brace :: v ++ [close_brace])), rest)
  /\ (forall w junk,
        nul_free w = true ->
        uds_send_message w = w ++ ["010"%char]
        /\ uds_send_message (w ++ Ascii.zero :: junk) = w ++ ["010"%char])
  /\ (nul_free v = true ->
      uds_receive_message
        (uds_send_message (open_brace :: v ++ [close_brace]) ++ rest)
      = (Some (open_brace :: v ++ [close_brace]), "010"%char :: rest))
  /\ uds_receive_message (pre ++ open_brace :: v)
     = (Some (c_string (pre ++ open_brace :: v)), [])
  /\ uds_receive_message pre = (None, []).
Proof.
  intros Hpre Hv Hlt.
  assert (Hlen : Z.of_nat (length (pre ++ open_brace :: v ++ [close_brace]))
                 = Z.of_nat (length (pre ++ open_brace :: v)) + 1).
  { rewrite !length_app. cbn [length]. rewrite length_app. cbn [length]. lia. }
  split; [|split; [|split; [|split; [|split]]]].
  - intros input msg unread H. unfold uds_receive_message in H.
    destruct (receive_loop input framing_init) as [[buffer|] unread'] eqn:E;
      cbn [option_map] in H; [|discriminate].
    injection H as <- <-. split; [apply c_string_nul_free_result|].
    exists buffer. split; [|reflexivity].
    now apply receive_loop_conserves in E.
  - unfold uds_receive_message.
    now rewrite receive_loop_complete.
  - intros w junk Hw. unfold uds_send_message.
    now rewrite c_string_nul_free, c_string_cut.
  - intros Hnul.
    assert (Hobj : nul_free (open_brace :: v ++ [close_brace]) = true).
    { unfold nul_free in *. cbn [forallb]. rewrite forallb_app, Hnul.
      reflexivity. }
    assert (E : receive_loop
                  (([] ++ open_brace :: v ++ [close_brace])
                   ++ "010"%char :: rest) framing_init
                = (Some ([] ++ open_brace :: v ++ [close_brace]),
                   "010"%char :: rest)).
    { apply receive_loop_complete; [reflexivity|assumption|].
      rewrite length_app in Hlt. cbn [app length] in *. lia. }
    cbn [app] in E.
    unfold uds_send_message, uds_receive_message.
    rewrite (c_string_nul_free _ Hobj), <- app_assoc. cbn [app].
    rewrite E. cbn [option_map]. now rewrite (c_string_nul_free _ Hobj).
  - unfold uds_receive_message.
    rewrite receive_loop_truncated; [reflexivity|assumption..|lia].
  - unfold uds_receive_message.
    rewrite receive_loop_no_object; [reflexivity|assumption|].
    rewrite length_app in Hlen, Hlt. cbn [length] in *. lia.
Qed.

Lemma uds_receive_message_frames_witness :
  let pre := ["010"%char] in
  let v := [quote_char; "a"%char; quote_char; ":"%char; "1"%char] in
  let rest := ["010"%char; open_brace] in
  uds_receive_message ((pre ++ open_brace :: v ++ [close_brace]) ++ rest)
  = (Some (pre ++ open_brace :: v ++ [close_brace]), rest)
  /\ uds_receive_message
       (uds_send_message (open_brace :: v ++ [close_brace]) ++ rest)
     = (Some (open_brace :: v ++ [close_brace]), "010"%char :: rest)
  /\ uds_send_message
       ((open_brace :: v ++ [close_brace]) ++ Ascii.zero :: rest)
     = (open_brace :: v ++ [close_brace]) ++ ["010"%char]
  /\ uds_receive_message (pre ++ open_brace :: v)
     = (Some (pre ++ open_brace :: v), [])
  /\ uds_receive_message pre = (None, []).
Proof.
  cbv zeta.
  destruct (uds_receive_message_frames ["010"%char]
              [quote_char; "a"%char; quote_char; ":"%char; "1"%char]
              ["010"%char; open_brace])
    as (_ & H2 & H3 & H4 & H5 & H6).
  - reflexivity.
  - apply (balanced_string ["a"%char] [":"%char; "1"%char]);
      [reflexivity|].
    apply balanced_plain; [reflexivity|].
    apply balanced_plain; [reflexivity|]. apply balanced_nil.
  - vm_compute. reflexivity.
  - split; [exact H2|]. split; [apply H4; reflexivity|].
    split; [apply H3; reflexivity|]. split; [exact H5|exact H6].
Defined.

(** ** The quota gate and the period-wide bound *)






(** * TaskCreate with an identifier that is already registered *)

Lemma do_task_create_code s e : fst (do_task_create s e) = 0.
Proof. reflexivity. Qed.

Lemma do_task_create_full s e :
  (MAX_TASKS <= length (all_tasks s))%nat ->
  all_tasks (snd (do_task_create s e)) = all_tasks s
  /\ runnable_heap (snd (do_task_create s e)) = runnable_heap s.
Proof.
  intros Hfull. unfold do_task_create, alloc_task, scheduler_add_task.
  cbn [snd all_tasks with_alloc].
  destruct (Nat.leb_spec MAX_TASKS (length (all_tasks s))); [|lia].
  split; reflexivity.
Qed.

(** C5 (as amended): in a reachable scheduler, a TaskCreate event whose
    taskId already names a task of the registry is not rejected: the
    result code is 0.  While the registry has room, a new record with the
    same identifier, at a fresh address and in the state Runnable, is
    appended to the registry and enters the runnable heap, which gains
    this one element; the records that exist keep every field but their
    heap position, and a lookup of the identifier still returns the
    earlier record.  Only a full registry stays as it is, with the
    heap. *)
Theorem task_create_existing_id (s : Scheduler) (e : Event) (p : nat) :
  ev_action e = EVENT_TASK_CREATE ->
  scheduler_find_task s (ev_task_id e) = Some p ->
  reachable s ->
  let s' := snd (scheduler_process_event s e) in
  let n := next_task s in
  fst (scheduler_process_event s e) = 0
  /\ (n ∉ all_tasks s)
  /\ ((length (all_tasks s) < MAX_TASKS)%nat ->
      all_tasks s' = all_tasks s ++ [n]
      /\ task_id (deref (task_mem s') n) = ev_task_id e
      /\ state (deref (task_mem s') n) = TASK_STATE_RUNNABLE
      /\ runnable_heap s' ≡ₚ n :: runnable_heap s)
  /\ ((MAX_TASKS <= length (all_tasks s))%nat ->
      all_tasks s' = all_tasks s /\ runnable_heap s' = runnable_heap s)
  /\ (forall q t, task_mem s !! q = Some t ->
        exists t', task_mem s' !! q = Some t' /\ strip t' = strip t)
  /\ scheduler_find_task s' (ev_task_id e) = Some p.
Proof.
  intros Hact Hfind Hreach. cbv zeta.
  destruct (task_create_existing_registry s e p Hact Hfind Hreach)
    as (H1 & H2 & H3 & H4).
  cbv zeta in *.
  pose proof (reachable_alloc_wf s Hreach) as Hal.
  assert (E : scheduler_process_event s e = do_task_create s e).
  { unfold scheduler_process_event. now rewrite Hact. }
  destruct (do_task_create_effect s e Hal) as (_ & _ & Hst & _ & _ & Hroom).
  cbv zeta in *. rewrite E in *.
  split; [apply do_task_create_code|].
  split.
  { intros Hin. apply (wf_registry _ Hal) in Hin. lia. }
  split.
  { intros Hlt. destruct (H1 Hlt) as [Ha Hb].
    destruct (Hroom Hlt) as [_ Hh].
    split; [assumption|]. split; [assumption|]. split; assumption. }
  split; [now apply do_task_create_full|].
  split; assumption.
Qed.

Lemma task_create_existing_id_witness :
  let e := task_create_event "T1" "" 0 in
  let s' := snd (scheduler_process_event sched_with_T1 e) in
  fst (scheduler_process_event sched_with_T1 e) = 0
  /\ all_tasks s' = all_tasks sched_with_T1 ++ [next_task sched_with_T1]
  /\ runnable_heap s'
     ≡ₚ next_task sched_with_T1 :: runnable_heap sched_with_T1
  /\ scheduler_find_task s' (ev_task_id e) = Some 1%nat.
Proof.
  cbv zeta.
  destruct (task_create_existing_id sched_with_T1
              (task_create_event "T1" "" 0) 1%nat)
    as (H0 & _ & H1 & _ & _ & H4).
  - reflexivity.
  - vm_compute. reflexivity.
  - apply reachable_event, reachable_init.
  - destruct H1 as (Ha & _ & _ & Hh); [vm_compute; lia|].
    split; [exact H0|]. split; [exact Ha|]. split; [exact Hh|exact H4].
Defined.
(** * Result codes of the dispatcher *)

(** The cgroup identifier of the record that a TaskCreate event
    allocates. *)
Lemma do_task_create_cgroup_id s e :
  exists t',
    task_mem (snd (do_task_create s e)) !! next_task s = Some t'
    /\ task_id t' = ev_task_id e
    /\ cgroup_id t' = (if nonempty (ev_cgroup_id e) then ev_cgroup_id e
                       else "0").
Proof.
  unfold do_task_create, alloc_task. cbn [snd].
  match goal with |- context [scheduler_add_task ?s1 ?p] =>
    pose proof (scheduler_add_task_frame strip strip_index s1 p) as Hs;
    set (s' := snd (scheduler_add_task s1 p)) in *;
    assert (Hl : exists t, task_mem s1 !! p = Some t
              /\ task_id t = ev_task_id e
              /\ cgroup_id t = (if nonempty (ev_cgroup_id e)
                                then ev_cgroup_id e else "0"))
  end.
  { eexists. split; [apply lookup_insert_eq|].
    destruct (ev_has_cpu_mask e), (nonempty (ev_cgroup_id e)); cbn; auto. }
  destruct Hl as (t & Hl & Hi & Hc).
  symmetry in Hs.
  destruct (proj_lookup strip _ _ _ _ Hs Hl) as (t' & Ht' & Hst).
  exists t'. split; [exact Ht'|].
  assert (E1 : task_id t' = task_id t) by exact (f_equal task_id Hst).
  assert (E2 : cgroup_id t' = cgroup_id t) by exact (f_equal cgroup_id Hst).
  rewrite E1, E2. auto.
Qed.

Lemma do_task_move_cgroup_effect s e p t :
  scheduler_find_task s (ev_task_id e) = Some p ->
  task_mem s !! p = Some t ->
  do_task_move_cgroup s e
  = (0, with_task_mem
          (<[p := set_cgroup_id (ev_new_cgroup_id e) t]> (task_mem s)) s).
Proof.
  intros Hfind Hp. unfold do_task_move_cgroup, on_task. rewrite Hfind.
  f_equal. f_equal. unfold assign. apply map_eq. intros q.
  destruct (decide (p = q)) as [<-|Hne].
  - now rewrite lookup_alter_eq, lookup_insert_eq, Hp.
  - now rewrite lookup_alter_ne, lookup_insert_ne.
Qed.

(** C8 (as amended): [scheduler_process_event] returns a nonzero result
    exactly when the action of the event is unknown, and then leaves the
    scheduler as it was.  An event whose target is missing (the task that
    a task event other than TaskCreate names, or the cgroup that a
    CgroupModify or CgroupDelete event names) returns 0 and changes
    nothing.  The cgroup identifier that a TaskMoveCgroup or a TaskCreate
    event gives to a task is not looked up: whether or not a cgroup has
    it, the event returns 0, TaskMoveCgroup writes the identifier into
    the record of the task and nothing else, and TaskCreate allocates a
    record with the identifier (with "0" for the empty one).  Whatever
    the result codes of the events of a time frame, the tick that follows
    yields a decision record for the virtual time of the frame, with one
    entry per CPU. *)
Theorem process_event_failure_indicator (s : Scheduler) (e : Event) :
  (fst (scheduler_process_event s e) <> 0 <-> ev_action e = EVENT_INVALID)
  /\ (ev_action e = EVENT_INVALID -> snd (scheduler_process_event s e) = s)
  /\ (names_missing_referent s e = true ->
      scheduler_process_event s e = (0, s))
  /\ (forall p t,
        ev_action e = EVENT_TASK_MOVE_CGROUP ->
        scheduler_find_task s (ev_task_id e) = Some p ->
        task_mem s !! p = Some t ->
        scheduler_process_event s e
        = (0, with_task_mem
                (<[p := set_cgroup_id (ev_new_cgroup_id e) t]> (task_mem s))
                s))
  /\ (ev_action e = EVENT_TASK_CREATE ->
      fst (scheduler_process_event s e) = 0
      /\ exists t',
           task_mem (snd (scheduler_process_event s e)) !! next_task s
           = Some t'
           /\ task_id t' = ev_task_id e
           /\ cgroup_id t' = (if nonempty (ev_cgroup_id e)
                              then ev_cgroup_id e else "0"))
  /\ (forall tf,
      tick_vtime (fst (run_timeframe s tf)) = tf_vtime tf
      /\ length (schedule (fst (run_timeframe s tf))) = cpu_count s).
Proof.
  destruct (process_event_codes s e) as (H1 & H2 & H3 & H4).
  split; [exact H1|]. split; [exact H2|]. split; [exact H3|].
  split.
  { intros p t Hact Hfind Hp. unfold scheduler_process_event.
    rewrite Hact. now apply do_task_move_cgroup_effect. }
  split; [|exact H4].
  intros Hact. unfold scheduler_process_event. rewrite Hact.
  split; [reflexivity|]. apply do_task_create_cgroup_id.
Qed.

(** An unknown action leaves the scheduler as it is; TaskBlock of a task
    that does not exist returns 0 and changes nothing; TaskMoveCgroup to
    "ghost", which names no cgroup, returns 0 and writes "ghost" into the
    record of "T1". *)
Lemma process_event_failure_indicator_witness :
  snd (scheduler_process_event sched_with_T1
         (event_on_task EVENT_INVALID "T1")) = sched_with_T1
  /\ scheduler_process_event sched_with_T1
       (event_on_task EVENT_TASK_BLOCK "ghost") = (0, sched_with_T1)
  /\ scheduler_find_cgroup sched_with_T1 "ghost" = None
  /\ scheduler_process_event sched_with_T1 (move_cgroup_event "T1" "ghost")
     = (0, with_task_mem
             (<[1%nat := set_cgroup_id "ghost"
                           (deref (task_mem sched_with_T1) 1%nat)]>
                (task_mem sched_with_T1))
             sched_with_T1).
Proof.
  split; [|split; [|split]].
  - apply (proj1 (proj2 (process_event_failure_indicator sched_with_T1
                           (event_on_task EVENT_INVALID "T1")))).
    reflexivity.
  - apply (proj1 (proj2 (proj2 (process_event_failure_indicator
                           sched_with_T1
                           (event_on_task EVENT_TASK_BLOCK "ghost"))))).
    vm_compute. reflexivity.
  - reflexivity.
  - apply (proj1 (proj2 (proj2 (proj2 (process_event_failure_indicator
                           sched_with_T1
                           (move_cgroup_event "T1" "ghost")))))).
    + reflexivity.
    + vm_compute. reflexivity.
    + vm_compute. reflexivity.
Defined.
